(* ===== verification/_CoqProject ===== *)
-Q . S2P
Prelude.v
PacketState.v
Interfaces.v
Doubles.v
NodeId.v
Noise.v
Sign.v
Auth.v
Packets.v
Handshake.v
Messages.v
Channel.v
Faults.v
Session.v
Lib.v
Buffers.v
Pool.v
Connectors.v
PoolQueue.v
Exchange.v
Testing.v
TestsState.v
TestsKeys.v
TestsWire.v
TestsPool.v
