(* ===== verification/Prelude.v ===== *)
(** * snowpack: a verified model of the encrypted message transport

    snowpack is a Rust crate that gives the nodes of a cluster authenticated,
    encrypted message connections: a Noise XX handshake whose messages carry
    signed auth headers, framed packets on top of the resulting cipher,
    multi-packet messages on top of the packets, and a pool that keeps one
    connection per peer alive.  This library translates the crate function by
    function and proves what makes it correct.

    ** The parts and where they are modelled

    - [Prelude]: results ([outcome]: Ok, Err, Panic, and Pending for a future
      that is still running), a state monad whose state survives errors, as
      a [&mut self] method's receiver does, slices with their bounds panics,
      [chunks], machine integers as [Z] with explicit masks.
    - [PacketState] (src/packet_state.rs): the 16-bit packet header, the
      sender's [PacketBuilder] and the receiver's [PacketReader].
    - [Interfaces]: the crates snowpack calls and does not contain (tokio
      streams and [split], snow, ed25519-dalek, hex, yatlv, serde formats):
      one class of operations each, and classes of laws stating documented
      behaviour.  Streams have two: laws of a stream that works until it
      ends, and laws of one whose reads and writes may fail at any moment
      with any error.  Definitions use the operations; only theorems use laws.
    - [Doubles]: small executable instances of all of them with proofs of the
      laws, so that every theorem is instantiated on concrete data.
    - [NodeId] (src/node_id.rs), [Noise] (src/noise.rs and the key errors of
      src/lib.rs), [Sign] (src/sign.rs), [Auth] (src/auth.rs): identities,
      keys, signatures, auth headers, with parsing, printing and serde.
    - [Packets] (src/packets.rs): [read_frame], [PacketRx], [PacketTx].  The
      halves of a connection share a cipher behind a mutex, so an operation
      of a half works on the pair of the cipher state and the half.
    - [Handshake] (src/packets.rs): [HandshakeContext], [accept], [connect].
    - [Messages] (src/messages.rs): [MessageTx], [MessageRx], [Message],
      [MessagePackets].
    - [Channel]: the receiver on a stream that an attacker controls; [Faults]:
      the sender on a stream that fails at any byte; [Session]: the two ends
      of a connection running together, against the specification of a pair
      of FIFO queues.
    - [Lib] (src/lib.rs): the public [accept] and [connect].
    - [Buffers]: the sizes of all packet-layer buffers over any sequence of
      calls on a connection.
    - [Pool] (src/pool.rs): [PeerLink], [reconnect_task], [try_connect],
      [ConnectionPool], [Connection], [Guard], as atomic events between
      [await] points, over which executions are arbitrary interleavings.
    - [Connectors] (src/pool.rs): [TcpConnector] over tokio's [TcpStream] as a
      parameter, and [reconnect_task] as the loop it is, dialling through any
      [Connector].
    - [PoolQueue]: the parties of a link waiting for its lock, with tokio's
      fair mutex as a parameter and its documented order as a law;
      [Exchange]: request and response over a guard, the pool composed with
      the message transport.
    - [Testing], [TestsState], [TestsKeys], [TestsWire], [TestsPool]: the
      crate's unit tests ([mod tests] of each source file), translated and run
      on the model with the instances of [Doubles].

    ** What the theorems show

    - Whole stack: [Lib.session_end_to_end] composes everything: two honest
      nodes connect and exchange any messages in both directions, exactly.
    - Sessions: [Session.session_refines_queues] shows that any interleaving
      of sends and receives at the two ends refines two message queues.
    - Hostile network: [Channel.channel_integrity] shows that whatever bytes
      arrive, short of a forged ciphertext, a receiver gets a prefix of what
      was sent; [Faults.failed_send_delivery] accounts for every message when
      writes fail; [Buffers.connection_memory_bounded] bounds the memory that
      a peer can make the packet layer use.
    - Packets: the reader accepts exactly the packet grammar, builder and
      reader move in step, the header bits are the documented ones, reading
      never panics and is transactional on errors, whatever the stream does.
    - Transport: messages arrive whole and in order; streaming equals slicing
      on the sending side and collecting on the receiving side; aborted
      messages are reported and the connection stays usable, also when the
      source of a streamed message fails; oversized packets are refused
      before anything is written.
    - Handshake: a completed handshake is authenticated on both sides; honest
      nodes always complete; any peer input and any stream failure gives a
      result or an error; an initiator does not reveal its header to a peer
      it rejects; an attacker that presents a stolen header is rejected.
    - Identities: signing, verifying, parsing and printing round-trip;
      verification accepts exactly what is signed.
    - Pool: one link per node, never more than one reconnect task and
      exactly one while a link is down, exclusive guards, connections only to
      the authenticated target, no reuse after an uncommitted guard, no lost
      wakeup, exponential backoff, reconnection always possible by the task
      alone; every request for a link's lock is served; the reconnect loop
      connects when the network does, after a known time; a link over TCP
      reaches the configured address and the right node.  Executions contain
      dials that fail, streams that fail at any point, and connectors that
      panic: where the last matters, a parameter of [Pool.reachable] says
      whether they may.
    - Exchanges: [Exchange.exchange_commits_or_resets] shows that a
      request/response exchange leaves a clean connection or resets the link
      and never panics; [Exchange.pool_round_trip] that the response is the
      peer's.
    - Tests: the lemmas at the end of the four test files evaluate the
      crate's tests on the model, as a check of the definitions.
    - Defects: [Messages.send_reader_boundary_stall],
      [Messages.dropped_message_panics],
      [PacketState.abort_before_first_packet_rejected],
      [Pool.panicking_connector_strands_link],
      [PoolQueue.wait_connected_outlives_deadline] and
      [Auth.oversized_node_id_never_verifies] prove behaviour that the
      crate's documentation does not intend.

    ** Fuel

    Three loops have no structural measure.  [Packets.send_reader_loop] takes
    one unit per [read] call; a source of [n] bytes needs at most [n + 1].
    [Messages.read_bytes_loop] takes one unit per packet; a message of [n]
    packets needs at most [n], and on arbitrary input a unit per byte that
    is still to arrive is enough, since every packet takes at least its
    length prefix.  [Connectors.reconnect_task] takes two units per failed
    attempt and three for the one that succeeds.  The theorems state these
    bounds as hypotheses and conclude that the loop returns.

    ** Streams and time

    A reader's laws describe the bytes that will still arrive before its
    stream closes, a writer's laws the bytes written so far; theorems about
    two parties say that one side's reader holds what the other side wrote.
    Theorems that say that something arrives take streams that work until
    they end, or until a given byte; theorems that say that nothing bad
    happens take streams that fail in any way.  The time each handshake
    takes, dialling results and the clock are inputs.

    ** Not modelled

    Metrics and tracing, erasure of secrets from memory, the benchmarks, the
    back-pressure of a full stream (writes complete or fail), the inside of
    tokio's mutex, and cryptographic hardness: the theorems reduce security
    to signature verification, to snow's remote static key, and in [Channel]
    to the hypothesis that no forged ciphertext decrypts. *)

From stdpp Require Export base tactics numbers list option strings.
From Stdlib Require Export ZArith Lia.

#[export] Set Default Goal Selector "!".

(** ** Results of fallible, panicking, asynchronous code

    [Ok] and [Err] are Rust's [Result]; [Panic] is an unwinding panic
    ([unreachable!], an out-of-range slice, a failed [expect]); [Pending] is
    a loop that has used up the number of iterations it was given, i.e. a
    future that is still running. *)

Inductive outcome (E A : Type) : Type :=
| Ok (a : A)
| Err (e : E)
| Panic
| Pending.
Arguments Ok {_ _} _.
Arguments Err {_ _} _.
Arguments Panic {_ _}.
Arguments Pending {_ _}.

#[export] Instance outcome_eq_dec `{EqDecision E, EqDecision A} : EqDecision (outcome E A).
Proof. solve_decision. Defined.

Definition is_ok {E A} (r : outcome E A) : bool :=
  match r with Ok _ => true | _ => false end.

Definition map_ok {E A B} (f : A → B) (r : outcome E A) : outcome E B :=
  match r with Ok a => Ok (f a) | Err e => Err e | Panic => Panic | Pending => Pending end.

(** [Result::map_err]. *)
Definition map_err {E E' A} (f : E → E') (r : outcome E A) : outcome E' A :=
  match r with Ok a => Ok a | Err e => Err (f e) | Panic => Panic | Pending => Pending end.

(** The [?] operator on plain results. *)
Definition obind {E A B} (r : outcome E A) (k : A → outcome E B) : outcome E B :=
  match r with Ok a => k a | Err e => Err e | Panic => Panic | Pending => Pending end.

(** ** A state monad whose state survives errors

    A [&mut self] method is a function from the receiver to its result and
    the receiver as the method leaves it, also when it returns early with
    an error: Rust keeps the mutations made before a [?]. *)

Definition M (S E A : Type) : Type := S → outcome E A * S.

Definition ret {S E A} (a : A) : M S E A := λ s, (Ok a, s).
Definition throw {S E A} (e : E) : M S E A := λ s, (Err e, s).
Definition panic {S E A} : M S E A := λ s, (Panic, s).
Definition pending {S E A} : M S E A := λ s, (Pending, s).

Definition bind {S E A B} (m : M S E A) (k : A → M S E B) : M S E B := λ s,
  match m s with
  | (Ok a, s') => k a s'
  | (Err e, s') => (Err e, s')
  | (Panic, s') => (Panic, s')
  | (Pending, s') => (Pending, s')
  end.

Definition get {S E} : M S E S := λ s, (Ok s, s).
Definition modify {S E} (f : S → S) : M S E () := λ s, (Ok tt, f s).

(** Lift a result that does not touch the state. *)
Definition lift {S E A} (r : outcome E A) : M S E A := λ s, (r, s).

(** Run a computation on a field of the state, converting its errors with
    the [From] implementation that [?] would use. *)
Definition zoom {S T E E' A} (view : S → T) (put : T → S → S) (conv : E → E')
    (m : M T E A) : M S E' A := λ s,
  let '(r, t) := m (view s) in (map_err conv r, put t s).

(** A value that the code indexes or unwraps: [None] panics. *)
Definition or_panic {S E A} (o : option A) : M S E A :=
  match o with Some a => ret a | None => panic end.

Declare Scope rust_scope.
Delimit Scope rust_scope with rust.
Open Scope rust_scope.

Notation "'let!' x ':=' m 'in' k" := (bind m (λ x, k))
  (at level 10, x pattern, m at level 100, k at level 200) : rust_scope.
Notation "'do!' m 'in' k" := (bind m (λ _, k))
  (at level 10, m at level 100, k at level 200) : rust_scope.
Notation "'let?' x ':=' r 'in' k" := (obind r (λ x, k))
  (at level 10, x pattern, r at level 100, k at level 200) : rust_scope.

(** ** Slices and vectors of bytes *)

Abbreviation bytes := (list Z).

(** [&v[i..]], [&v[..i]] and [&v[i..j]]; [None] is the bounds panic. *)
Definition slice_from {A} (i : nat) (l : list A) : option (list A) :=
  if decide (i ≤ length l) then Some (drop i l) else None.
Definition slice_to {A} (i : nat) (l : list A) : option (list A) :=
  if decide (i ≤ length l) then Some (take i l) else None.
Definition slice {A} (i j : nat) (l : list A) : option (list A) :=
  if decide (i ≤ j ∧ j ≤ length l) then Some (drop i (take j l)) else None.

(** Write [data] over the front of [l], as [copy_from_slice] into a prefix. *)
Definition write_front {A} (data l : list A) : list A := data ++ drop (length data) l.

(** Replace everything from offset [i] on, as a callee given [&mut v[i..]]. *)
Definition write_tail {A} (i : nat) (tail l : list A) : list A := take i l ++ tail.

(** [slice::chunks(n)] for [n > 0]. *)
Fixpoint chunks_fuel {A} (fuel n : nat) (l : list A) : list (list A) :=
  match fuel, l with
  | S fuel', _ :: _ => take n l :: chunks_fuel fuel' n (drop n l)
  | _, _ => []
  end.
Definition chunks {A} (n : nat) (l : list A) : list (list A) := chunks_fuel (length l) n l.

(** ** Machine integers *)

Definition u16_ok (x : Z) : Prop := (0 ≤ x < 65536)%Z.
Definition byte_ok (x : Z) : Prop := (0 ≤ x < 256)%Z.
Definition bytes_ok (l : bytes) : Prop := Forall byte_ok l.

(** Truncating conversion [as u16]. *)
Definition as_u16 (x : Z) : Z := Z.land x 65535.
(** [u16::to_be_bytes] and [u16::from_be_bytes]. *)
Definition u16_to_be_bytes (x : Z) : bytes := [Z.land (Z.shiftr x 8) 255; Z.land x 255].
Definition u16_from_be_bytes (hi lo : Z) : Z := Z.lor (Z.shiftl hi 8) lo.

(** [uN::to_be_bytes] for an [n]-byte integer. *)
Fixpoint to_be_bytes (n : nat) (x : Z) : bytes :=
  match n with
  | O => []
  | S n' => Z.land (Z.shiftr x (8 * Z.of_nat n')) 255 :: to_be_bytes n' x
  end.
Definition from_be_bytes (l : bytes) : Z :=
  foldl (λ acc b, Z.lor (Z.shiftl acc 8) b) 0%Z l.

(** ** Tactics *)

(** Split a [match] or [if] that blocks the goal. *)
Ltac split_match :=
  match goal with
  | |- context [match ?x with _ => _ end] => destruct x eqn:?
  | |- context [if ?x then _ else _] => destruct x eqn:?
  end.

(** Unfold the monad's combinators and compute. *)
Ltac unfold_monad :=
  cbv beta iota zeta delta
    [bind ret throw panic pending get modify lift zoom or_panic map_err obind map_ok].
Tactic Notation "unfold_monad" "in" hyp(H) :=
  cbv beta iota zeta delta
    [bind ret throw panic pending get modify lift zoom or_panic map_err obind map_ok] in H.

Create HintDb rust discriminated.
Create Rewrite HintDb rust.

(** ** Monad lemmas *)

Lemma bind_ok {S E A B} (m : M S E A) (k : A → M S E B) s a s' :
  m s = (Ok a, s') → bind m k s = k a s'.
Proof. intros H. unfold bind. by rewrite H. Qed.

Lemma bind_err {S E A B} (m : M S E A) (k : A → M S E B) s e s' :
  m s = (Err e, s') → bind m k s = (Err e, s').
Proof. intros H. unfold bind. by rewrite H. Qed.

Lemma bind_ok_inv {S E A B} (m : M S E A) (k : A → M S E B) s b s'' :
  bind m k s = (Ok b, s'') → ∃ a s', m s = (Ok a, s') ∧ k a s' = (Ok b, s'').
Proof. unfold bind. destruct (m s) as [[] ?]; naive_solver. Qed.

Lemma bind_assoc {S E A B C} (m : M S E A) (k : A → M S E B) (h : B → M S E C) s :
  bind (bind m k) h s = bind m (λ a, bind (k a) h) s.
Proof. unfold bind. by destruct (m s) as [[] ?]. Qed.

Lemma bind_ext {S E A B} (m : M S E A) (k k' : A → M S E B) s :
  (∀ a s', k a s' = k' a s') → bind m k s = bind m k' s.
Proof. intros H. unfold bind. destruct (m s) as [[] ?]; auto. Qed.

Lemma bind_ret_r {S E A} (m : M S E A) s : bind m ret s = m s.
Proof. unfold bind, ret. by destruct (m s) as [[] ?]. Qed.

Lemma bind_ret_l {S E A B} (a : A) (k : A → M S E B) s : bind (ret a) k s = k a s.
Proof. done. Qed.

(** ** Invariants of stateful code

    [keeps I m Q]: [m] preserves [I] of the state whatever its result, and
    a value it returns satisfies [Q]. *)

Definition keeps {S E A} (I : S → Prop) (m : M S E A) (Q : A → Prop) : Prop :=
  ∀ s, I s → I (m s).2 ∧ ∀ a, (m s).1 = Ok a → Q a.

Lemma keeps_bind {S E A B} (I : S → Prop) (m : M S E A) (k : A → M S E B) Q Q' :
  keeps I m Q → (∀ a, Q a → keeps I (k a) Q') → keeps I (bind m k) Q'.
Proof.
  intros Hm Hk s Hs. unfold bind. destruct (Hm s Hs) as [Hs' Ha].
  destruct (m s) as [[a|e| |] s']; cbn in *; [|by split..]. by apply Hk; [apply Ha|].
Qed.

Lemma keeps_ret {S E A} (I : S → Prop) (a : A) (Q : A → Prop) : Q a → keeps (E := E) I (ret a) Q.
Proof. intros Ha s Hs. split; [done|]. by intros ? [= <-]. Qed.

Lemma keeps_pure {S E A} (I : S → Prop) (m : M S E A) (Q : A → Prop) :
  (∀ s, (m s).2 = s ∧ ∀ a, I s → (m s).1 = Ok a → Q a) → keeps I m Q.
Proof. intros Hm s Hs. destruct (Hm s) as [-> Ha]. split; [done|]. intros. by apply Ha. Qed.

Lemma keeps_panic {S E A} (I : S → Prop) (Q : A → Prop) : keeps (E := E) I panic Q.
Proof. by apply keeps_pure. Qed.

Lemma keeps_pending {S E A} (I : S → Prop) (Q : A → Prop) : keeps (E := E) I pending Q.
Proof. by apply keeps_pure. Qed.

Lemma keeps_throw {S E A} (I : S → Prop) (e : E) (Q : A → Prop) : keeps I (throw e) Q.
Proof. by apply keeps_pure. Qed.

Lemma keeps_get {S E} (I : S → Prop) : keeps (E := E) I get I.
Proof. apply keeps_pure. intros s. split; [done|]. by intros ? ? [= <-]. Qed.

Lemma keeps_or_panic {S E A} (I : S → Prop) (o : option A) (Q : A → Prop) :
  (∀ a, o = Some a → Q a) → keeps (E := E) I (or_panic o) Q.
Proof. intros Ho. destruct o; [by apply keeps_ret, Ho|apply keeps_panic]. Qed.

Lemma keeps_modify {S E} (I : S → Prop) (f : S → S) :
  (∀ s, I s → I (f s)) → keeps (E := E) I (modify f) (λ _, True).
Proof. intros Hf s Hs. split; [by apply Hf|done]. Qed.

(** A computation on a part of the state whose invariant is [J]. *)
Lemma keeps_zoom {S T E E' A} (view : S → T) (put : T → S → S) (conv : E → E') (m : M T E A)
    (I : S → Prop) (J : T → Prop) (Q : A → Prop) :
  keeps J m Q → (∀ s, I s → J (view s)) → (∀ s t, I s → J t → I (put t s)) →
  keeps I (zoom view put conv m) Q.
Proof.
  intros Hm Hv Hp s Hs. unfold zoom. destruct (Hm (view s) (Hv s Hs)) as [Ht Ha].
  destruct (m (view s)) as [[a|e| |] t]; cbn in *; (split; [by apply Hp|]); [|done..].
  intros ? [= <-]. by apply Ha.
Qed.

Lemma keeps_weaken {S E A} (I : S → Prop) (m : M S E A) (Q Q' : A → Prop) :
  keeps I m Q → (∀ a, Q a → Q' a) → keeps I m Q'.
Proof. intros Hm HQ s Hs. destruct (Hm s Hs) as [? Ha]. split; [done|]. auto. Qed.

(** ** Slices *)

Lemma slice_to_Some {A} i (l : list A) : i ≤ length l → slice_to i l = Some (take i l).
Proof. intros. unfold slice_to. by rewrite decide_True. Qed.

Lemma slice_from_Some {A} i (l : list A) : i ≤ length l → slice_from i l = Some (drop i l).
Proof. intros. unfold slice_from. by rewrite decide_True. Qed.

Lemma slice_Some {A} i j (l : list A) :
  i ≤ j → j ≤ length l → slice i j l = Some (drop i (take j l)).
Proof. intros. unfold slice. by rewrite decide_True by lia. Qed.

Lemma length_write_front {A} (data l : list A) :
  length data ≤ length l → length (write_front data l) = length l.
Proof. intros. unfold write_front. rewrite length_app, length_drop. lia. Qed.

Lemma take_write_front {A} n (data l : list A) :
  n = length data → take n (write_front data l) = data.
Proof. intros ->. unfold write_front. apply take_app_length. Qed.

Lemma length_write_tail {A} i (tail l : list A) :
  length tail = length l - i → i ≤ length l → length (write_tail i tail l) = length l.
Proof. intros. unfold write_tail. rewrite length_app, length_take. lia. Qed.

(** ** Chunks *)

Lemma chunks_fuel_enough {A} n f1 f2 (l : list A) :
  0 < n → length l ≤ f1 → length l ≤ f2 → chunks_fuel f1 n l = chunks_fuel f2 n l.
Proof.
  intros Hn. revert f2 l. induction f1 as [|f1 IH]; intros [|f2] [|x l] H1 H2;
    simpl in *; try lia; try done.
  f_equal. apply IH; rewrite length_drop; simpl; lia.
Qed.

Lemma chunks_nil {A} n : chunks n ([] : list A) = [].
Proof. done. Qed.

Lemma chunks_unfold {A} n (l : list A) :
  0 < n → l ≠ [] → chunks n l = take n l :: chunks n (drop n l).
Proof.
  intros Hn Hl. destruct l as [|x l]; [done|]. unfold chunks at 1. simpl. f_equal.
  apply chunks_fuel_enough; [done| |]; rewrite ?length_drop; simpl; lia.
Qed.

Lemma chunks_small {A} n (l : list A) : l ≠ [] → length l ≤ n → chunks n l = [l].
Proof.
  intros Hl Hle. assert (0 < length l) by (destruct l; simpl; [done|lia]).
  rewrite chunks_unfold by (done || lia). by rewrite take_ge, drop_ge by lia.
Qed.

Lemma chunks_app_full {A} n (c l : list A) :
  0 < n → length c = n → chunks n (c ++ l) = c :: chunks n l.
Proof.
  intros Hn Hc. rewrite chunks_unfold; [|done|destruct c; simpl in *; [lia|done]].
  by rewrite take_app_length', drop_app_length' by done.
Qed.

(** Induction following [chunks]. *)
Lemma chunks_ind {A} n (P : list A → Prop) :
  0 < n → P [] → (∀ l, l ≠ [] → P (drop n l) → P l) → ∀ l, P l.
Proof.
  intros Hn H0 HS l. remember (length l) as k eqn:Hk. revert l Hk.
  induction (lt_wf k) as [k _ IH]; intros l ->. destruct l as [|x l]; [done|].
  apply HS; [done|]. eapply IH; [|done]. rewrite length_drop. simpl. lia.
Qed.

Lemma concat_chunks {A} n (l : list A) : 0 < n → concat (chunks n l) = l.
Proof.
  intros Hn. revert l. apply (chunks_ind n); [done|done|]. intros l Hl IH.
  rewrite chunks_unfold by done. simpl. by rewrite IH, take_drop.
Qed.

Lemma chunks_bound {A} n (l : list A) :
  0 < n → Forall (λ c, 0 < length c ≤ n) (chunks n l).
Proof.
  intros Hn. revert l. apply (chunks_ind n); [done|constructor|]. intros l Hl IH.
  rewrite chunks_unfold by done. constructor; [|done].
  rewrite length_take. destruct l; simpl in *; [done|lia].
Qed.

Lemma chunks_nil_inv {A} n (l : list A) : 0 < n → chunks n l = [] → l = [].
Proof. intros Hn H. destruct l; [done|]. by rewrite chunks_unfold in H by done. Qed.

(** ** Bytes of integers *)

Lemma land_255 x : Z.land x 255 = (x mod 256)%Z.
Proof. change 255%Z with (Z.ones 8). by rewrite Z.land_ones by lia. Qed.

Lemma land_65535 x : Z.land x 65535 = (x mod 65536)%Z.
Proof. change 65535%Z with (Z.ones 16). by rewrite Z.land_ones by lia. Qed.

Lemma as_u16_id x : u16_ok x → as_u16 x = x.
Proof. intros H. unfold as_u16. rewrite land_65535. by apply Z.mod_small. Qed.

Lemma lor_shiftl_add a b n :
  (0 ≤ n)%Z → (0 ≤ b < 2 ^ n)%Z → Z.lor (Z.shiftl a n) b = (a * 2 ^ n + b)%Z.
Proof.
  intros Hn Hb. rewrite <- (Z.shiftl_mul_pow2 a n) by done. symmetry.
  apply Z.add_nocarry_lor. apply Z.bits_inj'. intros i Hi.
  rewrite Z.land_spec, Z.bits_0, andb_false_iff.
  destruct (Z.lt_ge_cases i n); [left; by apply Z.shiftl_spec_low|right].
  destruct (decide (b = 0%Z)) as [->|]; [apply Z.bits_0|].
  apply Z.bits_above_log2; [lia|]. apply (Z.lt_le_trans _ n); [|lia].
  apply Z.log2_lt_pow2; lia.
Qed.

Lemma u16_be_round_trip x :
  u16_ok x →
  u16_from_be_bytes (Z.land (Z.shiftr x 8) 255) (Z.land x 255) = x.
Proof.
  intros H. unfold u16_from_be_bytes, u16_ok in *.
  rewrite !land_255, lor_shiftl_add, Z.shiftr_div_pow2 by (try lia; apply Z.mod_pos_bound; lia).
  rewrite (Z.mod_small (x `div` 2 ^ 8)); [|split; [apply Z.div_pos; lia|apply Z.div_lt_upper_bound; lia]].
  pose proof (Z.div_mod x 256). change (2 ^ 8)%Z with 256%Z. lia.
Qed.

Lemma u16_to_be_bytes_ok x : bytes_ok (u16_to_be_bytes x).
Proof.
  unfold u16_to_be_bytes, bytes_ok, byte_ok. repeat constructor; rewrite ?land_255;
    apply Z.mod_pos_bound; lia.
Qed.

Lemma length_to_be_bytes n x : length (to_be_bytes n x) = n.
Proof. induction n; simpl; congruence. Qed.

#[export] Hint Rewrite @length_app @length_take @length_drop @length_replicate
  @length_resize : rust.
#[export] Hint Resolve keeps_panic keeps_pending keeps_throw keeps_get : rust.
#[export] Hint Resolve as_u16_id u16_to_be_bytes_ok : rust.
