(* ===== verification/PacketState.v ===== *)
(** * Packet headers, [PacketBuilder] and [PacketReader] (src/packet_state.rs)

    The two-byte packet header (4-bit kind, 12-bit message type), the
    sender's builder state machine and the receiver's reader state machine,
    with the size constants of the framing.  [u16] values are [Z] with the
    code's own masks and shifts; [usize] lengths are [nat]. *)

From S2P Require Import Prelude.

(** ** Constants *)

Definition KIND_SHIFT : Z := 12.
Definition KIND_MASK : Z := 0xF000.
Definition TYPE_MASK : Z := 0x0FFF.

Definition FRAME_HEADER_SIZE : nat := 2.
Definition MAX_CIPHERTEXT_SIZE : nat := Z.to_nat 0xFFFF.
Definition CIPHER_OVERHEAD_SIZE : nat := 16.
Definition MAX_RAW_PACKET_SIZE : nat := MAX_CIPHERTEXT_SIZE - CIPHER_OVERHEAD_SIZE.
Definition MAX_PACKET_SIZE : nat := MAX_RAW_PACKET_SIZE - 2.

(** ** PacketKind *)

Inductive PacketKind : Set := Sole | First | Mid | Last | Abort.

#[export] Instance PacketKind_eq_dec : EqDecision PacketKind.
Proof. solve_decision. Defined.

Inductive PacketReadError : Set :=
| PacketTooShort
| UnknownKind (v : Z)
| UnexpectedMessageStart (from to : Z)
| MissingMessageStart (msg_type : Z)
| MessageTypeChange (from to : Z).

Inductive PacketBuildError : Set :=
| MessageAlreadyInProgress
| NoMessageInProgress
| MessageTypeTooLarge (msg_type : Z).

#[export] Instance PacketReadError_eq_dec : EqDecision PacketReadError.
Proof. solve_decision. Defined.
#[export] Instance PacketBuildError_eq_dec : EqDecision PacketBuildError.
Proof. solve_decision. Defined.

(** The discriminant of [#[repr(u8)] enum PacketKind]. *)
Definition kind_as_u8 (k : PacketKind) : Z :=
  match k with Sole => 0 | First => 1 | Mid => 2 | Last => 3 | Abort => 4 end.

Definition from_u8 (v : Z) : outcome PacketReadError PacketKind :=
  match v with
  | 0%Z => Ok Sole
  | 1%Z => Ok First
  | 2%Z => Ok Mid
  | 3%Z => Ok Last
  | 4%Z => Ok Abort
  | _ => Err (UnknownKind v)
  end.

(** The decoded header of an accepted packet. *)
Record PacketHeader : Set := { kind : PacketKind; msg_type : Z }.

#[export] Instance PacketHeader_eq_dec : EqDecision PacketHeader.
Proof. solve_decision. Defined.

(** [((kind as u16) << KIND_SHIFT) | msg_type], as [pack] and [abort] compute it. *)
Definition header_bits (k : PacketKind) (ty : Z) : Z :=
  Z.lor (as_u16 (Z.shiftl (kind_as_u8 k) KIND_SHIFT)) ty.

(** ** PacketBuilder *)

Module PacketBuilder.

Record t : Set := {
  in_progress : bool;
  is_first : bool;
  msg_type : Z;
  buf : bytes;
}.

Definition new : t :=
  {| in_progress := false; is_first := false; msg_type := 0; buf := [] |}.

Definition prepare (ty : Z) : M t PacketBuildError () := λ self,
  if (TYPE_MASK <? ty)%Z then (Err (MessageTypeTooLarge ty), self)
  else if in_progress self then (Err MessageAlreadyInProgress, self)
  else (Ok tt, {| in_progress := true; is_first := true; msg_type := ty; buf := buf self |}).

Definition pack (payload : bytes) (last : bool) : M t PacketBuildError bytes := λ self,
  if negb (in_progress self) then (Err NoMessageInProgress, self)
  else
    let kind := match is_first self, last with
                | true, true => Sole
                | true, false => First
                | false, false => Mid
                | false, true => Last
                end in
    let header := header_bits kind (msg_type self) in
    let buf := (u16_to_be_bytes header ++ payload)%list in
    (Ok buf, {| in_progress := negb last; is_first := false;
                msg_type := msg_type self; buf := buf |}).

Definition abort (self : t) : option bytes * t :=
  if negb (in_progress self) then (None, self)
  else
    let header := header_bits Abort (msg_type self) in
    let buf := u16_to_be_bytes header in
    (Some buf, {| in_progress := false; is_first := true;
                  msg_type := msg_type self; buf := buf |}).

End PacketBuilder.

(** ** PacketReader *)

(** The stateless front of [PacketReader::read]: length check, header
    decoding and [PacketKind::from_u8]. *)
Definition parse_header (raw_packet : bytes) : outcome PacketReadError PacketHeader :=
  match raw_packet with
  | b0 :: b1 :: _ =>
      let header := u16_from_be_bytes b0 b1 in
      let kind_raw := Z.land (Z.shiftr (Z.land header KIND_MASK) KIND_SHIFT) 255 in
      let ty := Z.land header TYPE_MASK in
      let? k := from_u8 kind_raw in
      Ok {| kind := k; msg_type := ty |}
  | _ => Err PacketTooShort
  end.

Module PacketReader.

Record t : Set := { in_progress : bool; msg_type : Z }.

#[export] Instance t_eq_dec : EqDecision t.
Proof. solve_decision. Defined.

Definition new : t := {| in_progress := false; msg_type := 0 |}.

Definition read (raw_packet : bytes) : M t PacketReadError PacketHeader := λ self,
  match parse_header raw_packet with
  | Ok hdr =>
      let ty := PacketState.msg_type hdr in
      match kind hdr with
      | Sole | First =>
          if in_progress self then (Err (UnexpectedMessageStart (msg_type self) ty), self)
          else (Ok hdr,
                if decide (kind hdr = First) then {| in_progress := true; msg_type := ty |}
                else self)
      | Mid | Last | Abort =>
          if negb (in_progress self) then (Err (MissingMessageStart ty), self)
          else if negb (msg_type self =? ty)%Z
          then (Err (MessageTypeChange (msg_type self) ty), self)
          else (Ok hdr,
                if decide (kind hdr = Mid) then self
                else {| in_progress := false; msg_type := 0 |})
      end
  | Err e => (Err e, self)
  | Panic => (Panic, self)
  | Pending => (Pending, self)
  end.

End PacketReader.

(** ** Header lemmas *)

Lemma MAX_PACKET_SIZE_val : Z.of_nat MAX_PACKET_SIZE = 65517%Z.
Proof. reflexivity. Qed.
Lemma MAX_RAW_PACKET_SIZE_val : Z.of_nat MAX_RAW_PACKET_SIZE = 65519%Z.
Proof. reflexivity. Qed.
Lemma MAX_CIPHERTEXT_SIZE_val : Z.of_nat MAX_CIPHERTEXT_SIZE = 65535%Z.
Proof. reflexivity. Qed.

(** Bring the size constants into [lia]'s view without computing them in unary. *)
Ltac size_consts :=
  pose proof MAX_PACKET_SIZE_val; pose proof MAX_RAW_PACKET_SIZE_val;
  pose proof MAX_CIPHERTEXT_SIZE_val; unfold CIPHER_OVERHEAD_SIZE, FRAME_HEADER_SIZE in *.
Ltac size_lia := size_consts; lia.

#[global] Opaque MAX_CIPHERTEXT_SIZE MAX_RAW_PACKET_SIZE MAX_PACKET_SIZE.

Definition type_ok (ty : Z) : Prop := (0 ≤ ty ≤ TYPE_MASK)%Z.

Lemma kind_as_u8_bound k : (0 ≤ kind_as_u8 k ≤ 4)%Z.
Proof. destruct k; simpl; lia. Qed.

Lemma header_bits_arith k ty : type_ok ty → header_bits k ty = (kind_as_u8 k * 4096 + ty)%Z.
Proof.
  unfold type_ok, TYPE_MASK, header_bits, KIND_SHIFT. intros Hty. pose proof (kind_as_u8_bound k).
  rewrite as_u16_id; [by rewrite lor_shiftl_add by lia|].
  rewrite Z.shiftl_mul_pow2 by lia. unfold u16_ok. lia.
Qed.

Lemma header_bits_u16 k ty : type_ok ty → u16_ok (header_bits k ty).
Proof.
  intros Hty. rewrite header_bits_arith by done. pose proof (kind_as_u8_bound k).
  unfold type_ok, TYPE_MASK, u16_ok in *. lia.
Qed.

Lemma kind_field h : u16_ok h →
  Z.land (Z.shiftr (Z.land h KIND_MASK) KIND_SHIFT) 255 = (h / 4096)%Z.
Proof.
  intros Hh. unfold KIND_MASK, KIND_SHIFT, u16_ok in *.
  rewrite Z.shiftr_land. change (Z.shiftr 61440 12) with (Z.ones 4).
  rewrite Z.land_ones, land_255, Z.shiftr_div_pow2 by lia.
  assert (0 ≤ h / 2 ^ 12 < 16)%Z
    by (split; [apply Z.div_pos; lia|apply Z.div_lt_upper_bound; lia]).
  change (2 ^ 4)%Z with 16%Z. rewrite !Z.mod_small; [done|lia|rewrite Z.mod_small; lia].
Qed.

Lemma type_field h : Z.land h TYPE_MASK = (h mod 4096)%Z.
Proof. unfold TYPE_MASK. change 4095%Z with (Z.ones 12). by rewrite Z.land_ones by lia. Qed.

Lemma type_field_ok h : type_ok (Z.land h TYPE_MASK).
Proof.
  rewrite type_field. unfold type_ok, TYPE_MASK. pose proof (Z.mod_pos_bound h 4096). lia.
Qed.

Lemma from_u8_kind k : from_u8 (kind_as_u8 k) = Ok k.
Proof. by destruct k. Qed.

Lemma from_u8_Ok v k : from_u8 v = Ok k → v = kind_as_u8 k.
Proof. unfold from_u8. repeat (case_match; try done); naive_solver. Qed.

Lemma from_u8_result v : (∃ k, from_u8 v = Ok k) ∨ from_u8 v = Err (UnknownKind v).
Proof. unfold from_u8. repeat case_match; eauto. Qed.

(** What the builder puts in front of a payload. *)
Definition encode_packet (h : PacketHeader) (payload : bytes) : bytes :=
  u16_to_be_bytes (header_bits (kind h) (msg_type h)) ++ payload.

Lemma length_encode_packet h p : length (encode_packet h p) = 2 + length p.
Proof. done. Qed.

Lemma parse_encode h payload :
  type_ok (msg_type h) → parse_header (encode_packet h payload) = Ok h.
Proof.
  intros Hty. destruct h as [k ty]. cbn [kind msg_type] in *.
  unfold encode_packet, parse_header. cbn [u16_to_be_bytes app kind msg_type].
  pose proof (header_bits_u16 k ty Hty) as Hu.
  rewrite u16_be_round_trip, kind_field, type_field, header_bits_arith by done.
  unfold type_ok, TYPE_MASK in Hty.
  rewrite Z.div_add_l, (Z.div_small ty), Z.add_0_r by lia. rewrite from_u8_kind.
  unfold obind. repeat f_equal.
  rewrite Z.add_comm, Z.mod_add by lia. apply Z.mod_small; lia.
Qed.

Lemma parse_type_ok raw h : parse_header raw = Ok h → type_ok (msg_type h).
Proof.
  unfold parse_header. destruct raw as [|b0 [|b1 r]]; [done..|].
  destruct (from_u8 _); simpl; [|done..]. intros [= <-]. apply type_field_ok.
Qed.

Lemma parse_result raw :
  (∃ h, parse_header raw = Ok h) ∨ (∃ e, parse_header raw = Err e).
Proof.
  unfold parse_header. destruct raw as [|b0 [|b1 r]]; [by eauto..|].
  destruct (from_u8_result (Z.land (Z.shiftr (Z.land (u16_from_be_bytes b0 b1) KIND_MASK)
    KIND_SHIFT) 255)) as [[k ->]| ->]; simpl; eauto.
Qed.

(** ** Specification vocabulary *)

(** Read a whole list of packets, stopping at the first rejected one. *)
Fixpoint read_all (raws : list bytes) : M PacketReader.t PacketReadError (list PacketHeader) :=
  match raws with
  | [] => ret []
  | raw :: raws' =>
      let! h := PacketReader.read raw in
      let! hs := read_all raws' in
      ret (h :: hs)
  end.

(** The language of complete message streams:
    [(Sole | First Mid* (Last | Abort))*], one type per message. *)
Inductive message_stream : list PacketHeader → Prop :=
| ms_nil : message_stream []
| ms_sole ty hs :
    message_stream hs → message_stream ({| kind := Sole; msg_type := ty |} :: hs)
| ms_multi ty n fin hs :
    fin = Last ∨ fin = Abort → message_stream hs →
    message_stream (({| kind := First; msg_type := ty |}
                      :: replicate n {| kind := Mid; msg_type := ty |})
                    ++ {| kind := fin; msg_type := ty |} :: hs).

(** The operations a [PacketBuilder]'s owner can perform on it. *)
Inductive tx_op : Set :=
| OpPrepare (ty : Z)
| OpPack (payload : bytes) (last : bool)
| OpAbort.

(** One operation: the payload and raw packet it emits, if any. *)
Definition run_op (op : tx_op) (b : PacketBuilder.t) : option (bytes * bytes) * PacketBuilder.t :=
  match op with
  | OpPrepare ty => (None, snd (PacketBuilder.prepare ty b))
  | OpPack p last =>
      match PacketBuilder.pack p last b with
      | (Ok raw, b') => (Some (p, raw), b')
      | (_, b') => (None, b')
      end
  | OpAbort =>
      match PacketBuilder.abort b with
      | (Some raw, b') => (Some ([], raw), b')
      | (None, b') => (None, b')
      end
  end.

Fixpoint run_ops (ops : list tx_op) (b : PacketBuilder.t) : list (bytes * bytes) * PacketBuilder.t :=
  match ops with
  | [] => ([], b)
  | op :: ops' =>
      let '(out, b1) := run_op op b in
      let '(outs, b2) := run_ops ops' b1 in
      (option_list out ++ outs, b2)
  end.

(** No [abort] between [prepare] and the first packet of the message. *)
Definition clean_op (op : tx_op) (b : PacketBuilder.t) : bool :=
  match op with
  | OpAbort => negb (PacketBuilder.in_progress b && PacketBuilder.is_first b)
  | OpPrepare ty => (0 <=? ty)%Z
  | OpPack _ _ => true
  end.

Fixpoint clean_ops (ops : list tx_op) (b : PacketBuilder.t) : bool :=
  match ops with
  | [] => true
  | op :: ops' => clean_op op b && clean_ops ops' (snd (run_op op b))
  end.

(** The builder's type is always a legal 12-bit value. *)
Definition builder_wf (b : PacketBuilder.t) : Prop := type_ok (PacketBuilder.msg_type b).

(** The reader knows a type exactly while a message is open. *)
Definition reader_wf (r : PacketReader.t) : Prop :=
  type_ok (PacketReader.msg_type r) ∧
  (PacketReader.in_progress r = false → PacketReader.msg_type r = 0%Z).

(** The reader is where the packets emitted so far put it. *)
Definition in_step (b : PacketBuilder.t) (r : PacketReader.t) : Prop :=
  if PacketBuilder.in_progress b && negb (PacketBuilder.is_first b)
  then PacketReader.in_progress r = true ∧ PacketReader.msg_type r = PacketBuilder.msg_type b
  else PacketReader.in_progress r = false.

(** ** Operation lemmas *)

Lemma pack_idle p last b :
  PacketBuilder.in_progress b = false →
  PacketBuilder.pack p last b = (Err NoMessageInProgress, b).
Proof. intros H. unfold PacketBuilder.pack. by rewrite H. Qed.

(** The kind [pack] chooses. *)
Definition pack_kind (first last : bool) : PacketKind :=
  match first, last with
  | true, true => Sole | true, false => First | false, false => Mid | false, true => Last
  end.

Lemma pack_open p last b :
  PacketBuilder.in_progress b = true →
  PacketBuilder.pack p last b =
  (let raw := encode_packet {| kind := pack_kind (PacketBuilder.is_first b) last;
                               msg_type := PacketBuilder.msg_type b |} p in
   (Ok raw, {| PacketBuilder.in_progress := negb last; PacketBuilder.is_first := false;
               PacketBuilder.msg_type := PacketBuilder.msg_type b; PacketBuilder.buf := raw |})).
Proof. intros H. unfold PacketBuilder.pack. rewrite H. by destruct (PacketBuilder.is_first b), last. Qed.

Lemma abort_open b :
  PacketBuilder.in_progress b = true →
  PacketBuilder.abort b =
  (let raw := encode_packet {| kind := Abort; msg_type := PacketBuilder.msg_type b |} [] in
   (Some raw, {| PacketBuilder.in_progress := false; PacketBuilder.is_first := true;
                 PacketBuilder.msg_type := PacketBuilder.msg_type b; PacketBuilder.buf := raw |})).
Proof. intros H. unfold PacketBuilder.abort. by rewrite H. Qed.

Lemma prepare_idle ty b :
  type_ok ty → PacketBuilder.in_progress b = false →
  PacketBuilder.prepare ty b =
  (Ok tt, {| PacketBuilder.in_progress := true; PacketBuilder.is_first := true;
             PacketBuilder.msg_type := ty; PacketBuilder.buf := PacketBuilder.buf b |}).
Proof.
  intros [? ?] Hb. unfold PacketBuilder.prepare. rewrite Hb.
  by destruct (Z.ltb_spec TYPE_MASK ty); [lia|].
Qed.

Lemma read_parsed raw h r :
  parse_header raw = Ok h →
  PacketReader.read raw r =
  match kind h with
  | Sole | First =>
      if PacketReader.in_progress r
      then (Err (UnexpectedMessageStart (PacketReader.msg_type r) (msg_type h)), r)
      else (Ok h, if decide (kind h = First)
                  then {| PacketReader.in_progress := true; PacketReader.msg_type := msg_type h |}
                  else r)
  | Mid | Last | Abort =>
      if negb (PacketReader.in_progress r) then (Err (MissingMessageStart (msg_type h)), r)
      else if negb (PacketReader.msg_type r =? msg_type h)%Z
      then (Err (MessageTypeChange (PacketReader.msg_type r) (msg_type h)), r)
      else (Ok h, if decide (kind h = Mid) then r
                  else {| PacketReader.in_progress := false; PacketReader.msg_type := 0 |})
  end.
Proof. intros H. unfold PacketReader.read. by rewrite H. Qed.

Lemma read_ok_parse raw h r r' :
  PacketReader.read raw r = (Ok h, r') → parse_header raw = Ok h.
Proof.
  unfold PacketReader.read. destruct (parse_header raw); [|done..].
  repeat case_match; intros; simplify_eq; done.
Qed.

(** The reader after an accepted header. *)
Definition reader_next (h : PacketHeader) (r : PacketReader.t) : PacketReader.t :=
  match kind h with
  | Sole | Mid => r
  | First => {| PacketReader.in_progress := true; PacketReader.msg_type := msg_type h |}
  | Last | Abort => {| PacketReader.in_progress := false; PacketReader.msg_type := 0 |}
  end.

(** A header the reader accepts in state [r]. *)
Definition accepts (h : PacketHeader) (r : PacketReader.t) : Prop :=
  match kind h with
  | Sole | First => PacketReader.in_progress r = false
  | Mid | Last | Abort => PacketReader.in_progress r = true ∧ PacketReader.msg_type r = msg_type h
  end.

Lemma read_accept raw h r :
  parse_header raw = Ok h → accepts h r →
  PacketReader.read raw r = (Ok h, reader_next h r).
Proof.
  intros Hp Ha. rewrite (read_parsed _ _ _ Hp). unfold accepts, reader_next in *.
  destruct (kind h); [rewrite Ha; done..| | |];
    destruct Ha as [-> ->]; rewrite Z.eqb_refl; done.
Qed.

Lemma read_ok_inv raw h r r' :
  PacketReader.read raw r = (Ok h, r') → accepts h r ∧ r' = reader_next h r.
Proof.
  intros H. pose proof (read_ok_parse _ _ _ _ H) as Hp. rewrite (read_parsed _ _ _ Hp) in H.
  unfold accepts, reader_next.
  destruct (kind h), (PacketReader.in_progress r) eqn:?; simpl in H; try done;
    try (destruct (Z.eqb_spec (PacketReader.msg_type r) (msg_type h)); simpl in H; try done);
    by simplify_eq.
Qed.

Lemma reader_wf_new : reader_wf PacketReader.new.
Proof. by unfold reader_wf, type_ok, TYPE_MASK. Qed.

Lemma read_keeps_wf raw r res r' :
  reader_wf r → PacketReader.read raw r = (res, r') → reader_wf r'.
Proof.
  intros Hwf H. destruct res as [h|e| |].
  - pose proof (parse_type_ok _ _ (read_ok_parse _ _ _ _ H)).
    apply read_ok_inv in H as [_ ->]. unfold reader_next.
    destruct (kind h); try done; unfold reader_wf; simpl; naive_solver (unfold type_ok, TYPE_MASK; lia).
  - unfold PacketReader.read in H. repeat case_match; by simplify_eq.
  - unfold PacketReader.read in H. repeat case_match; by simplify_eq.
  - unfold PacketReader.read in H. repeat case_match; by simplify_eq.
Qed.

Lemma reader_next_accepts_wf h r :
  reader_wf r → type_ok (msg_type h) → reader_wf (reader_next h r).
Proof.
  intros Hr Hh. unfold reader_next.
  destruct (kind h); try done; unfold reader_wf; simpl; naive_solver (unfold type_ok, TYPE_MASK; lia).
Qed.

Lemma read_result raw r :
  (∃ h, PacketReader.read raw r = (Ok h, reader_next h r)) ∨
  (∃ e, PacketReader.read raw r = (Err e, r)).
Proof.
  destruct (parse_result raw) as [[h Hh]|[e He]].
  - destruct (PacketReader.read raw r) as [res r'] eqn:E. pose proof E as E'.
    rewrite (read_parsed _ _ _ Hh) in E. destruct res as [h'|e| |].
    + left. exists h'. f_equal. by apply read_ok_inv in E' as [_ ->].
    + right. exists e. repeat case_match; by simplify_eq.
    + repeat case_match; by simplify_eq.
    + repeat case_match; by simplify_eq.
  - right. exists e. unfold PacketReader.read. by rewrite He.
Qed.

Lemma read_all_cons raw raws r :
  read_all (raw :: raws) r =
  match PacketReader.read raw r with
  | (Ok h, r1) =>
      match read_all raws r1 with
      | (Ok hs, r2) => (Ok (h :: hs), r2)
      | (Err e, r2) => (Err e, r2)
      | (Panic, r2) => (Panic, r2)
      | (Pending, r2) => (Pending, r2)
      end
  | (Err e, r1) => (Err e, r1)
  | (Panic, r1) => (Panic, r1)
  | (Pending, r1) => (Pending, r1)
  end.
Proof.
  simpl. unfold bind, ret. destruct (PacketReader.read raw r) as [[] ?]; [|done..].
  by destruct (read_all raws t) as [[] ?].
Qed.

Lemma read_all_wf raws r res r' :
  reader_wf r → read_all raws r = (res, r') → reader_wf r'.
Proof.
  revert r res r'. induction raws as [|raw raws IH]; intros r res r' Hwf.
  - intros Heq. inversion Heq. by subst.
  - rewrite read_all_cons. destruct (PacketReader.read raw r) as [x r1] eqn:E.
    pose proof (read_keeps_wf _ _ _ _ Hwf E) as Hwf1.
    destruct x; [|intros; by simplify_eq..].
    destruct (read_all raws r1) as [y r2] eqn:E2. pose proof (IH _ _ _ Hwf1 E2).
    destruct y; intros; by simplify_eq.
Qed.

(** The headers a reader accepts from [r], ending in [r']. *)
Inductive accepted : PacketReader.t → list PacketHeader → PacketReader.t → Prop :=
| acc_nil r : accepted r [] r
| acc_cons r h hs r' :
    accepts h r → accepted (reader_next h r) hs r' → accepted r (h :: hs) r'.

Lemma read_all_accepted raws hs r r' :
  Forall2 (λ raw h, parse_header raw = Ok h) raws hs →
  read_all raws r = (Ok hs, r') ↔ accepted r hs r'.
Proof.
  intros HF. revert r. induction HF as [|raw h raws hs Hp HF IH]; intros r.
  - split; [intros Heq; inversion Heq; constructor|by inversion 1; subst].
  - rewrite read_all_cons. split.
    + destruct (PacketReader.read raw r) as [[h'| | |] r1] eqn:E; [|done..].
      destruct (read_all raws r1) as [[hs'| | |] r2] eqn:E2; [|done..].
      intros ?; simplify_eq. apply read_ok_inv in E as [Ha ->].
      constructor; [done|]. by apply IH.
    + inversion 1 as [|? ? ? ? Ha Hacc]; subst. rewrite (read_accept _ _ _ Hp Ha).
      by rewrite (proj2 (IH _) Hacc).
Qed.

Lemma accepted_app r hs1 r1 hs2 r2 :
  accepted r hs1 r1 → accepted r1 hs2 r2 → accepted r (hs1 ++ hs2) r2.
Proof. induction 1; [done|]. intros. simpl. by constructor; auto. Qed.

Lemma accepted_mids ty n :
  accepted {| PacketReader.in_progress := true; PacketReader.msg_type := ty |}
           (replicate n {| kind := Mid; msg_type := ty |})
           {| PacketReader.in_progress := true; PacketReader.msg_type := ty |}.
Proof. induction n; simpl; constructor; done. Qed.

Lemma message_stream_accepted hs :
  message_stream hs → ∀ r, PacketReader.in_progress r = false →
  ∃ r', accepted r hs r' ∧ PacketReader.in_progress r' = false.
Proof.
  induction 1 as [|ty hs _ IH|ty n fin hs Hfin _ IH]; intros r Hr.
  - eexists; by split; [constructor|].
  - destruct (IH r Hr) as (r' & ? & ?). exists r'. split; [|done]. by constructor.
  - destruct (IH {| PacketReader.in_progress := false; PacketReader.msg_type := 0 |} eq_refl)
      as (r' & Hacc & ?).
    exists r'. split; [|done].
    eapply accepted_app; [constructor; [done|apply accepted_mids]|].
    constructor; [by destruct Hfin; subst|]. by destruct Hfin; subst.
Qed.

(** From an open message, an accepted run that ends idle starts with the
    message's remaining packets. *)
Lemma accepted_message_stream hs r r' :
  accepted r hs r' → PacketReader.in_progress r' = false →
  if PacketReader.in_progress r
  then ∃ n fin hs', (fin = Last ∨ fin = Abort) ∧ message_stream hs' ∧
         hs = replicate n {| kind := Mid; msg_type := PacketReader.msg_type r |}
              ++ {| kind := fin; msg_type := PacketReader.msg_type r |} :: hs'
  else message_stream hs.
Proof.
  induction 1 as [r|r [k ty] hs r' Ha _ IH]; intros Hend.
  - rewrite Hend. constructor.
  - specialize (IH Hend). destruct k; cbn [accepts reader_next kind msg_type] in *.
    + rewrite Ha in IH |- *. by constructor.
    + rewrite Ha. cbn [PacketReader.in_progress PacketReader.msg_type] in IH.
      destruct IH as (n & fin & hs' & Hfin & Hms & ->). by apply (ms_multi ty n fin hs').
    + destruct Ha as [Ho Hty]. rewrite Ho in IH |- *.
      destruct IH as (n & fin & hs' & Hfin & Hms & ->). exists (S n), fin, hs'. by rewrite Hty.
    + destruct Ha as [-> ->]. exists 0, Last, hs. auto.
    + destruct Ha as [-> ->]. exists 0, Abort, hs. auto.
Qed.

Lemma run_op_wf op b : clean_op op b = true → builder_wf b → builder_wf (snd (run_op op b)).
Proof.
  unfold builder_wf. destruct op as [ty|p last|]; simpl.
  - intros Hty Hb. unfold PacketBuilder.prepare.
    destruct (Z.ltb_spec TYPE_MASK ty); [done|]. destruct (PacketBuilder.in_progress b); [done|].
    simpl. unfold type_ok. lia.
  - intros _ Hb. unfold PacketBuilder.pack. by destruct (PacketBuilder.in_progress b).
  - intros _ Hb. unfold PacketBuilder.abort. by destruct (PacketBuilder.in_progress b).
Qed.

(** One clean operation: what it emits is accepted, and the two ends stay in step. *)
Lemma run_op_in_step op b r :
  clean_op op b = true → builder_wf b → in_step b r →
  match run_op op b with
  | (Some (p, raw), b') =>
      ∃ h, raw = encode_packet h p ∧ type_ok (msg_type h) ∧
           accepts h r ∧ in_step b' (reader_next h r)
  | (None, b') => in_step b' r
  end.
Proof.
  intros Hc Hwf Hs. unfold in_step in Hs. destruct op as [ty|p last|]; cbn [run_op].
  - unfold PacketBuilder.prepare. unfold in_step.
    destruct (TYPE_MASK <? ty)%Z; [done|]. by destruct (PacketBuilder.in_progress b) eqn:E; simpl; [rewrite E|].
  - destruct (PacketBuilder.in_progress b) eqn:E; simpl in Hs.
    2: { rewrite pack_idle by done. unfold in_step. by rewrite E. }
    rewrite pack_open by done. eexists. split; [done|]. split; [done|].
    unfold in_step, accepts, reader_next.
    destruct (PacketBuilder.is_first b), last; cbn in *; try (destruct Hs); split_and!; done.
  - destruct (PacketBuilder.in_progress b) eqn:E; simpl in Hs, Hc.
    2: { unfold PacketBuilder.abort, in_step. by rewrite E; simpl; rewrite E. }
    rewrite abort_open by done. rewrite E in Hc. simpl in Hc.
    destruct (PacketBuilder.is_first b); [done|]. eexists. split; [done|]. split; [done|].
    by unfold in_step, accepts, reader_next.
Qed.

Lemma run_ops_in_step ops b r :
  clean_ops ops b = true → builder_wf b → in_step b r →
  ∃ hs r', read_all (run_ops ops b).1.*2 r = (Ok hs, r') ∧
           (run_ops ops b).1.*2 = zip_with encode_packet hs (run_ops ops b).1.*1 ∧
           in_step (run_ops ops b).2 r'.
Proof.
  revert b r. induction ops as [|op ops IH]; intros b r Hc Hwf Hs.
  { exists [], r. done. }
  simpl in Hc. apply andb_prop in Hc as [Hc Hcs].
  pose proof (run_op_wf _ _ Hc Hwf) as Hwf1. pose proof (run_op_in_step _ _ _ Hc Hwf Hs) as Hstep.
  simpl. destruct (run_op op b) as [[[p raw]|] b1] eqn:E; simpl in *.
  - destruct Hstep as (h & -> & Hty & Ha & Hs1).
    destruct (IH _ _ Hcs Hwf1 Hs1) as (hs & r' & Hread & Hzip & Hs').
    destruct (run_ops ops b1) as [outs b2]; simpl in *.
    exists (h :: hs), r'. split_and!.
    2: { exact (f_equal (cons (encode_packet h p)) Hzip). }
    2: done.
    unfold bind. rewrite (read_accept _ _ _ (parse_encode h p Hty) Ha).
    change (list_fmap _ _ snd outs) with (outs.*2). by rewrite Hread.
  - destruct (IH _ _ Hcs Hwf1 Hstep) as (hs & r' & Hread & Hzip & Hs').
    destruct (run_ops ops b1) as [outs b2]; simpl in *. eauto.
Qed.

(** ** Properties *)

(** C33: the header layout as a table.  The first wire byte [b0] selects the
    kind by its range: below 16 a [Sole] packet, then [First], [Mid], [Last]
    and [Abort] in steps of 16, and from 80 on an unknown kind, reported with
    the nibble that was seen; the type is [(b0 mod 16) * 256 + b1].
    Conversely the header word that the builder computes for a kind and a
    type is written as exactly those two bytes. *)
Theorem packet_header_wire_format b0 b1 payload k ty :
  byte_ok b0 → byte_ok b1 → type_ok ty →
  (let header kd := Ok {| kind := kd; msg_type := (b0 mod 16) * 256 + b1 |} in
   parse_header (b0 :: b1 :: payload) =
   if (b0 <? 16)%Z then header Sole
   else if (b0 <? 32)%Z then header First
   else if (b0 <? 48)%Z then header Mid
   else if (b0 <? 64)%Z then header Last
   else if (b0 <? 80)%Z then header Abort
   else Err (UnknownKind (b0 / 16))) ∧
  u16_to_be_bytes (header_bits k ty) =
  [match k with Sole => 0 | First => 16 | Mid => 32 | Last => 48 | Abort => 64 end + ty / 256;
   ty mod 256]%Z.
Proof.
  intros H0 H1 Hty. unfold byte_ok in *. split.
  - cbv zeta. unfold parse_header.
    assert (Hh : u16_from_be_bytes b0 b1 = (b0 * 256 + b1)%Z)
      by (unfold u16_from_be_bytes; by rewrite lor_shiftl_add by lia).
    rewrite Hh, kind_field, type_field by (unfold u16_ok; lia).
    replace ((b0 * 256 + b1) / 4096)%Z with (b0 / 16)%Z
      by (Z.to_euclidean_division_equations; lia).
    replace ((b0 * 256 + b1) mod 4096)%Z with ((b0 mod 16) * 256 + b1)%Z
      by (Z.to_euclidean_division_equations; lia).
    assert (Hq : ∀ q, (q * 16 ≤ b0 < q * 16 + 16)%Z → (b0 / 16 = q)%Z)
      by (intros; Z.to_euclidean_division_equations; lia).
    destruct (Z.ltb_spec b0 16); [by rewrite (Hq 0%Z) by lia|].
    destruct (Z.ltb_spec b0 32); [by rewrite (Hq 1%Z) by lia|].
    destruct (Z.ltb_spec b0 48); [by rewrite (Hq 2%Z) by lia|].
    destruct (Z.ltb_spec b0 64); [by rewrite (Hq 3%Z) by lia|].
    destruct (Z.ltb_spec b0 80); [by rewrite (Hq 4%Z) by lia|].
    destruct (from_u8_result (b0 / 16)) as [[kd Hk]|He]; [|by rewrite He].
    apply from_u8_Ok in Hk. pose proof (kind_as_u8_bound kd).
    exfalso. Z.to_euclidean_division_equations. lia.
  - rewrite header_bits_arith by done. unfold type_ok, TYPE_MASK in Hty.
    unfold u16_to_be_bytes. rewrite !land_255, Z.shiftr_div_pow2 by lia.
    change (2 ^ 8)%Z with 256%Z.
    assert (Hm : ∀ c, (0 ≤ c ≤ 4)%Z → ((c * 4096 + ty) / 256 mod 256 = 16 * c + ty / 256)%Z ∧
                      ((c * 4096 + ty) mod 256 = ty mod 256)%Z).
    { intros c Hc. replace (c * 4096 + ty)%Z with (ty + 16 * c * 256)%Z by lia.
      assert (0 ≤ ty / 256 < 16)%Z by (Z.to_euclidean_division_equations; lia).
      split; [|by rewrite Z.mod_add by lia]. rewrite Z.div_add by lia.
      rewrite Z.mod_small by lia. lia. }
    destruct (Hm (kind_as_u8 k)) as [-> ->]; [apply kind_as_u8_bound|]. by destruct k.
Qed.

Lemma packet_header_wire_format_witness :
  parse_header [0x4A; 0x7F; 1]%Z = Ok {| kind := Abort; msg_type := 0xA7F |} ∧
  parse_header [0x50; 0x01]%Z = Err (UnknownKind 5) ∧
  u16_to_be_bytes (header_bits Last 0xA7F) = [0x3A; 0x7F]%Z.
Proof.
  assert (Hb : byte_ok 0x4A ∧ byte_ok 0x7F ∧ byte_ok 0x50 ∧ byte_ok 0x01) by (unfold byte_ok; lia).
  assert (Ht : type_ok 0xA7F) by (unfold type_ok, TYPE_MASK; lia).
  destruct Hb as (H4 & H7 & H5 & H1). split; [|split].
  - exact (proj1 (packet_header_wire_format _ _ [1]%Z Last _ H4 H7 Ht)).
  - exact (proj1 (packet_header_wire_format _ _ [] Last _ H5 H1 Ht)).
  - exact (proj2 (packet_header_wire_format _ _ [] Last _ H5 H1 Ht)).
Defined.

(** C8: the sender's builder and the receiver's reader move in step.  For
    every sequence of [prepare]/[pack]/[abort] calls (failed calls
    included) that does not abort a message before its first packet, every
    packet the builder emits is accepted by a fresh reader fed in the same
    order, and decodes to the header and payload it was built from. *)
Theorem builder_reader_in_step ops :
  clean_ops ops PacketBuilder.new = true →
  ∃ hs r, read_all (run_ops ops PacketBuilder.new).1.*2 PacketReader.new = (Ok hs, r) ∧
          (run_ops ops PacketBuilder.new).1.*2
            = zip_with encode_packet hs (run_ops ops PacketBuilder.new).1.*1 ∧
          in_step (run_ops ops PacketBuilder.new).2 r.
Proof.
  intros Hc. apply run_ops_in_step; [done| |done].
  by unfold builder_wf, type_ok, TYPE_MASK.
Qed.

Lemma builder_reader_in_step_witness :
  ∃ hs r, read_all (run_ops [OpPrepare 5; OpPack [1]%Z false; OpPrepare 6; OpPack [] false;
                             OpAbort; OpPrepare 7; OpPack [2]%Z true; OpAbort]
                     PacketBuilder.new).1.*2 PacketReader.new = (Ok hs, r) ∧ length hs = 4.
Proof.
  destruct (builder_reader_in_step
    [OpPrepare 5; OpPack [1]%Z false; OpPrepare 6; OpPack [] false;
     OpAbort; OpPrepare 7; OpPack [2]%Z true; OpAbort]) as (hs & r & H & _).
  { reflexivity. }
  exists hs, r. split; [exact H|]. vm_compute in H. injection H as <- _. reflexivity.
Defined.

(** C9: the reader accepts exactly the documented packet grammar.  A list of
    well-formed packets is read without error from a fresh reader, leaving
    no message open, if and only if its headers form a sequence of
    messages [Sole] or [First Mid* (Last | Abort)] of one type each. *)
Theorem reader_language raws hs :
  Forall2 (λ raw h, parse_header raw = Ok h) raws hs →
  (∃ r, read_all raws PacketReader.new = (Ok hs, r) ∧ PacketReader.in_progress r = false)
  ↔ message_stream hs.
Proof.
  intros HF. split.
  - intros (r & Hread & Hr). apply read_all_accepted in Hread; [|done].
    by apply (accepted_message_stream _ _ _ Hread Hr).
  - intros Hms. destruct (message_stream_accepted _ Hms PacketReader.new eq_refl) as (r & Ha & Hr).
    exists r. split; [|done]. by apply read_all_accepted.
Qed.

Lemma reader_language_witness :
  message_stream [{| kind := First; msg_type := 5 |}; {| kind := Mid; msg_type := 5 |};
                  {| kind := Last; msg_type := 5 |}; {| kind := Sole; msg_type := 9 |}].
Proof.
  apply (reader_language [[0x10; 5]; [0x20; 5; 77]; [0x30; 5]; [0; 9]]%Z).
  - repeat constructor.
  - eexists. split; vm_compute; reflexivity.
Defined.

(** Reading is total and transactional.  Whatever bytes arrive,
    [PacketReader::read] returns a header or an error and never panics; on
    an error the reader is left exactly as it was, on success it is in the
    state the header prescribes; and the state invariant (12-bit type,
    type 0 while no message is open) holds after any sequence of packets. *)
Theorem reader_total_and_transactional raws raw res r :
  read_all raws PacketReader.new = (res, r) →
  reader_wf r ∧
  ((∃ h, PacketReader.read raw r = (Ok h, reader_next h r) ∧ accepts h r) ∨
   (∃ e, PacketReader.read raw r = (Err e, r))).
Proof.
  intros H. split; [exact (read_all_wf _ _ _ _ reader_wf_new H)|].
  destruct (read_result raw r) as [[h Hh]|]; [left|by right].
  exists h. split; [done|]. by apply read_ok_inv in Hh as [? _].
Qed.

Lemma reader_total_and_transactional_witness :
  reader_wf {| PacketReader.in_progress := true; PacketReader.msg_type := 5 |}.
Proof.
  apply (reader_total_and_transactional [[0x10; 5]; [0x20; 6]]%Z []
    (Err (MessageTypeChange 5 6)) _). vm_compute. reflexivity.
Defined.

(** C36: aborting a prepared message before any packet of it was sent emits an
    [Abort] packet the peer rejects.  [abort] emits a packet whenever a
    message is in progress, also when the peer has seen nothing of it; a
    peer that is between messages answers [MissingMessageStart]. *)
Theorem abort_before_first_packet_rejected ty b b1 r :
  type_ok ty → PacketBuilder.in_progress b = false →
  PacketBuilder.prepare ty b = (Ok tt, b1) → PacketReader.in_progress r = false →
  ∃ raw b2, PacketBuilder.abort b1 = (Some raw, b2) ∧
            PacketReader.read raw r = (Err (MissingMessageStart ty), r).
Proof.
  intros Hty Hb Hp Hr. rewrite prepare_idle in Hp by done. simplify_eq.
  rewrite abort_open by done. eexists _, _. split; [done|].
  rewrite (read_parsed _ {| kind := Abort; msg_type := ty |}); [|by apply parse_encode].
  simpl. by rewrite Hr.
Qed.

Lemma abort_before_first_packet_rejected_witness :
  ∃ raw b2, PacketBuilder.abort
              {| PacketBuilder.in_progress := true; PacketBuilder.is_first := true;
                 PacketBuilder.msg_type := 9; PacketBuilder.buf := [] |} = (Some raw, b2) ∧
            PacketReader.read raw PacketReader.new
              = (Err (MissingMessageStart 9), PacketReader.new).
Proof.
  apply (abort_before_first_packet_rejected 9 PacketBuilder.new);
    [unfold type_ok, TYPE_MASK; lia | reflexivity | reflexivity | reflexivity].
Defined.
