(* ===== verification/Interfaces.v ===== *)
(** * Interfaces of the crates snowpack is built on

    One operations class per third-party component, with the signatures the
    code uses, and classes of laws stating the documented behaviour the code
    relies on:
    - tokio's [AsyncRead]/[AsyncWrite] extension methods,
    - snow's [HandshakeState] and [TransportState],
    - ed25519-dalek, hex, yatlv and the serde data formats.
    Mutable borrows ([&mut self], [&mut [u8]]) are passed in and returned.
    The models of snowpack take the operations as parameters; only theorems
    mention the laws. *)

From S2P Require Import Prelude.

(** Errors of the environment.  snow's error values are opaque to snowpack. *)
Inductive IoError : Set := UnexpectedEof | IoOther (code : Z).
Inductive SnowError : Set := SnowErr (code : Z).

#[export] Instance IoError_eq_dec : EqDecision IoError.
Proof. solve_decision. Defined.
#[export] Instance SnowError_eq_dec : EqDecision SnowError.
Proof. solve_decision. Defined.

(** ** tokio: byte streams *)

(** [AsyncWriteExt::write_all] and [flush]. *)
Class AsyncWrite (W : Type) : Type := {
  write_all : bytes → W → outcome IoError () * W;
  flush : W → outcome IoError () * W;
}.

(** [AsyncReadExt::read_u16], [read_exact] (which returns the caller's
    buffer, filled) and [read] (which returns the byte count and the buffer). *)
Class AsyncRead (R : Type) : Type := {
  read_u16 : R → outcome IoError Z * R;
  read_exact : bytes → R → outcome IoError () * bytes * R;
  read : bytes → R → outcome IoError nat * bytes * R;
}.

(** A writer: [written w] is everything the peer will get; a [healthy] writer
    accepts every write. *)
Class WriterLaws (W : Type) `{AsyncWrite W} (written : W → bytes) (healthy : W → Prop) : Prop := {
  write_all_ok : ∀ b w, healthy w → ∃ w', write_all b w = (Ok tt, w') ∧
                        written w' = written w ++ b ∧ healthy w';
  flush_ok : ∀ w, healthy w → ∃ w', flush w = (Ok tt, w') ∧
                  written w' = written w ∧ healthy w';
}.

(** An unbuffered writer that may fail at any moment: a failed [write_all]
    has handed over some unspecified part of the data. *)
Class FaultyWriterLaws (W : Type) `{AsyncWrite W} (written : W → bytes) : Prop := {
  write_all_any : ∀ b w, ∃ r w' k, write_all b w = (r, w') ∧
      written w' = written w ++ take k b ∧ (r = Ok tt ∧ k = length b ∨ ∃ e, r = Err e);
  flush_any : ∀ w, ∃ r w', flush w = (r, w') ∧ written w' = written w ∧
      (r = Ok tt ∨ ∃ e, r = Err e);
}.

(** A reader: [incoming r] is everything that will still arrive before the
    stream is closed. *)
Class ReaderLaws (R : Type) `{AsyncRead R} (incoming : R → bytes) : Prop := {
  read_u16_ok : ∀ r b0 b1 rest, incoming r = b0 :: b1 :: rest →
      ∃ r', read_u16 r = (Ok (u16_from_be_bytes b0 b1), r') ∧ incoming r' = rest;
  read_exact_ok : ∀ r buf, length buf ≤ length (incoming r) →
      ∃ r', read_exact buf r = (Ok tt, take (length buf) (incoming r), r') ∧
            incoming r' = drop (length buf) (incoming r);
  read_u16_eof : ∀ r, length (incoming r) < 2 → ∃ r', read_u16 r = (Err UnexpectedEof, r');
  read_exact_eof : ∀ r buf, length (incoming r) < length buf →
      ∃ buf' r', read_exact buf r = (Err UnexpectedEof, buf', r');
  read_ok : ∀ r buf, ∃ n buf' r', read buf r = (Ok n, buf', r') ∧
      n ≤ length buf ∧ n ≤ length (incoming r) ∧ length buf' = length buf ∧
      take n buf' = take n (incoming r) ∧ incoming r' = drop n (incoming r) ∧
      (n = 0 → buf = [] ∨ incoming r = []);
  read_u16_consumes : ∀ r x r', read_u16 r = (x, r') → ∃ k, incoming r' = drop k (incoming r);
  read_exact_consumes : ∀ r buf x buf' r', read_exact buf r = (x, buf', r') →
      length buf' = length buf ∧ ∃ k, incoming r' = drop k (incoming r);
}.

(** A source that is read to its end, in whatever portions: after [incoming r]
    it ends, or fails with the error [fails r]. *)
Class SourceLaws (R : Type) `{AsyncRead R} (incoming : R → bytes) (fails : R → option IoError)
    : Prop := {
  source_read : ∀ r buf, buf ≠ [] →
      let '(x, buf', r') := read buf r in
      length buf' = length buf ∧
      match x with
      | Ok n => n ≤ length buf ∧ n ≤ length (incoming r) ∧ take n buf' = take n (incoming r) ∧
          incoming r' = drop n (incoming r) ∧ fails r' = fails r ∧
          (n = 0 → incoming r = [] ∧ fails r = None)
      | Err e => incoming r = [] ∧ fails r = Some e
      | _ => False
      end;
}.

(** A stream is a source that ends. *)
#[export] Instance reader_source (R : Type) `{AsyncRead R} (incoming : R → bytes)
    `{!ReaderLaws R incoming} : SourceLaws R incoming (λ _, None).
Proof.
  split. intros r buf Hbuf. destruct (read_ok r buf) as (n & b & r' & -> & ? & ? & ? & ? & ? & Hz).
  split_and!; try done. intros Hn. by destruct (Hz Hn).
Qed.

(** A reader that may also fail at any moment, with any error: a read either
    gives the bytes that come next, or fails having consumed some of them. *)
Class FaultyReaderLaws (R : Type) `{AsyncRead R} (incoming : R → bytes) : Prop := {
  read_u16_any : ∀ r,
      match read_u16 r with
      | (Ok x, r') => ∃ b0 b1, incoming r = b0 :: b1 :: incoming r' ∧ x = u16_from_be_bytes b0 b1
      | (Err _, r') => ∃ k, incoming r' = drop k (incoming r)
      | _ => False
      end;
  read_exact_any : ∀ r buf,
      let '(x, buf', r') := read_exact buf r in
      length buf' = length buf ∧
      match x with
      | Ok _ => incoming r = buf' ++ incoming r'
      | Err _ => ∃ k, incoming r' = drop k (incoming r)
      | _ => False
      end;
}.

(** A reader that only fails at the end of its stream is one. *)
#[export] Instance reader_faulty (R : Type) `{AsyncRead R} (incoming : R → bytes)
    `{!ReaderLaws R incoming} : FaultyReaderLaws R incoming.
Proof.
  split.
  - intros r. destruct (read_u16 r) as [x r'] eqn:Hr.
    destruct (read_u16_consumes _ _ _ Hr) as [k Hk].
    destruct (incoming r) as [|b0 [|b1 rest]] eqn:Hin.
    1,2: destruct (read_u16_eof r) as [r1 Hr1]; [rewrite Hin; cbn; lia|];
      rewrite Hr in Hr1; simplify_eq; by exists k.
    destruct (read_u16_ok r _ _ _ Hin) as (r1 & Hr1 & Hin1). rewrite Hr in Hr1. simplify_eq.
    by exists b0, b1.
  - intros r buf. destruct (read_exact buf r) as [[x buf'] r'] eqn:Hr.
    destruct (read_exact_consumes _ _ _ _ _ Hr) as [Hl [k Hk]]. split; [done|].
    destruct (decide (length buf ≤ length (incoming r))) as [Hle|].
    + destruct (read_exact_ok r buf Hle) as (r1 & Hr1 & Hin1). rewrite Hr in Hr1. simplify_eq.
      by rewrite Hin1, take_drop.
    + destruct (read_exact_eof r buf) as (b1 & r1 & Hr1); [lia|]. rewrite Hr in Hr1. simplify_eq.
      by exists k.
Qed.

(** A stream that is read and written through one object, and
    [tokio::io::split], which hands out its two halves. *)
Class SplitStream (S R W : Type) : Type := { split : S → R * W }.

(** The two directions of a stream do not disturb each other, and splitting
    keeps both as they are. *)
Class DuplexLaws (S R W : Type)
    `{AsyncRead S, AsyncWrite S, SplitStream S R W, AsyncRead R, AsyncWrite W}
    (incoming : S → bytes) (written : S → bytes) (healthy : S → Prop)
    (r_incoming : R → bytes) (w_written : W → bytes) (w_healthy : W → Prop) : Prop := {
  write_keeps_incoming : ∀ b s r s', write_all b s = (r, s') → incoming s' = incoming s;
  flush_keeps_incoming : ∀ s r s', flush s = (r, s') → incoming s' = incoming s;
  read_u16_keeps_written : ∀ s r s', read_u16 s = (r, s') →
      written s' = written s ∧ (healthy s → healthy s');
  read_exact_keeps_written : ∀ buf s r buf' s', read_exact buf s = (r, buf', s') →
      written s' = written s ∧ (healthy s → healthy s');
  split_keeps : ∀ s r w, split s = (r, w) →
      r_incoming r = incoming s ∧ w_written w = written s ∧ (healthy s → w_healthy w);
}.

(** ** snow: the transport phase *)

(** [TransportState::write_message]/[read_message]: payload, output buffer,
    state; they return the number of bytes put in the buffer. *)
Class TransportState (T : Type) : Type := {
  write_message : bytes → bytes → T → outcome SnowError nat * bytes * T;
  read_message : bytes → bytes → T → outcome SnowError nat * bytes * T;
}.

(** [paired a b]: what [a] encrypts next is what [b] decrypts next.  Each
    message adds a 16-byte tag and fits in 65535 bytes; the two directions
    of a session are independent; [nonces_left a] messages can still be
    encrypted before the 64-bit nonce is exhausted. *)
Class TransportLaws (T : Type) `{TransportState T}
    (paired : T → T → Prop) (nonces_left : T → nat) : Prop := {
  write_message_len : ∀ p buf t n buf' t', write_message p buf t = (Ok n, buf', t') →
      n = length p + 16 ∧ n ≤ Z.to_nat 65535 ∧ n ≤ length buf;
  write_message_buf : ∀ p buf t r buf' t', write_message p buf t = (r, buf', t') →
      length buf' = length buf ∧ r ≠ Panic ∧ r ≠ Pending;
  write_message_total : ∀ p buf t,
      length p + 16 ≤ Z.to_nat 65535 → length p + 16 ≤ length buf → 0 < nonces_left t →
      ∃ n buf' t', write_message p buf t = (Ok n, buf', t') ∧ nonces_left t = S (nonces_left t');
  read_message_len : ∀ c buf t n buf' t', read_message c buf t = (Ok n, buf', t') →
      n ≤ length buf;
  read_message_buf : ∀ c buf t r buf' t', read_message c buf t = (r, buf', t') →
      length buf' = length buf ∧ r ≠ Panic ∧ r ≠ Pending;
  read_back : ∀ a b p buf n buf' a' rbuf, paired a b →
      write_message p buf a = (Ok n, buf', a') → n ≤ length rbuf →
      ∃ rbuf' b', read_message (take n buf') rbuf b = (Ok (length p), rbuf', b') ∧
                  take (length p) rbuf' = p ∧ paired a' b';
  write_other_direction : ∀ a b p buf r buf' a', paired b a →
      write_message p buf a = (r, buf', a') → paired b a';
  read_other_direction : ∀ a b c buf r buf' b', paired b a →
      read_message c buf b = (r, buf', b') → paired b' a;
  read_keeps_nonces : ∀ c buf t r buf' t', read_message c buf t = (r, buf', t') →
      nonces_left t' = nonces_left t;
}.

(** ** snow: the XX handshake *)

Class SnowHandshake (HS T : Type) : Type := {
  build_initiator : bytes → outcome SnowError HS;
  build_responder : bytes → outcome SnowError HS;
  hs_write_message : bytes → bytes → HS → outcome SnowError nat * bytes * HS;
  hs_read_message : bytes → bytes → HS → outcome SnowError nat * bytes * HS;
  get_remote_static : HS → option bytes;
  into_transport_mode : HS → outcome SnowError T;
}.

(** [xx k ki kr hi hr]: initiator [hi] (private key [ki]) and responder [hr]
    (private key [kr]) have exchanged the first [k] messages of one XX
    handshake. Messages carry at most 96 bytes besides the payload. *)
Class SnowHandshakeLaws (HS T : Type) `{SnowHandshake HS T}
    (paired : T → T → Prop) (nonces_left : T → nat) (public_of : bytes → bytes)
    (xx : nat → bytes → bytes → HS → HS → Prop) : Prop := {
  xx_build : ∀ ki kr hi hr, build_initiator ki = Ok hi → build_responder kr = Ok hr →
      xx 0 ki kr hi hr;
  xx_msg1 : ∀ ki kr hi hr p buf n buf' hi' rbuf, xx 0 ki kr hi hr →
      hs_write_message p buf hi = (Ok n, buf', hi') → n ≤ length rbuf →
      ∃ rbuf' hr', hs_read_message (take n buf') rbuf hr = (Ok (length p), rbuf', hr') ∧
                   take (length p) rbuf' = p ∧ xx 1 ki kr hi' hr';
  xx_msg2 : ∀ ki kr hi hr p buf n buf' hr' rbuf, xx 1 ki kr hi hr →
      hs_write_message p buf hr = (Ok n, buf', hr') → n ≤ length rbuf →
      ∃ rbuf' hi', hs_read_message (take n buf') rbuf hi = (Ok (length p), rbuf', hi') ∧
                   take (length p) rbuf' = p ∧ xx 2 ki kr hi' hr' ∧
                   get_remote_static hi' = Some (public_of kr);
  xx_msg3 : ∀ ki kr hi hr p buf n buf' hi' rbuf, xx 2 ki kr hi hr →
      hs_write_message p buf hi = (Ok n, buf', hi') → n ≤ length rbuf →
      ∃ rbuf' hr', hs_read_message (take n buf') rbuf hr = (Ok (length p), rbuf', hr') ∧
                   take (length p) rbuf' = p ∧ xx 3 ki kr hi' hr' ∧
                   get_remote_static hr' = Some (public_of ki);
  xx_write_total : ∀ k ki kr hi hr p buf, xx k ki kr hi hr → k < 3 →
      length p + 96 ≤ Z.to_nat 65535 → length p + 96 ≤ length buf →
      ∃ n buf' h', hs_write_message p buf (if decide (k = 1) then hr else hi) = (Ok n, buf', h');
  xx_done : ∀ ki kr hi hr, xx 3 ki kr hi hr →
      ∃ ti tr, into_transport_mode hi = Ok ti ∧ into_transport_mode hr = Ok tr ∧
               paired ti tr ∧ paired tr ti;
  fresh_nonces : ∀ h t, into_transport_mode h = Ok t →
      Z.of_nat (nonces_left t) = (2 ^ 64 - 1)%Z;
  hs_build_result : ∀ k, (build_initiator k ≠ Panic ∧ build_initiator k ≠ Pending) ∧
      build_responder k ≠ Panic ∧ build_responder k ≠ Pending;
  into_transport_result : ∀ h, into_transport_mode h ≠ Panic ∧ into_transport_mode h ≠ Pending;
  hs_write_buf : ∀ p buf h r buf' h', hs_write_message p buf h = (r, buf', h') →
      length buf' = length buf ∧ r ≠ Panic ∧ r ≠ Pending;
  hs_write_keeps_remote : ∀ p buf h r buf' h', hs_write_message p buf h = (r, buf', h') →
      get_remote_static h' = get_remote_static h;
  hs_write_len : ∀ p buf h n buf' h', hs_write_message p buf h = (Ok n, buf', h') →
      n ≤ Z.to_nat 65535 ∧ n ≤ length buf;
  hs_read_len : ∀ c buf h r buf' h', hs_read_message c buf h = (r, buf', h') →
      length buf' = length buf ∧ r ≠ Panic ∧ r ≠ Pending ∧ (∀ n, r = Ok n → n ≤ length buf);
}.

(** ** ed25519-dalek *)

Class Ed25519 (SK VK Sig : Type) : Type := {
  signing_key_from_bytes : bytes → SK;
  signing_key_to_bytes : SK → bytes;
  verifying_key : SK → VK;
  dalek_sign : SK → bytes → Sig;
  signature_to_bytes : Sig → bytes;
  signature_from_slice : bytes → outcome () Sig;
  verifying_key_from_bytes : bytes → outcome () VK;
  verifying_key_as_bytes : VK → bytes;
  verify_strict : VK → bytes → Sig → outcome () ();
}.

Class Ed25519Laws (SK VK Sig : Type) `{Ed25519 SK VK Sig} : Prop := {
  signature_length : ∀ s, length (signature_to_bytes s) = 64;
  signature_round_trip : ∀ s, signature_from_slice (signature_to_bytes s) = Ok s;
  signature_from_slice_result : ∀ b, signature_from_slice b = Err tt ∨
      ∃ s, signature_from_slice b = Ok s;
  signature_correct : ∀ sk m, verify_strict (verifying_key sk) m (dalek_sign sk m) = Ok tt;
  verifying_key_round_trip : ∀ vk, verifying_key_from_bytes (verifying_key_as_bytes vk) = Ok vk;
  verifying_key_length : ∀ vk, length (verifying_key_as_bytes vk) = 32;
  verifying_key_bytes : ∀ vk, bytes_ok (verifying_key_as_bytes vk);
  verify_no_panic : ∀ vk m s, verify_strict vk m s = Ok tt ∨ verify_strict vk m s = Err tt;
  signing_key_round_trip : ∀ sk, signing_key_from_bytes (signing_key_to_bytes sk) = sk;
  signing_key_length : ∀ sk, length (signing_key_to_bytes sk) = 32;
}.

(** ** hex *)

Class Hex : Type := {
  hex_encode : bytes → string;
  hex_decode : string → outcome () bytes;
}.

Class HexLaws `{Hex} : Prop := {
  hex_round_trip : ∀ b, bytes_ok b → hex_decode (hex_encode b) = Ok b;
  hex_decode_result : ∀ s, hex_decode s = Err tt ∨ ∃ b, hex_decode s = Ok b;
}.

(** ** yatlv *)

Class Yatlv (FB FP : Type) : Type := {
  fb_new : FB;
  fb_add_data : Z → bytes → FB → FB;
  fb_finish : FB → bytes;
  fp_new : bytes → outcome () FP;
  fp_get_data : Z → FP → outcome () bytes;
  fp_get_optional_data : Z → FP → option bytes;
}.

(** [fields] is the list of (tag, value) pairs added so far.  A parsed frame
    gives back the first value of each tag that was added, for values whose
    length fits the format's 32-bit length field. *)
Class YatlvLaws (FB FP : Type) `{Yatlv FB FP} (fields : FB → list (Z * bytes)) : Prop := {
  fb_new_fields : fields fb_new = [];
  fb_add_data_fields : ∀ tag v fb, fields (fb_add_data tag v fb) = fields fb ++ [(tag, v)];
  fp_new_result : ∀ b, fp_new b = Err tt ∨ ∃ fp, fp_new b = Ok fp;
  fp_get_data_result : ∀ tag fp, fp_get_data tag fp = Err tt ∨ ∃ v, fp_get_data tag fp = Ok v;
  fp_new_ok : ∀ fb, Forall (λ f, (Z.of_nat (length f.2) < 2 ^ 32)%Z) (fields fb) →
      ∃ fp, fp_new (fb_finish fb) = Ok fp ∧
      (∀ tag v, snd <$> list_find (λ f, f.1 = tag) (fields fb) = Some (tag, v) →
                fp_get_data tag fp = Ok v ∧ fp_get_optional_data tag fp = Some v) ∧
      (∀ tag, list_find (λ f, f.1 = tag) (fields fb) = None →
              fp_get_data tag fp = Err tt ∧ fp_get_optional_data tag fp = None);
}.

(** ** serde data formats *)

(** What snowpack's hand-written [Serialize]/[Deserialize] impls ask of a
    format: its human-readability and the impls of [String], [[u8; 32]] and
    [[u8]]/[Vec<u8>]. *)
Class Serde (V : Type) : Type := {
  is_human_readable : bool;
  ser_string : string → V;
  de_string : V → outcome () string;
  ser_array32 : bytes → V;
  de_array32 : V → outcome () bytes;
  ser_bytes : bytes → V;
  de_bytes : V → outcome () bytes;
}.

Class SerdeLaws (V : Type) `{Serde V} : Prop := {
  string_round_trip : ∀ s, de_string (ser_string s) = Ok s;
  array32_round_trip : ∀ b, length b = 32 → de_array32 (ser_array32 b) = Ok b;
  bytes_round_trip : ∀ b, de_bytes (ser_bytes b) = Ok b;
  array32_length : ∀ v b, de_array32 v = Ok b → length b = 32;
}.
