(* ===== verification/Doubles.v ===== *)
(** * Concrete instances of the third-party interfaces

    Small executable stand-ins for tokio, snow, ed25519-dalek, hex, yatlv and
    serde, each with a proof that it satisfies the laws of [Interfaces].
    They carry no security: they exist so that every theorem that assumes
    the laws can be instantiated and evaluated. *)

From Stdlib Require Import Ascii String.
From S2P Require Import Prelude Interfaces.

(** ** Byte pipes *)

(** A reader that hands out at most [pipe_step + 1] bytes per [read]. *)
Record Pipe : Set := { pipe_data : bytes; pipe_step : nat }.

#[export] Instance pipe_read : AsyncRead Pipe := {|
  read_u16 r := match pipe_data r with
                | b0 :: b1 :: rest =>
                    (Ok (u16_from_be_bytes b0 b1), {| pipe_data := rest; pipe_step := pipe_step r |})
                | _ => (Err UnexpectedEof, {| pipe_data := []; pipe_step := pipe_step r |})
                end;
  read_exact buf r :=
    if decide (length buf ≤ length (pipe_data r))
    then (Ok tt, take (length buf) (pipe_data r),
          {| pipe_data := drop (length buf) (pipe_data r); pipe_step := pipe_step r |})
    else (Err UnexpectedEof, buf, {| pipe_data := []; pipe_step := pipe_step r |});
  read buf r :=
    let n := Nat.min (S (pipe_step r)) (Nat.min (length buf) (length (pipe_data r))) in
    (Ok n, take n (pipe_data r) ++ drop n buf,
     {| pipe_data := drop n (pipe_data r); pipe_step := pipe_step r |});
|}.

#[export] Instance pipe_reader_laws : ReaderLaws Pipe pipe_data.
Proof.
  split.
  - intros [d s] b0 b1 rest Hd. cbn in *. rewrite Hd. eexists; split; done.
  - intros r buf Hle. cbn. rewrite decide_True by done. eexists; split; done.
  - intros [d s] Hlt. cbn in *. destruct d as [|? [|? ?]]; cbn in *; [eauto..|lia].
  - intros r buf Hlt. cbn. rewrite decide_False by lia. eauto.
  - intros r buf. cbn [read pipe_read]. cbv zeta.
    set (n := Nat.min _ _). eexists _, _, _. split; [done|]. split_and!; try (unfold n; lia).
    + rewrite length_app, length_take, length_drop. unfold n. lia.
    + rewrite take_app_le, take_take by (rewrite length_take; unfold n; lia). f_equal. lia.
    + done.
    + intros Hn. destruct buf, (pipe_data r); auto. unfold n in Hn. simpl in Hn. lia.
  - intros [[|b0 [|b1 d]] st] x r'; cbn; intros [= <- <-]; [by exists 0|by exists 1|by exists 2].
  - intros r buf x buf' r'. cbn. destruct (decide _); intros [= <- <- <-]; cbn.
    + rewrite length_take. split; [lia|]. by eexists.
    + split; [done|]. exists (length (pipe_data r)). by rewrite drop_all.
Qed.

(** A writer that remembers what it was given. *)
Record Sink : Set := { sink_data : bytes }.

#[export] Instance sink_write : AsyncWrite Sink := {|
  write_all b w := (Ok tt, {| sink_data := sink_data w ++ b |});
  flush w := (Ok tt, w);
|}.

#[export] Instance sink_writer_laws : WriterLaws Sink sink_data (λ _, True).
Proof. split; intros; eexists; split_and!; done. Qed.

#[export] Instance sink_faulty_laws : FaultyWriterLaws Sink sink_data.
Proof.
  split.
  - intros b w. eexists _, _, (length b). split; [done|]. split; [|by left]. cbn. by rewrite take_ge.
  - intros w. eexists _, _. split; [done|]. by split; [|left].
Qed.

(** A writer that fails once its room is used up. *)
Record Cut : Set := { cut_data : bytes; cut_room : nat }.

#[export] Instance cut_write : AsyncWrite Cut := {|
  write_all b w :=
    let w' := {| cut_data := cut_data w ++ take (cut_room w) b; cut_room := cut_room w - length b |} in
    if decide (length b ≤ cut_room w) then (Ok tt, w') else (Err (IoOther 32), w');
  flush w := (Ok tt, w);
|}.

#[export] Instance cut_faulty_laws : FaultyWriterLaws Cut cut_data.
Proof.
  split.
  - intros b w. cbn. destruct (decide _) as [Hle|].
    + eexists _, _, (length b). split; [done|]. split; [|by left]. cbn.
      by rewrite !take_ge by lia.
    + eexists _, _, (cut_room w). split; [done|]. split; [done|]. right. by eexists.
  - intros w. eexists _, _. split; [done|]. by split; [|left].
Qed.

(** A reader that fails after a number of calls. *)
Record Flaky : Set := { flaky_pipe : Pipe; flaky_calls : nat }.

Definition flaky_next (p : Pipe) (r : Flaky) : Flaky :=
  {| flaky_pipe := p; flaky_calls := pred (flaky_calls r) |}.

#[export] Instance flaky_read : AsyncRead Flaky := {|
  read_u16 r := match flaky_calls r with
                | O => (Err (IoOther 104), r)
                | _ => let '(x, p) := read_u16 (flaky_pipe r) in (x, flaky_next p r)
                end;
  read_exact buf r := match flaky_calls r with
                      | O => (Err (IoOther 104), buf, r)
                      | _ => let '(x, buf', p) := read_exact buf (flaky_pipe r) in
                             (x, buf', flaky_next p r)
                      end;
  read buf r := match flaky_calls r with
                | O => (Err (IoOther 104), buf, r)
                | _ => let '(x, buf', p) := read buf (flaky_pipe r) in (x, buf', flaky_next p r)
                end;
|}.

Definition flaky_data (r : Flaky) : bytes := pipe_data (flaky_pipe r).

#[export] Instance flaky_faulty_laws : FaultyReaderLaws Flaky flaky_data.
Proof.
  split.
  - intros [p [|n]]; unfold flaky_data; cbn; [by exists 0|].
    pose proof (read_u16_any p) as Hp. cbn in Hp. by repeat case_match.
  - intros [p [|n]] buf; unfold flaky_data; cbn; [by split; [|exists 0]|].
    pose proof (read_exact_any p buf) as Hp. cbn in Hp. by repeat case_match.
Qed.

(** A source that ends in an error instead. *)
Record Broken : Set := { broken_pipe : Pipe }.

#[export] Instance broken_read : AsyncRead Broken := {|
  read_u16 r := let '(x, p) := read_u16 (broken_pipe r) in (x, {| broken_pipe := p |});
  read_exact buf r := let '(x, buf', p) := read_exact buf (broken_pipe r) in
                      (x, buf', {| broken_pipe := p |});
  read buf r := let '(x, buf', p) := read buf (broken_pipe r) in
                match x with
                | Ok O => (Err (IoOther 5), buf', {| broken_pipe := p |})
                | _ => (x, buf', {| broken_pipe := p |})
                end;
|}.

Definition broken_data (r : Broken) : bytes := pipe_data (broken_pipe r).

#[export] Instance broken_source : SourceLaws Broken broken_data (λ _, Some (IoOther 5)).
Proof.
  split. intros r buf Hbuf. unfold broken_data. cbn [read broken_read].
  pose proof (source_read (broken_pipe r) buf Hbuf) as Hp.
  destruct (read buf (broken_pipe r)) as [[[[|n]|e| |] b] p]; destruct Hp as [Hl Hp];
    (split; [done|]); [| |by destruct Hp|done..].
  - destruct Hp as (_ & _ & _ & _ & _ & Hz). by destruct (Hz eq_refl).
  - destruct Hp as (? & ? & ? & ? & _). by split_and!.
Qed.

(** A duplex stream: both halves in one object. *)
Record Duplex : Set := { dx_in : Pipe; dx_out : Sink }.

#[export] Instance duplex_read : AsyncRead Duplex := {|
  read_u16 d := let '(r, p) := read_u16 (dx_in d) in (r, {| dx_in := p; dx_out := dx_out d |});
  read_exact buf d := let '(r, buf', p) := read_exact buf (dx_in d) in
                      (r, buf', {| dx_in := p; dx_out := dx_out d |});
  read buf d := let '(r, buf', p) := read buf (dx_in d) in
                (r, buf', {| dx_in := p; dx_out := dx_out d |});
|}.

#[export] Instance duplex_write : AsyncWrite Duplex := {|
  write_all b d := let '(r, w) := write_all b (dx_out d) in (r, {| dx_in := dx_in d; dx_out := w |});
  flush d := let '(r, w) := flush (dx_out d) in (r, {| dx_in := dx_in d; dx_out := w |});
|}.

#[export] Instance duplex_split : SplitStream Duplex Pipe Sink := {| split d := (dx_in d, dx_out d) |}.

Definition dx_incoming (d : Duplex) : bytes := pipe_data (dx_in d).
Definition dx_written (d : Duplex) : bytes := sink_data (dx_out d).

#[export] Instance duplex_reader_laws : ReaderLaws Duplex dx_incoming.
Proof.
  split; unfold dx_incoming; cbn [read_u16 read_exact read duplex_read].
  - intros r b0 b1 rest Hr. destruct (read_u16_ok (dx_in r) _ _ _ Hr) as (p & -> & Hp). by eexists.
  - intros r buf Hr. destruct (read_exact_ok (dx_in r) buf Hr) as (p & -> & Hp). by eexists.
  - intros r Hr. destruct (read_u16_eof (dx_in r) Hr) as (p & ->). by eexists.
  - intros r buf Hr. destruct (read_exact_eof (dx_in r) buf Hr) as (b & p & ->). by eexists _, _.
  - intros r buf. destruct (read_ok (dx_in r) buf) as (n & b & p & -> & Hp).
    exists n, b. by eexists.
  - intros r x r'. destruct (read_u16 (dx_in r)) as [y p] eqn:Hy. intros [= <- <-].
    exact (read_u16_consumes _ _ _ Hy).
  - intros r buf x buf' r'. destruct (read_exact buf (dx_in r)) as [[y b] p] eqn:Hy.
    intros [= <- <- <-]. exact (read_exact_consumes _ _ _ _ _ Hy).
Qed.

#[export] Instance duplex_writer_laws : WriterLaws Duplex dx_written (λ _, True).
Proof. split; intros; eexists; split_and!; done. Qed.

#[export] Instance duplex_laws :
  DuplexLaws Duplex Pipe Sink dx_incoming dx_written (λ _, True) pipe_data sink_data (λ _, True).
Proof.
  split.
  - by intros b s r s' [= <- <-].
  - by intros s r s' [= <- <-].
  - intros s r s'. cbn [read_u16 duplex_read]. destruct (read_u16 (dx_in s)). by intros [= <- <-].
  - intros buf s r buf' s'. cbn [read_exact duplex_read].
    destruct (read_exact buf (dx_in s)) as [[] ?]. by intros [= <- <- <-].
  - by intros s r w [= <- <-].
Qed.

(** A duplex stream that fails in both directions. *)
Record Storm : Set := { storm_in : Flaky; storm_out : Cut }.

#[export] Instance storm_read : AsyncRead Storm := {|
  read_u16 d := let '(r, p) := read_u16 (storm_in d) in (r, {| storm_in := p; storm_out := storm_out d |});
  read_exact buf d := let '(r, buf', p) := read_exact buf (storm_in d) in
                      (r, buf', {| storm_in := p; storm_out := storm_out d |});
  read buf d := let '(r, buf', p) := read buf (storm_in d) in
                (r, buf', {| storm_in := p; storm_out := storm_out d |});
|}.

#[export] Instance storm_write : AsyncWrite Storm := {|
  write_all b d := let '(r, w) := write_all b (storm_out d) in (r, {| storm_in := storm_in d; storm_out := w |});
  flush d := let '(r, w) := flush (storm_out d) in (r, {| storm_in := storm_in d; storm_out := w |});
|}.

#[export] Instance storm_split : SplitStream Storm Flaky Cut | 100 := {| split d := (storm_in d, storm_out d) |}.

Definition storm_incoming (d : Storm) : bytes := flaky_data (storm_in d).
Definition storm_written (d : Storm) : bytes := cut_data (storm_out d).

#[export] Instance storm_faulty_reader : FaultyReaderLaws Storm storm_incoming.
Proof.
  split; unfold storm_incoming; cbn [read_u16 read_exact storm_read].
  - intros r. pose proof (read_u16_any (storm_in r)) as Hp. by destruct (read_u16 (storm_in r)).
  - intros r buf. pose proof (read_exact_any (storm_in r) buf) as Hp.
    by destruct (read_exact buf (storm_in r)) as [[]].
Qed.

#[export] Instance storm_faulty_writer : FaultyWriterLaws Storm storm_written.
Proof.
  split; unfold storm_written; cbn [write_all flush storm_write].
  - intros b w. destruct (write_all_any b (storm_out w)) as (r & w' & k & -> & Hw & Hr).
    by eexists _, _, k.
  - intros w. destruct (flush_any (storm_out w)) as (r & w' & -> & Hw & Hr). by eexists _, _.
Qed.

#[export] Instance duplex_faulty_writer : FaultyWriterLaws Duplex dx_written.
Proof.
  split; unfold dx_written; cbn [write_all flush duplex_write].
  - intros b w. destruct (write_all_any b (dx_out w)) as (r & w' & k & -> & Hw & Hr).
    by eexists _, _, k.
  - intros w. destruct (flush_any (dx_out w)) as (r & w' & -> & Hw & Hr). by eexists _, _.
Qed.

(** ** Transport cipher *)

(** Two message counters; the tag is the counter and a checksum. *)
Record Counter : Set := { ctr_tx : Z; ctr_rx : Z }.

Definition checksum (p : bytes) : Z := foldl (λ h b, Z.land (h * 3 + b + 1) 4095)%Z 1%Z p.

Definition ctr_tag (n : Z) (p : bytes) : bytes := replicate 14 0%Z ++ [n; checksum p].

#[export] Instance counter_transport : TransportState Counter := {|
  write_message p buf t :=
    let c := (p ++ ctr_tag (ctr_tx t) p)%list in
    if decide (length c ≤ Z.to_nat 65535 ∧ length c ≤ length buf ∧ (ctr_tx t < 2 ^ 64 - 1)%Z)
    then (Ok (length c), write_front c buf, {| ctr_tx := ctr_tx t + 1; ctr_rx := ctr_rx t |})
    else (Err (SnowErr 1), buf, t);
  read_message c buf t :=
    let n := length c - 16 in
    if decide (16 ≤ length c ∧ n ≤ length buf ∧ drop n c = ctr_tag (ctr_rx t) (take n c))
    then (Ok n, write_front (take n c) buf, {| ctr_tx := ctr_tx t; ctr_rx := ctr_rx t + 1 |})
    else (Err (SnowErr 2), buf, t);
|}.

Definition ctr_paired (a b : Counter) : Prop := ctr_tx a = ctr_rx b.
Definition ctr_left (t : Counter) : nat := Z.to_nat (2 ^ 64 - 1 - ctr_tx t).

Lemma length_ctr_tag n p : length (ctr_tag n p) = 16.
Proof. done. Qed.

#[export] Instance counter_transport_laws : TransportLaws Counter ctr_paired ctr_left.
Proof.
  split; cbn -[Z.pow Z.to_nat ctr_tag length].
  - intros p buf t n buf' t'. rewrite length_app, length_ctr_tag. destruct (decide _); [|done].
    intros [= <- <- <-]. lia.
  - intros p buf t r buf' t'. rewrite length_app, length_ctr_tag. destruct (decide _); intros;
      simplify_eq; [|done]. split; [|done]. apply length_write_front.
    rewrite length_app, length_ctr_tag. lia.
  - intros p buf t H1 H2 H3. rewrite length_app, length_ctr_tag. unfold ctr_left in *.
    rewrite decide_True by lia. eexists _, _, _. split; [done|]. cbn -[Z.pow Z.to_nat]. lia.
  - intros c buf t n buf' t'. destruct (decide _); [|done]. intros [= <- <- <-]. lia.
  - intros c buf t r buf' t'. destruct (decide _); intros; simplify_eq; [|done]. split; [|done].
    apply length_write_front. rewrite length_take. lia.
  - intros a b p buf n buf' a' rbuf Hp. rewrite length_app, length_ctr_tag.
    destruct (decide _) as [Hd|]; [|done]. intros [= <- <- <-] Hr.
    rewrite take_write_front by (by rewrite length_app, length_ctr_tag).
    rewrite length_app, length_ctr_tag. replace (length p + 16 - 16) with (length p) by lia.
    rewrite drop_app_length, take_app_length. rewrite decide_True by (split_and!; [lia..|by rewrite Hp]).
    eexists _, _. split; [done|]. rewrite take_write_front by done. split; [done|]. unfold ctr_paired in *. cbn. lia.
  - intros a b p buf r buf' a' Hp. destruct (decide _); intros; simplify_eq; done.
  - intros a b c buf r buf' b' Hp. destruct (decide _); intros; simplify_eq; done.
  - intros c buf t r buf' t'. destruct (decide _); intros; simplify_eq; done.
Qed.

(** ** XX handshake *)

Record Xx : Set := {
  xx_initiator : bool; xx_key : bytes; xx_phase : nat; xx_remote : option bytes;
}.

(** The phases in which this side writes. *)
Definition xx_my_turn (h : Xx) : bool :=
  if xx_initiator h then bool_decide (xx_phase h = 0 ∨ xx_phase h = 2)
  else bool_decide (xx_phase h = 1).

Definition xx_step (h : Xx) (remote : option bytes) : Xx :=
  {| xx_initiator := xx_initiator h; xx_key := xx_key h; xx_phase := S (xx_phase h);
     xx_remote := remote |}.

#[export] Instance xx_handshake : SnowHandshake Xx Counter := {|
  build_initiator k :=
    if decide (length k = 32)
    then Ok {| xx_initiator := true; xx_key := k; xx_phase := 0; xx_remote := None |}
    else Err (SnowErr 3);
  build_responder k :=
    if decide (length k = 32)
    then Ok {| xx_initiator := false; xx_key := k; xx_phase := 0; xx_remote := None |}
    else Err (SnowErr 3);
  hs_write_message p buf h :=
    let c := (xx_key h ++ p)%list in
    if decide (xx_my_turn h = true ∧ length c ≤ Z.to_nat 65535 ∧ length c ≤ length buf)
    then (Ok (length c), write_front c buf, xx_step h (xx_remote h))
    else (Err (SnowErr 4), buf, h);
  hs_read_message c buf h :=
    if decide (xx_my_turn h = false ∧ xx_phase h < 3 ∧ 32 ≤ length c ∧ length c - 32 ≤ length buf)
    then (Ok (length c - 32), write_front (drop 32 c) buf,
          xx_step h (if decide (xx_phase h = 0) then None else Some (take 32 c)))
    else (Err (SnowErr 5), buf, h);
  get_remote_static h := xx_remote h;
  into_transport_mode h :=
    if decide (xx_phase h = 3) then Ok {| ctr_tx := 0; ctr_rx := 0 |} else Err (SnowErr 6);
|}.

(** The two ends of one handshake after [k] messages. *)
Definition xx_rel (k : nat) (ki kr : bytes) (hi hr : Xx) : Prop :=
  length ki = 32 ∧ length kr = 32 ∧ k ≤ 3 ∧
  hi = {| xx_initiator := true; xx_key := ki; xx_phase := k;
          xx_remote := if decide (2 ≤ k) then Some kr else None |} ∧
  hr = {| xx_initiator := false; xx_key := kr; xx_phase := k;
          xx_remote := if decide (3 ≤ k) then Some ki else None |}.

#[export] Instance xx_handshake_laws : SnowHandshakeLaws Xx Counter ctr_paired ctr_left id xx_rel.
Proof.
  assert (Hread : ∀ (key p rbuf : bytes), length key = 32 → length (key ++ p) ≤ length rbuf →
    (32 ≤ length (key ++ p) ∧ length p ≤ length rbuf) ∧
    length (key ++ p) - 32 = length p ∧ drop 32 (key ++ p) = p ∧ take 32 (key ++ p) = key).
  { intros key p rbuf Hk Hle. rewrite length_app in *.
    rewrite drop_app_length', take_app_length' by done. split_and!; (done || lia). }
  split; cbn -[Z.to_nat length write_front take drop app].
  - intros ki kr hi hr. destruct (decide _); [|done]. intros [= <-].
    destruct (decide _); [|done]. intros [= <-]. unfold xx_rel. split_and!; (done || lia).
  - intros ki kr hi hr p buf n buf' hi' rbuf (Hi & Hr & _ & -> & ->). cbn -[Z.to_nat length write_front take drop app].
    destruct (decide _); [|done]. intros [= <- <- <-] Hn.
    rewrite take_write_front by done. destruct (Hread ki p rbuf Hi Hn) as (? & -> & -> & ->).
    rewrite decide_True by (split_and!; (done || lia)). eexists _, _. split; [done|].
    split; [by rewrite take_write_front|]. unfold xx_rel. split_and!; (done || lia).
  - intros ki kr hi hr p buf n buf' hi' rbuf (Hi & Hr & _ & -> & ->). cbn -[Z.to_nat length write_front take drop app].
    destruct (decide _); [|done]. intros [= <- <- <-] Hn.
    rewrite take_write_front by done. destruct (Hread kr p rbuf Hr Hn) as (? & -> & -> & ->).
    rewrite decide_True by (split_and!; (done || lia)). eexists _, _. split; [done|].
    split; [by rewrite take_write_front|]. split; [|done]. unfold xx_rel. split_and!; (done || lia).
  - intros ki kr hi hr p buf n buf' hi' rbuf (Hi & Hr & _ & -> & ->). cbn -[Z.to_nat length write_front take drop app].
    destruct (decide _); [|done]. intros [= <- <- <-] Hn.
    rewrite take_write_front by done. destruct (Hread ki p rbuf Hi Hn) as (? & -> & -> & ->).
    rewrite decide_True by (split_and!; (done || lia)). eexists _, _. split; [done|].
    split; [by rewrite take_write_front|]. split; [|done]. unfold xx_rel. split_and!; (done || lia).
  - intros k ki kr hi hr p buf (Hi & Hr & _ & -> & ->) Hk H1 H2.
    assert (Hl : length (ki ++ p) ≤ Z.to_nat 65535 ∧ length (ki ++ p) ≤ length buf)
      by (rewrite length_app; lia).
    assert (Hl' : length (kr ++ p) ≤ Z.to_nat 65535 ∧ length (kr ++ p) ≤ length buf)
      by (rewrite length_app; lia).
    assert (Hw : ∀ h, xx_my_turn h = true → xx_key h = ki ∨ xx_key h = kr →
      ∃ n buf' h', hs_write_message p buf h = (Ok n, buf', h')).
    { intros h Ht Hkey. cbn -[Z.to_nat length write_front app].
      rewrite decide_True by (destruct Hkey as [-> | ->]; split; (done || lia)). eauto. }
    destruct k as [|[|[|?]]]; [apply Hw; auto..|lia].
  - intros ki kr hi hr (Hi & Hr & _ & -> & ->). cbn. eexists _, _. split_and!; done.
  - intros h t. destruct (decide _); [|done]. intros [= <-]. unfold ctr_left. cbn -[Z.pow Z.to_nat]. lia.
  - intros k. by destruct (decide _).
  - intros h. by destruct (decide _).
  - intros p buf h r buf' h'. destruct (decide _); intros; simplify_eq; [|done].
    split; [|done]. apply length_write_front. lia.
  - intros p buf h r buf' h'. destruct (decide _); intros; by simplify_eq.
  - intros p buf h n buf' h'. destruct (decide _); [|done]. intros [= <- <- <-]. lia.
  - intros c buf h r buf' h'. destruct (decide _); intros; simplify_eq; [|done].
    split; [|split_and!; [done..|intros; simplify_eq; lia]]. apply length_write_front.
    rewrite length_drop. lia.
Qed.

(** ** hex *)

Definition hex_digit (d : Z) : ascii :=
  match String.get (Z.to_nat d) "0123456789abcdef" with Some c => c | None => "?"%char end.

Definition hex_value (c : ascii) : option Z :=
  match String.index 0 (String c EmptyString) "0123456789abcdef" with
  | Some n => Some (Z.of_nat n)
  | None => None
  end.

Fixpoint lower_hex (b : bytes) : string :=
  match b with
  | [] => EmptyString
  | x :: b' => String (hex_digit (x / 16)) (String (hex_digit (x mod 16)) (lower_hex b'))
  end.

Fixpoint unhex (s : string) : outcome () bytes :=
  match s with
  | EmptyString => Ok []
  | String c1 (String c2 s') =>
      match hex_value c1, hex_value c2 with
      | Some hi, Some lo => map_ok (cons (hi * 16 + lo)%Z) (unhex s')
      | _, _ => Err tt
      end
  | _ => Err tt
  end.

#[export] Instance lower_hex_codec : Hex := {| hex_encode := lower_hex; hex_decode := unhex |}.

Lemma hex_value_digit d : (0 ≤ d < 16)%Z → hex_value (hex_digit d) = Some d.
Proof.
  intros Hd. assert (Hn : Z.to_nat d < 16) by lia.
  rewrite <- (Z2Nat.id d) by lia. generalize dependent (Z.to_nat d). intros n Hn.
  do 16 (destruct n as [|n]; [vm_compute; reflexivity|]). lia.
Qed.

#[export] Instance lower_hex_laws : HexLaws.
Proof.
  split.
  - cbn. intros b. induction 1 as [|x b Hx Hb IH]; [done|]. unfold byte_ok in Hx. simpl.
    rewrite !hex_value_digit, IH by (Z.to_euclidean_division_equations; lia). simpl.
    do 2 f_equal. Z.to_euclidean_division_equations. lia.
  - cbn. intros s. remember (String.length s) as n eqn:Hn. revert s Hn.
    induction (lt_wf n) as [n _ IH]. intros [|c1 [|c2 s]] ->; [by eauto|by eauto|]. simpl.
    destruct (hex_value c1), (hex_value c2); auto.
    destruct (IH (String.length s)) with s as [-> |[b ->]]; simpl; eauto.
Qed.

(** ** Signatures *)

(** A "signature" is the first 64 bytes of key and message. *)
#[export] Instance byte_ok_dec x : Decision (byte_ok x) := _ : Decision (0 ≤ x < 256)%Z.

Definition Key32 : Type := dsig (λ b : bytes, length b = 32 ∧ Forall byte_ok b).
Definition Sig64 : Type := dsig (λ b : bytes, length b = 64).

Definition norm32 (b : bytes) : bytes := (λ x, x mod 256)%Z <$> resize 32 0%Z b.

Lemma norm32_ok b : length (norm32 b) = 32 ∧ Forall byte_ok (norm32 b).
Proof.
  unfold norm32. rewrite length_fmap, length_resize. split; [done|].
  apply Forall_fmap, Forall_true. intros x. unfold byte_ok. simpl. apply Z.mod_pos_bound. lia.
Qed.

Lemma norm32_id b : length b = 32 ∧ Forall byte_ok b → norm32 b = b.
Proof.
  intros [Hl Hb]. unfold norm32. rewrite resize_all_alt by done. clear Hl.
  induction Hb as [|x b Hx Hb IH]; simpl; [done|]. f_equal; [by apply Z.mod_small|done].
Qed.

Definition key32 (b : bytes) : Key32 := dexist (norm32 b) (norm32_ok b).

Lemma length_sig64 (k : Key32) (m : bytes) : length (resize 64 0%Z (proj1_sig k ++ m)%list) = 64.
Proof. apply length_resize. Qed.

Definition sig64 (k : Key32) (m : bytes) : Sig64 := dexist _ (length_sig64 k m).

#[export] Instance prefix_signatures : Ed25519 Key32 Key32 Sig64 := {|
  signing_key_from_bytes := key32;
  signing_key_to_bytes k := proj1_sig k;
  verifying_key k := k;
  dalek_sign := sig64;
  signature_to_bytes s := proj1_sig s;
  signature_from_slice b := match decide (length b = 64) with
                            | left H => Ok (dexist b H) | right _ => Err tt end;
  verifying_key_from_bytes b := match decide (length b = 32 ∧ Forall byte_ok b) with
                                | left H => Ok (dexist b H) | right _ => Err tt end;
  verifying_key_as_bytes k := proj1_sig k;
  verify_strict k m s := if decide (proj1_sig s = proj1_sig (sig64 k m)) then Ok tt else Err tt;
|}.

#[export] Instance prefix_signatures_laws : Ed25519Laws Key32 Key32 Sig64.
Proof.
  split; cbn.
  - intros s. by apply (proj2_dsig s).
  - intros s. pose proof (proj2_dsig s) as Hs. cbn in Hs. destruct (decide _) as [H|]; [|done].
    f_equal. by apply dsig_eq.
  - intros b. destruct (decide _); eauto.
  - intros k m. by rewrite decide_True.
  - intros k. pose proof (proj2_dsig k) as Hk. cbn in Hk. destruct (decide _) as [H|]; [|done].
    f_equal. by apply dsig_eq.
  - intros k. by apply (proj2_dsig k).
  - intros k. by apply (proj2_dsig k).
  - intros k m s. destruct (decide _); auto.
  - intros k. apply dsig_eq. cbn. apply norm32_id, (proj2_dsig k).
  - intros k. by apply (proj2_dsig k).
Qed.

(** ** yatlv *)

Definition Tlv : Type := list (Z * bytes).

Fixpoint tlv_encode (l : Tlv) : bytes :=
  match l with
  | [] => []
  | (tag, v) :: l' => tag :: Z.of_nat (length v) :: v ++ tlv_encode l'
  end.

Fixpoint tlv_decode (fuel : nat) (b : bytes) : outcome () Tlv :=
  match fuel, b with
  | _, [] => Ok []
  | S f, tag :: n :: rest =>
      if decide (Z.to_nat n ≤ length rest)
      then map_ok (cons (tag, take (Z.to_nat n) rest)) (tlv_decode f (drop (Z.to_nat n) rest))
      else Err tt
  | _, _ => Err tt
  end.

Definition tlv_get (tag : Z) (l : Tlv) : option bytes :=
  snd <$> (snd <$> list_find (λ f, f.1 = tag) l).

#[export] Instance tlv_frames : Yatlv Tlv Tlv := {|
  fb_new := [];
  fb_add_data tag v fb := (fb ++ [(tag, v)])%list;
  fb_finish := tlv_encode;
  fp_new b := tlv_decode (length b) b;
  fp_get_data tag fp := match tlv_get tag fp with Some v => Ok v | None => Err tt end;
  fp_get_optional_data := tlv_get;
|}.

Lemma tlv_round_trip l f : length (tlv_encode l) ≤ f → tlv_decode f (tlv_encode l) = Ok l.
Proof.
  revert f. induction l as [|[tag v] l IH]; intros f Hf; [by destruct f|].
  cbn [tlv_encode length] in *. rewrite length_app in Hf. destruct f as [|f]; [lia|].
  cbn [tlv_decode]. rewrite Nat2Z.id, length_app, decide_True by lia.
  rewrite take_app_length, drop_app_length, IH by lia. done.
Qed.

Lemma tlv_decode_result f b : tlv_decode f b = Err tt ∨ ∃ l, tlv_decode f b = Ok l.
Proof.
  revert b. induction f as [|f IH]; intros [|tag [|n rest]]; cbn [tlv_decode]; eauto.
  destruct (decide _); [|by eauto].
  destruct (IH (drop (Z.to_nat n) rest)) as [-> |[? ->]]; cbn [map_ok]; eauto.
Qed.

#[export] Instance tlv_laws : YatlvLaws Tlv Tlv id.
Proof.
  split; [done|done|intros; apply tlv_decode_result|intros tag fp; cbn; destruct (tlv_get tag fp); eauto|].
  intros l _. exists l. cbn. split; [by apply tlv_round_trip|].
  unfold tlv_get. split.
  - intros tag v Hf. by rewrite Hf.
  - intros tag Hf. by rewrite Hf.
Qed.

(** ** serde *)

(** A value of a self-describing format. *)
Inductive Value : Set := VStr (s : string) | VArr (b : bytes) | VSeq (b : bytes).

Definition value_format (human : bool) : Serde Value := {|
  is_human_readable := human;
  ser_string := VStr;
  de_string v := match v with VStr s => Ok s | _ => Err tt end;
  ser_array32 := VArr;
  de_array32 v := match v with VArr b => if decide (length b = 32) then Ok b else Err tt
                  | _ => Err tt end;
  ser_bytes := VSeq;
  de_bytes v := match v with VSeq b => Ok b | _ => Err tt end;
|}.

Lemma value_format_laws human : @SerdeLaws Value (value_format human).
Proof.
  split; cbn; try done.
  - intros b Hb. by rewrite decide_True.
  - intros [s|b|b] b'; try done. destruct (decide _); [|done]. by intros [= <-].
Qed.
