(* ===== verification/NodeId.v ===== *)
(** * Node identities (src/node_id.rs) *)

From stdpp Require Import countable.
From S2P Require Import Prelude Interfaces.

Definition MAX_NODE_ID_LEN : nat := 512.

(** [NodeIdTooLong(len)]. *)
Inductive NodeIdTooLong : Set := node_id_too_long (len : nat).

(** [struct NodeId(Vec<u8>)]. *)
Record NodeId : Set := node_id { node_id_0 : bytes }.

#[export] Instance NodeId_eq_dec : EqDecision NodeId.
Proof. solve_decision. Defined.

#[export] Instance NodeId_countable : Countable NodeId :=
  inj_countable' node_id_0 node_id (λ x, match x with node_id _ => eq_refl end).

Definition try_from_bytes (b : bytes) : outcome NodeIdTooLong NodeId :=
  if decide (MAX_NODE_ID_LEN < length b) then Err (node_id_too_long (length b))
  else Ok (node_id b).

Definition node_id_as_bytes (self : NodeId) : bytes := node_id_0 self.

(** [impl From<u64> for NodeId] and [impl From<u32> for NodeId]. *)
Definition node_id_from_u64 (value : Z) : NodeId := node_id (to_be_bytes 8 value).
Definition node_id_from_u32 (value : Z) : NodeId := node_id (to_be_bytes 4 value).

(** The derived [Deserialize] of the newtype: the inner [Vec<u8>]'s, unchecked. *)
Definition node_id_deserialize `{Serde V} (v : V) : outcome () NodeId :=
  map_ok node_id (de_bytes v).

(** ** Lemmas *)

Lemma from_be_bytes_snoc l b : from_be_bytes (l ++ [b]) = Z.lor (Z.shiftl (from_be_bytes l) 8) b.
Proof. unfold from_be_bytes. by rewrite foldl_app. Qed.

Lemma to_be_bytes_snoc n x :
  to_be_bytes (S n) x = to_be_bytes n (Z.shiftr x 8) ++ [Z.land x 255].
Proof.
  induction n as [|n IH].
  { cbn [to_be_bytes app]. change (8 * Z.of_nat 0)%Z with 0%Z. by rewrite Z.shiftr_0_r. }
  cbn [to_be_bytes app] in *. rewrite IH. f_equal.
  rewrite Z.shiftr_shiftr by lia. do 2 f_equal. lia.
Qed.

Lemma from_to_be_bytes n x :
  (0 ≤ x < 2 ^ (8 * Z.of_nat n))%Z → from_be_bytes (to_be_bytes n x) = x.
Proof.
  revert x. induction n as [|n IH]; intros x Hx.
  { change (2 ^ (8 * Z.of_nat 0))%Z with 1%Z in Hx. simpl. unfold from_be_bytes. simpl. lia. }
  assert (Hp : (2 ^ (8 * Z.of_nat (S n)) = 256 * 2 ^ (8 * Z.of_nat n))%Z).
  { replace (8 * Z.of_nat (S n))%Z with (8 + 8 * Z.of_nat n)%Z by lia.
    by rewrite Z.pow_add_r by lia. }
  rewrite to_be_bytes_snoc, from_be_bytes_snoc, IH, land_255, lor_shiftl_add, Z.shiftr_div_pow2
    by first [lia | apply Z.mod_pos_bound; lia
             | rewrite Z.shiftr_div_pow2 by lia; change (2 ^ 8)%Z with 256%Z; split;
               [apply Z.div_pos; lia|apply Z.div_lt_upper_bound; lia]].
  change (2 ^ 8)%Z with 256%Z. pose proof (Z.div_mod x 256). lia.
Qed.

(** A node id the checked constructors can produce. *)
Definition node_id_ok (id : NodeId) : Prop := length (node_id_as_bytes id) ≤ MAX_NODE_ID_LEN.

Lemma try_from_bytes_ok b : length b ≤ MAX_NODE_ID_LEN → try_from_bytes b = Ok (node_id b).
Proof. intros. unfold try_from_bytes. by rewrite decide_False by lia. Qed.

Lemma try_from_bytes_inv b id : try_from_bytes b = Ok id → id = node_id b ∧ node_id_ok id.
Proof.
  unfold try_from_bytes, node_id_ok. destruct (decide _); [done|]. intros [= <-].
  split; [done|]. cbn [node_id_as_bytes node_id_0]. lia.
Qed.

(** ** Properties *)

(** Integer identities never collide.  The big-endian [From<u64>] and
    [From<u32>] encodings are injective on their ranges, a [u32] identity
    is never equal to a [u64] identity, and both are within the length
    bound [try_from_bytes] enforces. *)
Theorem node_id_integers_distinct x y :
  (0 ≤ x < 2 ^ 64)%Z → (0 ≤ y < 2 ^ 64)%Z →
  (node_id_from_u64 x = node_id_from_u64 y ↔ x = y) ∧
  ((x < 2 ^ 32)%Z → (y < 2 ^ 32)%Z → node_id_from_u32 x = node_id_from_u32 y ↔ x = y) ∧
  node_id_from_u32 x ≠ node_id_from_u64 y ∧
  try_from_bytes (node_id_as_bytes (node_id_from_u64 x)) = Ok (node_id_from_u64 x) ∧
  try_from_bytes (node_id_as_bytes (node_id_from_u32 x)) = Ok (node_id_from_u32 x).
Proof.
  intros Hx Hy. unfold node_id_from_u64, node_id_from_u32. split_and!.
  - split; [|by intros ->]. intros H. apply (f_equal (λ i, from_be_bytes (node_id_0 i))) in H.
    cbn [node_id_0] in H. by rewrite !from_to_be_bytes in H.
  - intros Hx' Hy'. split; [|by intros ->]. intros H.
    apply (f_equal (λ i, from_be_bytes (node_id_0 i))) in H. cbn [node_id_0] in H.
    rewrite !from_to_be_bytes in H; (done || change (8 * Z.of_nat 4)%Z with 32%Z; lia).
  - intros H. by apply (f_equal (λ i, length (node_id_0 i))) in H.
  - apply try_from_bytes_ok. simpl. unfold MAX_NODE_ID_LEN. lia.
  - apply try_from_bytes_ok. simpl. unfold MAX_NODE_ID_LEN. lia.
Qed.

Lemma node_id_integers_distinct_witness :
  node_id_from_u32 1 ≠ node_id_from_u64 1 ∧
  try_from_bytes (node_id_as_bytes (node_id_from_u64 1)) = Ok (node_id_from_u64 1) ∧
  try_from_bytes (node_id_as_bytes (node_id_from_u32 1)) = Ok (node_id_from_u32 1).
Proof. apply (node_id_integers_distinct 1 1); lia. Defined.
