(* ===== verification/Noise.v ===== *)
(** * X25519 transport keys (src/noise.rs) and the key errors of src/lib.rs

    [[u8; 32]] is a byte list; [try_into_32] is the checked conversion from a
    slice or vector, and [key_ok] says that a key holds 32 bytes, as its
    array type does. *)

From S2P Require Import Prelude Interfaces Doubles.
#[local] Open Scope string_scope.

(** [struct MalformedKeyError;] and [struct KeyGenError(String)]. *)
Inductive MalformedKeyError : Set := malformed_key.
Inductive KeyGenError : Set := key_gen_error (reason : string).

(** [<[u8; 32]>::try_from] on a slice or vector. *)
Definition try_into_32 (b : bytes) : outcome () bytes :=
  if decide (length b = 32) then Ok b else Err tt.

Definition key_ok (b : bytes) : Prop := length b = 32 ∧ bytes_ok b.

(** ** Noise parameters *)

Definition NOISE_PARAMS : string := "Noise_XX_25519_AESGCM_BLAKE2b".

(** [noise_params]: parse once into the [OnceLock] cell, then clone; a parse
    error would panic in [unwrap]. *)
Definition noise_params {P} (parse : string → outcome () P) : M (option P) () P := λ cell,
  match cell with
  | Some p => (Ok p, Some p)
  | None => match parse NOISE_PARAMS with
            | Ok p => (Ok p, Some p)
            | _ => (Panic, None)
            end
  end.

Section Keys.
Context `{Hex}.

(** ** TransportPublicKey *)

Record TransportPublicKey : Set := transport_public_key { tpk_0 : bytes }.

#[export] Instance TransportPublicKey_eq_dec : EqDecision TransportPublicKey.
Proof. solve_decision. Defined.

Definition tpk_as_bytes (self : TransportPublicKey) : bytes := tpk_0 self.

Definition tpk_from (b : bytes) : TransportPublicKey := transport_public_key b.

Definition tpk_try_from_str (value : string) : outcome MalformedKeyError TransportPublicKey :=
  let? b := map_err (λ _, malformed_key) (hex_decode value) in
  let? arr := map_err (λ _, malformed_key) (try_into_32 b) in
  Ok (tpk_from arr).

Definition tpk_debug (self : TransportPublicKey) : string :=
  "TransportPublicKey(" +:+ hex_encode (tpk_0 self) +:+ ")".

Definition tpk_display (self : TransportPublicKey) : string := hex_encode (tpk_0 self).

Definition tpk_serialize `{Serde V} (self : TransportPublicKey) : V :=
  if is_human_readable then ser_string (hex_encode (tpk_0 self)) else ser_array32 (tpk_0 self).

Definition tpk_deserialize `{Serde V} (d : V) : outcome () TransportPublicKey :=
  if is_human_readable then
    let? s := de_string d in
    let? b := hex_decode s in
    let? arr := try_into_32 b in
    Ok (transport_public_key arr)
  else map_ok transport_public_key (de_array32 d).

(** ** TransportPrivateKey *)

Record TransportPrivateKey : Set := transport_private_key { tsk_secret : bytes }.

Definition tsk_expose (self : TransportPrivateKey) : bytes := tsk_secret self.

Definition tsk_expose_to_human_string (self : TransportPrivateKey) : string :=
  hex_encode (tsk_secret self).

Definition tsk_from (b : bytes) : TransportPrivateKey := transport_private_key b.

Definition tsk_try_from_str (value : string) : outcome MalformedKeyError TransportPrivateKey :=
  let? b := map_err (λ _, malformed_key) (hex_decode value) in
  let? arr := map_err (λ _, malformed_key) (try_into_32 b) in
  Ok (tsk_from arr).

Definition tsk_debug (self : TransportPrivateKey) : string := "TransportPrivateKey([redacted])".

Definition tsk_serialize `{Serde V} (self : TransportPrivateKey) : V :=
  if is_human_readable then ser_string (hex_encode (tsk_secret self))
  else ser_array32 (tsk_secret self).

Definition tsk_deserialize `{Serde V} (d : V) : outcome () TransportPrivateKey :=
  if is_human_readable then
    let? s := de_string d in
    let? b := hex_decode s in
    let? arr := try_into_32 b in
    Ok (transport_private_key arr)
  else map_ok transport_private_key (de_array32 d).

(** ** TransportKeypair *)

Record TransportKeypair : Set := {
  tkp_public : TransportPublicKey;
  tkp_private : TransportPrivateKey;
}.

(** [generate]: [keypair] is what [snow::Builder::generate_keypair] returned
    (public, private); [show] renders snow's error. *)
Definition tkp_generate (show : SnowError → string) (keypair : outcome SnowError (bytes * bytes))
    : outcome KeyGenError TransportKeypair :=
  let? kp := map_err (λ e, key_gen_error ("failed to generate X25519 keypair: " +:+ show e))
                     keypair in
  let? public_bytes := map_err (λ _, key_gen_error "unexpected public key length")
                               (try_into_32 kp.1) in
  let? private_bytes := map_err (λ _, key_gen_error "unexpected private key length")
                                (try_into_32 kp.2) in
  Ok {| tkp_public := tpk_from public_bytes; tkp_private := tsk_from private_bytes |}.

End Keys.

(** ** Lemmas *)

Lemma try_into_32_ok b : length b = 32 → try_into_32 b = Ok b.
Proof. intros. unfold try_into_32. by rewrite decide_True. Qed.

Lemma try_into_32_inv b a : try_into_32 b = Ok a → a = b ∧ length b = 32.
Proof. unfold try_into_32. destruct (decide _); naive_solver. Qed.

(** The decoder shared by every key's [TryFrom<&str>] and human-readable
    [Deserialize]: the decoded bytes, when there are 32 of them. *)
Lemma hex_key_round_trip `{HexLaws} {E A} (e : E) (mk : bytes → A) b :
  key_ok b →
  obind (map_err (λ _, e) (hex_decode (hex_encode b)))
    (λ b', obind (map_err (λ _, e) (try_into_32 b')) (λ arr, Ok (mk arr))) = Ok (mk b).
Proof. intros [Hlen Hb]. rewrite hex_round_trip by done. simpl. by rewrite try_into_32_ok. Qed.

Lemma serde_key_round_trip `{HexLaws, SerdeLaws V} {A} (mk : bytes → A) b :
  key_ok b →
  (if is_human_readable then
     let? s := de_string (if is_human_readable then ser_string (hex_encode b)
                          else ser_array32 b) in
     let? b' := hex_decode s in
     let? arr := try_into_32 b' in Ok (mk arr)
   else map_ok mk (de_array32 (if is_human_readable then ser_string (hex_encode b)
                               else ser_array32 b))) = Ok (mk b).
Proof.
  intros [Hlen Hb]. destruct is_human_readable.
  - rewrite string_round_trip. simpl. rewrite hex_round_trip by done. simpl.
    by rewrite try_into_32_ok.
  - by rewrite array32_round_trip.
Qed.

Lemma hex_key_inv `{Hex} {E A} (e : E) (mk : bytes → A) value a :
  obind (map_err (λ _, e) (hex_decode value))
    (λ b, obind (map_err (λ _, e) (try_into_32 b)) (λ arr, Ok (mk arr))) = Ok a →
  ∃ b, hex_decode value = Ok b ∧ length b = 32 ∧ a = mk b.
Proof.
  destruct (hex_decode value) as [b| | |]; simpl; [|done..].
  destruct (try_into_32 b) as [arr| | |] eqn:E1; simpl; [|done..].
  apply try_into_32_inv in E1 as [-> ?]. intros [= <-]. eauto.
Qed.

Lemma serde_key_length `{Hex, SerdeLaws V} {A} (mk : bytes → A) (d : V) a :
  (if is_human_readable then
     let? s := de_string d in
     let? b' := hex_decode s in
     let? arr := try_into_32 b' in Ok (mk arr)
   else map_ok mk (de_array32 d)) = Ok a →
  ∃ b, length b = 32 ∧ a = mk b.
Proof.
  destruct is_human_readable.
  - destruct (de_string d) as [s| | |]; simpl; [|done..].
    destruct (hex_decode s) as [b| | |]; simpl; [|done..].
    destruct (try_into_32 b) as [arr| | |] eqn:E1; simpl; [|done..].
    apply try_into_32_inv in E1 as [-> ?]. intros [= <-]. eauto.
  - destruct (de_array32 d) as [b| | |] eqn:E1; simpl; [|done..].
    apply array32_length in E1. intros [= <-]. eauto.
Qed.

(** ** Properties *)

(** C39: transport keys survive printing and serialisation.  A 32-byte public
    or private key parsed back from its hex form is the same key, and so is
    one deserialised from what [Serialize] wrote, in human-readable and in
    binary formats. *)
Theorem transport_keys_round_trip `{HexLaws, SerdeLaws V}
    (pk : TransportPublicKey) (sk : TransportPrivateKey) :
  key_ok (tpk_as_bytes pk) → key_ok (tsk_expose sk) →
  tpk_try_from_str (tpk_display pk) = Ok pk ∧
  tpk_deserialize (tpk_serialize pk : V) = Ok pk ∧
  tsk_try_from_str (tsk_expose_to_human_string sk) = Ok sk ∧
  tsk_deserialize (tsk_serialize sk : V) = Ok sk.
Proof.
  destruct pk as [b], sk as [s]. intros Hb Hs. cbn in Hb, Hs. split_and!.
  - by apply (hex_key_round_trip malformed_key tpk_from).
  - by apply (serde_key_round_trip transport_public_key).
  - by apply (hex_key_round_trip malformed_key tsk_from).
  - by apply (serde_key_round_trip transport_private_key).
Qed.

Lemma transport_keys_round_trip_witness :
  tpk_try_from_str (tpk_display (transport_public_key (replicate 32 0xAB%Z)))
    = Ok (transport_public_key (replicate 32 0xAB%Z)).
Proof.
  apply (@transport_keys_round_trip _ _ Value (value_format true) (value_format_laws true)
    (transport_public_key (replicate 32 0xAB%Z)) (transport_private_key (replicate 32 1%Z)));
    (split; [reflexivity|by apply Forall_replicate]).
Defined.

(** No key of the wrong size enters through parsing.  Every key that
    [TryFrom<&str>] or [Deserialize] accepts holds exactly 32 bytes, and a
    parsed key is exactly the bytes the hex string stands for; a keypair
    [generate] returns holds exactly the 32-byte halves snow produced. *)
Theorem parsed_transport_keys_are_32_bytes `{Hex, SerdeLaws V} :
  (∀ s pk, tpk_try_from_str s = Ok pk →
     hex_decode s = Ok (tpk_as_bytes pk) ∧ length (tpk_as_bytes pk) = 32) ∧
  (∀ s sk, tsk_try_from_str s = Ok sk →
     hex_decode s = Ok (tsk_expose sk) ∧ length (tsk_expose sk) = 32) ∧
  (∀ (v : V) pk, tpk_deserialize v = Ok pk → length (tpk_as_bytes pk) = 32) ∧
  (∀ (v : V) sk, tsk_deserialize v = Ok sk → length (tsk_expose sk) = 32) ∧
  (∀ show raw kp, tkp_generate show raw = Ok kp →
     raw = Ok (tpk_as_bytes (tkp_public kp), tsk_expose (tkp_private kp)) ∧
     length (tpk_as_bytes (tkp_public kp)) = 32 ∧ length (tsk_expose (tkp_private kp)) = 32).
Proof.
  split_and!.
  - intros s pk Hp. apply (hex_key_inv malformed_key tpk_from) in Hp as (b & ? & ? & ->). done.
  - intros s sk Hp. apply (hex_key_inv malformed_key tsk_from) in Hp as (b & ? & ? & ->). done.
  - intros v pk Hp. apply serde_key_length in Hp as (b & ? & ->). done.
  - intros v sk Hp. apply serde_key_length in Hp as (b & ? & ->). done.
  - intros show [[p s]| | |] kp; unfold tkp_generate; simpl; [|done..].
    destruct (try_into_32 p) as [p'| | |] eqn:E1; simpl; [|done..].
    destruct (try_into_32 s) as [s'| | |] eqn:E2; simpl; [|done..].
    apply try_into_32_inv in E1 as [-> ?], E2 as [-> ?]. intros [= <-]. done.
Qed.

Lemma parsed_transport_keys_are_32_bytes_witness :
  length (tpk_as_bytes (transport_public_key (replicate 32 7%Z))) = 32.
Proof.
  apply (proj1 (@parsed_transport_keys_are_32_bytes _ Value (value_format true)
    (value_format_laws true)) (lower_hex (replicate 32 7%Z))).
  vm_compute. reflexivity.
Defined.
