(* ===== verification/Sign.v ===== *)
(** * Cluster signatures (src/sign.rs)

    A signed record is [payload ++ signature]; ed25519-dalek is a parameter. *)

From S2P Require Import Prelude Interfaces Doubles Noise.
#[local] Open Scope string_scope.

Inductive SignatureValidationErr : Set := MalformedRecord | BadSignature.

#[export] Instance SignatureValidationErr_eq_dec : EqDecision SignatureValidationErr.
Proof. solve_decision. Defined.

Definition SIGNATURE_LEN : nat := 64.

Section Sign.
Context `{Hex} {SK VK Sig : Type} `{Ed25519 SK VK Sig}.

(** ** SignatureVerificationKey *)

Record SignatureVerificationKey : Type := signature_verification_key { svk_0 : VK }.

Definition svk_as_bytes (self : SignatureVerificationKey) : bytes :=
  verifying_key_as_bytes (svk_0 self).

Definition verify_payload (self : SignatureVerificationKey) (record : bytes)
    : outcome SignatureValidationErr bytes :=
  if decide (length record < SIGNATURE_LEN) then Err MalformedRecord
  else
    let payload_len := length record - SIGNATURE_LEN in
    let payload := take payload_len record in
    let signature_data := drop payload_len record in
    let? signature := map_err (λ _, MalformedRecord) (signature_from_slice signature_data) in
    let? _ := map_err (λ _, BadSignature) (verify_strict (svk_0 self) payload signature) in
    Ok payload.

(** [TryFrom<[u8; 32]>] and [TryFrom<&str>]. *)
Definition svk_try_from_array (b : bytes) : outcome MalformedKeyError SignatureVerificationKey :=
  map_err (λ _, malformed_key) (map_ok signature_verification_key (verifying_key_from_bytes b)).

Definition svk_try_from_str (value : string) : outcome MalformedKeyError SignatureVerificationKey :=
  let? b := map_err (λ _, malformed_key) (hex_decode value) in
  let? arr := map_err (λ _, malformed_key) (try_into_32 b) in
  svk_try_from_array arr.

Definition svk_debug (self : SignatureVerificationKey) : string :=
  "SignatureVerificationKey(" +:+ hex_encode (svk_as_bytes self) +:+ ")".

Definition svk_display (self : SignatureVerificationKey) : string :=
  hex_encode (svk_as_bytes self).

Definition svk_serialize `{Serde V} (self : SignatureVerificationKey) : V :=
  if is_human_readable then ser_string (hex_encode (svk_as_bytes self))
  else ser_array32 (svk_as_bytes self).

Definition svk_deserialize `{Serde V} (d : V) : outcome () SignatureVerificationKey :=
  let? arr := (if is_human_readable then
                 let? s := de_string d in
                 let? b := hex_decode s in
                 try_into_32 b
               else de_array32 d) in
  map_err (λ _, tt) (svk_try_from_array arr).

(** ** SignatureSigningKey *)

Record SignatureSigningKey : Set := signature_signing_key { ssk_secret : bytes }.

Definition ssk_expose (self : SignatureSigningKey) : bytes := ssk_secret self.

Definition ssk_expose_to_human_string (self : SignatureSigningKey) : string :=
  hex_encode (ssk_secret self).

Definition sign (self : SignatureSigningKey) (payload : bytes) : bytes :=
  let signing_key := signing_key_from_bytes (ssk_secret self) in
  let sig := dalek_sign signing_key payload in
  (payload ++ signature_to_bytes sig)%list.

Definition ssk_from (b : bytes) : SignatureSigningKey := signature_signing_key b.

Definition ssk_try_from_str (value : string) : outcome MalformedKeyError SignatureSigningKey :=
  let? b := map_err (λ _, malformed_key) (hex_decode value) in
  let? arr := map_err (λ _, malformed_key) (try_into_32 b) in
  Ok (ssk_from arr).

Definition ssk_debug (self : SignatureSigningKey) : string := "SignatureSigningKey([redacted])".

Definition ssk_serialize `{Serde V} (self : SignatureSigningKey) : V :=
  if is_human_readable then ser_string (hex_encode (ssk_secret self))
  else ser_array32 (ssk_secret self).

Definition ssk_deserialize `{Serde V} (d : V) : outcome () SignatureSigningKey :=
  let? arr := (if is_human_readable then
                 let? s := de_string d in
                 let? b := hex_decode s in
                 try_into_32 b
               else de_array32 d) in
  Ok (ssk_from arr).

(** ** SignatureKeypair *)

Record SignatureKeypair : Type := {
  skp_public : SignatureVerificationKey;
  skp_private : SignatureSigningKey;
}.

(** [generate]: [signing_key] is the key drawn from the OS random generator. *)
Definition skp_generate (signing_key : SK) : outcome KeyGenError SignatureKeypair :=
  let public_bytes := verifying_key_as_bytes (verifying_key signing_key) in
  let secret_bytes := signing_key_to_bytes signing_key in
  let? public := map_err (λ _, key_gen_error "malformed key") (svk_try_from_array public_bytes) in
  Ok {| skp_public := public; skp_private := ssk_from secret_bytes |}.

(** ** Lemmas *)

Context `{!Ed25519Laws SK VK Sig}.

(** The verification key that belongs to a signing key. *)
Definition svk_of (k : SignatureSigningKey) : SignatureVerificationKey :=
  signature_verification_key (verifying_key (signing_key_from_bytes (ssk_secret k))).

Lemma verify_payload_app vk p s :
  verify_payload vk (p ++ signature_to_bytes s)%list =
  match verify_strict (svk_0 vk) p s with
  | Ok _ => Ok p | Err _ => Err BadSignature | Panic => Panic | Pending => Pending
  end.
Proof.
  unfold verify_payload. pose proof (signature_length s) as Hs.
  rewrite length_app, Hs. unfold SIGNATURE_LEN. rewrite decide_False by lia.
  replace (length p + 64 - 64) with (length p) by lia.
  rewrite take_app_length, drop_app_length, signature_round_trip. simpl.
  by destruct (verify_strict _ _ _).
Qed.

Lemma verify_sign k p : verify_payload (svk_of k) (sign k p) = Ok p.
Proof. unfold sign. rewrite verify_payload_app. simpl. by rewrite signature_correct. Qed.

Lemma svk_array_round_trip k : svk_try_from_array (svk_as_bytes k) = Ok k.
Proof. unfold svk_try_from_array, svk_as_bytes. rewrite verifying_key_round_trip. by destruct k. Qed.

Lemma svk_bytes_ok k : key_ok (svk_as_bytes k).
Proof. split; [apply verifying_key_length|apply verifying_key_bytes]. Qed.

End Sign.

(** ** Properties *)

(** What the cluster key signs, the matching verification key accepts,
    and gives back exactly the payload; the record is the payload followed
    by 64 signature bytes. *)
Theorem sign_verify_round_trip `{Ed25519Laws SK VK Sig} (k : SignatureSigningKey) payload :
  verify_payload (svk_of k) (sign k payload) = Ok payload ∧
  length (sign k payload) = length payload + SIGNATURE_LEN.
Proof.
  split; [apply verify_sign|]. unfold sign. by rewrite length_app, signature_length.
Qed.

Lemma sign_verify_round_trip_witness :
  verify_payload (svk_of (ssk_from [1; 2; 3]%Z)) (sign (ssk_from [1; 2; 3]%Z) [42; 43]%Z)
    = Ok [42; 43]%Z.
Proof. apply (sign_verify_round_trip (ssk_from [1; 2; 3]%Z) [42; 43]%Z). Defined.

(** C40: [verify_payload] classifies every input.  It never panics; inputs
    shorter than a signature are [MalformedRecord]; it accepts a record
    exactly when its last 64 bytes are a signature that dalek's strict
    verification accepts for everything before them, which is then the
    payload returned. *)
Theorem verify_payload_exact `{Ed25519Laws SK VK Sig} (vk : SignatureVerificationKey) record :
  (length record < SIGNATURE_LEN → verify_payload vk record = Err MalformedRecord) ∧
  (∀ payload s, record = (payload ++ signature_to_bytes s)%list →
     (verify_payload vk record = Ok payload ↔ verify_strict (svk_0 vk) payload s = Ok tt) ∧
     (verify_payload vk record = Err BadSignature ↔ verify_strict (svk_0 vk) payload s = Err tt)) ∧
  (∀ payload, verify_payload vk record = Ok payload →
     ∃ sig_bytes s, record = (payload ++ sig_bytes)%list ∧ length sig_bytes = SIGNATURE_LEN ∧
       signature_from_slice sig_bytes = Ok s ∧ verify_strict (svk_0 vk) payload s = Ok tt) ∧
  ((∃ payload, verify_payload vk record = Ok payload) ∨
   verify_payload vk record = Err MalformedRecord ∨ verify_payload vk record = Err BadSignature).
Proof.
  split_and!.
  - intros Hlt. unfold verify_payload. by rewrite decide_True.
  - intros p s ->. rewrite verify_payload_app.
    destruct (verify_no_panic (svk_0 vk) p s) as [-> | ->]; naive_solver.
  - intros p. unfold verify_payload. destruct (decide _); [done|].
    set (q := take _ record). set (sg := drop _ record).
    destruct (signature_from_slice sg) as [s| | |] eqn:Es; simpl; [|done..].
    destruct (verify_strict (svk_0 vk) q s) as [[]| | |] eqn:Ev; simpl; [|done..].
    intros [= <-]. exists sg, s. split_and!; [by unfold q, sg; rewrite take_drop| |done..].
    unfold sg. rewrite length_drop. unfold SIGNATURE_LEN in *. lia.
  - unfold verify_payload. destruct (decide _); [by auto|].
    destruct (signature_from_slice_result (drop (length record - SIGNATURE_LEN) record))
      as [-> |[s ->]]; cbn [map_err obind]; [by auto|].
    destruct (verify_no_panic (svk_0 vk) (take (length record - SIGNATURE_LEN) record) s)
      as [-> | ->]; cbn; eauto.
Qed.

Lemma verify_payload_exact_witness :
  let k := ssk_from [1; 2; 3]%Z in
  verify_payload (svk_of k) [1; 2; 3]%Z = Err MalformedRecord ∧
  verify_payload (svk_of k) (sign k [42; 43]%Z) = Ok [42; 43]%Z ∧
  verify_payload (svk_of (ssk_from [9]%Z)) (sign k [42; 43]%Z) = Err BadSignature.
Proof.
  intros k. split; [|split].
  - apply (verify_payload_exact (svk_of k) [1; 2; 3]%Z). unfold SIGNATURE_LEN. simpl. lia.
  - apply (proj1 (proj2 (verify_payload_exact (svk_of k) (sign k [42; 43]%Z))) _ _ eq_refl).
    vm_compute. reflexivity.
  - apply (proj1 (proj2 (verify_payload_exact (svk_of (ssk_from [9]%Z)) (sign k [42; 43]%Z))) _ _ eq_refl).
    vm_compute. reflexivity.
Defined.

(** Signature keys survive printing and serialisation, and a generated
    keypair always exists and matches: its public half is the verification
    key of its private half, and everything the private half signs verifies. *)
Theorem signature_keys_round_trip `{HexLaws, Ed25519Laws SK VK Sig, SerdeLaws V}
    (vk : SignatureVerificationKey) (sk : SignatureSigningKey) (drawn : SK) :
  key_ok (ssk_expose sk) →
  svk_try_from_str (svk_display vk) = Ok vk ∧
  svk_deserialize (svk_serialize vk : V) = Ok vk ∧
  ssk_try_from_str (ssk_expose_to_human_string sk) = Ok sk ∧
  ssk_deserialize (ssk_serialize sk : V) = Ok sk ∧
  ∃ kp, skp_generate drawn = Ok kp ∧ skp_public kp = svk_of (skp_private kp) ∧
        ∀ p, verify_payload (skp_public kp) (sign (skp_private kp) p) = Ok p.
Proof.
  intros [Hs Hb]. destruct (svk_bytes_ok vk) as [Hvl Hvb]. split_and!.
  - unfold svk_try_from_str, svk_display. rewrite hex_round_trip by done. simpl.
    rewrite try_into_32_ok by done. simpl. apply svk_array_round_trip.
  - unfold svk_deserialize, svk_serialize. destruct is_human_readable.
    + rewrite string_round_trip. simpl. rewrite hex_round_trip by done. simpl.
      rewrite try_into_32_ok by done. simpl. by rewrite svk_array_round_trip.
    + rewrite array32_round_trip by done. simpl. by rewrite svk_array_round_trip.
  - destruct sk as [b]. by apply (hex_key_round_trip malformed_key ssk_from).
  - destruct sk as [b]. unfold ssk_deserialize, ssk_serialize. simpl in *.
    destruct is_human_readable.
    + rewrite string_round_trip. simpl. rewrite hex_round_trip by done. simpl.
      by rewrite try_into_32_ok.
    + by rewrite array32_round_trip.
  - unfold skp_generate, svk_try_from_array. rewrite verifying_key_round_trip. simpl.
    eexists. split; [done|]. simpl.
    assert (Hk : signature_verification_key (verifying_key drawn)
                 = svk_of (ssk_from (signing_key_to_bytes drawn)))
      by (unfold svk_of; simpl; by rewrite signing_key_round_trip).
    split; [done|]. intros p. rewrite Hk. apply verify_sign.
Qed.

Lemma signature_keys_round_trip_witness :
  ssk_try_from_str (ssk_expose_to_human_string (ssk_from (replicate 32 0x5A%Z)))
    = Ok (ssk_from (replicate 32 0x5A%Z)).
Proof.
  apply (@signature_keys_round_trip _ _ Key32 Key32 Sig64 _ _ Value (value_format false)
    (value_format_laws false) (svk_of (ssk_from [])) (ssk_from (replicate 32 0x5A%Z)) (key32 [])).
  split; [reflexivity|by apply Forall_replicate].
Defined.
