(* ===== verification/Auth.v ===== *)
(** * Authentication headers (src/auth.rs)

    [AuthHeader] binds a node id, an optional role and an X25519 public key;
    it is serialised as a yatlv frame, signed with the cluster key and carried
    in the handshake.  yatlv, hex and ed25519-dalek are parameters. *)

From S2P Require Import Prelude Interfaces Doubles NodeId Noise Sign.
#[local] Open Scope string_scope.

Definition TAG_NODE_ID : Z := 1.
Definition TAG_PUBLIC_KEY : Z := 2.
Definition TAG_ROLE : Z := 3.

Inductive BadAuth : Set :=
| Signature (e : SignatureValidationErr)
| PublicKeyMismatch (expected actual : TransportPublicKey)
| NodeIdMismatch (expected actual : NodeId).

#[export] Instance BadAuth_eq_dec : EqDecision BadAuth.
Proof. solve_decision. Defined.

Inductive MalformedAuthHeader : Set := malformed_auth_header.

(** ** AuthDetails and AuthHeader *)

Record AuthDetails : Set := { details_node_id : NodeId; details_role : option bytes }.

Record AuthHeader : Set := {
  ah_node_id : NodeId;
  ah_role : option bytes;
  ah_public_key : TransportPublicKey;
}.

#[export] Instance AuthHeader_eq_dec : EqDecision AuthHeader.
Proof. solve_decision. Defined.

Definition check_node_id (self : AuthDetails) (expected : NodeId) : outcome BadAuth () :=
  if decide (details_node_id self = expected) then Ok tt
  else Err (NodeIdMismatch expected (details_node_id self)).

(** [impl From<AuthHeader> for AuthDetails]. *)
Definition details_from (value : AuthHeader) : AuthDetails :=
  {| details_node_id := ah_node_id value; details_role := ah_role value |}.

Definition auth_header_new (id : NodeId) (role : option bytes) (pk : TransportPublicKey)
    : AuthHeader :=
  {| ah_node_id := id; ah_role := role; ah_public_key := pk |}.

Definition validate_public_key (self : AuthHeader) (key : TransportPublicKey)
    : outcome BadAuth () :=
  if decide (ah_public_key self = key) then Ok tt
  else Err (PublicKeyMismatch (ah_public_key self) key).

Section Auth.
Context `{Hex} {SK VK Sig : Type} `{Ed25519 SK VK Sig} {FB FP : Type} `{Yatlv FB FP}.

Definition to_yatlv (self : AuthHeader) : bytes :=
  let bld := fb_new in
  let bld := fb_add_data TAG_NODE_ID (node_id_as_bytes (ah_node_id self)) bld in
  let bld := fb_add_data TAG_PUBLIC_KEY (tpk_as_bytes (ah_public_key self)) bld in
  let bld := match ah_role self with
             | Some role => fb_add_data TAG_ROLE role bld
             | None => bld
             end in
  fb_finish bld.

Definition from_yatlv (data : bytes) : outcome MalformedAuthHeader AuthHeader :=
  let? parser := map_err (λ _, malformed_auth_header) (fp_new data) in
  let? node_id_bytes := map_err (λ _, malformed_auth_header) (fp_get_data TAG_NODE_ID parser) in
  let? public_key_bytes :=
    map_err (λ _, malformed_auth_header) (fp_get_data TAG_PUBLIC_KEY parser) in
  let role := fp_get_optional_data TAG_ROLE parser in
  let? id := map_err (λ _, malformed_auth_header) (try_from_bytes node_id_bytes) in
  let? arr := map_err (λ _, malformed_auth_header) (try_into_32 public_key_bytes) in
  Ok {| ah_node_id := id; ah_role := role; ah_public_key := transport_public_key arr |}.

(** ** SignedAuthHeader *)

(** [struct SignedAuthHeader(Arc<SecretVec<u8>>)]. *)
Record SignedAuthHeader : Set := signed_auth_header { sah_secret : bytes }.

Definition auth_header_sign (self : AuthHeader) (signing_key : SignatureSigningKey)
    : SignedAuthHeader :=
  let payload := to_yatlv self in
  let raw := sign signing_key payload in
  signed_auth_header raw.

Definition verify_raw (key : SignatureVerificationKey) (data : bytes)
    : outcome BadAuth AuthHeader :=
  let? payload := map_err Signature (verify_payload key data) in
  map_err (λ _, Signature MalformedRecord) (from_yatlv payload).

Definition verify (self : SignedAuthHeader) (key : SignatureVerificationKey)
    : outcome BadAuth AuthHeader := verify_raw key (sah_secret self).

Definition sah_expose (self : SignedAuthHeader) : bytes := sah_secret self.

Definition sah_expose_to_human_string (self : SignedAuthHeader) : string :=
  hex_encode (sah_secret self).

Definition sah_try_from_str (value : string) : outcome MalformedAuthHeader SignedAuthHeader :=
  map_err (λ _, malformed_auth_header) (map_ok signed_auth_header (hex_decode value)).

Definition sah_debug (self : SignedAuthHeader) : string := "SignedAuthHeader([redacted])".

Definition sah_serialize `{Serde V} (self : SignedAuthHeader) : V :=
  if is_human_readable then ser_string (hex_encode (sah_secret self))
  else ser_bytes (sah_secret self).

Definition sah_deserialize `{Serde V} (d : V) : outcome () SignedAuthHeader :=
  if is_human_readable then
    let? s := de_string d in
    let? b := hex_decode s in
    Ok (signed_auth_header b)
  else
    let? b := de_bytes d in
    Ok (signed_auth_header b).

(** ** Lemmas *)

(** The fields [to_yatlv] writes, in order. *)
Definition header_fields (self : AuthHeader) : list (Z * bytes) :=
  [(TAG_NODE_ID, node_id_as_bytes (ah_node_id self));
   (TAG_PUBLIC_KEY, tpk_as_bytes (ah_public_key self))]
  ++ match ah_role self with Some role => [(TAG_ROLE, role)] | None => [] end.

(** A header whose parts have the sizes the wire format can carry. *)
Definition header_sized (self : AuthHeader) : Prop :=
  Forall (λ f, (Z.of_nat (length f.2) < 2 ^ 32)%Z) (header_fields self).

Context (fields : FB → list (Z * bytes)) `{!YatlvLaws FB FP fields, !Ed25519Laws SK VK Sig}.

Lemma from_to_yatlv h :
  header_sized h →
  from_yatlv (to_yatlv h) =
  let? id := map_err (λ _, malformed_auth_header)
                     (try_from_bytes (node_id_as_bytes (ah_node_id h))) in
  let? arr := map_err (λ _, malformed_auth_header)
                      (try_into_32 (tpk_as_bytes (ah_public_key h))) in
  Ok {| ah_node_id := id; ah_role := ah_role h; ah_public_key := transport_public_key arr |}.
Proof.
  intros Hs. unfold from_yatlv, to_yatlv.
  set (fb := match ah_role h with Some role => _ | None => _ end).
  assert (Hf : fields fb = header_fields h).
  { unfold fb, header_fields. destruct (ah_role h);
      by rewrite !fb_add_data_fields, fb_new_fields. }
  destruct (fp_new_ok fb) as (fp & -> & Hget & Hnone); [by rewrite Hf|].
  rewrite Hf in Hget, Hnone. simpl.
  destruct (Hget TAG_NODE_ID (node_id_as_bytes (ah_node_id h))) as [-> _]; [done|]. simpl.
  destruct (Hget TAG_PUBLIC_KEY (tpk_as_bytes (ah_public_key h))) as [-> _]; [done|]. simpl.
  assert (fp_get_optional_data TAG_ROLE fp = ah_role h) as ->; [|done].
  unfold header_fields in *. destruct (ah_role h) as [role|].
  - by apply (Hget TAG_ROLE role).
  - by apply (Hnone TAG_ROLE).
Qed.

Lemma verify_signed h k :
  verify_raw (svk_of k) (sah_secret (auth_header_sign h k)) =
  map_err (λ _, Signature MalformedRecord) (from_yatlv (to_yatlv h)).
Proof. unfold verify_raw, auth_header_sign. simpl. by rewrite verify_sign. Qed.

Lemma verify_signed_ok h k :
  header_sized h → node_id_ok (ah_node_id h) → length (tpk_as_bytes (ah_public_key h)) = 32 →
  verify_raw (svk_of k) (sah_secret (auth_header_sign h k)) = Ok h.
Proof.
  intros Hs Hid Hpk. rewrite verify_signed, from_to_yatlv by done.
  rewrite try_from_bytes_ok by done. simpl. rewrite try_into_32_ok by done. simpl.
  by destruct h as [[id] role [pk]].
Qed.

Lemma from_yatlv_inv data h :
  from_yatlv data = Ok h →
  node_id_ok (ah_node_id h) ∧ length (tpk_as_bytes (ah_public_key h)) = 32.
Proof.
  unfold from_yatlv. destruct (fp_new data) as [fp| | |]; simpl; [|done..].
  destruct (fp_get_data TAG_NODE_ID fp) as [ib| | |]; simpl; [|done..].
  destruct (fp_get_data TAG_PUBLIC_KEY fp) as [pb| | |]; simpl; [|done..].
  destruct (try_from_bytes ib) as [id| | |] eqn:Ei; simpl; [|done..].
  destruct (try_into_32 pb) as [arr| | |] eqn:Ea; simpl; [|done..].
  intros [= <-]. simpl. apply try_from_bytes_inv in Ei as [_ ?].
  apply try_into_32_inv in Ea as [-> ?]. done.
Qed.

(** Verification returns a header or an error, whatever the bytes. *)
Lemma verify_raw_result vk data :
  (∃ h, verify_raw vk data = Ok h) ∨ (∃ e, verify_raw vk data = Err e).
Proof.
  unfold verify_raw, verify_payload. destruct (decide _); [by simpl; eauto|].
  destruct (signature_from_slice_result (drop (length data - SIGNATURE_LEN) data)) as [-> |[s ->]];
    [by simpl; eauto|]. cbn [map_err obind].
  destruct (verify_no_panic (svk_0 vk) (take (length data - SIGNATURE_LEN) data) s) as [-> | ->];
    [|by simpl; eauto]. cbn [map_err obind]. unfold from_yatlv.
  destruct (fp_new_result (take (length data - SIGNATURE_LEN) data)) as [-> |[fp ->]];
    [by simpl; eauto|]. cbn [map_err obind].
  destruct (fp_get_data_result TAG_NODE_ID fp) as [-> |[v ->]]; [by simpl; eauto|]. cbn [map_err obind].
  destruct (fp_get_data_result TAG_PUBLIC_KEY fp) as [-> |[v' ->]]; [by simpl; eauto|].
  cbn [map_err obind]. unfold try_from_bytes, try_into_32.
  destruct (decide _); [by simpl; eauto|]. destruct (decide _); simpl; eauto.
Qed.

Lemma verify_raw_inv vk data h :
  verify_raw vk data = Ok h →
  ∃ payload sig_bytes s,
    data = (payload ++ sig_bytes)%list ∧ length sig_bytes = SIGNATURE_LEN ∧
    signature_from_slice sig_bytes = Ok s ∧ verify_strict (svk_0 vk) payload s = Ok tt ∧
    from_yatlv payload = Ok h.
Proof.
  unfold verify_raw, verify_payload. destruct (decide _) as [|Hlen]; [done|].
  set (p := take _ data). set (sg := drop _ data).
  destruct (signature_from_slice sg) as [s| | |] eqn:Es; simpl; [|done..].
  destruct (verify_strict (svk_0 vk) p s) as [[]| | |] eqn:Ev; simpl; [|done..].
  destruct (from_yatlv p) as [h'| | |] eqn:Ey; simpl; [|done..]. intros [= <-].
  exists p, sg, s. split_and!; [by unfold p, sg; rewrite take_drop| |done..].
  unfold sg. rewrite length_drop. unfold SIGNATURE_LEN in *. lia.
Qed.

End Auth.

(** ** Properties *)

(** C32: signing and verifying an auth header round-trips.  For every header
    with a bounded node id, a 32-byte key and parts that fit the frame
    format, verifying the signed header under the matching cluster key
    recovers exactly that header: node id, role and public key. *)
Theorem auth_header_round_trip
    `{Ed25519Laws SK VK Sig, YatlvLaws FB FP fields} (h : AuthHeader) (k : SignatureSigningKey) :
  header_sized h → node_id_ok (ah_node_id h) → length (tpk_as_bytes (ah_public_key h)) = 32 →
  verify (auth_header_sign h k) (svk_of k) = Ok h.
Proof. apply (verify_signed_ok fields). Qed.

Lemma auth_header_round_trip_witness :
  verify (auth_header_sign
            (auth_header_new (node_id_from_u32 7) (Some [9]%Z)
               (transport_public_key (replicate 32 1%Z))) (ssk_from [1]%Z))
         (svk_of (ssk_from [1]%Z))
  = Ok (auth_header_new (node_id_from_u32 7) (Some [9]%Z)
          (transport_public_key (replicate 32 1%Z))).
Proof.
  apply auth_header_round_trip.
  - repeat constructor.
  - unfold node_id_ok, MAX_NODE_ID_LEN. simpl. lia.
  - reflexivity.
Defined.

(** A header is only accepted with a valid cluster signature over exactly
    its bytes.  Whatever bytes a peer presents, acceptance by [verify_raw]
    means that they split into a payload and 64 signature bytes which the
    strict verification accepts for that payload, that the header is what
    the payload decodes to, and that its node id and key respect their
    size bounds. *)
Theorem verified_header_is_signed
    `{Ed25519Laws SK VK Sig, YatlvLaws FB FP fields} (vk : SignatureVerificationKey) data h :
  verify_raw vk data = Ok h →
  (∃ payload sig_bytes s,
     data = (payload ++ sig_bytes)%list ∧ length sig_bytes = SIGNATURE_LEN ∧
     signature_from_slice sig_bytes = Ok s ∧ verify_strict (svk_0 vk) payload s = Ok tt ∧
     from_yatlv payload = Ok h) ∧
  node_id_ok (ah_node_id h) ∧ length (tpk_as_bytes (ah_public_key h)) = 32.
Proof.
  intros Hv. apply verify_raw_inv in Hv as (p & sb & s & ? & ? & ? & ? & Hy).
  split; [by exists p, sb, s|]. by apply from_yatlv_inv in Hy.
Qed.

Lemma verified_header_is_signed_witness :
  node_id_ok (node_id_from_u32 7).
Proof.
  eapply (verified_header_is_signed (svk_of (ssk_from [1]%Z))
    (sah_expose (auth_header_sign (auth_header_new (node_id_from_u32 7) None
       (transport_public_key (replicate 32 1%Z))) (ssk_from [1]%Z)))
    (auth_header_new (node_id_from_u32 7) None (transport_public_key (replicate 32 1%Z)))).
  vm_compute. reflexivity.
Defined.

(** C38: the derived [Deserialize] of [NodeId] is not bounded like
    [try_from_bytes], and an oversized id makes an unusable credential: any
    format value holding a byte vector becomes a [NodeId]; a header built
    with an id longer than [MAX_NODE_ID_LEN] can be signed, but the verifier
    with the right key rejects it as a malformed record, and no verification
    key at all accepts it. *)
Theorem oversized_node_id_never_verifies
    `{Ed25519Laws SK VK Sig, YatlvLaws FB FP fields, SerdeLaws V}
    (b : bytes) role pk (k : SignatureSigningKey) :
  MAX_NODE_ID_LEN < length b →
  header_sized (auth_header_new (node_id b) role pk) →
  node_id_deserialize (ser_bytes b : V) = Ok (node_id b) ∧
  try_from_bytes b = Err (node_id_too_long (length b)) ∧
  verify (auth_header_sign (auth_header_new (node_id b) role pk) k) (svk_of k)
    = Err (Signature MalformedRecord) ∧
  ∀ vk h, verify (auth_header_sign (auth_header_new (node_id b) role pk) k) vk ≠ Ok h.
Proof.
  intros Hb Hs. assert (Ht : try_from_bytes b = Err (node_id_too_long (length b)))
    by (unfold try_from_bytes; by rewrite decide_True).
  assert (Hy : from_yatlv (to_yatlv (auth_header_new (node_id b) role pk)) = Err malformed_auth_header)
    by (rewrite (from_to_yatlv fields) by done; simpl; by rewrite Ht).
  split_and!; [unfold node_id_deserialize; by rewrite bytes_round_trip|done| |].
  - unfold verify. by rewrite verify_signed, Hy.
  - intros vk h Hv. apply verify_raw_inv in Hv as (p & sb & s & Hr & Hl & _ & _ & Hp).
    unfold auth_header_sign, sign in Hr. cbn [sah_secret] in Hr.
    apply app_inj_2 in Hr as [Hr _]; [|by rewrite signature_length, Hl]. congruence.
Qed.

Lemma oversized_node_id_never_verifies_witness :
  verify (auth_header_sign (auth_header_new (node_id (replicate 513 0%Z)) None
            (transport_public_key (replicate 32 1%Z))) (ssk_from [1]%Z))
         (svk_of (ssk_from [1]%Z))
    = Err (Signature MalformedRecord).
Proof.
  refine (proj1 (proj2 (proj2 (@oversized_node_id_never_verifies Key32 Key32 Sig64 _ _ Tlv Tlv _ id _ Value
    (value_format false) (value_format_laws false) _ _ _ _ _ _)))).
  - rewrite length_replicate. unfold MAX_NODE_ID_LEN. lia.
  - unfold header_sized, header_fields. repeat constructor; simpl;
      rewrite ?length_replicate; done.
Defined.

(** A signed header survives its text and serde forms bit for bit, so the
    restored credential verifies exactly when the original does. *)
Theorem signed_header_codecs_round_trip `{HexLaws, Ed25519 SK VK Sig, Yatlv FB FP, SerdeLaws V}
    (c : SignedAuthHeader) (vk : SignatureVerificationKey) :
  bytes_ok (sah_expose c) →
  sah_try_from_str (sah_expose_to_human_string c) = Ok c ∧
  sah_deserialize (sah_serialize c : V) = Ok c ∧
  obind (map_err (λ _, Signature MalformedRecord)
           (sah_try_from_str (sah_expose_to_human_string c))) (λ c', verify c' vk) = verify c vk.
Proof.
  intros Hb. destruct c as [b]. cbn in Hb.
  unfold sah_try_from_str, sah_expose_to_human_string, sah_deserialize, sah_serialize. simpl.
  rewrite hex_round_trip by done. simpl. split_and!; [done| |done].
  destruct is_human_readable.
  - rewrite string_round_trip. simpl. by rewrite hex_round_trip.
  - by rewrite bytes_round_trip.
Qed.

Lemma signed_header_codecs_round_trip_witness :
  sah_try_from_str (sah_expose_to_human_string (signed_auth_header [0xDE; 0xAD]%Z))
    = Ok (signed_auth_header [0xDE; 0xAD]%Z).
Proof.
  apply (@signed_header_codecs_round_trip _ _ Key32 Key32 Sig64 _ Tlv Tlv _ Value
    (value_format true) (value_format_laws true)
    (signed_auth_header [0xDE; 0xAD]%Z) (svk_of (ssk_from []))).
  repeat constructor; lia.
Defined.
