(* ===== verification/Packets.v ===== *)
(** * The packet transport (src/packets.rs: framing, [PacketTx], [PacketRx])

    The two halves of a connection share one cipher state
    ([Arc<Mutex<snow::TransportState>>]); an operation of a half is a
    computation on the pair of that shared state and the half itself.
    Buffers keep their contents between calls, slices that would be out of
    range panic, and every [?] leaves the state as it is at that point. *)

From S2P Require Import Prelude PacketState Interfaces Doubles NodeId Noise Sign Auth.

Inductive ConnectionError : Set :=
| Io (e : IoError)
| NoiseErr (e : SnowError)
| PacketErr (e : PacketReadError)
| PacketBuilderErr (e : PacketBuildError)
| PacketOverflow
| MissingRemoteStatic
| RemoteStaticKeyLength
| HandshakeTimeout
| InvalidNodeId (reason : string)
| BadAuthErr (e : BadAuth)
| MessageAborted.

#[export] Instance ConnectionError_eq_dec : EqDecision ConnectionError.
Proof. solve_decision. Defined.

Definition EMPTY_PAYLOAD : bytes := [].

(** ** Framing *)

(** [read_frame(stream, frame)]. *)
Definition read_frame `{AsyncRead R} : M (R * bytes) ConnectionError () := λ '(stream, frame),
  match read_u16 stream with
  | (Ok len, stream') =>
      let frame' := resize (Z.to_nat len) 0%Z frame in
      let '(r, frame'', stream'') := read_exact frame' stream' in
      (map_err Io r, (stream'', frame''))
  | (Err e, stream') => (Err (Io e), (stream', frame))
  | (Panic, stream') => (Panic, (stream', frame))
  | (Pending, stream') => (Pending, (stream', frame))
  end.

(** ** PacketRx *)

Record PacketRx (R : Type) : Type := {
  packet_reader : PacketReader.t;
  rx_read : R;
  ciphertext_buf : bytes;
  plaintext_buf : bytes;
  payload_end : nat;
}.
Arguments packet_reader {_} _.
Arguments rx_read {_} _.
Arguments ciphertext_buf {_} _.
Arguments plaintext_buf {_} _.
Arguments payload_end {_} _.

Section PacketRx.
Context {T R : Type} `{TransportState T, AsyncRead R}.

Definition set_reader (pr : PacketReader.t) (rx : PacketRx R) : PacketRx R :=
  {| packet_reader := pr; rx_read := rx_read rx; ciphertext_buf := ciphertext_buf rx;
     plaintext_buf := plaintext_buf rx; payload_end := payload_end rx |}.
Definition set_frame (f : R * bytes) (rx : PacketRx R) : PacketRx R :=
  {| packet_reader := packet_reader rx; rx_read := f.1; ciphertext_buf := f.2;
     plaintext_buf := plaintext_buf rx; payload_end := payload_end rx |}.
Definition set_plaintext (b : bytes) (rx : PacketRx R) : PacketRx R :=
  {| packet_reader := packet_reader rx; rx_read := rx_read rx; ciphertext_buf := ciphertext_buf rx;
     plaintext_buf := b; payload_end := payload_end rx |}.
Definition set_payload_end (n : nat) (rx : PacketRx R) : PacketRx R :=
  {| packet_reader := packet_reader rx; rx_read := rx_read rx; ciphertext_buf := ciphertext_buf rx;
     plaintext_buf := plaintext_buf rx; payload_end := n |}.

(** The shared cipher decrypts [ciphertext_buf] into [plaintext_buf]. *)
Definition rx_decrypt : M (T * PacketRx R) ConnectionError nat := λ '(t, rx),
  let '(r, pb, t') := read_message (ciphertext_buf rx) (plaintext_buf rx) t in
  (map_err NoiseErr r, (t', set_plaintext pb rx)).

Definition read_packet : M (T * PacketRx R) ConnectionError PacketHeader :=
  do! zoom (λ s, (rx_read s.2, ciphertext_buf s.2)) (λ f s, (s.1, set_frame f s.2)) id read_frame in
  do! modify (λ s, (s.1, set_plaintext
                           (resize (length (ciphertext_buf s.2)) 0%Z (plaintext_buf s.2)) s.2)) in
  let! n := rx_decrypt in
  do! modify (λ s, (s.1, set_payload_end n s.2)) in
  let! s := get in
  let! plaintext := or_panic (slice_to n (plaintext_buf s.2)) in
  zoom (λ s, packet_reader s.2) (λ pr s, (s.1, set_reader pr s.2)) PacketErr
       (PacketReader.read plaintext).

(** [payload]: [None] is the slice panic. *)
Definition payload (rx : PacketRx R) : option bytes :=
  if decide (2 < payload_end rx) then slice 2 (payload_end rx) (plaintext_buf rx)
  else Some EMPTY_PAYLOAD.

End PacketRx.

(** ** PacketTx *)

Record PacketTx (W : Type) : Type := {
  packet_builder : PacketBuilder.t;
  tx_write : W;
  write_buf : bytes;
}.
Arguments packet_builder {_} _.
Arguments tx_write {_} _.
Arguments write_buf {_} _.

Section PacketTx.
Context {T W : Type} `{TransportState T, AsyncWrite W}.

Definition set_builder (b : PacketBuilder.t) (tx : PacketTx W) : PacketTx W :=
  {| packet_builder := b; tx_write := tx_write tx; write_buf := write_buf tx |}.
Definition set_write (w : W) (tx : PacketTx W) : PacketTx W :=
  {| packet_builder := packet_builder tx; tx_write := w; write_buf := write_buf tx |}.
Definition set_write_buf (b : bytes) (tx : PacketTx W) : PacketTx W :=
  {| packet_builder := packet_builder tx; tx_write := tx_write tx; write_buf := b |}.

(** Run an operation of the builder, or of the writer, inside the half. *)
Definition on_builder {A} (m : M PacketBuilder.t PacketBuildError A)
    : M (T * PacketTx W) ConnectionError A :=
  zoom (λ s, packet_builder s.2) (λ b s, (s.1, set_builder b s.2)) PacketBuilderErr m.
Definition on_write {A} (m : M W IoError A) : M (T * PacketTx W) ConnectionError A :=
  zoom (λ s, tx_write s.2) (λ w s, (s.1, set_write w s.2)) Io m.

Definition prepare_message (ty : Z) : M (T * PacketTx W) ConnectionError () :=
  on_builder (PacketBuilder.prepare ty).

(** The shared cipher encrypts [plaintext] into [write_buf] behind the room
    for the length prefix. *)
Definition tx_encrypt (plaintext : bytes) : M (T * PacketTx W) ConnectionError nat :=
  let! s := get in
  let! tail := or_panic (slice_from FRAME_HEADER_SIZE (write_buf s.2)) in
  λ '(t, tx),
    let '(r, tail', t') := write_message plaintext tail t in
    (map_err NoiseErr r, (t', set_write_buf (write_tail FRAME_HEADER_SIZE tail' (write_buf tx)) tx)).

(** The frame-writing tail that [send_packet] and [abort_message] share:
    grow [write_buf], encrypt, prefix the length, write and flush. *)
Definition write_frame (plaintext : bytes) : M (T * PacketTx W) ConnectionError () :=
  let ciphertext_len := length plaintext + CIPHER_OVERHEAD_SIZE in
  let frame_len := FRAME_HEADER_SIZE + ciphertext_len in
  do! modify (λ s, if decide (length (write_buf s.2) < frame_len)
                   then (s.1, set_write_buf (resize frame_len 0%Z (write_buf s.2)) s.2) else s) in
  let! n := tx_encrypt plaintext in
  do! modify (λ s, (s.1, set_write_buf (write_front (u16_to_be_bytes (as_u16 (Z.of_nat n)))
                                                    (write_buf s.2)) s.2)) in
  let! s := get in
  let! frame := or_panic (slice_to (FRAME_HEADER_SIZE + n) (write_buf s.2)) in
  do! on_write (write_all frame) in
  on_write flush.

Definition send_packet (payload : bytes) (last : bool) : M (T * PacketTx W) ConnectionError () :=
  let! plaintext := on_builder (PacketBuilder.pack payload last) in
  write_frame plaintext.

(** The [while let] loop of [send_slice] over the remaining chunks. *)
Fixpoint send_chunks (cs : list bytes) (last_slice : bool) : M (T * PacketTx W) ConnectionError () :=
  match cs with
  | [] => ret tt
  | chunk :: cs' =>
      let is_last := match cs' with [] => true | _ => false end in
      do! send_packet chunk (is_last && last_slice) in
      send_chunks cs' last_slice
  end.

Definition send_slice (data : bytes) (last_slice : bool) : M (T * PacketTx W) ConnectionError () :=
  match chunks MAX_PACKET_SIZE data with
  | [] => send_packet [] last_slice
  | cs => send_chunks cs last_slice
  end.

(** The loop of [send_reader]: [fuel] bounds the number of [read] calls;
    it returns the buffer, how much of it is filled, and [sent_any]. *)
Fixpoint send_reader_loop `{AsyncRead Rd} (fuel : nat) (reader : Rd) (buf : bytes) (filled : nat)
    (sent_any : bool) : M (T * PacketTx W) ConnectionError (bytes * nat * bool) :=
  match fuel with
  | O => pending
  | S fuel' =>
      do! (if decide (MAX_PACKET_SIZE < filled) then panic else ret tt) in
      let space := MAX_PACKET_SIZE - filled in
      let! filled := (if decide (space = 0) then
                        let! chunk := or_panic (slice_to filled buf) in
                        do! send_packet chunk false in
                        ret 0
                      else ret filled) in
      let! tail := or_panic (slice_from filled buf) in
      let '(r, tail', reader') := read tail reader in
      let buf' := write_tail filled tail' buf in
      let! n := lift (map_err Io r) in
      if decide (n = 0) then ret (buf', filled, sent_any)
      else send_reader_loop fuel' reader' buf' (filled + n) true
  end.

(** What [send_reader] does after the loop. *)
Definition send_reader_finish (res : bytes * nat * bool) : M (T * PacketTx W) ConnectionError () :=
  let '(buf, filled, sent_any) := res in
  if decide (0 < filled) then
    let! chunk := or_panic (slice_to filled buf) in
    send_packet chunk true
  else if negb sent_any then send_packet [] true
  else ret tt.

Definition send_reader `{AsyncRead Rd} (fuel : nat) (reader : Rd)
    : M (T * PacketTx W) ConnectionError () :=
  let! res := send_reader_loop fuel reader (replicate MAX_PACKET_SIZE 0%Z) 0 false in
  send_reader_finish res.

Definition abort_message : M (T * PacketTx W) ConnectionError () := λ s,
  let '(aborted, b) := PacketBuilder.abort (packet_builder s.2) in
  let s' := (s.1, set_builder b s.2) in
  match aborted with
  | Some plaintext => write_frame plaintext s'
  | None => (Ok tt, s')
  end.

End PacketTx.

(** ** [send_reader] as [send_slice] *)

Section SendReader.
Context {T W : Type} `{TransportState T, AsyncWrite W}.
Context {Rd : Type} `{AsyncRead Rd} (incoming : Rd → bytes) (fails : Rd → option IoError)
  `{!SourceLaws Rd incoming fails}.

Implicit Types s : T * PacketTx W.

(** Whether [send_reader] marks its final packet of [data] as last: not when
    the data ends exactly at a packet boundary. *)
Definition reader_last (data : bytes) : bool :=
  bool_decide (length data mod MAX_PACKET_SIZE ≠ 0).

Lemma MAX_PACKET_SIZE_pos : 0 < MAX_PACKET_SIZE.
Proof. size_lia. Qed.

Lemma reader_last_app c data :
  length c = MAX_PACKET_SIZE → reader_last (c ++ data) = reader_last data.
Proof.
  intros Hc. unfold reader_last. apply bool_decide_ext. rewrite length_app, Hc.
  rewrite <- (Nat.mul_1_l MAX_PACKET_SIZE) at 1.
  by rewrite Nat.add_comm, Nat.Div0.mod_add.
Qed.

Lemma reader_last_small data : 0 < length data < MAX_PACKET_SIZE → reader_last data = true.
Proof.
  intros Hd. unfold reader_last. apply bool_decide_eq_true. rewrite Nat.mod_small; lia.
Qed.

Lemma send_reader_loop_full fuel (rd : Rd) buf sent s :
  length buf = MAX_PACKET_SIZE →
  send_reader_loop (S fuel) rd buf MAX_PACKET_SIZE sent s =
  bind (send_packet buf false) (λ _, send_reader_loop (S fuel) rd buf 0 sent) s.
Proof.
  intros Hb. pose proof MAX_PACKET_SIZE_pos. cbn [send_reader_loop].
  rewrite decide_False by lia. rewrite bind_ret_l. rewrite decide_True by lia.
  rewrite slice_to_Some, take_ge by lia. cbn [or_panic].
  rewrite bind_assoc, bind_ret_l, bind_assoc. apply bind_ext. intros [] s'.
  rewrite bind_ret_l. rewrite (decide_False (P := MAX_PACKET_SIZE < 0)) by lia. rewrite bind_ret_l.
  rewrite (decide_False (P := MAX_PACKET_SIZE - 0 = 0)) by lia. by rewrite bind_ret_l.
Qed.

(** One iteration with room in the buffer: either the source is exhausted,
    and ends or fails, or the buffer gains [n] bytes. *)
Lemma send_reader_loop_room fuel (rd : Rd) buf filled sent s :
  length buf = MAX_PACKET_SIZE → filled < MAX_PACKET_SIZE →
  ∃ n rd' buf', length buf' = MAX_PACKET_SIZE ∧ n ≤ length (incoming rd) ∧
    filled + n ≤ MAX_PACKET_SIZE ∧
    take (filled + n) buf' = take filled buf ++ take n (incoming rd) ∧
    incoming rd' = drop n (incoming rd) ∧ fails rd' = fails rd ∧
    (n = 0 → incoming rd = []) ∧
    send_reader_loop (S fuel) rd buf filled sent s =
    if decide (n = 0) then
      match fails rd with None => (Ok (buf', filled, sent), s) | Some e => (Err (Io e), s) end
    else send_reader_loop fuel rd' buf' (filled + n) true s.
Proof.
  intros Hb Hf. cbn [send_reader_loop].
  rewrite (decide_False (P := MAX_PACKET_SIZE < filled)), bind_ret_l by lia.
  rewrite (decide_False (P := MAX_PACKET_SIZE - filled = 0)), bind_ret_l by lia.
  rewrite slice_from_Some by lia. cbn [or_panic]. rewrite bind_ret_l.
  assert (Hne : drop filled buf ≠ []).
  { intros Hx. apply (f_equal length) in Hx. rewrite length_drop in Hx. simpl in Hx. lia. }
  pose proof (source_read rd (drop filled buf) Hne) as Hr.
  destruct (read (drop filled buf) rd) as [[[n|e| |] tail'] rd1]; destruct Hr as [Hlen Hr];
    [| |done..]; rewrite length_drop in Hlen.
  - destruct Hr as (Hn1 & Hn2 & Htake & Hinc & Hfl & Hz). rewrite length_drop in Hn1.
    exists n, rd1, (write_tail filled tail' buf). split_and!; [|done|lia| |done|done| |].
    + rewrite length_write_tail; lia.
    + unfold write_tail. rewrite take_app_ge by (rewrite length_take; lia).
      rewrite length_take. replace (filled + n - filled `min` length buf) with n by lia.
      by rewrite Htake.
    + intros Hn. by destruct (Hz Hn).
    + cbn [map_err]. unfold bind, lift, ret. destruct (decide (n = 0)) as [Hn|]; [|done].
      destruct (Hz Hn) as [_ Hnone]. by rewrite Hnone.
  - destruct Hr as [Hnil He]. exists 0, rd, buf. rewrite decide_True by done. rewrite He, Hnil.
    split_and!; try done; try (cbn; lia). by rewrite Nat.add_0_r, app_nil_r.
Qed.

(** What is sent for [data] when [sent] says whether anything was read before. *)
Definition reader_sends (sent : bool) (data : bytes) : M (T * PacketTx W) ConnectionError () :=
  if decide (data = []) then (if sent then ret tt else send_packet [] true)
  else send_chunks (chunks MAX_PACKET_SIZE data) (reader_last data).

Lemma send_reader_finish_spec buf filled sent s :
  length buf = MAX_PACKET_SIZE → filled < MAX_PACKET_SIZE →
  send_reader_finish (buf, filled, sent) s = reader_sends sent (take filled buf) s.
Proof.
  intros Hb Hf. cbn [send_reader_finish]. unfold reader_sends.
  assert (Hl : length (take filled buf) = filled) by (rewrite length_take; lia).
  destruct (decide (0 < filled)) as [Hfp|Hfp].
  - rewrite slice_to_Some by lia. cbn [or_panic]. rewrite bind_ret_l.
    assert (Hne : take filled buf ≠ []) by (intros Hx; rewrite Hx in Hl; simpl in Hl; lia).
    rewrite decide_False, chunks_small, reader_last_small by (done || lia).
    cbn [send_chunks andb]. symmetry. etransitivity; [|apply bind_ret_r].
    apply bind_ext. by intros [] ?.
  - replace filled with 0 by lia. rewrite decide_True by done. by destruct sent.
Qed.

Lemma reader_sends_full c data s :
  length c = MAX_PACKET_SIZE →
  reader_sends true (c ++ data) s = bind (send_packet c false) (λ _, reader_sends true data) s.
Proof.
  pose proof MAX_PACKET_SIZE_pos. intros Hc. unfold reader_sends at 1.
  rewrite decide_False by (intros Hx; apply app_nil in Hx as [Hx _]; rewrite Hx in Hc; simpl in Hc; lia).
  rewrite chunks_app_full, reader_last_app by done. cbn [send_chunks]. unfold reader_sends.
  destruct (decide (data = [])) as [->|Hne].
  - rewrite chunks_nil. unfold reader_last. cbn [length]. by rewrite Nat.Div0.mod_0_l.
  - destruct (chunks MAX_PACKET_SIZE data) eqn:Ec; [|done].
    by apply chunks_nil_inv in Ec.
Qed.

(** The loop and the final send, with [take filled buf] already buffered. *)
Lemma send_reader_loop_spec fuel (rd : Rd) buf filled sent s :
  length buf = MAX_PACKET_SIZE → filled ≤ MAX_PACKET_SIZE → length (incoming rd) < fuel →
  fails rd = None → (0 < filled → sent = true) →
  bind (send_reader_loop fuel rd buf filled sent) send_reader_finish s =
  reader_sends sent (take filled buf ++ incoming rd) s.
Proof.
  pose proof MAX_PACKET_SIZE_pos as Hpos.
  revert rd buf filled sent s. induction fuel as [|fuel IH]; [lia|].
  assert (Hroom : ∀ rd buf filled sent s,
    length buf = MAX_PACKET_SIZE → filled < MAX_PACKET_SIZE → length (incoming rd) < S fuel →
    fails rd = None → (0 < filled → sent = true) →
    bind (send_reader_loop (S fuel) rd buf filled sent) send_reader_finish s =
    reader_sends sent (take filled buf ++ incoming rd) s).
  { intros rd buf filled sent s Hb Hf Hfuel Hnone Hsent.
    destruct (send_reader_loop_room fuel rd buf filled sent s Hb Hf)
      as (n & rd' & buf' & Hb' & Hn & Hfn & Htk & Hinc & Hfl & Hz & Heq).
    unfold bind at 1. rewrite Heq, Hnone. destruct (decide (n = 0)) as [->|Hn0].
    - rewrite Hz, app_nil_r, send_reader_finish_spec by done.
      rewrite Nat.add_0_r, take_0, app_nil_r in Htk. by rewrite Htk.
    - transitivity (reader_sends true (take (filled + n) buf' ++ incoming rd') s).
      { apply IH; [done|done| |congruence|done]. rewrite Hinc, length_drop. lia. }
      rewrite Htk, Hinc, <- app_assoc, take_drop. unfold reader_sends.
      rewrite !decide_False; [done|..]; intros Hx; apply app_nil in Hx as [_ Hx];
        rewrite Hx in Hn; simpl in Hn; lia. }
  intros rd buf filled sent s Hb Hf Hfuel Hnone Hsent.
  destruct (decide (filled = MAX_PACKET_SIZE)) as [->|]; [|apply Hroom; done || lia].
  rewrite Hsent, take_ge, reader_sends_full by (done || lia).
  transitivity (bind (bind (send_packet buf false) (λ _, send_reader_loop (S fuel) rd buf 0 true))
                  send_reader_finish s).
  { unfold bind at 1 2. by rewrite send_reader_loop_full. }
  rewrite bind_assoc. apply bind_ext. intros [] s'. by rewrite Hroom by (done || lia).
Qed.

(** [send_reader] in terms of [send_slice]. *)
Lemma send_reader_slice fuel (rd : Rd) s :
  length (incoming rd) < fuel → fails rd = None →
  send_reader fuel rd s =
  send_slice (incoming rd)
    (bool_decide (incoming rd = [] ∨ length (incoming rd) mod MAX_PACKET_SIZE ≠ 0)) s.
Proof.
  intros Hf Hnone. pose proof MAX_PACKET_SIZE_pos. unfold send_reader.
  etransitivity; [apply send_reader_loop_spec; [by rewrite length_replicate|lia|done|done|lia]|].
  rewrite take_0. cbn [app]. unfold reader_sends, send_slice.
  destruct (decide (incoming rd = [])) as [Hn|Hn].
  { rewrite Hn, chunks_nil, bool_decide_eq_true_2; [reflexivity|by left]. }
  destruct (chunks MAX_PACKET_SIZE (incoming rd)) eqn:Ec; [by apply chunks_nil_inv in Ec|].
  f_equal. unfold reader_last. apply bool_decide_ext.
  split; [by right|]. intros [?|Hm]; [done|exact Hm].
Qed.

(** ** Sources that fail *)

(** The part of [data] that fills whole packets. *)
Definition whole_packets (data : bytes) : bytes :=
  take (length data / MAX_PACKET_SIZE * MAX_PACKET_SIZE) data.

Lemma whole_packets_full c data :
  length c = MAX_PACKET_SIZE → whole_packets (c ++ data) = c ++ whole_packets data.
Proof.
  pose proof MAX_PACKET_SIZE_pos. intros Hc. unfold whole_packets. rewrite length_app, Hc.
  replace (MAX_PACKET_SIZE + length data) with (1 * MAX_PACKET_SIZE + length data) by lia.
  rewrite Nat.div_add_l, Nat.mul_add_distr_r, Nat.mul_1_l by lia.
  rewrite take_app_ge, Hc by lia. by rewrite Nat.add_sub_swap, Nat.sub_diag by lia.
Qed.

Lemma whole_packets_small data : length data < MAX_PACKET_SIZE → whole_packets data = [].
Proof. intros Hd. unfold whole_packets. by rewrite Nat.div_small. Qed.

Lemma whole_packets_not_nil data :
  MAX_PACKET_SIZE ≤ length data → whole_packets data ≠ [].
Proof.
  pose proof MAX_PACKET_SIZE_pos. intros Hd Hx. apply (f_equal length) in Hx.
  unfold whole_packets in Hx. rewrite length_take in Hx. cbn [length] in Hx.
  assert (1 ≤ length data / MAX_PACKET_SIZE) by (apply Nat.div_le_lower_bound; lia). nia.
Qed.

(** The packets that go out before the error comes back. *)
Definition failed_sends (data : bytes) (e : IoError) {A} : M (T * PacketTx W) ConnectionError A :=
  bind (send_chunks (chunks MAX_PACKET_SIZE (whole_packets data)) false) (λ _, throw (Io e)).

Lemma failed_sends_full {A} c data e s :
  length c = MAX_PACKET_SIZE →
  failed_sends (A := A) (c ++ data) e s
  = bind (send_packet c false) (λ _, failed_sends data e) s.
Proof.
  pose proof MAX_PACKET_SIZE_pos. intros Hc. unfold failed_sends.
  rewrite whole_packets_full, chunks_app_full by done. cbn [send_chunks].
  by rewrite andb_false_r, bind_assoc.
Qed.

Lemma failed_sends_small {A} data e s :
  length data < MAX_PACKET_SIZE → failed_sends (A := A) data e s = (Err (Io e), s).
Proof. intros Hd. unfold failed_sends. by rewrite whole_packets_small. Qed.

(** The loop when the source fails, with [take filled buf] already buffered. *)
Lemma send_reader_loop_fails fuel (rd : Rd) buf filled sent e s :
  length buf = MAX_PACKET_SIZE → filled ≤ MAX_PACKET_SIZE → length (incoming rd) < fuel →
  fails rd = Some e →
  send_reader_loop fuel rd buf filled sent s = failed_sends (take filled buf ++ incoming rd) e s.
Proof.
  pose proof MAX_PACKET_SIZE_pos as Hpos.
  revert rd buf filled sent s. induction fuel as [|fuel IH]; [lia|].
  assert (Hroom : ∀ rd buf filled sent s,
    length buf = MAX_PACKET_SIZE → filled < MAX_PACKET_SIZE → length (incoming rd) < S fuel →
    fails rd = Some e →
    send_reader_loop (S fuel) rd buf filled sent s = failed_sends (take filled buf ++ incoming rd) e s).
  { intros rd buf filled sent s Hb Hf Hfuel He.
    destruct (send_reader_loop_room fuel rd buf filled sent s Hb Hf)
      as (n & rd' & buf' & Hb' & Hn & Hfn & Htk & Hinc & Hfl & Hz & Heq).
    rewrite Heq, He. destruct (decide (n = 0)) as [->|Hn0].
    - rewrite Hz, app_nil_r by done. by rewrite failed_sends_small by (rewrite length_take; lia).
    - rewrite IH; [|done|done|rewrite Hinc, length_drop; lia|congruence].
      by rewrite Htk, Hinc, <- app_assoc, take_drop. }
  intros rd buf filled sent s Hb Hf Hfuel He.
  destruct (decide (filled = MAX_PACKET_SIZE)) as [->|]; [|apply Hroom; done || lia].
  rewrite send_reader_loop_full, (take_ge buf), failed_sends_full by (done || lia).
  apply bind_ext. intros [] s'. by rewrite Hroom by (done || lia).
Qed.

Lemma send_reader_fails fuel (rd : Rd) e s :
  length (incoming rd) < fuel → fails rd = Some e →
  send_reader fuel rd s = failed_sends (incoming rd) e s.
Proof.
  intros Hf He. unfold send_reader. unfold bind at 1.
  rewrite (send_reader_loop_fails _ _ _ _ _ e) by (done || size_lia || by rewrite length_replicate).
  rewrite take_0. cbn [app]. unfold failed_sends, bind, throw.
  by destruct (send_chunks _ false s) as [[] ?].
Qed.

End SendReader.

(** Compute through the fields and setters of a half. *)
Ltac half_cbn :=
  cbn [fst snd map_err set_builder set_write set_write_buf packet_builder tx_write write_buf
       set_reader set_frame set_plaintext set_payload_end packet_reader rx_read ciphertext_buf
       plaintext_buf payload_end].

(** ** Frames on the wire *)

(** The raw packets of (header, payload) pairs. *)
Abbreviation encode_packets := (map (λ hp : PacketHeader * bytes, encode_packet hp.1 hp.2)).

Section Wire.
Context {T : Type} `{TransportState T}.

(** The length-prefixed frame around a ciphertext of [n] bytes. *)
Definition frame_bytes (n : nat) (c : bytes) : bytes :=
  u16_to_be_bytes (as_u16 (Z.of_nat n)) ++ c.

(** [sealed t ps out t']: encrypting the plaintexts [ps] in order from cipher
    state [t] gives the frames [out] and state [t']. *)
Inductive sealed : T → list bytes → bytes → T → Prop :=
| sealed_nil t : sealed t [] [] t
| sealed_cons t p ps buf n buf' t1 out t2 :
    write_message p buf t = (Ok n, buf', t1) → sealed t1 ps out t2 →
    sealed t (p :: ps) (frame_bytes n (take n buf') ++ out) t2.

Lemma sealed_app t ps1 out1 t1 ps2 out2 t2 :
  sealed t ps1 out1 t1 → sealed t1 ps2 out2 t2 → sealed t (ps1 ++ ps2) (out1 ++ out2) t2.
Proof.
  induction 1; [done|]. intros. cbn [app]. rewrite <- app_assoc. econstructor; eauto.
Qed.

End Wire.

Section Transport.
Context {T R W : Type} `{TransportState T, AsyncRead R, AsyncWrite W}.
Context (paired : T → T → Prop) (nonces_left : T → nat) `{!TransportLaws T paired nonces_left}.
Context (incoming : R → bytes) `{!ReaderLaws R incoming}.
Context (written : W → bytes) (healthy : W → Prop) `{!WriterLaws W written healthy}.

(** [sends s ps s']: from [s] the sender has written exactly the sealed
    frames of [ps], and is again in working order at [s']. *)
Definition sends (s : T * PacketTx W) (ps : list bytes) (s' : T * PacketTx W) : Prop :=
  ∃ out, sealed s.1 ps out s'.1 ∧
         written (tx_write s'.2) = written (tx_write s.2) ++ out ∧
         healthy (tx_write s'.2) ∧ nonces_left s.1 = length ps + nonces_left s'.1.

Lemma sends_trans s ps1 s1 ps2 s2 : sends s ps1 s1 → sends s1 ps2 s2 → sends s (ps1 ++ ps2) s2.
Proof.
  intros (o1 & Hs1 & Hw1 & Hh1 & Hn1) (o2 & Hs2 & Hw2 & Hh2 & Hn2). exists (o1 ++ o2).
  split_and!; [by eapply sealed_app|by rewrite Hw2, Hw1, app_assoc|done|].
  rewrite length_app. lia.
Qed.

Lemma grow_write_buf (s : T * PacketTx W) n :
  ∃ buf, n ≤ length buf ∧
    (if decide (length (write_buf s.2) < n)
     then (s.1, set_write_buf (resize n 0%Z (write_buf s.2)) s.2) else s)
    = (s.1, set_write_buf buf s.2).
Proof.
  destruct s as [t [b w buf]]. cbn [fst snd write_buf]. destruct (decide _).
  - eexists. split; [|done]. by rewrite length_resize.
  - exists buf. split; [lia|done].
Qed.

(** Up to its first write, [write_frame] seals one frame. *)
Lemma write_frame_seals p (s : T * PacketTx W) :
  0 < nonces_left s.1 → length p ≤ MAX_RAW_PACKET_SIZE →
  ∃ buf n buf' s1, write_message p buf s.1 = (Ok n, buf', s1.1) ∧
    write_frame p s = (do! on_write (write_all (frame_bytes n (take n buf'))) in on_write flush) s1 ∧
    tx_write s1.2 = tx_write s.2 ∧ packet_builder s1.2 = packet_builder s.2 ∧
    nonces_left s.1 = S (nonces_left s1.1).
Proof.
  intros Hn Hp. unfold write_frame.
  destruct (grow_write_buf s (FRAME_HEADER_SIZE + (length p + CIPHER_OVERHEAD_SIZE)))
    as (buf & Hbuf & Hgrow).
  assert (Hlen : length p + 16 ≤ length (drop 2 buf)) by (rewrite length_drop; size_lia).
  destruct (write_message_total p (drop 2 buf) s.1) as (n & tail' & t' & Hw & Hnn); [size_lia|done..|].
  pose proof (write_message_len _ _ _ _ _ _ Hw) as (Hn1 & Hn2 & Hn3).
  pose proof (proj1 (write_message_buf _ _ _ _ _ _ Hw)) as Htl. rewrite length_drop in *.
  unfold modify at 1. unfold bind at 1. rewrite Hgrow.
  unfold tx_encrypt, FRAME_HEADER_SIZE, bind, get, modify.
  half_cbn.
  rewrite slice_from_Some by size_lia. cbn [or_panic ret]. unfold ret.
  half_cbn. rewrite Hw. half_cbn.
  set (hdr := u16_to_be_bytes _).
  assert (Hfr : take (2 + n) (write_front hdr (write_tail 2 tail' buf)) = frame_bytes n (take n tail')).
  { unfold frame_bytes, write_front, write_tail. fold hdr. change (length hdr) with 2.
    rewrite drop_app_length' by (rewrite length_take; size_lia).
    rewrite take_app_ge by (change (length hdr) with 2; lia). change (length hdr) with 2.
    by replace (2 + n - 2) with n by lia. }
  rewrite slice_to_Some, Hfr.
  2: { rewrite length_write_front; rewrite length_write_tail; change (length hdr) with 2; size_lia. }
  cbn [or_panic]. unfold ret. eexists _, n, tail', (t', _). split; [exact Hw|].
  split; [reflexivity|]. by half_cbn.
Qed.

(** Writing one frame succeeds while the nonce and the writer last. *)
Lemma write_frame_ok p (s : T * PacketTx W) :
  healthy (tx_write s.2) → 0 < nonces_left s.1 → length p ≤ MAX_RAW_PACKET_SIZE →
  ∃ s', write_frame p s = (Ok tt, s') ∧ sends s [p] s' ∧
        packet_builder s'.2 = packet_builder s.2.
Proof.
  intros Hh Hn Hp.
  destruct (write_frame_seals p s Hn Hp) as (buf & n & buf' & s1 & Hw & -> & Hw1 & Hb1 & Hnn).
  rewrite <- Hw1 in Hh. unfold bind, on_write, zoom.
  destruct (write_all_ok (frame_bytes n (take n buf')) (tx_write s1.2) Hh) as (w1 & -> & Hwr1 & Hh1).
  half_cbn. destruct (flush_ok w1 Hh1) as (w2 & -> & Hwr2 & Hh2).
  eexists. split; [reflexivity|]. split; [|done]. exists (frame_bytes n (take n buf') ++ []).
  half_cbn. split_and!; [by econstructor; [|constructor]| |done|simpl; lia].
  by rewrite Hwr2, Hwr1, Hw1, app_nil_r.
Qed.

(** Encrypting does not disturb the receiving direction of the session. *)
Lemma sealed_other_direction t ps out t' x : sealed t ps out t' → paired x t → paired x t'.
Proof.
  induction 1 as [|? ? ? ? ? ? ? ? ? Hw _ IH]; [done|]. intros Hx. apply IH.
  exact (write_other_direction _ _ _ _ _ _ _ Hx Hw).
Qed.

(** The packets that [send_slice] makes of the chunks [cs] of a message of
    type [ty]; [first] says whether the message is still unopened. *)
Fixpoint packets_of (first : bool) (ty : Z) (cs : list bytes) (last_slice : bool)
    : list (PacketHeader * bytes) :=
  match cs with
  | [] => []
  | c :: cs' =>
      let is_last := match cs' with [] => true | _ => false end in
      ({| kind := pack_kind first (is_last && last_slice); msg_type := ty |}, c)
        :: packets_of false ty cs' last_slice
  end.

(** The chunks of a slice; an empty slice is one empty chunk. *)
Definition slice_chunks (data : bytes) : list bytes :=
  match chunks MAX_PACKET_SIZE data with [] => [[]] | cs => cs end.

Lemma concat_slice_chunks data : concat (slice_chunks data) = data.
Proof.
  pose proof (concat_chunks MAX_PACKET_SIZE data MAX_PACKET_SIZE_pos) as Hc.
  unfold slice_chunks. by destruct (chunks MAX_PACKET_SIZE data).
Qed.

Lemma slice_chunks_bound data : Forall (λ c, length c ≤ MAX_PACKET_SIZE) (slice_chunks data).
Proof.
  pose proof (chunks_bound MAX_PACKET_SIZE data MAX_PACKET_SIZE_pos) as Hc.
  unfold slice_chunks. destruct (chunks MAX_PACKET_SIZE data).
  - constructor; [simpl; lia|done].
  - eapply Forall_impl; [done|]. simpl. lia.
Qed.

Lemma slice_chunks_not_nil data : slice_chunks data ≠ [].
Proof. unfold slice_chunks. by destruct (chunks MAX_PACKET_SIZE data). Qed.

Lemma length_packets_of first ty cs last : length (packets_of first ty cs last) = length cs.
Proof. revert first. induction cs; intros; simpl; auto. Qed.

(** A sender that can write [k] more packets of the message it has open. *)
Definition can_send (k : nat) (s : T * PacketTx W) : Prop :=
  healthy (tx_write s.2) ∧ k ≤ nonces_left s.1 ∧
  PacketBuilder.in_progress (packet_builder s.2) = true ∧ builder_wf (packet_builder s.2).

(** The builder after the packets of a slice. *)
Definition builder_after (b : PacketBuilder.t) (last : bool) (b' : PacketBuilder.t) : Prop :=
  PacketBuilder.in_progress b' = negb last ∧ PacketBuilder.is_first b' = false ∧
  PacketBuilder.msg_type b' = PacketBuilder.msg_type b.

Lemma send_packet_ok p last (s : T * PacketTx W) k :
  can_send (S k) s → length p ≤ MAX_PACKET_SIZE →
  ∃ s', send_packet p last s = (Ok tt, s') ∧
    sends s [encode_packet {| kind := pack_kind (PacketBuilder.is_first (packet_builder s.2)) last;
                              msg_type := PacketBuilder.msg_type (packet_builder s.2) |} p] s' ∧
    builder_after (packet_builder s.2) last (packet_builder s'.2).
Proof.
  intros (Hh & Hn & Hip & Hwf) Hp. unfold send_packet, on_builder, zoom, bind.
  rewrite pack_open by done. cbv zeta. cbn [map_err].
  set (raw := encode_packet _ p). set (b' := PacketBuilder.Build_t _ _ _ _).
  destruct (write_frame_ok raw (s.1, set_builder b' s.2)) as (s' & -> & Hsends & Hb').
  { done. }
  { half_cbn. lia. }
  { unfold raw. rewrite length_encode_packet. size_lia. }
  exists s'. split; [done|]. split; [exact Hsends|]. rewrite Hb'. by unfold builder_after.
Qed.

Lemma can_send_after s ps s' k last :
  can_send (length ps + k) s → sends s ps s' →
  builder_after (packet_builder s.2) last (packet_builder s'.2) → last = false →
  can_send k s'.
Proof.
  intros (Hh & Hn & Hip & Hwf) (out & _ & _ & Hh' & Hnn) (Hb1 & Hb2 & Hb3) ->.
  split_and!; [done|lia|done|]. unfold builder_wf in *. by rewrite Hb3.
Qed.

Lemma send_chunks_ok cs last (s : T * PacketTx W) :
  can_send (length cs) s → Forall (λ c, length c ≤ MAX_PACKET_SIZE) cs → cs ≠ [] →
  ∃ s', send_chunks cs last s = (Ok tt, s') ∧
    sends s (encode_packets (packets_of (PacketBuilder.is_first (packet_builder s.2))
                               (PacketBuilder.msg_type (packet_builder s.2)) cs last)) s' ∧
    builder_after (packet_builder s.2) last (packet_builder s'.2).
Proof.
  revert s. induction cs as [|c cs IH]; [done|]. intros s Hc HF _. inversion HF as [|? ? Hlen HF']; subst.
  cbn [send_chunks packets_of map fst snd].
  destruct (send_packet_ok c (match cs with [] => true | _ => false end && last) s (length cs) Hc Hlen)
    as (s1 & Hs1 & Hsends & Hb).
  rewrite (bind_ok _ _ _ _ _ Hs1). destruct cs as [|c2 cs].
  { exists s1. split_and!; [done|exact Hsends|done]. }
  destruct (IH s1) as (s2 & Hs2 & Hsends2 & Hb2); [|done|done|].
  { eapply (can_send_after s [_]); [exact Hc|exact Hsends|exact Hb|done]. }
  exists s2. split; [done|]. destruct Hb as (? & Hf & Hty), Hb2 as (? & ? & Hty2). split.
  - rewrite Hf, Hty in Hsends2. exact (sends_trans _ [_] _ _ _ Hsends Hsends2).
  - split_and!; [done|done|congruence].
Qed.

(** [send_slice] on an open message, up to the last flag. *)
Lemma send_slice_ok data last (s : T * PacketTx W) :
  can_send (length (slice_chunks data)) s →
  ∃ s', send_slice data last s = (Ok tt, s') ∧
    sends s (encode_packets (packets_of (PacketBuilder.is_first (packet_builder s.2))
              (PacketBuilder.msg_type (packet_builder s.2)) (slice_chunks data) last)) s' ∧
    builder_after (packet_builder s.2) last (packet_builder s'.2).
Proof.
  intros Hc. pose proof (slice_chunks_bound data) as HF. unfold send_slice, slice_chunks in *.
  destruct (chunks MAX_PACKET_SIZE data) as [|c cs].
  - destruct (send_packet_ok [] last s 0 Hc) as (s' & ? & Hs & ?); [simpl; lia|].
    exists s'. by split_and!.
  - by apply send_chunks_ok.
Qed.

Lemma prepare_message_ok ty (s : T * PacketTx W) :
  type_ok ty → PacketBuilder.in_progress (packet_builder s.2) = false →
  prepare_message ty s =
  (Ok tt, (s.1, set_builder {| PacketBuilder.in_progress := true; PacketBuilder.is_first := true;
                               PacketBuilder.msg_type := ty;
                               PacketBuilder.buf := PacketBuilder.buf (packet_builder s.2) |} s.2)).
Proof. intros. unfold prepare_message, on_builder, zoom. by rewrite prepare_idle. Qed.

(** Aborting a message whose first packet is out. *)
Lemma abort_message_ok (s : T * PacketTx W) :
  can_send 1 s →
  ∃ s', abort_message s = (Ok tt, s') ∧
    sends s [encode_packet {| kind := Abort;
                              msg_type := PacketBuilder.msg_type (packet_builder s.2) |} []] s' ∧
    PacketBuilder.in_progress (packet_builder s'.2) = false ∧
    PacketBuilder.msg_type (packet_builder s'.2) = PacketBuilder.msg_type (packet_builder s.2).
Proof.
  intros (Hh & Hn & Hip & Hwf). unfold abort_message. rewrite abort_open by done. cbv zeta.
  set (raw := encode_packet _ []). set (b' := PacketBuilder.Build_t _ _ _ _).
  destruct (write_frame_ok raw (s.1, set_builder b' s.2)) as (s' & -> & Hsends & Hb').
  { done. }
  { half_cbn. lia. }
  { unfold raw. rewrite length_encode_packet. simpl. size_lia. }
  exists s'. split; [done|]. split; [exact Hsends|]. by rewrite Hb'.
Qed.

(** ** Receiving *)

(** Receiving leaves the sending direction of the cipher as it is. *)
Definition keeps_tx (t t' : T) : Prop :=
  (∀ x, paired t x → paired t' x) ∧ nonces_left t' = nonces_left t.

Lemma keeps_tx_refl t : keeps_tx t t.
Proof. by split. Qed.

Lemma keeps_tx_trans t1 t2 t3 : keeps_tx t1 t2 → keeps_tx t2 t3 → keeps_tx t1 t3.
Proof. intros [H1a H1b] [H2a H2b]. split; [auto|congruence]. Qed.

(** As [sealed], for a sender that may also receive between two packets:
    receiving changes its cipher state, but not what it sends. *)
Inductive flight : T → list bytes → bytes → T → Prop :=
| flight_nil t : flight t [] [] t
| flight_cons t p ps buf n buf' t1 out t2 :
    write_message p buf t = (Ok n, buf', t1) → flight t1 ps out t2 →
    flight t (p :: ps) (frame_bytes n (take n buf') ++ out) t2
| flight_turn t t' ps out t2 :
    (∀ x, paired t x → paired t' x) → flight t' ps out t2 → flight t ps out t2.

Lemma sealed_flight t ps out t' : sealed t ps out t' → flight t ps out t'.
Proof. induction 1; econstructor; eauto. Qed.

Lemma flight_app t ps1 out1 t1 ps2 out2 t2 :
  flight t ps1 out1 t1 → flight t1 ps2 out2 t2 → flight t (ps1 ++ ps2) (out1 ++ out2) t2.
Proof.
  induction 1 as [|t p ps buf n buf' t1 out t1' Hw _ IH|t t' ps out t1 Hk _ IH]; [done| |].
  - intros H2. cbn [app]. rewrite <- app_assoc. econstructor; eauto.
  - intros H2. eapply flight_turn; eauto.
Qed.

Lemma flight_nil_inv t out t' : flight t [] out t' → out = [] ∧ ∀ x, paired t x → paired t' x.
Proof.
  intros Hf. remember [] as ps eqn:Hps. induction Hf as [| |? ? ? ? ? Hk _ IH]; [done|done|].
  destruct (IH Hps) as [-> Hk']. auto.
Qed.

Lemma flight_cons_inv t p ps out t2 x :
  flight t (p :: ps) out t2 → paired t x →
  ∃ t0 buf n buf' t1 out', paired t0 x ∧ write_message p buf t0 = (Ok n, buf', t1) ∧
    flight t1 ps out' t2 ∧ out = frame_bytes n (take n buf') ++ out'.
Proof.
  intros Hf. remember (p :: ps) as ps' eqn:Hps.
  induction Hf as [|t ? ? buf n buf' t1 out t2 Hw Hf _|? ? ? ? ? Hk _ IH]; [done| |].
  - simplify_eq. intros Hx. by exists t, buf, n, buf', t1, out.
  - intros Hx. apply (IH Hps). auto.
Qed.

(** [inflight a ps a' rest s]: the receiver [s] will still get the frames of
    [ps], encrypted by a peer going from [a] to [a'], then [rest]. *)
Definition inflight (a : T) (ps : list bytes) (a' : T) (rest : bytes) (s : T * PacketRx R) : Prop :=
  ∃ out, flight a ps out a' ∧ incoming (rx_read s.2) = out ++ rest ∧ paired a s.1.

Lemma read_frame_ok n c rest (r : R) frame :
  n = length c → n ≤ Z.to_nat 65535 → incoming r = frame_bytes n c ++ rest →
  ∃ r', read_frame (r, frame) = (Ok tt, (r', c)) ∧ incoming r' = rest.
Proof.
  intros Hn Hmax Hin. unfold frame_bytes, u16_to_be_bytes in Hin. cbn [app] in Hin.
  destruct (read_u16_ok r _ _ _ Hin) as (r1 & Hr1 & Hin1). unfold read_frame. rewrite Hr1.
  rewrite as_u16_id, u16_be_round_trip, Nat2Z.id by (unfold u16_ok; lia).
  destruct (read_exact_ok r1 (resize n 0%Z frame)) as (r2 & Hr2 & Hin2).
  { rewrite length_resize, Hin1, length_app. lia. }
  rewrite Hr2. rewrite length_resize, Hin1 in *.
  rewrite take_app_length', drop_app_length' in * by done. by exists r2.
Qed.

Lemma read_packet_ok a p ps a' rest (s : T * PacketRx R) res pr :
  inflight a (p :: ps) a' rest s →
  PacketReader.read p (packet_reader s.2) = (res, pr) →
  ∃ a1 s', read_packet s = (map_err PacketErr res, s') ∧ packet_reader s'.2 = pr ∧
    inflight a1 ps a' rest s' ∧ payload s'.2 = Some (drop 2 p) ∧
    keeps_tx s.1 s'.1.
Proof.
  intros (out & Hflight & Hin & Hpair0) Hread.
  destruct (flight_cons_inv _ _ _ _ _ _ Hflight Hpair0) as (a0 & buf & n & buf' & a1 & out' & Hpair & Hw & Hs' & ->).
  pose proof (write_message_len _ _ _ _ _ _ Hw) as (Hn1 & Hn2 & Hn3).
  pose proof (proj1 (write_message_buf _ _ _ _ _ _ Hw)) as Hbl.
  assert (Hc : length (take n buf') = n) by (rewrite length_take; lia).
  rewrite <- app_assoc in Hin.
  destruct (read_frame_ok n (take n buf') (out' ++ rest) (rx_read s.2) (ciphertext_buf s.2))
    as (r' & Hrf & Hin'); [done|lia|done|].
  unfold read_packet, zoom, bind, modify, rx_decrypt, get. rewrite Hrf. half_cbn. rewrite Hc.
  destruct (read_back _ _ _ _ _ _ _ (resize n 0%Z (plaintext_buf s.2)) Hpair Hw)
    as (pb & t' & Hrb & Htk & Hpair'); [by rewrite length_resize|].
  pose proof (read_message_len _ _ _ _ _ _ Hrb) as Hle.
  pose proof (proj1 (read_message_buf _ _ _ _ _ _ Hrb)) as Hpl. rewrite length_resize in *.
  rewrite Hrb. half_cbn. rewrite slice_to_Some, Htk by lia. cbn [or_panic]. unfold ret.
  half_cbn. rewrite Hread. eexists a1, _. split; [reflexivity|]. half_cbn. split_and!; [done| | |].
  - exists out'. by split_and!.
  - unfold payload. half_cbn. destruct (decide (2 < length p)).
    + rewrite slice_Some by lia. by rewrite Htk.
    + rewrite drop_ge by lia. done.
  - split; [|by eapply read_keeps_nonces]. intros x Hx. by apply (read_other_direction _ _ _ _ _ _ _ Hx Hrb).
Qed.

(** Any frame at all: [read_frame] either fills the buffer from the stream
    or reports the end of the stream. *)
Lemma read_frame_result (r : R) frame :
  (∃ r' c, read_frame (r, frame) = (Ok tt, (r', c))) ∨
  (∃ r' c, read_frame (r, frame) = (Err (Io UnexpectedEof), (r', c))).
Proof.
  unfold read_frame. destruct (incoming r) as [|b0 [|b1 rest]] eqn:Hin.
  1,2: destruct (read_u16_eof r) as (r' & ->); [rewrite Hin; simpl; lia|]; right; eauto.
  destruct (read_u16_ok r _ _ _ Hin) as (r1 & -> & Hin1).
  set (buf := resize _ _ _). destruct (decide (length buf ≤ length (incoming r1))) as [Hl|Hl].
  - destruct (read_exact_ok r1 buf Hl) as (r2 & -> & _). left. eauto.
  - destruct (read_exact_eof r1 buf) as (buf' & r2 & ->); [lia|]. right. eauto.
Qed.

(** A stretch of bytes that ends inside a frame. *)
Definition short (b : bytes) : Prop :=
  ∃ c i, length c ≤ Z.to_nat 65535 ∧ i < length (frame_bytes (length c) c) ∧
         b = take i (frame_bytes (length c) c).

Lemma short_nil : short [].
Proof. exists [], 0. split_and!; [cbn; lia|cbn; lia|done]. Qed.

Lemma read_frame_short (r : R) frame :
  short (incoming r) → ∃ r' c, read_frame (r, frame) = (Err (Io UnexpectedEof), (r', c)).
Proof.
  intros (c & i & Hc & Hi & Hin). unfold frame_bytes, u16_to_be_bytes in *. cbn [app length] in Hi.
  unfold read_frame. destruct i as [|[|i]]; cbn [app take] in Hin.
  1,2: destruct (read_u16_eof r) as (r' & ->); [rewrite Hin; cbn; lia|]; eauto.
  destruct (read_u16_ok r _ _ _ Hin) as (r1 & -> & Hin1).
  rewrite as_u16_id, u16_be_round_trip, Nat2Z.id by (unfold u16_ok; lia).
  destruct (read_exact_eof r1 (resize (length c) 0%Z frame)) as (buf' & r2 & ->);
    [rewrite Hin1, length_resize, length_take; lia|]. eauto.
Qed.

Lemma payload_some (rx : PacketRx R) :
  payload_end rx ≤ length (plaintext_buf rx) → ∃ p, payload rx = Some p.
Proof.
  intros Hle. unfold payload. destruct (decide _); [|eauto]. rewrite slice_Some by lia. eauto.
Qed.

(** Encrypting a plaintext that does not fit in a Noise message fails before
    anything is written. *)
Lemma write_frame_oversized p (s : T * PacketTx W) :
  MAX_RAW_PACKET_SIZE < length p →
  ∃ e s', write_frame p s = (Err (NoiseErr e), s') ∧ tx_write s'.2 = tx_write s.2.
Proof.
  intros Hp. unfold write_frame.
  destruct (grow_write_buf s (FRAME_HEADER_SIZE + (length p + CIPHER_OVERHEAD_SIZE)))
    as (buf & Hbuf & Hgrow).
  unfold modify at 1. unfold bind at 1. rewrite Hgrow.
  unfold tx_encrypt, FRAME_HEADER_SIZE, bind, get. half_cbn.
  rewrite slice_from_Some by size_lia. cbn [or_panic]. unfold ret. half_cbn.
  destruct (write_message p (drop 2 buf) s.1) as [[res tail'] t'] eqn:Hw.
  destruct (write_message_buf _ _ _ _ _ _ Hw) as (_ & Hnp & Hnpd).
  destruct res as [n|e| |]; [|by eexists _, _|done..].
  apply write_message_len in Hw. size_lia.
Qed.

End Transport.

(** Whatever the stream holds and however it fails, a frame that is read is
    the next stretch of it. *)
Lemma read_frame_any {R : Type} `{AsyncRead R} (incoming : R → bytes)
    `{!FaultyReaderLaws R incoming} (rd : R) frame :
  match read_frame (rd, frame) with
  | (Ok _, (rd', c)) => ∃ b0 b1, incoming rd = b0 :: b1 :: c ++ incoming rd' ∧
      length c = Z.to_nat (u16_from_be_bytes b0 b1)
  | (Err e, _) => ∃ io, e = Io io
  | _ => False
  end.
Proof.
  unfold read_frame. pose proof (read_u16_any rd) as Hu.
  destruct (read_u16 rd) as [[len|e| |] rd1]; [|by eexists|done..].
  destruct Hu as (b0 & b1 & Hin & ->).
  pose proof (read_exact_any rd1 (resize (Z.to_nat (u16_from_be_bytes b0 b1)) 0%Z frame)) as He.
  destruct (read_exact _ rd1) as [[[[]|e| |] c] rd2]; destruct He as [Hl He]; cbn [map_err];
    [|by eexists|done..].
  rewrite length_resize in Hl. exists b0, b1. by rewrite Hin, He.
Qed.

(** ** Properties *)

(** C23: streaming equals slicing.  However the source splits its bytes over
    [read] calls, [send_reader] has exactly the effect of [send_slice] on
    the whole contents: the same packets, errors and final state.  The last
    packet is marked last unless the contents are a non-empty multiple of
    [MAX_PACKET_SIZE].  One [read] per byte plus one for the end of the
    stream is always enough fuel. *)
Theorem send_reader_is_send_slice {T W Rd : Type} `{TransportState T, AsyncWrite W, AsyncRead Rd}
    (incoming : Rd → bytes) `{!ReaderLaws Rd incoming} fuel (rd : Rd) (s : T * PacketTx W) :
  length (incoming rd) < fuel →
  send_reader fuel rd s =
  send_slice (incoming rd)
    (bool_decide (incoming rd = [] ∨ length (incoming rd) mod MAX_PACKET_SIZE ≠ 0)) s.
Proof. intros Hf. by apply (send_reader_slice incoming (λ _, None)). Qed.

Lemma send_reader_is_send_slice_witness :
  let tx := {| packet_builder := {| PacketBuilder.in_progress := true; PacketBuilder.is_first := true;
                                    PacketBuilder.msg_type := 7; PacketBuilder.buf := [] |};
               tx_write := {| sink_data := [] |}; write_buf := [] |} in
  send_reader 4 {| pipe_data := [1; 2; 3]%Z; pipe_step := 0 |} ({| ctr_tx := 0; ctr_rx := 0 |}, tx)
  = send_slice [1; 2; 3]%Z true ({| ctr_tx := 0; ctr_rx := 0 |}, tx).
Proof.
  intros tx.
  pose proof (send_reader_is_send_slice pipe_data 4 {| pipe_data := [1; 2; 3]%Z; pipe_step := 0 |}
    ({| ctr_tx := 0; ctr_rx := 0 |}, tx)) as Heq.
  rewrite bool_decide_eq_true_2 in Heq.
  - apply Heq. simpl. lia.
  - right. cbn [pipe_data length]. rewrite Nat.mod_small; size_lia.
Defined.

(** C22: receiving is safe against any peer.  Whatever bytes the stream holds
    and however it fails, [read_packet] returns a header or an error and never
    panics.  A header is one the reader state machine accepts, and [payload]
    then has its bytes; on an error the reader state machine is where it was,
    and on an error of the stream the cipher has not moved either.  A stream
    that only ends reports just that. *)
Theorem read_packet_safe {T R : Type} `{TransportState T, AsyncRead R}
    (paired : T → T → Prop) (nonces_left : T → nat) `{!TransportLaws T paired nonces_left}
    (incoming : R → bytes) `{!FaultyReaderLaws R incoming} (s : T * PacketRx R) :
  let '(res, s') := read_packet s in
  match res with
  | Ok h => accepts h (packet_reader s.2) ∧ packet_reader s'.2 = reader_next h (packet_reader s.2) ∧
            ∃ p, payload s'.2 = Some p
  | Err e => packet_reader s'.2 = packet_reader s.2 ∧
             ((∃ io, e = Io io ∧ s'.1 = s.1 ∧ (ReaderLaws R incoming → io = UnexpectedEof)) ∨
              (∃ x, e = NoiseErr x) ∨ ∃ x, e = PacketErr x)
  | Panic | Pending => False
  end.
Proof.
  assert (Heof : ∀ e x, ReaderLaws R incoming →
    read_frame (rx_read s.2, ciphertext_buf s.2) = (Err (Io e), x) → e = UnexpectedEof).
  { intros e x Hl He. destruct (read_frame_result incoming (rx_read s.2) (ciphertext_buf s.2))
      as [(? & ? & Hr)|(? & ? & Hr)]; rewrite He in Hr; by simplify_eq. }
  pose proof (read_frame_any incoming (rx_read s.2) (ciphertext_buf s.2)) as Hf.
  unfold read_packet, zoom, bind, modify, rx_decrypt, get.
  destruct (read_frame _) as [[[]|e| |] [r' c]]; half_cbn; [| |done..].
  2: { destruct Hf as [io ->]. split; [done|]. left. exists io. split_and!; eauto. }
  destruct (read_message c (resize (length c) 0%Z (plaintext_buf s.2)) s.1) as [[res pb] t'] eqn:Hr.
  destruct (read_message_buf _ _ _ _ _ _ Hr) as (Hpb & Hnp & Hnd).
  destruct res as [n|e| |]; half_cbn; [|by eauto|done..].
  apply read_message_len in Hr. rewrite slice_to_Some by lia. cbn [or_panic]. unfold ret. half_cbn.
  destruct (read_result (take n pb) (packet_reader s.2)) as [[h Hh]|[e He]].
  - rewrite Hh. half_cbn. apply read_ok_inv in Hh as [? _]. split_and!; [done|done|].
    apply payload_some. half_cbn. lia.
  - rewrite He. half_cbn. eauto.
Qed.

Lemma read_packet_safe_witness :
  let rx := {| packet_reader := PacketReader.new;
               rx_read := {| flaky_pipe := {| pipe_data := [0; 3; 1; 2; 3]%Z; pipe_step := 0 |};
                             flaky_calls := 1 |};
               ciphertext_buf := []; plaintext_buf := []; payload_end := 0 |} in
  (read_packet ({| ctr_tx := 0; ctr_rx := 0 |}, rx)).1 = Err (Io (IoOther 104)) ∧
  packet_reader (read_packet ({| ctr_tx := 0; ctr_rx := 0 |}, rx)).2.2 = PacketReader.new.
Proof.
  intros rx. pose proof (read_packet_safe ctr_paired ctr_left flaky_data
    ({| ctr_tx := 0; ctr_rx := 0 |}, rx)) as Hs.
  assert (He : (read_packet ({| ctr_tx := 0; ctr_rx := 0 |}, rx)).1 = Err (Io (IoOther 104)))
    by (vm_compute; reflexivity).
  destruct (read_packet _) as [res s']. cbn [fst] in He. subst res. destruct Hs as [Hs _]. auto.
Defined.

(** A payload over [MAX_PACKET_SIZE] is refused by the cipher before any
    byte reaches the stream: [send_packet] returns a Noise error and the
    writer is untouched. *)
Theorem oversized_packet_not_written {T W : Type} `{TransportState T, AsyncWrite W}
    (paired : T → T → Prop) (nonces_left : T → nat) `{!TransportLaws T paired nonces_left}
    p last (s : T * PacketTx W) :
  MAX_PACKET_SIZE < length p → PacketBuilder.in_progress (packet_builder s.2) = true →
  ∃ e s', send_packet p last s = (Err (NoiseErr e), s') ∧ tx_write s'.2 = tx_write s.2.
Proof.
  intros Hp Hip. unfold send_packet, on_builder, zoom, bind. rewrite pack_open by done. cbv zeta.
  cbn [map_err]. set (raw := encode_packet _ p). set (b' := PacketBuilder.Build_t _ _ _ _).
  destruct (write_frame_oversized paired nonces_left raw (s.1, set_builder b' s.2))
    as (e & s' & -> & Hw).
  { unfold raw. rewrite length_encode_packet. size_lia. }
  exists e, s'. done.
Qed.

Lemma oversized_packet_not_written_witness :
  ∃ e s', send_packet (replicate (S MAX_PACKET_SIZE) 0%Z) true
    ({| ctr_tx := 0; ctr_rx := 0 |},
     {| packet_builder := {| PacketBuilder.in_progress := true; PacketBuilder.is_first := true;
                             PacketBuilder.msg_type := 7; PacketBuilder.buf := [] |};
        tx_write := {| sink_data := [] |}; write_buf := [] |})
    = (Err (NoiseErr e), s') ∧ sink_data (tx_write s'.2) = [].
Proof.
  destruct (oversized_packet_not_written ctr_paired ctr_left
    (replicate (S MAX_PACKET_SIZE) 0%Z) true
    ({| ctr_tx := 0; ctr_rx := 0 |},
     {| packet_builder := {| PacketBuilder.in_progress := true; PacketBuilder.is_first := true;
                             PacketBuilder.msg_type := 7; PacketBuilder.buf := [] |};
        tx_write := {| sink_data := [] |}; write_buf := [] |})) as (e & s' & -> & Hw).
  - rewrite length_replicate. lia.
  - reflexivity.
  - exists e, s'. by rewrite Hw.
Defined.
