(* ===== verification/Handshake.v ===== *)
(** * The Noise XX handshake (src/packets.rs: [HandshakeContext], [accept], [connect])

    A [HandshakeContext] owns the stream, snow's handshake state and two
    buffers.  The bodies of [accept] and [connect] are computations on it;
    [timeout] wraps them, with the time the handshake takes as an input.  On an
    error the context is dropped, so the entry points return no state. *)

From S2P Require Import Prelude PacketState Interfaces Doubles NodeId Noise Sign Auth Packets.

(** Ten seconds, in milliseconds. *)
Definition HANDSHAKE_TIMEOUT : Z := 10000.

(** [tokio::time::timeout]: [elapsed] is the time the future takes. *)
Definition timeout {E A} (limit elapsed : Z) (fut : outcome E A) : outcome () (outcome E A) :=
  if (limit <=? elapsed)%Z then Err tt
  else match fut with Pending => Pending | r => Ok r end.

(** [.await.map_err(|_| ConnectionError::HandshakeTimeout)?]. *)
Definition or_handshake_timeout {A} (r : outcome () (outcome ConnectionError A))
    : outcome ConnectionError A :=
  match r with
  | Ok r => r
  | Err _ => Err HandshakeTimeout
  | Panic => Panic
  | Pending => Pending
  end.

Module HandshakeContext.

Record t (HS S : Type) : Type := {
  handshake : HS;
  frame : bytes;
  noise_buf : bytes;
  stream : S;
}.
Arguments handshake {_ _} _.
Arguments frame {_ _} _.
Arguments noise_buf {_ _} _.
Arguments stream {_ _} _.

Section HandshakeContext.
Context {HS T S R W : Type} `{SnowHandshake HS T, AsyncRead S, AsyncWrite S, SplitStream S R W}.

Definition set_frame (f : S * bytes) (self : t HS S) : t HS S :=
  {| handshake := handshake self; frame := f.2; noise_buf := noise_buf self; stream := f.1 |}.
Definition set_noise (h : HS) (b : bytes) (self : t HS S) : t HS S :=
  {| handshake := h; frame := frame self; noise_buf := b; stream := stream self |}.
Definition set_stream (s : S) (self : t HS S) : t HS S :=
  {| handshake := handshake self; frame := frame self; noise_buf := noise_buf self; stream := s |}.

Definition new_context (stream : S) (handshake : HS) : t HS S :=
  {| handshake := handshake; frame := [];
     noise_buf := replicate (FRAME_HEADER_SIZE + MAX_CIPHERTEXT_SIZE) 0%Z; stream := stream |}.

Definition new_initiator (stream : S) (local_private : TransportPrivateKey)
    : outcome ConnectionError (t HS S) :=
  let? handshake := map_err NoiseErr (build_initiator (tsk_expose local_private)) in
  Ok (new_context stream handshake).

Definition new_responder (stream : S) (local_private : TransportPrivateKey)
    : outcome ConnectionError (t HS S) :=
  let? handshake := map_err NoiseErr (build_responder (tsk_expose local_private)) in
  Ok (new_context stream handshake).

Definition recv : M (t HS S) ConnectionError bytes :=
  do! zoom (λ self, (stream self, frame self)) set_frame id read_frame in
  let! n := λ self,
    let '(r, buf, h) := hs_read_message (frame self) (noise_buf self) (handshake self) in
    (map_err NoiseErr r, set_noise h buf self) in
  let! self := get in
  or_panic (slice_to n (noise_buf self)).

Definition send (payload : bytes) : M (t HS S) ConnectionError () :=
  let! self := get in
  let! tail := or_panic (slice_from FRAME_HEADER_SIZE (noise_buf self)) in
  let! n := λ self,
    let '(r, tail', h) := hs_write_message payload tail (handshake self) in
    (map_err NoiseErr r, set_noise h (write_tail FRAME_HEADER_SIZE tail' (noise_buf self)) self) in
  do! modify (λ self, set_noise (handshake self)
                (write_front (u16_to_be_bytes (as_u16 (Z.of_nat n))) (noise_buf self)) self) in
  let! self := get in
  let! out := or_panic (slice_to (FRAME_HEADER_SIZE + n) (noise_buf self)) in
  do! zoom stream set_stream Io (write_all out) in
  zoom stream set_stream Io flush.

Definition remote_static (self : t HS S) : outcome ConnectionError TransportPublicKey :=
  let? raw := match get_remote_static (handshake self) with
              | Some raw => Ok raw
              | None => Err MissingRemoteStatic
              end in
  let? arr := map_err (λ _, RemoteStaticKeyLength) (try_into_32 raw) in
  Ok (tpk_from arr).

(** The cipher state that the two halves share, and the halves. *)
Definition into_split (self : t HS S)
    : outcome ConnectionError (T * (PacketTx W * PacketRx R)) :=
  let? state := map_err NoiseErr (into_transport_mode (handshake self)) in
  let '(read, write) := split (stream self) in
  let tx := {| packet_builder := PacketBuilder.new; tx_write := write; write_buf := [] |} in
  let rx := {| packet_reader := PacketReader.new; rx_read := read;
               ciphertext_buf := frame self; plaintext_buf := noise_buf self;
               payload_end := 0 |} in
  Ok (state, (tx, rx)).

End HandshakeContext.
End HandshakeContext.
Import HandshakeContext (handshake, frame, noise_buf, stream).

(** ** Entry points *)

Section EntryPoints.
Context {HS T S R W : Type} `{SnowHandshake HS T, AsyncRead S, AsyncWrite S, SplitStream S R W}.
Context {SK VK Sig : Type} `{Ed25519 SK VK Sig} {FB FP : Type} `{Yatlv FB FP}.

(** What both roles do with the peer's auth payload: verify it and match its
    key with the Noise static key. *)
Definition check_peer (verification_key : SignatureVerificationKey) (payload : bytes)
    : M (HandshakeContext.t HS S) ConnectionError AuthHeader :=
  let! remote_auth_header := lift (map_err BadAuthErr (verify_raw verification_key payload)) in
  let! self := get in
  let! key := lift (HandshakeContext.remote_static self) in
  do! lift (map_err BadAuthErr (validate_public_key remote_auth_header key)) in
  ret remote_auth_header.

(** The async block of [accept], up to [into_split]. *)
Definition accept_body (local_auth_header : SignedAuthHeader)
    (verification_key : SignatureVerificationKey)
    : M (HandshakeContext.t HS S) ConnectionError AuthDetails :=
  do! HandshakeContext.recv in
  do! HandshakeContext.send (sah_expose local_auth_header) in
  let! payload := HandshakeContext.recv in
  let! remote_auth_header := check_peer verification_key payload in
  ret (details_from remote_auth_header).

(** The async block of [connect], up to [into_split]. *)
Definition connect_body (local_auth_header : SignedAuthHeader)
    (verification_key : SignatureVerificationKey)
    : M (HandshakeContext.t HS S) ConnectionError AuthDetails :=
  do! HandshakeContext.send [] in
  let! payload := HandshakeContext.recv in
  let! remote_auth_header := check_peer verification_key payload in
  do! HandshakeContext.send (sah_expose local_auth_header) in
  ret (details_from remote_auth_header).

(** [Ok((hs.into_split()?, details))]. *)
Definition finish (res : outcome ConnectionError AuthDetails * HandshakeContext.t HS S)
    : outcome ConnectionError ((T * (PacketTx W * PacketRx R)) * AuthDetails) :=
  let? details := res.1 in
  let? halves := HandshakeContext.into_split res.2 in
  Ok (halves, details).

Definition accept (elapsed : Z) (stream : S) (local_private : TransportPrivateKey)
    (local_auth_header : SignedAuthHeader) (verification_key : SignatureVerificationKey)
    : outcome ConnectionError ((T * (PacketTx W * PacketRx R)) * AuthDetails) :=
  or_handshake_timeout (timeout HANDSHAKE_TIMEOUT elapsed (
    let? hs := HandshakeContext.new_responder stream local_private in
    finish (accept_body local_auth_header verification_key hs))).

Definition connect (elapsed : Z) (stream : S) (local_private : TransportPrivateKey)
    (local_auth_header : SignedAuthHeader) (verification_key : SignatureVerificationKey)
    : outcome ConnectionError ((T * (PacketTx W * PacketRx R)) * AuthDetails) :=
  or_handshake_timeout (timeout HANDSHAKE_TIMEOUT elapsed (
    let? hs := HandshakeContext.new_initiator stream local_private in
    finish (connect_body local_auth_header verification_key hs))).

End EntryPoints.

(** Compute through the fields and setters of a context. *)
Ltac ctx_cbn :=
  cbn [fst snd map_err HandshakeContext.set_frame HandshakeContext.set_noise
       HandshakeContext.set_stream HandshakeContext.new_context handshake frame noise_buf stream].

(** ** Lemmas *)

Section Handshake.
Context {HS T S R W : Type}
  `{SnowHandshake HS T, AsyncRead S, AsyncWrite S, SplitStream S R W, AsyncRead R, AsyncWrite W}.
Context (paired : T → T → Prop) (nonces_left : T → nat) (public_of : bytes → bytes)
  (xx : nat → bytes → bytes → HS → HS → Prop)
  `{!SnowHandshakeLaws HS T paired nonces_left public_of xx}.
Context (incoming : S → bytes) `{!ReaderLaws S incoming}.
Context (written : S → bytes) (healthy : S → Prop) `{!WriterLaws S written healthy}.
Context (r_incoming : R → bytes) (w_written : W → bytes) (w_healthy : W → Prop)
  `{!DuplexLaws S R W incoming written healthy r_incoming w_written w_healthy}.

Abbreviation ctx := (HandshakeContext.t HS S).

(** The buffer has its full size and the stream accepts writes. *)
Definition ctx_ok (c : ctx) : Prop :=
  length (noise_buf c) = FRAME_HEADER_SIZE + MAX_CIPHERTEXT_SIZE ∧ healthy (stream c).

(** [c'] has handshake state [h] and buffer [nb], has written [out] more than
    [c], and still has [rest] to read. *)
Definition moved (c : ctx) (h : HS) (nb out rest : bytes) (c' : ctx) : Prop :=
  handshake c' = h ∧ noise_buf c' = nb ∧ ctx_ok c' ∧
  written (stream c') = written (stream c) ++ out ∧ incoming (stream c') = rest.

(** The buffer after sending a frame of [n] bytes from [tail]. *)
Definition sent_buf (n : nat) (tail nb : bytes) : bytes :=
  write_front (u16_to_be_bytes (as_u16 (Z.of_nat n))) (write_tail FRAME_HEADER_SIZE tail nb).

(** [send] writes one frame, or fails in the cipher. *)
Lemma send_result p (c : ctx) :
  ctx_ok c →
  (∃ n tail h c', hs_write_message p (drop FRAME_HEADER_SIZE (noise_buf c)) (handshake c)
                    = (Ok n, tail, h) ∧
     HandshakeContext.send p c = (Ok tt, c') ∧
     moved c h (sent_buf n tail (noise_buf c)) (frame_bytes n (take n tail)) (incoming (stream c)) c') ∨
  (∃ e tail h c', hs_write_message p (drop FRAME_HEADER_SIZE (noise_buf c)) (handshake c)
                    = (Err e, tail, h) ∧
     HandshakeContext.send p c = (Err (NoiseErr e), c') ∧ ctx_ok c' ∧ stream c' = stream c).
Proof.
  intros (Hl & Hh). unfold HandshakeContext.send, bind, get, modify.
  rewrite slice_from_Some by lia. cbn [or_panic]. unfold ret.
  destruct (hs_write_message p (drop FRAME_HEADER_SIZE (noise_buf c)) (handshake c))
    as [[r tail] h] eqn:Hw.
  destruct (hs_write_buf _ _ _ _ _ _ Hw) as (Htl & Hnp & Hnd). rewrite length_drop in Htl.
  destruct r as [n|e| |]; [left|right|done..]; ctx_cbn.
  2: { eexists e, tail, h, _. do 2 (split; [done|]). ctx_cbn. split; [|done]. split; [|done].
       ctx_cbn. rewrite length_write_tail; lia. }
  destruct (hs_write_len _ _ _ _ _ _ Hw) as (Hn1 & Hn2). rewrite length_drop in Hn2.
  fold (sent_buf n tail (noise_buf c)). set (buf := sent_buf n tail (noise_buf c)).
  unfold FRAME_HEADER_SIZE in *.
  assert (Hbuf : length buf = length (noise_buf c)).
  { unfold buf, sent_buf, FRAME_HEADER_SIZE.
    rewrite length_write_front; rewrite length_write_tail; cbn [u16_to_be_bytes length]; lia. }
  assert (Hfr : take (2 + n) buf = frame_bytes n (take n tail)).
  { unfold buf, sent_buf, frame_bytes, write_front, write_tail. set (hdr := u16_to_be_bytes _).
    change (length hdr) with 2. rewrite drop_app_length' by (rewrite length_take; unfold FRAME_HEADER_SIZE; lia).
    rewrite take_app_ge by (change (length hdr) with 2; lia). change (length hdr) with 2.
    by replace (2 + n - 2) with n by lia. }
  rewrite slice_to_Some, Hfr by lia. cbn [or_panic]. unfold ret, zoom. ctx_cbn.
  destruct (write_all_ok (frame_bytes n (take n tail)) (stream c) Hh) as (s1 & Hs1 & Hw1 & Hh1).
  pose proof (write_keeps_incoming _ _ _ _ Hs1) as Hi1. rewrite Hs1. ctx_cbn.
  destruct (flush_ok s1 Hh1) as (s2 & Hs2 & Hw2 & Hh2).
  pose proof (flush_keeps_incoming _ _ _ Hs2) as Hi2. rewrite Hs2. ctx_cbn.
  eexists n, tail, h, _. do 2 (split; [reflexivity|]). unfold moved, ctx_ok. ctx_cbn.
  split_and!; [done|done|by rewrite Hbuf|done|congruence|congruence].
Qed.

Lemma send_ok p (c : ctx) n tail h :
  ctx_ok c → hs_write_message p (drop FRAME_HEADER_SIZE (noise_buf c)) (handshake c) = (Ok n, tail, h) →
  ∃ c', HandshakeContext.send p c = (Ok tt, c') ∧
    moved c h (sent_buf n tail (noise_buf c)) (frame_bytes n (take n tail)) (incoming (stream c)) c'.
Proof.
  intros Hc Hw. destruct (send_result p c Hc)
    as [(n' & t' & h' & c' & Hw' & Hs & Hm)|(e & t' & h' & c' & Hw' & _)]; [|congruence].
  rewrite Hw in Hw'. simplify_eq. eauto.
Qed.

(** Reading a frame leaves the writing direction alone. *)
Lemma read_frame_keeps (s : S) f r s' f' :
  read_frame (s, f) = (r, (s', f')) → written s' = written s ∧ (healthy s → healthy s').
Proof.
  unfold read_frame. destruct (read_u16 s) as [r1 s1] eqn:Hu.
  apply read_u16_keeps_written in Hu as [Hw1 Hh1].
  destruct r1 as [len| | |]; [|intros; by simplify_eq..].
  destruct (read_exact _ s1) as [[r2 b2] s2] eqn:He.
  apply read_exact_keeps_written in He as [Hw2 Hh2]. intros. simplify_eq. split; [congruence|auto].
Qed.

(** [recv] on a frame that is there, given what the cipher makes of it. *)
Lemma recv_frame n ct rest (c : ctx) :
  ctx_ok c → n = length ct → n ≤ Z.to_nat 65535 → incoming (stream c) = frame_bytes n ct ++ rest →
  ∃ s', incoming s' = rest ∧ written s' = written (stream c) ∧ healthy s' ∧
    HandshakeContext.recv c =
    (let '(r, buf, h) := hs_read_message ct (noise_buf c) (handshake c) in
     let c' := {| handshake := h; frame := ct; noise_buf := buf; stream := s' |} in
     match r with
     | Ok k => (Ok (take k buf), c')
     | Err e => (Err (NoiseErr e), c')
     | Panic => (Panic, c')
     | Pending => (Pending, c')
     end).
Proof.
  intros (Hl & Hh) Hn Hmax Hin.
  destruct (read_frame_ok incoming n ct rest (stream c) (frame c) Hn Hmax Hin) as (s' & Hrf & Hin').
  exists s'. split; [done|]. destruct (read_frame_keeps _ _ _ _ _ Hrf) as [Hw Hh'].
  split; [done|]. split; [auto|].
  unfold HandshakeContext.recv, zoom, bind, get. rewrite Hrf. ctx_cbn.
  destruct (hs_read_message ct (noise_buf c) (handshake c)) as [[r buf] h] eqn:Hr.
  destruct (hs_read_len _ _ _ _ _ _ Hr) as (Hb & _ & _ & Hk).
  destruct r as [k| | |]; [|done..]. ctx_cbn. rewrite slice_to_Some; [done|].
  rewrite Hb. by apply Hk.
Qed.

(** [recv] of an honest frame. *)
Lemma recv_honest p (c : ctx) n tail nb h rest :
  ctx_ok c → n ≤ Z.to_nat 65535 → n ≤ length tail →
  incoming (stream c) = frame_bytes n (take n tail) ++ rest →
  hs_read_message (take n tail) (noise_buf c) (handshake c) = (Ok (length p), nb, h) →
  take (length p) nb = p →
  ∃ c', HandshakeContext.recv c = (Ok p, c') ∧ moved c h nb [] rest c'.
Proof.
  intros Hc Hn Ht Hin Hr Hp.
  destruct (recv_frame n (take n tail) rest c) as (s' & Hi & Hw & Hh & ->);
    [done|rewrite length_take; lia|done|done|].
  destruct (hs_read_len _ _ _ _ _ _ Hr) as (Hb & _). rewrite Hr, Hp.
  eexists. split; [done|]. unfold moved, ctx_ok. ctx_cbn. destruct Hc as [Hl _].
  split_and!; [done|done|by rewrite Hb|done|by rewrite app_nil_r|done].
Qed.

(** [recv] whatever the stream holds. *)
Lemma recv_result (c : ctx) :
  ctx_ok c →
  ∃ r c', HandshakeContext.recv c = (r, c') ∧ r ≠ Panic ∧ r ≠ Pending ∧ ctx_ok c' ∧
    written (stream c') = written (stream c) ∧
    ((∃ e, r = Err e ∧ (e = Io UnexpectedEof ∨ ∃ x, e = NoiseErr x)) ∨ ∃ p, r = Ok p).
Proof.
  intros (Hl & Hh). unfold HandshakeContext.recv, zoom, bind, get.
  destruct (read_frame_result incoming (stream c) (frame c)) as [(s' & f & Hrf)|(s' & f & Hrf)];
    pose proof (read_frame_keeps _ _ _ _ _ Hrf) as [Hw Hh']; rewrite Hrf; ctx_cbn.
  2: { eexists _, _. split; [done|]. unfold ctx_ok. ctx_cbn. split_and!; eauto. }
  destruct (hs_read_message f (noise_buf c) (handshake c)) as [[r buf] h] eqn:Hr.
  destruct (hs_read_len _ _ _ _ _ _ Hr) as (Hb & Hnp & Hnd & Hk).
  destruct r as [k|e| |]; [| |done..]; ctx_cbn.
  2: { eexists _, _. split; [done|]. unfold ctx_ok. ctx_cbn. rewrite Hb. split_and!; eauto 10. }
  rewrite slice_to_Some by (rewrite Hb; by apply Hk). eexists _, _. split; [done|].
  unfold ctx_ok. ctx_cbn. rewrite Hb. split_and!; eauto.
Qed.

Context {SK VK Sig : Type} `{Ed25519 SK VK Sig} {FB FP : Type} `{Yatlv FB FP}.

Lemma new_context_ok (s : S) (h : HS) : healthy s → ctx_ok (HandshakeContext.new_context s h).
Proof. intros Hh. split; [|done]. ctx_cbn. by rewrite length_replicate. Qed.

(** The peer's header and its Noise static key agree. *)
Lemma check_peer_ok vk payload h (c : ctx) :
  verify_raw vk payload = Ok h →
  get_remote_static (handshake c) = Some (tpk_as_bytes (ah_public_key h)) →
  length (tpk_as_bytes (ah_public_key h)) = 32 →
  check_peer vk payload c = (Ok h, c).
Proof.
  intros Hv Hs Hl. unfold check_peer, HandshakeContext.remote_static, bind, lift, get.
  rewrite Hv. cbn [map_err]. rewrite Hs. cbn [obind]. rewrite try_into_32_ok by done.
  cbn [map_err obind]. unfold validate_public_key. rewrite decide_True; [done|].
  by destruct h as [? ? [pk]].
Qed.

Lemma check_peer_inv vk payload h (c c' : ctx) :
  check_peer vk payload c = (Ok h, c') →
  c' = c ∧ verify_raw vk payload = Ok h ∧
  get_remote_static (handshake c) = Some (tpk_as_bytes (ah_public_key h)).
Proof.
  unfold check_peer, HandshakeContext.remote_static, bind, lift, get, ret.
  destruct (verify_raw vk payload) as [h'| | |]; cbn [map_err]; [|done..].
  destruct (get_remote_static (handshake c)) as [raw|]; cbn [obind]; [|done].
  destruct (try_into_32 raw) as [arr| | |] eqn:Ht; cbn [map_err obind]; [|done..].
  unfold validate_public_key. destruct (decide _) as [Hk|]; cbn [map_err]; [|done].
  intros [= <- <-]. apply try_into_32_inv in Ht as [-> _]. by rewrite Hk.
Qed.

(** A run of the initiator, given what the cipher makes of each message. *)
Lemma connect_run hdr vk (c : ctx) n1 t1 h1 n2 t2 nb2 h2 pr h n3 t3 h3 rest :
  ctx_ok c →
  hs_write_message [] (drop FRAME_HEADER_SIZE (noise_buf c)) (handshake c) = (Ok n1, t1, h1) →
  n2 ≤ Z.to_nat 65535 → n2 ≤ length t2 → incoming (stream c) = frame_bytes n2 (take n2 t2) ++ rest →
  hs_read_message (take n2 t2) (sent_buf n1 t1 (noise_buf c)) h1 = (Ok (length pr), nb2, h2) →
  take (length pr) nb2 = pr → verify_raw vk pr = Ok h →
  get_remote_static h2 = Some (tpk_as_bytes (ah_public_key h)) →
  length (tpk_as_bytes (ah_public_key h)) = 32 →
  hs_write_message (sah_expose hdr) (drop FRAME_HEADER_SIZE nb2) h2 = (Ok n3, t3, h3) →
  ∃ c', connect_body hdr vk c = (Ok (details_from h), c') ∧
    moved c h3 (sent_buf n3 t3 nb2) (frame_bytes n1 (take n1 t1) ++ frame_bytes n3 (take n3 t3)) rest c'.
Proof.
  intros Hc Hw1 Hn2 Ht2 Hin Hr2 Hpr Hv Hs Hl Hw3. unfold connect_body.
  destruct (send_ok _ _ _ _ _ Hc Hw1) as (c1 & Hs1 & Hm1).
  rewrite (bind_ok _ _ _ _ _ Hs1). destruct Hm1 as (Hh1 & Hb1 & Hc1 & Hwr1 & Hi1).
  destruct (recv_honest pr c1 n2 t2 nb2 h2 rest) as (c2 & Hs2 & Hm2);
    [done|done|done|by rewrite Hi1|by rewrite Hb1, Hh1|done|].
  rewrite (bind_ok _ _ _ _ _ Hs2). pose proof Hm2 as (Hh2 & Hb2 & Hc2 & Hwr2 & Hi2).
  rewrite (bind_ok _ _ _ _ _ (check_peer_ok vk pr h c2 Hv ltac:(by rewrite Hh2) Hl)).
  destruct (send_ok (sah_expose hdr) c2 n3 t3 h3 Hc2) as (c3 & Hs3 & Hm3);
    [by rewrite Hb2, Hh2|].
  rewrite (bind_ok _ _ _ _ _ Hs3). exists c3. split; [done|].
  destruct Hm3 as (Hh3 & Hb3 & Hc3 & Hwr3 & Hi3). rewrite Hb2 in Hb3.
  split_and!; [done|done|apply Hc3..| |by rewrite Hi3].
  by rewrite Hwr3, Hwr2, Hwr1, app_nil_r, app_assoc.
Qed.

(** A run of the responder up to its check of the peer, given what the cipher
    makes of each message. *)
Lemma accept_until_check hdr vk (c : ctx) n1 t1 nb1 h1 n2 t2 h2 n3 t3 nb3 h3 pi rest :
  ctx_ok c → n1 ≤ Z.to_nat 65535 → n1 ≤ length t1 → n3 ≤ Z.to_nat 65535 → n3 ≤ length t3 →
  incoming (stream c) = frame_bytes n1 (take n1 t1) ++ frame_bytes n3 (take n3 t3) ++ rest →
  hs_read_message (take n1 t1) (noise_buf c) (handshake c) = (Ok 0, nb1, h1) →
  hs_write_message (sah_expose hdr) (drop FRAME_HEADER_SIZE nb1) h1 = (Ok n2, t2, h2) →
  hs_read_message (take n3 t3) (sent_buf n2 t2 nb1) h2 = (Ok (length pi), nb3, h3) →
  take (length pi) nb3 = pi →
  ∃ c', accept_body hdr vk c = (let! h := check_peer vk pi in ret (details_from h)) c' ∧
    moved c h3 nb3 (frame_bytes n2 (take n2 t2)) rest c'.
Proof.
  intros Hc Hn1 Ht1 Hn3 Ht3 Hin Hr1 Hw2 Hr3 Hpi. unfold accept_body.
  destruct (recv_honest [] c n1 t1 nb1 h1 (frame_bytes n3 (take n3 t3) ++ rest))
    as (c1 & Hs1 & Hm1); [done..|].
  rewrite (bind_ok _ _ _ _ _ Hs1). destruct Hm1 as (Hh1 & Hb1 & Hc1 & Hwr1 & Hi1).
  destruct (send_ok (sah_expose hdr) c1 n2 t2 h2 Hc1) as (c2 & Hs2 & Hm2); [by rewrite Hb1, Hh1|].
  rewrite (bind_ok _ _ _ _ _ Hs2). destruct Hm2 as (Hh2 & Hb2 & Hc2 & Hwr2 & Hi2).
  destruct (recv_honest pi c2 n3 t3 nb3 h3 rest) as (c3 & Hs3 & Hm3);
    [done|done|done|by rewrite Hi2|by rewrite Hb2, Hh2, Hb1|done|].
  rewrite (bind_ok _ _ _ _ _ Hs3). destruct Hm3 as (Hh3 & Hb3 & Hc3 & Hwr3 & Hi3).
  exists c3. split; [done|]. split_and!; [done|done|apply Hc3..| |done].
  by rewrite Hwr3, Hwr2, Hwr1, !app_nil_r.
Qed.

(** The halves that come out of a finished context. *)
Definition fresh_halves (c : ctx) (halves : PacketTx W * PacketRx R) : Prop :=
  packet_builder halves.1 = PacketBuilder.new ∧ packet_reader halves.2 = PacketReader.new ∧
  w_written (tx_write halves.1) = written (stream c) ∧ w_healthy (tx_write halves.1) ∧
  r_incoming (rx_read halves.2) = incoming (stream c).

Lemma into_split_ok (c : ctx) t :
  ctx_ok c → into_transport_mode (handshake c) = Ok t →
  ∃ halves, HandshakeContext.into_split c = Ok (t, halves) ∧ fresh_halves c halves.
Proof.
  intros [_ Hh] Ht. unfold HandshakeContext.into_split. rewrite Ht. cbn [map_err obind].
  destruct (split (stream c)) as [rd wr] eqn:Hsp.
  destruct (split_keeps _ _ _ Hsp) as (Hi & Hw & Hhw). eexists. split; [done|].
  split_and!; [done|done|done|auto|done].
Qed.

(** What a completed entry point went through. *)
Lemma entry_inv elapsed (body : M ctx ConnectionError AuthDetails) (mk : outcome ConnectionError ctx)
    (out : outcome ConnectionError ((T * (PacketTx W * PacketRx R)) * AuthDetails)) halves d :
  out = or_handshake_timeout (timeout HANDSHAKE_TIMEOUT elapsed (let? hs := mk in finish (body hs))) →
  out = Ok (halves, d) →
  (elapsed < HANDSHAKE_TIMEOUT)%Z ∧ ∃ c c', mk = Ok c ∧ body c = (Ok d, c') ∧
                          HandshakeContext.into_split c' = Ok halves.
Proof.
  intros -> Ho. unfold timeout in Ho. destruct (Z.leb_spec HANDSHAKE_TIMEOUT elapsed); [done|].
  split; [done|].
  destruct mk as [c| | |]; [|done..]. exists c. cbn [obind] in Ho.
  unfold finish in Ho. destruct (body c) as [[d'| | |] c']; [|done..]. cbn [fst snd obind] in Ho.
  destruct (HandshakeContext.into_split c') as [hv| | |] eqn:Hi; [|done..].
  cbn in Ho. simplify_eq. eauto.
Qed.

Lemma into_split_inv (c : ctx) (t : T) (halves : PacketTx W * PacketRx R) :
  HandshakeContext.into_split c = Ok (t, halves) → into_transport_mode (handshake c) = Ok t.
Proof.
  unfold HandshakeContext.into_split. destruct (into_transport_mode (handshake c)); [|done..].
  cbn [map_err obind]. destruct (split (stream c)). by intros [= <- _].
Qed.

(** The session that ended in handshake state [hs] is with a peer whose
    header, signed under [vk], names the static key of the session. *)
Definition authenticated (vk : SignatureVerificationKey) (hs : HS) (d : AuthDetails) : Prop :=
  ∃ payload sig_bytes s h,
    signature_from_slice sig_bytes = Ok s ∧ verify_strict (svk_0 vk) payload s = Ok tt ∧
    from_yatlv payload = Ok h ∧ d = details_from h ∧
    get_remote_static hs = Some (tpk_as_bytes (ah_public_key h)).

Lemma check_peer_authenticated vk payload h (c c' : ctx) hs :
  check_peer vk payload c = (Ok h, c') →
  get_remote_static hs = get_remote_static (handshake c) → authenticated vk hs (details_from h).
Proof.
  intros Hc Hhs. apply check_peer_inv in Hc as (_ & Hv & Hs).
  apply verify_raw_inv in Hv as (p & sb & s & _ & _ & Hsig & Hver & Hy).
  exists p, sb, s, h. split_and!; try done. by rewrite Hhs.
Qed.

Lemma send_keeps_remote p (c c' : ctx) r :
  HandshakeContext.send p c = (Ok r, c') →
  get_remote_static (handshake c') = get_remote_static (handshake c).
Proof.
  unfold HandshakeContext.send, bind, get, modify.
  destruct (slice_from FRAME_HEADER_SIZE (noise_buf c)) as [tail|]; cbn [or_panic]; [|done].
  unfold ret. destruct (hs_write_message p tail (handshake c)) as [[x tail'] h] eqn:Hw.
  apply hs_write_keeps_remote in Hw. destruct x as [n| | |]; ctx_cbn; [|done..].
  destruct (slice_to _ _) as [out|]; cbn [or_panic]; [|done]. unfold zoom.
  unfold ret. ctx_cbn. destruct (write_all out (stream c)) as [[[]| | |] s1]; ctx_cbn; [|done..].
  destruct (flush s1) as [x s2]. intros [= _ <-]. by ctx_cbn.
Qed.

(** ** Properties *)

(** C5: [accept] only returns an authenticated session.  Whatever a peer
    sends, if the responder's handshake completes then the returned cipher
    state comes from a handshake state whose remote static key is the key in
    an auth header that verified under the cluster's key, and the returned
    details are that header's node id and role. *)
Theorem accept_authenticates elapsed (s : S) priv hdr vk (t : T) (halves : PacketTx W * PacketRx R) d :
  accept elapsed s priv hdr vk = Ok ((t, halves), d) →
  (elapsed < HANDSHAKE_TIMEOUT)%Z ∧ ∃ hs, into_transport_mode hs = Ok t ∧ authenticated vk hs d.
Proof.
  intros Ha. destruct (entry_inv elapsed (accept_body hdr vk) _ _ _ _ eq_refl Ha)
    as (Hf & c & c' & _ & Hb & Hi). split; [done|]. exists (handshake c').
  split; [by eapply into_split_inv|]. unfold accept_body in Hb.
  apply bind_ok_inv in Hb as (? & c1 & _ & Hb). apply bind_ok_inv in Hb as (? & c2 & _ & Hb).
  apply bind_ok_inv in Hb as (p & c3 & _ & Hb). apply bind_ok_inv in Hb as (h & c4 & Hc & [= <- <-]).
  pose proof (check_peer_inv _ _ _ _ _ Hc) as (-> & _). by eapply check_peer_authenticated.
Qed.

(** C6: [connect] only returns an authenticated session, as for [accept]: the
    check made before the last message still holds of the final state. *)
Theorem connect_authenticates elapsed (s : S) priv hdr vk (t : T) (halves : PacketTx W * PacketRx R) d :
  connect elapsed s priv hdr vk = Ok ((t, halves), d) →
  (elapsed < HANDSHAKE_TIMEOUT)%Z ∧ ∃ hs, into_transport_mode hs = Ok t ∧ authenticated vk hs d.
Proof.
  intros Ha. destruct (entry_inv elapsed (connect_body hdr vk) _ _ _ _ eq_refl Ha)
    as (Hf & c & c' & _ & Hb & Hi). split; [done|]. exists (handshake c').
  split; [by eapply into_split_inv|]. unfold connect_body in Hb.
  apply bind_ok_inv in Hb as (? & c1 & _ & Hb). apply bind_ok_inv in Hb as (p & c2 & _ & Hb).
  apply bind_ok_inv in Hb as (h & c3 & Hc & Hb). apply bind_ok_inv in Hb as (? & c4 & Hs & [= <- <-]).
  pose proof (check_peer_inv _ _ _ _ _ Hc) as (-> & _).
  eapply check_peer_authenticated; [done|]. by eapply send_keeps_remote.
Qed.

(** The errors with which a peer's identity is refused. *)
Definition rejects_peer (e : ConnectionError) : Prop :=
  match e with BadAuthErr _ | MissingRemoteStatic | RemoteStaticKeyLength => True | _ => False end.

Lemma check_peer_state vk payload (c : ctx) : (check_peer vk payload c).2 = c.
Proof.
  unfold check_peer, HandshakeContext.remote_static, bind, lift, get, ret.
  destruct (verify_raw vk payload); cbn [map_err]; [|done..].
  destruct (get_remote_static (handshake c)) as [raw|]; cbn [obind]; [|done].
  destruct (try_into_32 raw); cbn [map_err obind]; [|done..].
  by destruct (validate_public_key _ _).
Qed.

(** C30: the initiator does not reveal its identity to a peer it rejects.  When
    [connect] refuses the responder (bad signature, malformed header, key
    mismatch), the only bytes it has written are the frame of the first
    handshake message, whose payload is empty: its own auth header was not
    sent. *)
Theorem initiator_identity_withheld hdr vk (c c' : ctx) e :
  ctx_ok c → connect_body hdr vk c = (Err e, c') → rejects_peer e →
  ∃ n tail h, hs_write_message [] (drop FRAME_HEADER_SIZE (noise_buf c)) (handshake c)
                = (Ok n, tail, h) ∧
    written (stream c') = written (stream c) ++ frame_bytes n (take n tail).
Proof.
  intros Hc Hb He. unfold connect_body in Hb.
  destruct (send_result [] c Hc) as [(n & tail & h & c1 & Hw & Hs & Hm)|(x & t & h & c1 & _ & Hs & _)].
  2: { rewrite (bind_err _ _ _ _ _ Hs) in Hb. by simplify_eq. }
  rewrite (bind_ok _ _ _ _ _ Hs) in Hb. destruct Hm as (_ & _ & Hc1 & Hw1 & _).
  destruct (recv_result c1 Hc1) as (r & c2 & Hr & _ & _ & Hc2 & Hw2 & Hcase).
  destruct Hcase as [(x & -> & Hx)|[p ->]].
  { rewrite (bind_err _ _ _ _ _ Hr) in Hb. simplify_eq. by destruct Hx as [-> |[? ->]]. }
  rewrite (bind_ok _ _ _ _ _ Hr) in Hb. pose proof (check_peer_state vk p c2) as Hst.
  destruct (check_peer vk p c2) as [rc c3] eqn:Hck. cbn [snd] in Hst. subst c3.
  destruct rc as [ah|x| |]; unfold bind at 1 in Hb; rewrite Hck in Hb; [|by simplify_eq; eauto 10 with congruence|done..].
  destruct (send_result (sah_expose hdr) c2 Hc2)
    as [(n3 & t3 & h3 & c3 & _ & Hs3 & _)|(x & t3 & h3 & c3 & _ & Hs3 & _)].
  - rewrite (bind_ok _ _ _ _ _ Hs3) in Hb. done.
  - rewrite (bind_err _ _ _ _ _ Hs3) in Hb. by simplify_eq.
Qed.

Context `{!Ed25519Laws SK VK Sig} (fields : FB → list (Z * bytes)) `{!YatlvLaws FB FP fields}.

(** ** Two honest parties *)

(** What a party needs to take part: a header for its own transport key,
    signed with the cluster key [ck], that fits in a handshake message. *)
Definition honest (ck : SignatureSigningKey) (key : TransportPrivateKey) (h : AuthHeader) : Prop :=
  header_sized h ∧ node_id_ok (ah_node_id h) ∧
  tpk_as_bytes (ah_public_key h) = public_of (tsk_expose key) ∧
  length (tpk_as_bytes (ah_public_key h)) = 32 ∧
  length (sah_expose (auth_header_sign h ck)) + 96 ≤ Z.to_nat 65535.

Lemma honest_verifies ck key h :
  honest ck key h → verify_raw (svk_of ck) (sah_expose (auth_header_sign h ck)) = Ok h.
Proof. intros (? & ? & _ & ? & _). by apply (verify_signed_ok fields). Qed.

(** The length facts about a handshake message that the framing needs. *)
Lemma handshake_write_fits p buf h n tail h' :
  hs_write_message p buf h = (Ok n, tail, h') →
  length buf = MAX_CIPHERTEXT_SIZE → n ≤ Z.to_nat 65535 ∧ n ≤ length tail ∧ length tail = length buf.
Proof.
  intros Hw Hb. destruct (hs_write_buf _ _ _ _ _ _ Hw) as (Hl & _).
  destruct (hs_write_len _ _ _ _ _ _ Hw). lia.
Qed.

Lemma length_sent_buf n tail nb :
  length nb = FRAME_HEADER_SIZE + MAX_CIPHERTEXT_SIZE → length tail = MAX_CIPHERTEXT_SIZE →
  length (sent_buf n tail nb) = FRAME_HEADER_SIZE + MAX_CIPHERTEXT_SIZE.
Proof.
  intros Hn Ht. unfold sent_buf, FRAME_HEADER_SIZE in *.
  rewrite length_write_front; rewrite length_write_tail; cbn [u16_to_be_bytes length]; lia.
Qed.

(** The entry points, given runs of their bodies. *)
Lemma entry_ok elapsed (body : M ctx ConnectionError AuthDetails) mk (c c' : ctx) d t :
  (elapsed < HANDSHAKE_TIMEOUT)%Z → mk = Ok c → body c = (Ok d, c') → ctx_ok c' → into_transport_mode (handshake c') = Ok t →
  ∃ halves : PacketTx W * PacketRx R,
    or_handshake_timeout (timeout HANDSHAKE_TIMEOUT elapsed (let? hs := mk in finish (body hs))) = Ok ((t, halves), d) ∧
    fresh_halves c' halves.
Proof.
  intros He -> Hb Hc Ht. destruct (into_split_ok c' t Hc Ht) as (halves & Hi & Hf).
  exists halves. split; [|done]. cbn [obind]. rewrite Hb. unfold finish. cbn [fst snd obind].
  rewrite Hi. unfold timeout. by destruct (Z.leb_spec HANDSHAKE_TIMEOUT elapsed); [lia|].
Qed.

(** A session half as the handshake returns it: nothing sent or read since. *)
Definition session_start (s : S) (out rest : bytes) (halves : PacketTx W * PacketRx R) : Prop :=
  packet_builder halves.1 = PacketBuilder.new ∧ packet_reader halves.2 = PacketReader.new ∧
  w_written (tx_write halves.1) = written s ++ out ∧ w_healthy (tx_write halves.1) ∧
  r_incoming (rx_read halves.2) = rest.

Lemma fresh_halves_start c0 h nb out rest c halves :
  moved c0 h nb out rest c → fresh_halves c halves → session_start (stream c0) out rest halves.
Proof.
  intros (_ & _ & _ & Hw & Hi) (? & ? & Hhw & ? & Hri). split_and!; try done; congruence.
Qed.

(** The buffer a context starts with. *)
Definition buf0 : bytes := replicate (FRAME_HEADER_SIZE + MAX_CIPHERTEXT_SIZE) 0%Z.

(** Everything two honest ciphers do in one handshake: the three messages and
    the states and buffers they go through, for auth payloads [pi] and [pr]. *)
Record transcript (hi hr : HS) (pi pr : bytes) : Type := {
  n1 : nat; t1 : bytes; hi1 : HS; br1 : bytes; hr1 : HS;
  n2 : nat; t2 : bytes; hr2 : HS; bi2 : bytes; hi2 : HS;
  n3 : nat; t3 : bytes; hi3 : HS; br3 : bytes; hr3 : HS;
  w1 : hs_write_message [] (drop FRAME_HEADER_SIZE buf0) hi = (Ok n1, t1, hi1);
  r1 : hs_read_message (take n1 t1) buf0 hr = (Ok 0, br1, hr1);
  w2 : hs_write_message pr (drop FRAME_HEADER_SIZE br1) hr1 = (Ok n2, t2, hr2);
  r2 : hs_read_message (take n2 t2) (sent_buf n1 t1 buf0) hi1 = (Ok (length pr), bi2, hi2);
  k2 : take (length pr) bi2 = pr;
  w3 : hs_write_message pi (drop FRAME_HEADER_SIZE bi2) hi2 = (Ok n3, t3, hi3);
  r3 : hs_read_message (take n3 t3) (sent_buf n2 t2 br1) hr2 = (Ok (length pi), br3, hr3);
  k3 : take (length pi) br3 = pi;
  fits : (n1 ≤ Z.to_nat 65535 ∧ n1 ≤ length t1) ∧ (n2 ≤ Z.to_nat 65535 ∧ n2 ≤ length t2) ∧
         (n3 ≤ Z.to_nat 65535 ∧ n3 ≤ length t3);
}.

Lemma transcript_exists ki kr hi hr pi pr :
  xx 0 ki kr hi hr → length pi + 96 ≤ Z.to_nat 65535 → length pr + 96 ≤ Z.to_nat 65535 →
  ∃ tr : transcript hi hr pi pr, xx 3 ki kr (hi3 _ _ _ _ tr) (hr3 _ _ _ _ tr) ∧
    get_remote_static (hi2 _ _ _ _ tr) = Some (public_of kr) ∧
    get_remote_static (hr3 _ _ _ _ tr) = Some (public_of ki).
Proof.
  intros X0 Hpi Hpr.
  assert (Hb0 : length buf0 = FRAME_HEADER_SIZE + MAX_CIPHERTEXT_SIZE) by apply length_replicate.
  assert (Hd : ∀ b : bytes, length b = FRAME_HEADER_SIZE + MAX_CIPHERTEXT_SIZE →
             length (drop FRAME_HEADER_SIZE b) = MAX_CIPHERTEXT_SIZE)
    by (intros b Hb; rewrite length_drop; lia).
  destruct (xx_write_total 0 _ _ _ _ [] (drop FRAME_HEADER_SIZE buf0) X0)
    as (n1 & t1 & hi1 & W1); [lia|cbn [length]; lia|rewrite Hd by done; cbn [length]; size_lia|].
  rewrite decide_False in W1 by lia.
  destruct (handshake_write_fits _ _ _ _ _ _ W1 (Hd _ Hb0)) as (Hn1 & Ht1 & Hlt1). rewrite Hd in Hlt1 by done.
  destruct (xx_msg1 _ _ _ _ _ _ _ _ _ buf0 X0 W1) as (br1 & hr1 & R1 & _ & X1); [rewrite Hb0; size_lia|].
  pose proof (proj1 (hs_read_len _ _ _ _ _ _ R1)) as Hbr1. rewrite Hb0 in Hbr1.
  destruct (xx_write_total 1 _ _ _ _ pr (drop FRAME_HEADER_SIZE br1) X1)
    as (n2 & t2 & hr2 & W2); [lia|done|rewrite Hd by done; size_lia|]. rewrite decide_True in W2 by lia.
  destruct (handshake_write_fits _ _ _ _ _ _ W2 (Hd _ Hbr1)) as (Hn2 & Ht2 & Hlt2). rewrite Hd in Hlt2 by done.
  pose proof (length_sent_buf n1 _ _ Hb0 Hlt1) as Hbi1.
  destruct (xx_msg2 _ _ _ _ _ _ _ _ _ (sent_buf n1 t1 buf0) X1 W2)
    as (bi2 & hi2 & R2 & K2 & X2 & S2); [rewrite Hbi1; size_lia|].
  pose proof (proj1 (hs_read_len _ _ _ _ _ _ R2)) as Hbi2. rewrite Hbi1 in Hbi2.
  destruct (xx_write_total 2 _ _ _ _ pi (drop FRAME_HEADER_SIZE bi2) X2)
    as (n3 & t3 & hi3 & W3); [lia|done|rewrite Hd by done; size_lia|]. rewrite decide_False in W3 by lia.
  destruct (handshake_write_fits _ _ _ _ _ _ W3 (Hd _ Hbi2)) as (Hn3 & Ht3 & _).
  pose proof (length_sent_buf n2 _ _ Hbr1 Hlt2) as Hbr2.
  destruct (xx_msg3 _ _ _ _ _ _ _ _ _ (sent_buf n2 t2 br1) X2 W3)
    as (br3 & hr3 & R3 & K3 & X3 & S3); [rewrite Hbr2; size_lia|].
  unshelve eexists (Build_transcript _ _ _ _ _ _ _ _ _ _ _ _ _ _ _ _ _ _ _ W1 R1 W2 R2 K2 W3 R3 K3 _);
    split_and!; done.
Qed.

(** The initiator's whole run on a transcript. *)
Lemma connect_transcript ki hi hr hdr vk pr ahr (tr : transcript hi hr (sah_expose hdr) pr) ti elapsed s rest :
  build_initiator (tsk_expose ki) = Ok hi → verify_raw vk pr = Ok ahr →
  get_remote_static (hi2 _ _ _ _ tr) = Some (tpk_as_bytes (ah_public_key ahr)) →
  length (tpk_as_bytes (ah_public_key ahr)) = 32 →
  into_transport_mode (hi3 _ _ _ _ tr) = Ok ti →
  (elapsed < HANDSHAKE_TIMEOUT)%Z → healthy s →
  incoming s = frame_bytes (n2 _ _ _ _ tr) (take (n2 _ _ _ _ tr) (t2 _ _ _ _ tr)) ++ rest →
  ∃ halves, connect elapsed s ki hdr vk = Ok ((ti, halves), details_from ahr) ∧
    session_start s (frame_bytes (n1 _ _ _ _ tr) (take (n1 _ _ _ _ tr) (t1 _ _ _ _ tr)) ++
                     frame_bytes (n3 _ _ _ _ tr) (take (n3 _ _ _ _ tr) (t3 _ _ _ _ tr))) rest halves.
Proof.
  destruct tr as [n1 t1 hi1 br1 hr1 n2 t2 hr2 bi2 hi2 n3 t3 hi3 br3 hr3 W1 R1 W2 R2 K2 W3 R3 K3
    ((? & ?) & (? & ?) & ? & ?)]. cbn. intros Hbi Hv S2 Hl Hti He Hh Hin.
  destruct (connect_run hdr vk (HandshakeContext.new_context s hi)
    n1 t1 hi1 n2 t2 bi2 hi2 pr ahr n3 t3 hi3 rest) as (c' & Hb & Hm);
    [by apply new_context_ok|done..|].
  assert (Hmk : HandshakeContext.new_initiator s ki = Ok (HandshakeContext.new_context s hi))
    by (unfold HandshakeContext.new_initiator; by rewrite Hbi).
  destruct (entry_ok elapsed _ _ _ _ _ ti He Hmk Hb) as (halves & Hc & Hf); [apply Hm|by rewrite (proj1 Hm)|].
  exists halves. split; [done|]. exact (fresh_halves_start _ _ _ _ _ _ _ Hm Hf).
Qed.

(** Two parties of one cluster, each with its own key and header, complete:
    there are three messages such that each side succeeds on a stream that
    carries the other side's messages, having written its own. *)
Lemma honest_run ck ki kr ahi ahr hi hr :
  honest ck ki ahi → honest ck kr ahr →
  build_initiator (tsk_expose ki) = Ok hi → build_responder (tsk_expose kr) = Ok hr →
  ∃ m1 m2 m3 ti tr, (paired ti tr ∧ paired tr ti ∧
    Z.of_nat (nonces_left ti) = (2 ^ 64 - 1)%Z ∧ Z.of_nat (nonces_left tr) = (2 ^ 64 - 1)%Z) ∧
    (∀ elapsed s rest, (elapsed < HANDSHAKE_TIMEOUT)%Z → healthy s → incoming s = m2 ++ rest →
       ∃ halves, connect elapsed s ki (auth_header_sign ahi ck) (svk_of ck)
                   = Ok ((ti, halves), details_from ahr) ∧
                 session_start s (m1 ++ m3) rest halves) ∧
    (∀ elapsed s rest, (elapsed < HANDSHAKE_TIMEOUT)%Z → healthy s → incoming s = m1 ++ m3 ++ rest →
       ∃ halves, accept elapsed s kr (auth_header_sign ahr ck) (svk_of ck)
                   = Ok ((tr, halves), details_from ahi) ∧
                 session_start s m2 rest halves).
Proof.
  intros Hoi Hor Hbi Hbr. pose proof (honest_verifies _ _ _ Hoi) as Hvi.
  pose proof (honest_verifies _ _ _ Hor) as Hvr.
  destruct Hoi as (_ & _ & Hpi & Hli & Hsi), Hor as (_ & _ & Hpr & Hlr & Hsr).
  destruct (transcript_exists _ _ _ _ _ _ (xx_build _ _ _ _ Hbi Hbr) Hsi Hsr) as (tr & X3 & S2 & S3).
  pose proof (connect_transcript ki hi hr (auth_header_sign ahi ck) (svk_of ck) _ ahr tr) as Hcon.
  destruct tr as [n1 t1 hi1 br1 hr1 n2 t2 hr2 bi2 hi2 n3 t3 hi3 br3 hr3 W1 R1 W2 R2 K2 W3 R3 K3
    ((? & ?) & (? & ?) & ? & ?)]. cbn in X3, S2, S3, Hcon.
  destruct (xx_done _ _ _ _ X3) as (ti & tr & Hti & Htr & Hp1 & Hp2).
  exists (frame_bytes n1 (take n1 t1)), (frame_bytes n2 (take n2 t2)), (frame_bytes n3 (take n3 t3)), ti, tr.
  split; [split_and!; [done|done|by eapply fresh_nonces..]|]. split; intros elapsed s rest He Hh Hin.
  - apply Hcon; try done. by rewrite S2, Hpr.
  - destruct (accept_until_check (auth_header_sign ahr ck) (svk_of ck) (HandshakeContext.new_context s hr)
      n1 t1 br1 hr1 n2 t2 hr2 n3 t3 br3 hr3 (sah_expose (auth_header_sign ahi ck)) rest)
      as (c' & Hb & Hm); [by apply new_context_ok|done..|].
    rewrite (bind_ok _ _ _ _ _ (check_peer_ok _ _ ahi c' Hvi
      ltac:(by rewrite (proj1 Hm), S3, Hpi) Hli)) in Hb.
    assert (Hmk : HandshakeContext.new_responder s kr = Ok (HandshakeContext.new_context s hr))
      by (unfold HandshakeContext.new_responder; by rewrite Hbr).
    destruct (entry_ok elapsed _ _ _ _ _ tr He Hmk Hb) as (halves & Hc & Hf); [apply Hm|by rewrite (proj1 Hm)|].
    exists halves. split; [done|]. exact (fresh_halves_start _ _ _ _ _ _ _ Hm Hf).
Qed.

(** C7: two honest nodes of a cluster always complete the handshake.  For any
    two nodes whose auth headers name their own transport keys and are signed
    with the cluster's key there are three frames [m1], [m2], [m3] such that
    [connect] succeeds on every stream that delivers [m2] and writes [m1] and
    [m3], and [accept] succeeds on every stream that delivers [m1] and [m3]
    and writes [m2].  Each side learns the other's node id and role, the
    two cipher states are paired in both directions with the full nonce
    range left, and both sides are between messages with the bytes after the
    handshake still unread. *)
Theorem honest_handshake_completes ck ki kr ahi ahr hi hr :
  honest ck ki ahi → honest ck kr ahr →
  build_initiator (tsk_expose ki) = Ok hi → build_responder (tsk_expose kr) = Ok hr →
  ∃ m1 m2 m3 ti tr, (paired ti tr ∧ paired tr ti ∧
    Z.of_nat (nonces_left ti) = (2 ^ 64 - 1)%Z ∧ Z.of_nat (nonces_left tr) = (2 ^ 64 - 1)%Z) ∧
    (∀ elapsed s rest, (elapsed < HANDSHAKE_TIMEOUT)%Z → healthy s → incoming s = m2 ++ rest →
       ∃ halves, connect elapsed s ki (auth_header_sign ahi ck) (svk_of ck)
                   = Ok ((ti, halves), details_from ahr) ∧
                 session_start s (m1 ++ m3) rest halves) ∧
    (∀ elapsed s rest, (elapsed < HANDSHAKE_TIMEOUT)%Z → healthy s → incoming s = m1 ++ m3 ++ rest →
       ∃ halves, accept elapsed s kr (auth_header_sign ahr ck) (svk_of ck)
                   = Ok ((tr, halves), details_from ahi) ∧
                 session_start s m2 rest halves).
Proof. apply honest_run. Qed.

(** A peer that knows the key of [ka] presents the header of another node. *)
Lemma check_peer_mismatch vk payload h (c : ctx) key :
  verify_raw vk payload = Ok h → get_remote_static (handshake c) = Some key → length key = 32 →
  tpk_as_bytes (ah_public_key h) ≠ key →
  check_peer vk payload c = (Err (BadAuthErr (PublicKeyMismatch (ah_public_key h) (tpk_from key))), c).
Proof.
  intros Hv Hs Hl Hne. unfold check_peer, HandshakeContext.remote_static, bind, lift, get.
  rewrite Hv. cbn [map_err]. rewrite Hs. cbn [obind]. rewrite try_into_32_ok by done.
  cbn [map_err obind]. unfold validate_public_key. rewrite decide_False; [done|].
  intros Heq. apply Hne. by rewrite Heq.
Qed.

(** C31: a stolen auth header is useless without its transport key.  An attacker
    runs this crate's own initiator with its own key [ka] and the validly
    signed header of another node, any header at all.  Against an honest
    responder the three messages are exchanged, [m1] and [m3] being what the
    attacker's [connect] writes when it gets [m2], and [m2] what the
    responder writes when it gets [m1] and [m3]; and the responder's [accept]
    rejects the attacker with [PublicKeyMismatch], naming the header's key
    and the attacker's. *)
Theorem replayed_header_rejected ck ka kr victim ahr ha hr :
  header_sized victim → node_id_ok (ah_node_id victim) →
  length (tpk_as_bytes (ah_public_key victim)) = 32 →
  length (sah_expose (auth_header_sign victim ck)) + 96 ≤ Z.to_nat 65535 →
  honest ck kr ahr → build_initiator (tsk_expose ka) = Ok ha →
  build_responder (tsk_expose kr) = Ok hr →
  length (public_of (tsk_expose ka)) = 32 →
  tpk_as_bytes (ah_public_key victim) ≠ public_of (tsk_expose ka) →
  let mismatch := BadAuthErr (PublicKeyMismatch (ah_public_key victim)
                                                (tpk_from (public_of (tsk_expose ka)))) in
  ∃ m1 m2 m3,
    (∀ elapsed s rest, (elapsed < HANDSHAKE_TIMEOUT)%Z → healthy s → incoming s = m2 ++ rest →
       ∃ t halves, connect elapsed s ka (auth_header_sign victim ck) (svk_of ck)
                     = Ok ((t, halves), details_from ahr) ∧
                   session_start s (m1 ++ m3) rest halves) ∧
    (∀ elapsed s rest, (elapsed < HANDSHAKE_TIMEOUT)%Z → healthy s →
       incoming s = m1 ++ m3 ++ rest →
       accept elapsed s kr (auth_header_sign ahr ck) (svk_of ck) = Err mismatch ∧
       ∃ c c', HandshakeContext.new_responder s kr = Ok c ∧
               accept_body (auth_header_sign ahr ck) (svk_of ck) c = (Err mismatch, c') ∧
               written (stream c') = written s ++ m2).
Proof.
  intros Hsz Hid Hvl Hfit Hor Hba Hbr Hkl Hne mismatch.
  pose proof (verify_signed_ok fields victim ck Hsz Hid Hvl) as Hv.
  pose proof (honest_verifies _ _ _ Hor) as Hvr. destruct Hor as (_ & _ & Hpr & Hlr & Hsr).
  destruct (transcript_exists _ _ _ _ _ _ (xx_build _ _ _ _ Hba Hbr) Hfit Hsr) as (tr & X3 & S2 & S3).
  pose proof (connect_transcript ka ha hr (auth_header_sign victim ck) (svk_of ck) _ ahr tr) as Hcon.
  destruct tr as [n1 t1 hi1 br1 hr1 n2 t2 hr2 bi2 hi2 n3 t3 hi3 br3 hr3 W1 R1 W2 R2 K2 W3 R3 K3
    ((? & ?) & (? & ?) & ? & ?)]. cbn in X3, S2, S3, Hcon.
  destruct (xx_done _ _ _ _ X3) as (ti & _ & Hti & _).
  exists (frame_bytes n1 (take n1 t1)), (frame_bytes n2 (take n2 t2)), (frame_bytes n3 (take n3 t3)).
  split; intros elapsed s rest He Hh Hin.
  { exists ti. apply Hcon; try done. by rewrite S2, Hpr. }
  destruct (accept_until_check (auth_header_sign ahr ck) (svk_of ck) (HandshakeContext.new_context s hr)
    n1 t1 br1 hr1 n2 t2 hr2 n3 t3 br3 hr3 (sah_expose (auth_header_sign victim ck)) rest)
    as (c' & Hb & Hm); [by apply new_context_ok|done..|].
  rewrite (bind_err _ _ _ _ _ (check_peer_mismatch _ _ victim c' _ Hv
    ltac:(by rewrite (proj1 Hm), S3) Hkl Hne)) in Hb. split.
  - unfold accept, HandshakeContext.new_responder. rewrite Hbr. cbn [map_err obind].
    rewrite Hb. unfold timeout. by destruct (Z.leb_spec HANDSHAKE_TIMEOUT elapsed); [lia|].
  - exists (HandshakeContext.new_context s hr), c'. unfold HandshakeContext.new_responder.
    rewrite Hbr. split; [done|]. split; [exact Hb|]. apply Hm.
Qed.

End Handshake.

(** ** Any peer, any stream *)

Section Total.
Context {HS T S R W : Type}
  `{SnowHandshake HS T, AsyncRead S, AsyncWrite S, SplitStream S R W}.
Context (paired : T → T → Prop) (nonces_left : T → nat) (public_of : bytes → bytes)
  (xx : nat → bytes → bytes → HS → HS → Prop)
  `{!SnowHandshakeLaws HS T paired nonces_left public_of xx}.
Context (incoming : S → bytes) `{!FaultyReaderLaws S incoming}.
Context (written : S → bytes) `{!FaultyWriterLaws S written}.
Context {SK VK Sig : Type} `{Ed25519 SK VK Sig} {FB FP : Type} `{Yatlv FB FP}.
Context `{!Ed25519Laws SK VK Sig} (fields : FB → list (Z * bytes)) `{!YatlvLaws FB FP fields}.

Abbreviation ctx := (HandshakeContext.t HS S).

(** The buffer has its full size. *)
Definition sized (c : ctx) : Prop :=
  length (noise_buf c) = FRAME_HEADER_SIZE + MAX_CIPHERTEXT_SIZE.

(** A computation that always returns, keeping the buffer's size. *)
Definition returns {A} (m : M ctx ConnectionError A) : Prop :=
  ∀ c, sized c → ∃ r c', m c = (r, c') ∧ r ≠ Panic ∧ r ≠ Pending ∧ sized c'.

Lemma returns_bind {A B} (m : M ctx ConnectionError A) (k : A → M ctx ConnectionError B) :
  returns m → (∀ a, returns (k a)) → returns (bind m k).
Proof.
  intros Hm Hk c Hc. destruct (Hm c Hc) as (r & c1 & Hr & Hnp & Hnd & Hc1).
  unfold bind. rewrite Hr. destruct r as [a|e| |]; [by apply Hk| |done..].
  eexists _, _. by split_and!.
Qed.

Lemma returns_ret {A} (a : A) : returns (ret a).
Proof. intros c Hc. eexists _, _. by split_and!. Qed.

Lemma returns_send p : returns (HandshakeContext.send p).
Proof.
  intros c Hl. unfold sized in Hl. unfold HandshakeContext.send, bind, get, modify.
  rewrite slice_from_Some by lia. cbn [or_panic]. unfold ret.
  destruct (hs_write_message p (drop FRAME_HEADER_SIZE (noise_buf c)) (handshake c))
    as [[r tail] h] eqn:Hw.
  destruct (hs_write_buf _ _ _ _ _ _ Hw) as (Htl & Hnp & Hnd). rewrite length_drop in Htl.
  assert (Hb : length (write_tail FRAME_HEADER_SIZE tail (noise_buf c)) = length (noise_buf c))
    by (rewrite length_write_tail; lia).
  destruct r as [n|e| |]; ctx_cbn; [| |done..].
  2: { eexists _, _. split; [done|]. split; [done|]. split; [done|]. unfold sized. ctx_cbn. by rewrite Hb. }
  destruct (hs_write_len _ _ _ _ _ _ Hw) as (Hn1 & Hn2). rewrite length_drop in Hn2.
  set (buf := write_front _ _).
  assert (Hbuf : length buf = length (noise_buf c)).
  { unfold buf. rewrite length_write_front; [done|]. rewrite Hb. cbn [u16_to_be_bytes length].
    unfold FRAME_HEADER_SIZE in Hl. lia. }
  rewrite slice_to_Some by (unfold FRAME_HEADER_SIZE in *; lia). cbn [or_panic]. unfold ret, zoom. ctx_cbn.
  destruct (write_all_any (take (FRAME_HEADER_SIZE + n) buf) (stream c)) as (r1 & s1 & k & -> & _ & Hr1).
  assert (Hs : ∀ h' s', sized {| handshake := h'; frame := frame c; noise_buf := buf; stream := s' |})
    by (intros; unfold sized; ctx_cbn; by rewrite Hbuf).
  destruct Hr1 as [[-> _]|[e ->]]; ctx_cbn; [|eexists _, _; split_and!; [done|done|done|apply Hs]].
  destruct (flush_any s1) as (r2 & s2 & -> & _ & [-> |[e ->]]); eexists _, _;
    (split_and!; [done|done|done|apply Hs]).
Qed.

Lemma returns_recv : returns HandshakeContext.recv.
Proof.
  intros c Hl. unfold sized in *. unfold HandshakeContext.recv, zoom, bind, get.
  pose proof (read_frame_any incoming (stream c) (frame c)) as Hf.
  destruct (read_frame _) as [[[]|e| |] [s' f]]; ctx_cbn; [|eexists _, _; by split_and!|done..].
  destruct (hs_read_message f (noise_buf c) (handshake c)) as [[r buf] h] eqn:Hr.
  destruct (hs_read_len _ _ _ _ _ _ Hr) as (Hb & Hnp & Hnd & Hk).
  destruct r as [k|e| |]; ctx_cbn; [| |done..].
  - rewrite slice_to_Some by (rewrite Hb; by apply Hk). eexists _, _.
    split_and!; [done|done|done|]. ctx_cbn. by rewrite Hb.
  - eexists _, _. split_and!; [done|done|done|]. ctx_cbn. by rewrite Hb.
Qed.

Lemma returns_check vk p : returns (check_peer vk p).
Proof.
  intros c Hc. pose proof (check_peer_state vk p c) as Hst.
  destruct (check_peer vk p c) as [r c'] eqn:Hck. cbn [snd] in Hst. subst c'. exists r, c.
  split; [done|]. revert Hck. unfold check_peer, HandshakeContext.remote_static, bind, lift, get, ret.
  destruct (verify_raw_result fields vk p) as [[h ->]|[e ->]]; cbn [map_err]; [|by intros [= <-]].
  destruct (get_remote_static (handshake c)) as [raw|]; cbn [obind]; [|by intros [= <-]].
  unfold try_into_32. destruct (decide _); cbn [map_err obind]; [|by intros [= <-]].
  unfold validate_public_key. destruct (decide _); cbn [map_err]; by intros [= <-].
Qed.

(** Both entry points return once their bodies do. *)
Lemma entry_returns (body : M ctx ConnectionError AuthDetails) (mk : outcome ConnectionError ctx) elapsed
    (out : outcome ConnectionError ((T * (PacketTx W * PacketRx R)) * AuthDetails)) :
  out = or_handshake_timeout (timeout HANDSHAKE_TIMEOUT elapsed (let? hs := mk in finish (body hs))) →
  returns body → mk ≠ Panic → mk ≠ Pending → (∀ c, mk = Ok c → sized c) →
  (∃ x, out = Ok x) ∨ (∃ e, out = Err e).
Proof.
  intros -> Hb Hnp Hnd Hok. unfold timeout. destruct (_ <=? _)%Z; [by right; eexists|].
  destruct mk as [c|e| |]; [|by right; eexists|done..]. cbn [obind].
  destruct (Hb c (Hok c eq_refl)) as (r & c' & Hr & Hrp & Hrd & Hc'). rewrite Hr. unfold finish.
  cbn [fst snd]. destruct r as [d|e| |]; [|by right; eexists|done..]. cbn [obind].
  unfold HandshakeContext.into_split.
  destruct (into_transport_result (handshake c')) as [Htp Htd].
  destruct (into_transport_mode (handshake c')) as [t|e| |]; cbn [map_err obind];
    [|by right; eexists|done..].
  destruct (split (stream c')) as [rd wr]. left. by eexists.
Qed.

Lemma accept_returns elapsed (s : S) priv hdr vk :
  (∃ x, accept elapsed s priv hdr vk = Ok x) ∨ (∃ e, accept elapsed s priv hdr vk = Err e).
Proof.
  destruct (hs_build_result (tsk_expose priv)) as [_ [Hr1 Hr2]].
  eapply entry_returns; [reflexivity|..]; unfold HandshakeContext.new_responder.
  - unfold accept_body. repeat (apply returns_bind;
      [auto using returns_send, returns_recv, returns_check|intros ?]). apply returns_ret.
  - by destruct (build_responder _).
  - by destruct (build_responder _).
  - intros c. destruct (build_responder _); [|done..]. intros [= <-]. apply length_replicate.
Qed.

Lemma connect_returns elapsed (s : S) priv hdr vk :
  (∃ x, connect elapsed s priv hdr vk = Ok x) ∨ (∃ e, connect elapsed s priv hdr vk = Err e).
Proof.
  destruct (hs_build_result (tsk_expose priv)) as [[Hi1 Hi2] _].
  eapply entry_returns; [reflexivity|..]; unfold HandshakeContext.new_initiator.
  - unfold connect_body. repeat (apply returns_bind;
      [auto using returns_send, returns_recv, returns_check|intros ?]). apply returns_ret.
  - by destruct (build_initiator _).
  - by destruct (build_initiator _).
  - intros c. destruct (build_initiator _); [|done..]. intros [= <-]. apply length_replicate.
Qed.

(** C29: the handshake survives any peer and any stream.  On a stream that
    holds arbitrary bytes and whose reads and writes may fail at any moment,
    [accept] and [connect] always return: a session or an error, never a panic
    and never a wait for more input than the stream has. *)
Theorem handshake_returns elapsed (s : S) priv hdr vk :
  ((∃ x, accept elapsed s priv hdr vk = Ok x) ∨ (∃ e, accept elapsed s priv hdr vk = Err e)) ∧
  ((∃ x, connect elapsed s priv hdr vk = Ok x) ∨ (∃ e, connect elapsed s priv hdr vk = Err e)).
Proof. split; [apply accept_returns|apply connect_returns]. Qed.

End Total.

(** ** Concrete runs *)

Definition demo_key (b : Z) : TransportPrivateKey := tsk_from (replicate 32 b).
Definition demo_header (b : Z) : AuthHeader :=
  auth_header_new (node_id_from_u32 b) None (tpk_from (replicate 32 b)).
Definition demo_cluster : SignatureSigningKey := ssk_from [7]%Z.
Definition demo_stream (b : bytes) : Duplex :=
  {| dx_in := {| pipe_data := b; pipe_step := 0 |}; dx_out := {| sink_data := [] |} |}.
Definition demo_signed (b : Z) : SignedAuthHeader := auth_header_sign (demo_header b) demo_cluster.

(** What the peer numbered 2 answers to the peer numbered 1, and vice versa. *)
Definition demo_msg2 : bytes :=
  let p := (replicate 32 2%Z ++ sah_expose (demo_signed 2))%list in frame_bytes (length p) p.
Definition demo_msg13 : bytes :=
  let p1 := replicate 32 1%Z in
  let p3 := (replicate 32 1%Z ++ sah_expose (demo_signed 1))%list in
  frame_bytes (length p1) p1 ++ frame_bytes (length p3) p3.

Lemma demo_honest b : byte_ok b → honest id demo_cluster (demo_key b) (demo_header b).
Proof.
  intros Hb. split_and!; [repeat constructor|unfold node_id_ok; cbn; unfold MAX_NODE_ID_LEN; lia|done|done|].
  cbn -[Z.to_nat]. lia.
Qed.

Lemma honest_handshake_completes_witness :
  ∃ m1 m2 m3 ti tr hvi hvr,
    connect 0 (demo_stream (m2 ++ [])) (demo_key 1) (demo_signed 1) (svk_of demo_cluster)
      = Ok ((ti, hvi), details_from (demo_header 2)) ∧
    accept 0 (demo_stream (m1 ++ m3 ++ [])) (demo_key 2) (demo_signed 2) (svk_of demo_cluster)
      = Ok ((tr, hvr), details_from (demo_header 1)) ∧ ctr_paired ti tr.
Proof.
  destruct (honest_handshake_completes ctr_paired ctr_left id xx_rel dx_incoming dx_written
    (λ _, True) pipe_data sink_data (λ _, True) id demo_cluster (demo_key 1) (demo_key 2)
    (demo_header 1) (demo_header 2)
    {| xx_initiator := true; xx_key := replicate 32 1%Z; xx_phase := 0; xx_remote := None |}
    {| xx_initiator := false; xx_key := replicate 32 2%Z; xx_phase := 0; xx_remote := None |})
    as (m1 & m2 & m3 & ti & tr & (Hp & _) & Hc & Ha).
  { apply demo_honest. unfold byte_ok. lia. }
  { apply demo_honest. unfold byte_ok. lia. }
  { vm_compute. reflexivity. }
  { vm_compute. reflexivity. }
  destruct (Hc 0%Z (demo_stream (m2 ++ [])) [] eq_refl I eq_refl) as (hvi & Hci & _).
  destruct (Ha 0%Z (demo_stream (m1 ++ m3 ++ [])) [] eq_refl I eq_refl) as (hvr & Har & _).
  exists m1, m2, m3, ti, tr, hvi, hvr. auto.
Defined.

Lemma accept_authenticates_witness :
  ∃ t hv d, accept 0 (demo_stream demo_msg13) (demo_key 2) (demo_signed 2) (svk_of demo_cluster)
              = Ok ((t, hv), d) ∧ ∃ hs, authenticated (svk_of demo_cluster) (hs : Xx) d.
Proof.
  assert (Hok : is_ok (accept 0 (demo_stream demo_msg13) (demo_key 2) (demo_signed 2)
    (svk_of demo_cluster)) = true) by (vm_compute; reflexivity).
  destruct (accept _ _ _ _ _) as [[[t hv] d]| | |] eqn:Ha; [|discriminate Hok..].
  destruct (accept_authenticates _ _ _ _ _ _ _ _ Ha) as (_ & hs & _ & Hs). eauto 10.
Defined.

Lemma connect_authenticates_witness :
  ∃ t hv d, connect 0 (demo_stream demo_msg2) (demo_key 1) (demo_signed 1) (svk_of demo_cluster)
              = Ok ((t, hv), d) ∧ ∃ hs, authenticated (svk_of demo_cluster) (hs : Xx) d.
Proof.
  assert (Hok : is_ok (connect 0 (demo_stream demo_msg2) (demo_key 1) (demo_signed 1)
    (svk_of demo_cluster)) = true) by (vm_compute; reflexivity).
  destruct (connect _ _ _ _ _) as [[[t hv] d]| | |] eqn:Ha; [|discriminate Hok..].
  destruct (connect_authenticates ctr_paired ctr_left id xx_rel _ _ _ _ _ _ _ _ Ha) as (_ & hs & _ & Hs).
  eauto 10.
Defined.

(** The initiator 1 facing a responder that presents node 1's header with key 2. *)
Definition demo_stolen : bytes :=
  let p := (replicate 32 2%Z ++ sah_expose (demo_signed 1))%list in frame_bytes (length p) p.

Definition demo_ctx (b : bytes) : HandshakeContext.t Xx Duplex :=
  HandshakeContext.new_context (demo_stream b)
    {| xx_initiator := true; xx_key := replicate 32 1%Z; xx_phase := 0; xx_remote := None |}.

Lemma initiator_identity_withheld_witness :
  ∃ c' e n tail, connect_body (demo_signed 1) (svk_of demo_cluster) (demo_ctx demo_stolen)
                   = (Err (BadAuthErr e), c') ∧
    dx_written (stream c') = frame_bytes n (take n tail).
Proof.
  assert (He : (connect_body (demo_signed 1) (svk_of demo_cluster) (demo_ctx demo_stolen)).1
    = Err (BadAuthErr (PublicKeyMismatch (tpk_from (replicate 32 1%Z)) (tpk_from (replicate 32 2%Z)))))
    by (vm_compute; reflexivity).
  destruct (connect_body _ _ _) as [r c'] eqn:Hb. cbn [fst] in He. subst r.
  destruct (initiator_identity_withheld ctr_paired ctr_left id xx_rel dx_incoming dx_written
    (λ _, True) pipe_data sink_data (λ _, True) _ _ _ _ _
    (new_context_ok (λ _, True) _ _ I) Hb I) as (n & tail & h & Hw & Hwr).
  exists c'. eexists. exists n, tail. split; [reflexivity|exact Hwr].
Defined.

(** The stream breaks off while the responder reads the last message. *)
Definition demo_storm : Storm :=
  {| storm_in := {| flaky_pipe := {| pipe_data := demo_msg13; pipe_step := 0 |}; flaky_calls := 3 |};
     storm_out := {| cut_data := []; cut_room := Z.to_nat 65536 |} |}.

Lemma handshake_returns_witness :
  ∃ e, accept (R := Flaky) (W := Cut) 0 demo_storm (demo_key 2) (demo_signed 2) (svk_of demo_cluster)
       = Err e.
Proof.
  destruct (handshake_returns (R := Flaky) (W := Cut) ctr_paired ctr_left id xx_rel storm_incoming
    storm_written id 0 demo_storm (demo_key 2) (demo_signed 2) (svk_of demo_cluster))
    as [[[x Hx]|He] _]; [|exact He].
  exfalso. apply (f_equal is_ok) in Hx. vm_compute in Hx. discriminate Hx.
Defined.

Lemma replayed_header_rejected_witness :
  ∃ m1 m2 m3, is_ok (connect (R := Pipe) (W := Sink) 0 (demo_stream (m2 ++ [])) (demo_key 9)
                  (demo_signed 1) (svk_of demo_cluster)) = true ∧
    accept (R := Pipe) (W := Sink) 0 (demo_stream (m1 ++ m3 ++ [])) (demo_key 2) (demo_signed 2)
      (svk_of demo_cluster)
    = Err (BadAuthErr (PublicKeyMismatch (tpk_from (replicate 32 1%Z)) (tpk_from (replicate 32 9%Z)))).
Proof.
  destruct (replayed_header_rejected ctr_paired ctr_left id xx_rel dx_incoming dx_written
    (λ _, True) pipe_data sink_data (λ _, True) id demo_cluster (demo_key 9) (demo_key 2)
    (demo_header 1) (demo_header 2)
    {| xx_initiator := true; xx_key := replicate 32 9%Z; xx_phase := 0; xx_remote := None |}
    {| xx_initiator := false; xx_key := replicate 32 2%Z; xx_phase := 0; xx_remote := None |})
    as (m1 & m2 & m3 & Hc & Hr).
  { apply (demo_honest 1). unfold byte_ok. lia. }
  { apply (demo_honest 1). unfold byte_ok. lia. }
  { reflexivity. }
  { apply (demo_honest 1). unfold byte_ok. lia. }
  { apply demo_honest. unfold byte_ok. lia. }
  { vm_compute. reflexivity. }
  { vm_compute. reflexivity. }
  { reflexivity. }
  { discriminate. }
  exists m1, m2, m3. destruct (Hc 0%Z (demo_stream (m2 ++ [])) [] eq_refl I eq_refl) as (t & hv & Hco & _).
  split; [exact (f_equal is_ok Hco)|].
  exact (proj1 (Hr 0%Z (demo_stream (m1 ++ m3 ++ [])) [] eq_refl I eq_refl)).
Defined.
