(* ===== verification/Messages.v ===== *)
(** * The message transport (src/messages.rs)

    [MessageTx] and [MessageRx] wrap the packet halves.  A [Message] or
    [MessagePackets] handle borrows its [MessageRx], so an operation of a
    handle is a computation on the handle's own fields and the receiver. *)

From S2P Require Import Prelude PacketState Interfaces Doubles NodeId Noise Sign Auth Packets.

Record MessageRx (R : Type) : Type := { rx_packets : PacketRx R; read_buf : bytes }.
Arguments rx_packets {_} _.
Arguments read_buf {_} _.

Record MessageTx (W : Type) : Type := { tx_packets : PacketTx W }.
Arguments tx_packets {_} _.

Definition message_rx_new {R} (packets : PacketRx R) : MessageRx R :=
  {| rx_packets := packets; read_buf := [] |}.
Definition message_tx_new {W} (packets : PacketTx W) : MessageTx W := {| tx_packets := packets |}.

(** The fields of a [Message] handle besides its borrow. *)
Record Message : Set := { first_header : PacketHeader }.

(** The fields of a [MessagePackets] handle besides its borrow. *)
Record MessagePackets : Set := { done : bool; first_kind : option PacketKind }.

(** ** MessageTx *)

Section MessageTx.
Context {T W : Type} `{TransportState T, AsyncWrite W}.

Definition on_tx_packets {A} (m : M (T * PacketTx W) ConnectionError A)
    : M (T * MessageTx W) ConnectionError A :=
  zoom (λ s, (s.1, tx_packets s.2)) (λ p _, (p.1, {| tx_packets := p.2 |})) id m.

Definition send_message (msg_type : Z) (payload : bytes) : M (T * MessageTx W) ConnectionError () :=
  do! on_tx_packets (prepare_message msg_type) in
  on_tx_packets (send_slice payload true).

Definition message_send_reader `{AsyncRead Rd} (fuel : nat) (msg_type : Z) (reader : Rd)
    : M (T * MessageTx W) ConnectionError () :=
  do! on_tx_packets (prepare_message msg_type) in
  on_tx_packets (send_reader fuel reader).

Definition message_abort : M (T * MessageTx W) ConnectionError () := on_tx_packets abort_message.

End MessageTx.

(** ** MessageRx *)

Section MessageRx.
Context {T R : Type} `{TransportState T, AsyncRead R}.

Definition set_rx_packets (p : PacketRx R) (rx : MessageRx R) : MessageRx R :=
  {| rx_packets := p; read_buf := read_buf rx |}.
Definition set_read_buf (b : bytes) (rx : MessageRx R) : MessageRx R :=
  {| rx_packets := rx_packets rx; read_buf := b |}.

Definition on_rx_packets {A} (m : M (T * PacketRx R) ConnectionError A)
    : M (T * MessageRx R) ConnectionError A :=
  zoom (λ s, (s.1, rx_packets s.2)) (λ p s, (p.1, set_rx_packets p.2 s.2)) id m.

Definition read_message_handle : M (T * MessageRx R) ConnectionError Message :=
  let! h := on_rx_packets read_packet in
  ret {| first_header := h |}.

(** [rx.packets.payload()], panicking if its slice is out of range. *)
Definition current_payload : M (T * MessageRx R) ConnectionError bytes :=
  let! s := get in or_panic (payload (rx_packets s.2)).

(** [read_buf.extend_from_slice(packets.payload())]. *)
Definition extend_read_buf : M (T * MessageRx R) ConnectionError () :=
  let! p := current_payload in
  modify (λ s, (s.1, set_read_buf (read_buf s.2 ++ p) s.2)).

Definition handle_msg_type (self : Message) : Z := msg_type (first_header self).

(** The receive loop of [read_bytes]; [fuel] bounds its iterations. *)
Fixpoint read_bytes_loop (fuel : nat) : M (T * MessageRx R) ConnectionError bytes :=
  match fuel with
  | O => pending
  | S fuel' =>
      let! header := on_rx_packets read_packet in
      match kind header with
      | Abort => throw MessageAborted
      | Last =>
          do! extend_read_buf in
          let! s := get in
          ret (read_buf s.2)
      | Mid =>
          do! extend_read_buf in
          read_bytes_loop fuel'
      | Sole | First => panic
      end
  end.

Definition read_bytes (fuel : nat) (self : Message) : M (T * MessageRx R) ConnectionError bytes :=
  do! modify (λ s, (s.1, set_read_buf [] s.2)) in
  do! extend_read_buf in
  if decide (kind (first_header self) = Sole) then
    let! s := get in
    ret (read_buf s.2)
  else read_bytes_loop fuel.

Definition into_packets (self : Message) : MessagePackets :=
  {| done := false; first_kind := Some (kind (first_header self)) |}.

(** [MessagePackets::next]: the packet payload or [None], and the handle. *)
Definition next : M (MessagePackets * (T * MessageRx R)) ConnectionError (option bytes) := λ '(self, s),
  if done self then (Ok None, (self, s))
  else
    match first_kind self with
    | Some k =>
        let self' := {| done := if decide (k = Sole) then true else done self; first_kind := None |} in
        let '(r, s') := current_payload s in (map_ok Some r, (self', s'))
    | None =>
        match on_rx_packets read_packet s with
        | (Ok header, s') =>
            let finished := {| done := true; first_kind := first_kind self |} in
            match kind header with
            | Abort => (Err MessageAborted, (finished, s'))
            | Last => let '(r, s'') := current_payload s' in (map_ok Some r, (finished, s''))
            | Mid => let '(r, s'') := current_payload s' in (map_ok Some r, (self, s''))
            | Sole | First => (Panic, (self, s'))
            end
        | (Err e, s') => (Err e, (self, s'))
        | (Panic, s') => (Panic, (self, s'))
        | (Pending, s') => (Pending, (self, s'))
        end
    end.

(** ** Callers *)

(** Receive one message whole: its type and payload. *)
Definition recv (fuel : nat) : M (T * MessageRx R) ConnectionError (Z * bytes) :=
  let! m := read_message_handle in
  let! b := read_bytes fuel m in
  ret (handle_msg_type m, b).

(** Receive [n] messages. *)
Fixpoint recv_all (fuel n : nat) : M (T * MessageRx R) ConnectionError (list (Z * bytes)) :=
  match n with
  | O => ret []
  | S n' =>
      let! m := recv fuel in
      let! ms := recv_all fuel n' in
      ret (m :: ms)
  end.

(** Call [next] until it returns [None]. *)
Fixpoint drain (fuel : nat) : M (MessagePackets * (T * MessageRx R)) ConnectionError (list bytes) :=
  match fuel with
  | O => pending
  | S fuel' =>
      let! p := next in
      match p with
      | None => ret []
      | Some b => let! bs := drain fuel' in ret (b :: bs)
      end
  end.

End MessageRx.

(** Send a list of messages. *)
Fixpoint send_all `{TransportState T, AsyncWrite W} (ms : list (Z * bytes))
    : M (T * MessageTx W) ConnectionError () :=
  match ms with
  | [] => ret tt
  | (ty, p) :: ms' => do! send_message ty p in send_all ms'
  end.

(** ** Lemmas *)

Section Delivery.
Context {T R W : Type} `{TransportState T, AsyncRead R, AsyncWrite W}.
Context (paired : T → T → Prop) (nonces_left : T → nat) `{!TransportLaws T paired nonces_left}.
Context (incoming : R → bytes) `{!ReaderLaws R incoming}.
Context (written : W → bytes) (healthy : W → Prop) `{!WriterLaws W written healthy}.

Implicit Types r : T * MessageRx R.
Implicit Types s : T * MessageTx W.

Definition rx_reader r : PacketReader.t := packet_reader (rx_packets r.2).

(** The receiver [r] will still get the sealed packets [ps], then [rest]. *)
Definition coming (a : T) (ps : list bytes) (a' : T) (rest : bytes) r : Prop :=
  inflight paired incoming a ps a' rest (r.1, rx_packets r.2).

(** Reading one accepted packet. *)
Lemma read_one h p a ps a' rest r :
  coming a (encode_packet h p :: ps) a' rest r → type_ok (msg_type h) → accepts h (rx_reader r) →
  ∃ a1 r', on_rx_packets read_packet r = (Ok h, r') ∧ rx_reader r' = reader_next h (rx_reader r) ∧
    coming a1 ps a' rest r' ∧ payload (rx_packets r'.2) = Some p ∧
    read_buf r'.2 = read_buf r.2 ∧ keeps_tx paired nonces_left r.1 r'.1.
Proof.
  intros Hc Hty Ha. pose proof (read_accept _ _ _ (parse_encode h p Hty) Ha) as Hread.
  destruct (read_packet_ok paired nonces_left incoming _ _ _ _ _ (r.1, rx_packets r.2) _ _ Hc Hread)
    as (a1 & s' & Hp & Hr & Hin & Hpl & Hk).
  unfold on_rx_packets, zoom. rewrite Hp. eexists a1, _. split; [reflexivity|].
  cbn [fst snd set_rx_packets rx_packets read_buf]. split_and!; try done.
Qed.

Lemma extend_ok r p :
  payload (rx_packets r.2) = Some p →
  extend_read_buf r = (Ok tt, (r.1, set_read_buf (read_buf r.2 ++ p) r.2)).
Proof.
  intros Hp. unfold extend_read_buf, current_payload, bind, get, modify. by rewrite Hp.
Qed.

(** A rest-of-message: the loop collects the remaining chunks. *)
Lemma read_bytes_loop_ok ty cs fuel a ps a' rest r :
  type_ok ty → cs ≠ [] → length cs ≤ fuel →
  rx_reader r = {| PacketReader.in_progress := true; PacketReader.msg_type := ty |} →
  coming a (encode_packets (packets_of false ty cs true) ++ ps) a' rest r →
  ∃ a1 r', read_bytes_loop fuel r = (Ok (read_buf r.2 ++ concat cs), r') ∧
    PacketReader.in_progress (rx_reader r') = false ∧ coming a1 ps a' rest r' ∧ keeps_tx paired nonces_left r.1 r'.1.
Proof.
  intros Hty. revert fuel a r. induction cs as [|c cs IH]; [done|]. intros fuel a r _ Hf Hr Hc.
  destruct fuel as [|fuel]; [simpl in Hf; lia|]. cbn [length] in Hf.
  cbn [packets_of map app fst snd] in Hc.
  destruct (read_one _ _ _ _ _ _ _ Hc) as (a1 & r1 & Hp & Hr1 & Hc1 & Hpl & Hb1 & Hk); [done| |].
  { rewrite Hr. by destruct cs. }
  cbn [read_bytes_loop]. rewrite (bind_ok _ _ _ _ _ Hp). rewrite Hr in Hr1.
  destruct cs as [|c2 cs]; cbn [kind pack_kind andb] in *.
  - unfold bind at 1. rewrite (extend_ok _ _ Hpl). unfold bind, get, ret.
    eexists a1, _. cbn [fst snd set_read_buf read_buf concat]. rewrite Hb1, app_nil_r.
    split; [reflexivity|]. unfold rx_reader in *. cbn [snd rx_packets set_read_buf]. by rewrite Hr1.
  - unfold bind at 1. rewrite (extend_ok _ _ Hpl).
    destruct (IH fuel a1 (r1.1, set_read_buf (read_buf r1.2 ++ c) r1.2)) as (a2 & r2 & Hl & Hi & Hc2 & Hk2);
      [done|lia|done|done|].
    exists a2, r2. split; [|split_and!; [done|done|by eapply keeps_tx_trans]].
    rewrite Hl. cbn [snd set_read_buf read_buf]. rewrite Hb1, <- app_assoc. done.
Qed.

(** [read_bytes] starts from the payload of the handle's packet. *)
Lemma read_bytes_start fuel m c r :
  payload (rx_packets r.2) = Some c →
  read_bytes fuel m r =
  if decide (kind (first_header m) = Sole) then (Ok c, (r.1, set_read_buf c r.2))
  else read_bytes_loop fuel (r.1, set_read_buf c r.2).
Proof.
  intros Hp. unfold read_bytes, bind at 1, modify at 1.
  rewrite (bind_ok _ _ _ _ _ (extend_ok (r.1, set_read_buf [] r.2) c Hp)). by destruct (decide _).
Qed.

(** A whole message: [recv] returns its type and payload. *)
Lemma recv_ok ty cs fuel a ps a' rest r :
  type_ok ty → cs ≠ [] → length cs ≤ fuel →
  PacketReader.in_progress (rx_reader r) = false →
  coming a (encode_packets (packets_of true ty cs true) ++ ps) a' rest r →
  ∃ a1 r', recv fuel r = (Ok (ty, concat cs), r') ∧
    PacketReader.in_progress (rx_reader r') = false ∧ coming a1 ps a' rest r' ∧ keeps_tx paired nonces_left r.1 r'.1.
Proof.
  intros Hty Hcs Hf Hr Hc. destruct cs as [|c cs]; [done|].
  cbn [packets_of map app fst snd] in Hc.
  destruct (read_one _ _ _ _ _ _ _ Hc) as (a1 & r1 & Hp & Hr1 & Hc1 & Hpl & Hb1 & Hk); [done| |].
  { unfold accepts. by destruct cs. }
  assert (Hm : read_message_handle r = (Ok {| first_header := {| kind := pack_kind true
      (match cs with [] => true | _ => false end && true); msg_type := ty |} |}, r1)).
  { unfold read_message_handle. by rewrite (bind_ok _ _ _ _ _ Hp). }
  unfold recv. rewrite (bind_ok _ _ _ _ _ Hm). unfold bind at 1.
  rewrite (read_bytes_start _ _ c) by done. cbn [first_header kind].
  destruct cs as [|c2 cs]; cbn [andb pack_kind].
  - rewrite decide_True by done. eexists a1, _. cbn [concat]. rewrite app_nil_r.
    split; [reflexivity|]. unfold rx_reader in *. cbn [snd rx_packets set_read_buf]. by rewrite Hr1.
  - rewrite decide_False by done. cbn [length] in Hf.
    destruct (read_bytes_loop_ok ty (c2 :: cs) fuel a1 ps a' rest (r1.1, set_read_buf c r1.2))
      as (a2 & r2 & Hl & Hi & Hc2 & Hk2); [done|done|simpl; lia| |done|].
    { unfold rx_reader in *. cbn [snd rx_packets set_read_buf]. by rewrite Hr1. }
    exists a2, r2. split; [|split_and!; [done|done|by eapply keeps_tx_trans]].
    by rewrite Hl.
Qed.

(** ** Sending *)

(** The sender [s] is between messages, can encrypt [k] more packets and
    write them. *)
Definition tx_ready (k : nat) s : Prop :=
  healthy (tx_write (tx_packets s.2)) ∧ k ≤ nonces_left s.1 ∧
  PacketBuilder.in_progress (packet_builder (tx_packets s.2)) = false.

(** Packets that a message of this payload takes. *)
Definition packet_count (payload : bytes) : nat := length (slice_chunks payload).

Definition message_packets (m : Z * bytes) : list bytes :=
  encode_packets (packets_of true m.1 (slice_chunks m.2) true).

Lemma on_tx_ok {A} (m : M (T * PacketTx W) ConnectionError A) s res p :
  m (s.1, tx_packets s.2) = (res, p) →
  on_tx_packets m s = (res, (p.1, {| tx_packets := p.2 |})).
Proof. intros Hm. unfold on_tx_packets, zoom. rewrite Hm. by destruct res. Qed.

(** The written bytes of a message sender. *)
Definition msg_sends s (ps : list bytes) (s' : T * MessageTx W) : Prop :=
  sends nonces_left written healthy (s.1, tx_packets s.2) ps (s'.1, tx_packets s'.2).

(** A prepared message and the packets of one slice of it. *)
Lemma prepared_slice_ok ty data last k s :
  type_ok ty → tx_ready (packet_count data + k) s →
  ∃ s', (do! on_tx_packets (prepare_message ty) in on_tx_packets (send_slice data last)) s
          = (Ok tt, s') ∧
    msg_sends s (encode_packets (packets_of true ty (slice_chunks data) last)) s' ∧
    healthy (tx_write (tx_packets s'.2)) ∧ k ≤ nonces_left s'.1 ∧
    PacketBuilder.in_progress (packet_builder (tx_packets s'.2)) = negb last ∧
    PacketBuilder.is_first (packet_builder (tx_packets s'.2)) = false ∧
    PacketBuilder.msg_type (packet_builder (tx_packets s'.2)) = ty.
Proof.
  intros Hty (Hh & Hn & Hip).
  pose proof (prepare_message_ok ty (s.1, tx_packets s.2) Hty Hip) as Hprep.
  rewrite (bind_ok _ _ _ _ _ (on_tx_ok _ _ _ _ Hprep)). cbn [fst snd].
  set (s1 := (s.1, {| tx_packets := set_builder _ _ |})).
  destruct (send_slice_ok paired nonces_left written healthy data last (s1.1, tx_packets s1.2))
    as (s2 & Hs2 & Hsends & Hb1 & Hb2 & Hb3).
  { split_and!; [done|unfold packet_count in Hn; simpl; lia|done|done]. }
  exists (s2.1, {| tx_packets := s2.2 |}). split; [by apply on_tx_ok|].
  pose proof Hsends as (out & _ & _ & Hh2 & Hnn). rewrite length_map, length_packets_of in Hnn.
  unfold packet_count in Hn. cbn [fst s1] in Hnn.
  destruct s2. split; [exact Hsends|]. cbn [fst snd] in *. split_and!; [done|lia|done..].
Qed.

Lemma send_message_ok ty p k s :
  type_ok ty → tx_ready (packet_count p + k) s →
  ∃ s', send_message ty p s = (Ok tt, s') ∧ msg_sends s (message_packets (ty, p)) s' ∧
        tx_ready k s'.
Proof.
  intros Hty Hr. destruct (prepared_slice_ok ty p true k s Hty Hr) as (s' & ? & ? & ? & ? & ? & _).
  exists s'. by split_and!.
Qed.

Lemma send_all_ok ms k s :
  Forall (λ m, type_ok m.1) ms → tx_ready (sum_list_with (λ m, packet_count m.2) ms + k) s →
  ∃ s', send_all ms s = (Ok tt, s') ∧ msg_sends s (ms ≫= message_packets) s' ∧ tx_ready k s'.
Proof.
  revert s. induction ms as [|[ty p] ms IH]; intros s HF Hr.
  - exists s. split; [done|]. split; [|done]. destruct Hr as (Hh & Hn & _).
    exists []. split_and!; [constructor|by rewrite app_nil_r|done|done].
  - inversion HF as [|? ? Hty HF']; subst. cbn [sum_list_with snd fst] in Hr, Hty.
    destruct (send_message_ok ty p (sum_list_with (λ m, packet_count m.2) ms + k) s Hty)
      as (s1 & Hs1 & Hsends & Hr1); [by rewrite Nat.add_assoc|].
    destruct (IH s1 HF' Hr1) as (s2 & Hs2 & Hsends2 & Hr2).
    exists s2. cbn [send_all]. rewrite (bind_ok _ _ _ _ _ Hs1). split; [done|]. split; [|done].
    exact (sends_trans _ _ _ _ _ _ _ _ Hsends Hsends2).
Qed.

Lemma recv_all_ok ms fuel a a' rest r :
  Forall (λ m, type_ok m.1 ∧ packet_count m.2 ≤ fuel) ms →
  PacketReader.in_progress (rx_reader r) = false →
  coming a (ms ≫= message_packets) a' rest r →
  ∃ a1 r', recv_all fuel (length ms) r = (Ok ms, r') ∧
    PacketReader.in_progress (rx_reader r') = false ∧ coming a1 [] a' rest r' ∧ keeps_tx paired nonces_left r.1 r'.1.
Proof.
  revert a r. induction ms as [|[ty p] ms IH]; intros a r HF Hr Hc.
  - exists a, r. split; [done|]. split; [done|]. split; [done|]. apply keeps_tx_refl.
  - inversion HF as [|? ? [Hty Hf] HF']; subst. cbn [fst snd] in Hty, Hf.
    destruct (recv_ok ty (slice_chunks p) fuel a (ms ≫= message_packets) a' rest r)
      as (a1 & r1 & Hr1 & Hi1 & Hc1 & Hk1); [done|apply slice_chunks_not_nil|done..|].
    destruct (IH a1 r1 HF' Hi1 Hc1) as (a2 & r2 & Hr2 & Hi2 & Hc2 & Hk2).
    exists a2, r2. cbn [length recv_all]. rewrite (bind_ok _ _ _ _ _ Hr1).
    rewrite (bind_ok _ _ _ _ _ Hr2), concat_slice_chunks.
    split_and!; [done|done|done|]. by eapply keeps_tx_trans.
Qed.

(** ** Packet streaming *)

(** Draining a message whose first packet has been handed out. *)
Lemma drain_rest_ok ty cs fuel a ps a' rest r :
  type_ok ty → cs ≠ [] → S (length cs) ≤ fuel →
  rx_reader r = {| PacketReader.in_progress := true; PacketReader.msg_type := ty |} →
  coming a (encode_packets (packets_of false ty cs true) ++ ps) a' rest r →
  ∃ a1 r', drain fuel ({| done := false; first_kind := None |}, r)
             = (Ok cs, ({| done := true; first_kind := None |}, r')) ∧
    PacketReader.in_progress (rx_reader r') = false ∧ coming a1 ps a' rest r'.
Proof.
  intros Hty. revert fuel a r. induction cs as [|c cs IH]; [done|]. intros fuel a r _ Hf Hr Hc.
  destruct fuel as [|fuel]; [simpl in Hf; lia|]. cbn [length] in Hf.
  cbn [packets_of map app fst snd] in Hc.
  destruct (read_one _ _ _ _ _ _ _ Hc) as (a1 & r1 & Hp & Hr1 & Hc1 & Hpl & _ & _); [done| |].
  { rewrite Hr. by destruct cs. }
  assert (Hcur : current_payload r1 = (Ok c, r1)).
  { unfold current_payload, bind, get. by rewrite Hpl. }
  rewrite Hr in Hr1. cbn [drain]. unfold bind at 1, next at 1. cbn [done first_kind]. rewrite Hp.
  destruct cs as [|c2 cs]; cbn [kind pack_kind andb] in *; rewrite Hcur; cbn [map_ok].
  - destruct fuel as [|fuel]; [lia|]. eexists a1, r1. split; [reflexivity|].
    split; [by rewrite Hr1|done].
  - destruct (IH fuel a1 r1) as (a2 & r2 & Hd & Hi & Hc2); [done|lia|done|done|].
    exists a2, r2. rewrite (bind_ok _ _ _ _ _ Hd). by split.
Qed.

(** Draining a whole message from its handle. *)
Lemma drain_ok ty cs fuel a ps a' rest r :
  type_ok ty → cs ≠ [] → S (length cs) ≤ fuel → PacketReader.in_progress (rx_reader r) = false →
  coming a (encode_packets (packets_of true ty cs true) ++ ps) a' rest r →
  ∃ m r1 a2 r2, read_message_handle r = (Ok m, r1) ∧ handle_msg_type m = ty ∧
    drain fuel (into_packets m, r1) = (Ok cs, ({| done := true; first_kind := None |}, r2)) ∧
    PacketReader.in_progress (rx_reader r2) = false ∧ coming a2 ps a' rest r2.
Proof.
  intros Hty Hcs Hf Hr Hc. destruct cs as [|c cs]; [done|].
  cbn [packets_of map app fst snd] in Hc. cbn [length] in Hf.
  destruct (read_one _ _ _ _ _ _ _ Hc) as (a1 & r1 & Hp & Hr1 & Hc1 & Hpl & _ & _); [done| |].
  { unfold accepts. by destruct cs. }
  assert (Hcur : current_payload r1 = (Ok c, r1)).
  { unfold current_payload, bind, get. by rewrite Hpl. }
  destruct fuel as [|fuel]; [lia|]. unfold read_message_handle.
  rewrite (bind_ok _ _ _ _ _ Hp). unfold ret at 1. do 2 eexists.
  enough (∃ a2 r2, drain (S fuel) (into_packets {| first_header :=
      {| kind := pack_kind true (match cs with [] => true | _ => false end && true); msg_type := ty |} |}, r1)
      = (Ok (c :: cs), ({| done := true; first_kind := None |}, r2)) ∧
      PacketReader.in_progress (rx_reader r2) = false ∧ coming a2 ps a' rest r2)
    as (a2 & r2 & Hd & Hi & Hc2) by (exists a2, r2; split; [reflexivity|]; by split).
  unfold into_packets. cbn [first_header kind drain].
  unfold bind at 1, next at 1. cbn [done first_kind]. rewrite Hcur. cbn [map_ok].
  destruct cs as [|c2 cs]; cbn [andb pack_kind] in *.
  - destruct fuel as [|fuel]; [simpl in Hf; lia|]. exists a1, r1. rewrite decide_True by done.
    split; [reflexivity|]. split; [|exact Hc1]. rewrite Hr1. exact Hr.
  - destruct (drain_rest_ok ty (c2 :: cs) fuel a1 ps a' rest r1) as (a2 & r2 & Hd & Hi & Hc2);
      [done|done|simpl in *; lia|by rewrite Hr1|done|].
    exists a2, r2. rewrite decide_False by done. rewrite (bind_ok _ _ _ _ _ Hd). by split.
Qed.

(** ** Messages that are not finished *)

(** The loop consumes the middle packets that are there. *)
Lemma read_bytes_loop_mids ty cs fuel a ps a' rest r :
  type_ok ty → rx_reader r = {| PacketReader.in_progress := true; PacketReader.msg_type := ty |} →
  coming a (encode_packets (packets_of false ty cs false) ++ ps) a' rest r →
  ∃ a1 r', read_bytes_loop (length cs + fuel) r = read_bytes_loop fuel r' ∧
    rx_reader r' = rx_reader r ∧ coming a1 ps a' rest r'.
Proof.
  intros Hty. revert a r. induction cs as [|c cs IH]; intros a r Hr Hc; [by exists a, r|].
  cbn [packets_of map app fst snd] in Hc. rewrite andb_false_r in Hc. cbn [pack_kind] in Hc.
  destruct (read_one _ _ _ _ _ _ _ Hc) as (a1 & r1 & Hp & Hr1 & Hc1 & Hpl & _ & _);
    [done|by rewrite Hr|]. cbn [reader_next kind] in Hr1.
  destruct (IH a1 (r1.1, set_read_buf (read_buf r1.2 ++ c) r1.2)) as (a2 & r2 & Hl & Hr2 & Hc2);
    [by rewrite <- Hr, <- Hr1|done|].
  exists a2, r2. split; [|split; [by rewrite Hr2|done]]. cbn [length Nat.add read_bytes_loop].
  rewrite (bind_ok _ _ _ _ _ Hp). cbn [kind]. by rewrite (bind_ok _ _ _ _ _ (extend_ok _ _ Hpl)).
Qed.

(** [recv] on a message of which only the first packets are there. *)
Lemma recv_unfinished ty c cs fuel a ps a' rest r :
  type_ok ty → PacketReader.in_progress (rx_reader r) = false →
  coming a (encode_packets (packets_of true ty (c :: cs) false) ++ ps) a' rest r →
  ∃ a1 r', recv (length cs + fuel) r = (let! b := read_bytes_loop fuel in ret (ty, b)) r' ∧
    rx_reader r' = {| PacketReader.in_progress := true; PacketReader.msg_type := ty |} ∧
    coming a1 ps a' rest r'.
Proof.
  intros Hty Hr Hc. cbn [packets_of map app fst snd] in Hc. rewrite andb_false_r in Hc.
  cbn [pack_kind] in Hc.
  destruct (read_one _ _ _ _ _ _ _ Hc) as (a1 & r1 & Hp & Hr1 & Hc1 & Hpl & _ & _); [done|done|].
  destruct (read_bytes_loop_mids ty cs fuel a1 ps a' rest (r1.1, set_read_buf c r1.2))
    as (a2 & r2 & Hl & Hr2 & Hc2); [done|done|done|].
  exists a2, r2. split; [|split; [by rewrite Hr2|done]].
  unfold recv, read_message_handle. rewrite bind_assoc, (bind_ok _ _ _ _ _ Hp), bind_ret_l.
  unfold bind. rewrite (read_bytes_start _ _ c) by done. by rewrite decide_False, Hl by done.
Qed.

Lemma recv_aborted ty c cs fuel a ps a' rest r :
  type_ok ty → length cs < fuel → PacketReader.in_progress (rx_reader r) = false →
  coming a (encode_packets (packets_of true ty (c :: cs) false)
            ++ encode_packet {| kind := Abort; msg_type := ty |} [] :: ps) a' rest r →
  ∃ a1 r', recv fuel r = (Err MessageAborted, r') ∧
    PacketReader.in_progress (rx_reader r') = false ∧ coming a1 ps a' rest r'.
Proof.
  intros Hty Hf Hr Hc. replace fuel with (length cs + S (fuel - length cs - 1)) by lia.
  destruct (recv_unfinished ty c cs (S (fuel - length cs - 1)) _ _ _ _ _ Hty Hr Hc)
    as (a1 & r1 & -> & Hr1 & Hc1).
  destruct (read_one _ _ _ _ _ _ _ Hc1) as (a2 & r2 & Hp & Hr2 & Hc2 & _); [done|by rewrite Hr1|].
  exists a2, r2. cbn [read_bytes_loop]. rewrite bind_assoc, (bind_ok _ _ _ _ _ Hp).
  split; [done|]. split; [by rewrite Hr2|done].
Qed.

(** Reading a packet from a stream that ends inside a frame. *)
Lemma read_short r :
  short (incoming (rx_read (rx_packets r.2))) →
  ∃ r', on_rx_packets read_packet r = (Err (Io UnexpectedEof), r').
Proof.
  intros Hs. destruct (read_frame_short incoming (rx_read (rx_packets r.2))
    (ciphertext_buf (rx_packets r.2)) Hs) as (rd & c & Hf).
  unfold on_rx_packets, read_packet, zoom, bind. cbn [fst snd]. rewrite Hf. by eexists.
Qed.

Lemma recv_starved ty c cs fuel a a' rest r :
  type_ok ty → length cs < fuel → PacketReader.in_progress (rx_reader r) = false → short rest →
  coming a (encode_packets (packets_of true ty (c :: cs) false)) a' rest r →
  ∃ r', recv fuel r = (Err (Io UnexpectedEof), r').
Proof.
  intros Hty Hf Hr Hsh Hc. rewrite <- (app_nil_r (encode_packets _)) in Hc.
  replace fuel with (length cs + S (fuel - length cs - 1)) by lia.
  destruct (recv_unfinished ty c cs (S (fuel - length cs - 1)) _ _ _ _ _ Hty Hr Hc)
    as (a1 & r1 & -> & Hr1 & (out & Hs & Hin & _)).
  apply flight_nil_inv in Hs as [-> _]. cbn [app fst snd] in Hin.
  destruct (read_short r1) as [r2 Hr2]; [by rewrite Hin|].
  cbn [read_bytes_loop]. rewrite bind_assoc, (bind_err _ _ _ _ _ Hr2). by eexists.
Qed.

(** The packets of an aborted message and of the message after it. *)
Lemma abort_sends_ok ty data ty2 p2 s :
  type_ok ty → type_ok ty2 → tx_ready (packet_count data + S (packet_count p2)) s →
  ∃ s', (do! on_tx_packets (prepare_message ty) in
         do! on_tx_packets (send_slice data false) in
         do! message_abort in
         send_message ty2 p2) s = (Ok tt, s') ∧
    msg_sends s (encode_packets (packets_of true ty (slice_chunks data) false)
                 ++ encode_packet {| kind := Abort; msg_type := ty |} []
                 :: message_packets (ty2, p2)) s'.
Proof.
  intros Hty Hty2 Hr.
  destruct (prepared_slice_ok ty data false _ s Hty Hr)
    as (s1 & Hs1 & Hsends1 & Hh1 & Hn1 & Hi1 & Hfst & Ht1).
  destruct (abort_message_ok paired nonces_left written healthy (s1.1, tx_packets s1.2))
    as (p' & Hab & Hsends2 & Hi2 & _).
  { split_and!; [done|simpl; lia|done|unfold builder_wf; cbn [snd]; by rewrite Ht1]. }
  set (s2 := (p'.1, {| tx_packets := p'.2 |})). cbn [snd] in Hsends2. rewrite Ht1 in Hsends2.
  assert (Hs2 : message_abort s1 = (Ok tt, s2)) by (by apply on_tx_ok).
  destruct (send_message_ok ty2 p2 0 s2) as (s3 & Hs3 & Hsends3 & _); [done| |].
  { destruct Hsends2 as (? & _ & _ & ? & Hnn). split_and!; [done| |done]. simpl in *. lia. }
  exists s3. split.
  - etransitivity; [symmetry; apply bind_assoc|]. rewrite (bind_ok _ _ _ _ _ Hs1).
    by rewrite (bind_ok _ _ _ _ _ Hs2).
  - eapply sends_trans; [exact Hsends1|]. destruct p'.
    exact (sends_trans _ _ _ _ [_] _ _ _ Hsends2 Hsends3).
Qed.

End Delivery.

(** ** Properties *)

Section Properties.
Context {T R W : Type} `{TransportState T, AsyncRead R, AsyncWrite W}.
Context (paired : T → T → Prop) (nonces_left : T → nat) `{!TransportLaws T paired nonces_left}.
Context (incoming : R → bytes) `{!ReaderLaws R incoming}.
Context (written : W → bytes) (healthy : W → Prop) `{!WriterLaws W written healthy}.

(** What the stream of a sender holds, and of a receiver still holds. *)
Definition tx_bytes (s : T * MessageTx W) : bytes := written (tx_write (tx_packets s.2)).
Definition rx_bytes (r : T * MessageRx R) : bytes := incoming (rx_read (rx_packets r.2)).

(** A receiver of session state paired with [a], between messages, that has
    [b] on its stream. *)
Definition rx_waiting (a : T) (b : bytes) (r : T * MessageRx R) : Prop :=
  paired a r.1 ∧ PacketReader.in_progress (rx_reader r) = false ∧ rx_bytes r = b.

Lemma coming_waiting a ps out a' rest r :
  sealed a ps out a' → rx_waiting a (out ++ rest) r → coming paired incoming a ps a' rest r.
Proof. intros Hs (Hp & _ & Hin). exists out. split_and!; [by apply sealed_flight|done..]. Qed.

Lemma waiting_coming a a' rest r :
  PacketReader.in_progress (rx_reader r) = false → coming paired incoming a [] a' rest r →
  rx_waiting a' rest r.
Proof.
  intros Hi (out & Hs & Hin & Hp). apply flight_nil_inv in Hs as [-> Hk].
  split_and!; [by apply Hk|done|done].
Qed.

(** C4: messages arrive whole and in order.  Sending any list of messages with
    legal types succeeds while the cipher and the stream last, and a
    receiver paired with the sender that gets the bytes written returns
    exactly those messages, types and payloads, in order; both ends are
    then ready for more.  The receive loop needs one iteration per packet. *)
Theorem messages_arrive_in_order ms fuel (s : T * MessageTx W) :
  Forall (λ m, type_ok m.1 ∧ packet_count m.2 ≤ fuel) ms →
  tx_ready nonces_left healthy (sum_list_with (λ m, packet_count m.2) ms) s →
  ∃ s' out, send_all ms s = (Ok tt, s') ∧ tx_bytes s' = tx_bytes s ++ out ∧
    tx_ready nonces_left healthy 0 s' ∧
    ∀ r rest, rx_waiting s.1 (out ++ rest) r →
      ∃ r', recv_all fuel (length ms) r = (Ok ms, r') ∧ rx_waiting s'.1 rest r'.
Proof.
  intros HF Hr.
  destruct (send_all_ok paired nonces_left written healthy ms 0 s)
    as (s' & Hs & (out & Hsl & Hw & _) & Hr').
  { eapply Forall_impl; [exact HF|]. by intros ? [? _]. }
  { by rewrite Nat.add_0_r. }
  exists s', out. split_and!; [done|done|done..|]. intros r rest Hwait.
  destruct (recv_all_ok paired nonces_left incoming ms fuel s.1 s'.1 rest r)
    as (a1 & r' & Hrecv & Hi & Hc & _); [done|apply Hwait|by eapply coming_waiting|].
  exists r'. split; [done|]. by eapply waiting_coming.
Qed.

(** C24: streaming a message packet by packet gives the same message.  After
    [send_message], the peer's [read_message] reports the type, and calling
    [next] until [None] yields the payload cut into the sender's packets,
    each at most [MAX_PACKET_SIZE] long; the receiver is then between
    messages, and [next] keeps returning [None] without reading. *)
Theorem packet_stream_round_trip ty p fuel (s : T * MessageTx W) :
  type_ok ty → packet_count p < fuel → tx_ready nonces_left healthy (packet_count p) s →
  ∃ s' out, send_message ty p s = (Ok tt, s') ∧ tx_bytes s' = tx_bytes s ++ out ∧
    ∀ r rest, rx_waiting s.1 (out ++ rest) r →
      ∃ m r1 h r2 cs, read_message_handle r = (Ok m, r1) ∧ handle_msg_type m = ty ∧
        drain fuel (into_packets m, r1) = (Ok cs, (h, r2)) ∧ concat cs = p ∧
        Forall (λ c, length c ≤ MAX_PACKET_SIZE) cs ∧ rx_waiting s'.1 rest r2 ∧
        next (h, r2) = (Ok None, (h, r2)).
Proof.
  intros Hty Hf Hr.
  destruct (send_message_ok paired nonces_left written healthy ty p 0 s)
    as (s' & Hs & (out & Hsl & Hw & _) & Hr'); [done|by rewrite Nat.add_0_r|].
  exists s', out. split_and!; [done|done|]. intros r rest Hwait.
  destruct (drain_ok paired nonces_left incoming ty (slice_chunks p) fuel s.1 [] s'.1 rest r)
    as (m & r1 & a2 & r2 & Hm & Hmt & Hd & Hi & Hc);
    [done|apply slice_chunks_not_nil|done|apply Hwait|rewrite app_nil_r; by eapply coming_waiting|].
  exists m, r1, {| done := true; first_kind := None |}, r2, (slice_chunks p). rewrite Hm, Hd, concat_slice_chunks.
  do 4 (split; [done|]). split; [apply slice_chunks_bound|]. split; [by eapply waiting_coming|done].
Qed.

(** What the peer receives of an aborted message and of the one after it. *)
Lemma abort_received ty data ty2 p2 fuel a a' out rest r :
  type_ok ty → type_ok ty2 → packet_count data ≤ fuel → packet_count p2 ≤ fuel →
  sealed a (encode_packets (packets_of true ty (slice_chunks data) false)
            ++ encode_packet {| kind := Abort; msg_type := ty |} [] :: message_packets (ty2, p2))
    out a' →
  rx_waiting a (out ++ rest) r →
  ∃ r1 r2, recv fuel r = (Err MessageAborted, r1) ∧
           recv fuel r1 = (Ok (ty2, p2), r2) ∧ rx_waiting a' rest r2.
Proof.
  intros Hty Hty2 Hf Hf2 Hsl Hwait. pose proof (coming_waiting _ _ _ _ _ _ Hsl Hwait) as Hc.
  pose proof (slice_chunks_not_nil data). unfold packet_count in Hf.
  destruct (slice_chunks data) as [|c cs]; [done|]. cbn [length] in Hf.
  destruct (recv_aborted paired nonces_left incoming ty c cs fuel _ _ _ _ _ Hty Hf
    (proj1 (proj2 Hwait)) Hc) as (a1 & r1 & Hr1 & Hri & Hc1).
  unfold message_packets in Hc1. rewrite <- (app_nil_r (encode_packets _)) in Hc1.
  destruct (recv_ok paired nonces_left incoming ty2 (slice_chunks p2) fuel a1 [] a' rest r1)
    as (a2 & r2 & Hr2 & Hi & Hc2 & _); [done|apply slice_chunks_not_nil|done..|].
  exists r1, r2. rewrite Hr2, concat_slice_chunks. split_and!; [done|done|by eapply waiting_coming..].
Qed.

(** C25: an aborted message is reported and the connection stays usable.
    After part of a message, [abort_message] and another message, the peer's
    first receive fails with [MessageAborted] and the next one returns the
    second message. *)
Theorem abort_then_next_message ty data ty2 p2 fuel (s : T * MessageTx W) :
  type_ok ty → type_ok ty2 → packet_count data ≤ fuel → packet_count p2 ≤ fuel →
  tx_ready nonces_left healthy (packet_count data + S (packet_count p2)) s →
  ∃ s' out, (do! on_tx_packets (prepare_message ty) in
             do! on_tx_packets (send_slice data false) in
             do! message_abort in
             send_message ty2 p2) s = (Ok tt, s') ∧ tx_bytes s' = tx_bytes s ++ out ∧
    ∀ r rest, rx_waiting s.1 (out ++ rest) r →
      ∃ r1 r2, recv fuel r = (Err MessageAborted, r1) ∧
               recv fuel r1 = (Ok (ty2, p2), r2) ∧ rx_waiting s'.1 rest r2.
Proof.
  intros Hty Hty2 Hf Hf2 Hr.
  destruct (abort_sends_ok paired nonces_left written healthy ty data ty2 p2 s)
    as (s' & Hs & (out & Hsl & Hw & _)); [done..|].
  exists s', out. split; [done|]. split; [done|]. intros r rest. by apply (abort_received ty data).
Qed.

(** C17: a source that fails can be aborted.  When the source of
    [send_reader] fails after at least one packet's worth of bytes, the call
    returns that error with the message still open; [abort] then closes it,
    and the connection stays usable: the peer's receive reports
    [MessageAborted], never a truncated message, and the next message
    arrives intact. *)
Theorem failing_source_then_abort `{AsyncRead Rd} (source : Rd → bytes) (fails : Rd → option IoError)
    `{!SourceLaws Rd source fails} ty (rd : Rd) e ty2 p2 fuel (s : T * MessageTx W) :
  type_ok ty → type_ok ty2 → fails rd = Some e → MAX_PACKET_SIZE ≤ length (source rd) < fuel →
  packet_count (whole_packets (source rd)) ≤ fuel → packet_count p2 ≤ fuel →
  tx_ready nonces_left healthy (packet_count (whole_packets (source rd)) + S (packet_count p2)) s →
  ∃ s1 s' out, message_send_reader fuel ty rd s = (Err (Io e), s1) ∧
    (do! message_abort in send_message ty2 p2) s1 = (Ok tt, s') ∧ tx_bytes s' = tx_bytes s ++ out ∧
    ∀ r rest, rx_waiting s.1 (out ++ rest) r →
      ∃ r1 r2, recv fuel r = (Err MessageAborted, r1) ∧
               recv fuel r1 = (Ok (ty2, p2), r2) ∧ rx_waiting s'.1 rest r2.
Proof.
  intros Hty Hty2 He [Hge Hf] Hpc Hpc2 Hr.
  destruct (abort_sends_ok paired nonces_left written healthy ty (whole_packets (source rd)) ty2 p2 s)
    as (s' & Hs & (out & Hsl & Hw & _)); [done..|].
  apply bind_ok_inv in Hs as ([] & sa & Hprep & Hs).
  apply bind_ok_inv in Hs as ([] & s1 & Hslice & Hrest).
  exists s1, s', out. split_and!; [|done|done|].
  - unfold message_send_reader. rewrite (bind_ok _ _ _ _ _ Hprep).
    unfold on_tx_packets, zoom in *. rewrite (send_reader_fails source fails _ _ e) by done.
    unfold failed_sends, send_slice in *.
    destruct (chunks MAX_PACKET_SIZE (whole_packets (source rd))) eqn:Hc.
    { apply chunks_nil_inv in Hc; [|apply MAX_PACKET_SIZE_pos]. by destruct (whole_packets_not_nil _ Hge). }
    unfold bind, throw. by destruct (send_chunks _ false _) as [[] ?]; simplify_eq/=.
  - intros r rest. by apply (abort_received ty (whole_packets (source rd))).
Qed.

(** C34: a stream that ends on a packet boundary leaves its message open.  When
    the source of [send_reader] holds a positive multiple of
    [MAX_PACKET_SIZE] bytes the call reports success, yet no packet is
    marked last: every later [send_message] and [send_reader] on the
    connection fails with [MessageAlreadyInProgress], and the peer's receive
    consumes the whole message without ever returning it. *)
Theorem send_reader_boundary_stall `{AsyncRead Rd} (source : Rd → bytes) `{!ReaderLaws Rd source}
    ty (rd : Rd) fuel (s : T * MessageTx W) :
  type_ok ty → length (source rd) < fuel → source rd ≠ [] →
  length (source rd) mod MAX_PACKET_SIZE = 0 → packet_count (source rd) ≤ fuel →
  tx_ready nonces_left healthy (packet_count (source rd)) s →
  ∃ s' out, message_send_reader fuel ty rd s = (Ok tt, s') ∧ tx_bytes s' = tx_bytes s ++ out ∧
    (∀ ty2 p2, type_ok ty2 →
       send_message ty2 p2 s' = (Err (PacketBuilderErr MessageAlreadyInProgress), s')) ∧
    ∀ r, rx_waiting s.1 out r → ∃ r', recv fuel r = (Err (Io UnexpectedEof), r').
Proof.
  intros Hty Hf Hne Hmod Hpc Hr.
  destruct (prepared_slice_ok paired nonces_left written healthy ty (source rd) false 0 s Hty)
    as (s' & Hs & (out & Hsl & Hw & _) & _ & _ & Hip & _); [by rewrite Nat.add_0_r|].
  exists s', out. split_and!; [|done| |].
  - rewrite <- Hs. apply bind_ext. intros [] s1. unfold on_tx_packets, zoom.
    rewrite (send_reader_slice source (λ _, None)) by done.
    by rewrite bool_decide_eq_false_2 by (intros [?|Hx]; [done|by apply Hx]).
  - intros ty2 p2 [_ Hty2]. unfold send_message, prepare_message, on_builder, on_tx_packets, zoom, bind.
    cbn [snd]. unfold PacketBuilder.prepare. destruct (Z.ltb_spec TYPE_MASK ty2); [lia|].
    rewrite Hip. destruct s' as [t [[b w wb]]]. done.
  - intros r Hwait. rewrite <- (app_nil_r out) in Hwait.
    pose proof (coming_waiting _ _ _ _ _ _ Hsl Hwait) as Hc. pose proof (slice_chunks_not_nil (source rd)).
    unfold packet_count in Hpc. destruct (slice_chunks (source rd)) as [|c cs]; [done|].
    exact (recv_starved paired nonces_left incoming ty c cs fuel _ _ _ _ Hty Hpc
             (proj1 (proj2 Hwait)) short_nil Hc).
Qed.

(** C35: dropping a half-read message makes a later read panic.  Nothing makes
    a caller consume a [Message]: after [read_message] on a two-packet
    message whose handle is dropped, the next [read_message] succeeds with a
    handle on the message's second half, and reading that handle runs into
    the following message and reaches the [unreachable!] arm. *)
Theorem dropped_message_panics ty p ty2 p2 fuel (s : T * MessageTx W) :
  type_ok ty → type_ok ty2 → packet_count p = 2 →
  tx_ready nonces_left healthy (2 + packet_count p2) s →
  ∃ s' out, send_all [(ty, p); (ty2, p2)] s = (Ok tt, s') ∧ tx_bytes s' = tx_bytes s ++ out ∧
    ∀ r rest, rx_waiting s.1 (out ++ rest) r →
      ∃ m1 r1 m2 r2 r3, read_message_handle r = (Ok m1, r1) ∧
        read_message_handle r1 = (Ok m2, r2) ∧ handle_msg_type m2 = ty ∧
        read_bytes (S fuel) m2 r2 = (Panic, r3).
Proof.
  intros Hty Hty2 Hpc Hr.
  destruct (send_all_ok paired nonces_left written healthy [(ty, p); (ty2, p2)] 0 s)
    as (s' & Hs & (out & Hsl & Hw & _) & _); [constructor; [done|by constructor]| |].
  { simpl. by rewrite Hpc, !Nat.add_0_r. }
  exists s', out. split; [done|]. split; [done|]. intros r rest Hwait.
  pose proof (coming_waiting _ _ _ _ _ _ Hsl Hwait) as Hc. destruct Hwait as (_ & Hi & _).
  unfold packet_count in Hpc. simpl in Hc. unfold message_packets in Hc. cbn [fst snd] in Hc.
  destruct (slice_chunks p) as [|c1 [|c2 [|]]]; [done..| |done].
  cbn [packets_of map app fst snd andb pack_kind] in Hc.
  destruct (read_one paired nonces_left incoming _ _ _ _ _ _ _ Hc)
    as (a1 & r1 & Hp1 & Hr1 & Hc1 & _); [done|done|].
  destruct (read_one paired nonces_left incoming _ _ _ _ _ _ _ Hc1)
    as (a2 & r2 & Hp2 & Hr2 & Hc2 & Hpl2 & _); [done|by rewrite Hr1|].
  pose proof (slice_chunks_not_nil p2). destruct (slice_chunks p2) as [|d ds]; [done|].
  cbn [packets_of map app fst snd andb pack_kind] in Hc2.
  destruct (read_one paired nonces_left incoming _ _ _ _ _ _ (r2.1, set_read_buf c2 r2.2) Hc2)
    as (a3 & r3 & Hp3 & _); [done| |].
  { rewrite Hr1 in Hr2. unfold rx_reader in *. cbn [snd rx_packets set_read_buf]. rewrite Hr2.
    by destruct ds. }
  eexists _, r1, _, r2, r3. unfold read_message_handle.
  rewrite (bind_ok _ _ _ _ _ Hp1), (bind_ok _ _ _ _ _ Hp2).
  split; [reflexivity|]. split; [reflexivity|]. split; [done|].
  rewrite (read_bytes_start _ _ c2) by done. cbn [first_header kind read_bytes_loop].
  rewrite decide_False by done. rewrite (bind_ok _ _ _ _ _ Hp3). by destruct ds.
Qed.

End Properties.

(** ** A concrete connection *)

Definition demo_tx : Counter * MessageTx Sink :=
  ({| ctr_tx := 0; ctr_rx := 0 |},
   message_tx_new {| packet_builder := PacketBuilder.new; tx_write := {| sink_data := [] |};
                     write_buf := [] |}).

Definition demo_rx (b : bytes) : Counter * MessageRx Pipe :=
  ({| ctr_tx := 0; ctr_rx := 0 |},
   message_rx_new {| packet_reader := PacketReader.new;
                     rx_read := {| pipe_data := b; pipe_step := 0 |};
                     ciphertext_buf := []; plaintext_buf := []; payload_end := 0 |}).

Lemma demo_tx_ready k : (Z.of_nat k < 2 ^ 64)%Z → tx_ready ctr_left (λ _ : Sink, True) k demo_tx.
Proof. intros Hk. unfold tx_ready, ctr_left. cbn -[Z.pow Z.to_nat]. split_and!; [done|lia|done]. Qed.

Lemma demo_rx_waiting b : rx_waiting ctr_paired pipe_data demo_tx.1 b (demo_rx b).
Proof. done. Qed.

(** A payload of one packet more than fills a packet. *)
Definition demo_two_packets : bytes := replicate (S MAX_PACKET_SIZE) 7%Z.

Lemma demo_two_packets_count : packet_count demo_two_packets = 2.
Proof. vm_compute. reflexivity. Qed.

Lemma messages_arrive_in_order_witness :
  ∃ s' out, send_all [(5, [1; 2]); (6, [])]%Z demo_tx = (Ok tt, s') ∧
    ∃ r', recv_all 1 2 (demo_rx (out ++ [])) = (Ok [(5, [1; 2]); (6, [])]%Z, r').
Proof.
  destruct (messages_arrive_in_order ctr_paired ctr_left pipe_data sink_data (λ _, True)
    [(5, [1; 2]); (6, [])]%Z 1 demo_tx) as (s' & out & Hs & _ & _ & Hr).
  - repeat constructor; cbn [fst snd]; unfold TYPE_MASK; try lia; vm_compute; lia.
  - apply demo_tx_ready. vm_compute. reflexivity.
  - exists s', out. split; [exact Hs|].
    destruct (Hr (demo_rx (out ++ [])) []) as (r' & Hr' & _); [apply demo_rx_waiting|]. eauto.
Defined.

Lemma packet_stream_round_trip_witness :
  ∃ s' out, send_message 5 demo_two_packets demo_tx = (Ok tt, s') ∧
    ∃ m r1 st cs, read_message_handle (demo_rx (out ++ [])) = (Ok m, r1) ∧
      drain 3 (into_packets m, r1) = (Ok cs, st) ∧ concat cs = demo_two_packets.
Proof.
  destruct (packet_stream_round_trip ctr_paired ctr_left pipe_data sink_data (λ _, True)
    5 demo_two_packets 3 demo_tx) as (s' & out & Hs & _ & Hr).
  - unfold type_ok, TYPE_MASK. lia.
  - rewrite demo_two_packets_count. lia.
  - rewrite demo_two_packets_count. apply demo_tx_ready. lia.
  - exists s', out. split; [exact Hs|].
    destruct (Hr (demo_rx (out ++ [])) []) as (m & r1 & h & r2 & cs & Hm & _ & Hd & Hc & _);
      [apply demo_rx_waiting|]. exists m, r1, (h, r2), cs. auto.
Defined.

Lemma abort_then_next_message_witness :
  ∃ out, let r := demo_rx (out ++ []) in
    ∃ r1 r2, recv 1 r = (Err MessageAborted, r1) ∧ recv 1 r1 = (Ok (6%Z, [2%Z]), r2).
Proof.
  destruct (abort_then_next_message ctr_paired ctr_left pipe_data sink_data (λ _, True)
    5 [1]%Z 6 [2]%Z 1 demo_tx) as (s' & out & Hs & _ & Hr).
  - unfold type_ok, TYPE_MASK. lia.
  - unfold type_ok, TYPE_MASK. lia.
  - vm_compute. lia.
  - vm_compute. lia.
  - apply demo_tx_ready. vm_compute. reflexivity.
  - exists out. destruct (Hr (demo_rx (out ++ [])) []) as (r1 & r2 & H1 & H2 & _);
      [apply demo_rx_waiting|]. exists r1, r2. auto.
Defined.

(** A source that fails after one packet and a byte. *)
Definition demo_broken : Broken :=
  {| broken_pipe := {| pipe_data := replicate (1 + MAX_PACKET_SIZE) 7%Z; pipe_step := 0 |} |}.

Lemma failing_source_then_abort_witness :
  ∃ s1 out, message_send_reader (2 + MAX_PACKET_SIZE) 5 demo_broken demo_tx
      = (Err (Io (IoOther 5)), s1) ∧
    ∃ r1 r2, recv (2 + MAX_PACKET_SIZE) (demo_rx (out ++ [])) = (Err MessageAborted, r1) ∧
             recv (2 + MAX_PACKET_SIZE) r1 = (Ok (6%Z, [2%Z]), r2).
Proof.
  assert (Hc : packet_count (whole_packets (broken_data demo_broken)) = 1)
    by (vm_compute; reflexivity).
  assert (Hl : length (broken_data demo_broken) = 1 + MAX_PACKET_SIZE) by apply length_replicate.
  destruct (failing_source_then_abort ctr_paired ctr_left pipe_data sink_data (λ _, True)
    broken_data (λ _, Some (IoOther 5)) 5 demo_broken (IoOther 5) 6 [2]%Z (2 + MAX_PACKET_SIZE) demo_tx)
    as (s1 & s' & out & Hs & _ & _ & Hr); rewrite ?Hc, ?Hl.
  - unfold type_ok, TYPE_MASK. lia.
  - unfold type_ok, TYPE_MASK. lia.
  - reflexivity.
  - lia.
  - lia.
  - change (packet_count [2]%Z) with 1. lia.
  - apply demo_tx_ready. vm_compute. reflexivity.
  - exists s1, out. split; [exact Hs|]. destruct (Hr (demo_rx (out ++ [])) []) as (r1 & r2 & H1 & H2 & _);
      [apply demo_rx_waiting|]. exists r1, r2. auto.
Defined.

Lemma send_reader_boundary_stall_witness :
  ∃ s' out, message_send_reader (2 + MAX_PACKET_SIZE) 5
      {| pipe_data := replicate MAX_PACKET_SIZE 7%Z; pipe_step := 0 |} demo_tx = (Ok tt, s') ∧
    send_message 6 [1]%Z s' = (Err (PacketBuilderErr MessageAlreadyInProgress), s') ∧
    ∃ r', recv (2 + MAX_PACKET_SIZE) (demo_rx out) = (Err (Io UnexpectedEof), r').
Proof.
  assert (Hc : packet_count (replicate MAX_PACKET_SIZE 7%Z) = 1) by (vm_compute; reflexivity).
  destruct (send_reader_boundary_stall ctr_paired ctr_left pipe_data sink_data (λ _, True) pipe_data
    5 {| pipe_data := replicate MAX_PACKET_SIZE 7%Z; pipe_step := 0 |} (2 + MAX_PACKET_SIZE) demo_tx)
    as (s' & out & Hs & _ & Hn & Hr); cbn [pipe_data]; rewrite ?Hc, ?length_replicate.
  - unfold type_ok, TYPE_MASK. lia.
  - lia.
  - intros Hx. apply (f_equal length) in Hx. rewrite length_replicate in Hx. simpl in Hx. size_lia.
  - apply Nat.Div0.mod_same.
  - lia.
  - apply demo_tx_ready. lia.
  - exists s', out. split; [exact Hs|]. split; [apply Hn; unfold type_ok, TYPE_MASK; lia|].
    apply Hr, demo_rx_waiting.
Defined.

Lemma dropped_message_panics_witness :
  ∃ out m1 r1 m2 r2 r3, read_message_handle (demo_rx (out ++ [])) = (Ok m1, r1) ∧
    read_message_handle r1 = (Ok m2, r2) ∧ read_bytes 1 m2 r2 = (Panic, r3).
Proof.
  destruct (dropped_message_panics ctr_paired ctr_left pipe_data sink_data (λ _, True)
    5 demo_two_packets 6 [2]%Z 0 demo_tx) as (s' & out & _ & _ & Hr).
  - unfold type_ok, TYPE_MASK. lia.
  - unfold type_ok, TYPE_MASK. lia.
  - apply demo_two_packets_count.
  - apply demo_tx_ready. vm_compute. reflexivity.
  - exists out. destruct (Hr (demo_rx (out ++ [])) []) as (m1 & r1 & m2 & r2 & r3 & H1 & H2 & _ & H3);
      [apply demo_rx_waiting|]. exists m1, r1, m2, r2, r3. auto.
Defined.
