(* ===== verification/Channel.v ===== *)
(** * The message channel over a hostile or failing network

    [Messages] shows what happens when every byte arrives.  This file shows
    what a receiver can be made to believe otherwise: when an attacker who
    controls the stream drops, repeats, reorders, alters or invents bytes,
    and when the stream is cut short.

    The reference is an ideal reassembly of the packets that were sealed
    ([assemble]); a receiver that stops at its first error ([recv_many])
    never sees anything but a prefix of it. *)

From S2P Require Import Prelude PacketState Interfaces Doubles Packets Messages.

(** ** Reference reassembly *)

(** What a perfect receiver makes of a packet sequence: [Some] for a message,
    [None] for an aborted one.  [acc] is the message that is open. *)
Fixpoint assemble (acc : option (Z * bytes)) (pkts : list (PacketHeader * bytes))
    : list (option (Z * bytes)) :=
  match pkts with
  | [] => []
  | (h, b) :: pkts' =>
      match acc, kind h with
      | None, Sole => Some (msg_type h, b) :: assemble None pkts'
      | None, First => assemble (Some (msg_type h, b)) pkts'
      | Some (ty, buf), Mid =>
          if decide (msg_type h = ty) then assemble (Some (ty, buf ++ b)) pkts' else []
      | Some (ty, buf), Last =>
          if decide (msg_type h = ty) then Some (ty, buf ++ b) :: assemble None pkts' else []
      | Some (ty, _), Abort =>
          if decide (msg_type h = ty) then None :: assemble None pkts' else []
      | _, _ => []
      end
  end.

Lemma assemble_rest ty cs acc pkts :
  cs ≠ [] →
  assemble (Some (ty, acc)) (packets_of false ty cs true ++ pkts)
  = Some (ty, acc ++ concat cs) :: assemble None pkts.
Proof.
  revert acc. induction cs as [|c cs IH]; [done|]. intros acc _. destruct cs as [|c2 cs].
  - cbn. rewrite decide_True by done. by rewrite app_nil_r.
  - change (packets_of false ty (c :: c2 :: cs) true)
      with (({| kind := Mid; msg_type := ty |}, c) :: packets_of false ty (c2 :: cs) true).
    cbn [app assemble kind msg_type]. rewrite decide_True by done. rewrite IH by done.
    by rewrite <- app_assoc.
Qed.

Lemma assemble_message ty cs pkts :
  cs ≠ [] →
  assemble None (packets_of true ty cs true ++ pkts) = Some (ty, concat cs) :: assemble None pkts.
Proof.
  destruct cs as [|c [|c2 cs]]; [done| |]; intros _.
  - cbn. by rewrite app_nil_r.
  - change (packets_of true ty (c :: c2 :: cs) true)
      with (({| kind := First; msg_type := ty |}, c) :: packets_of false ty (c2 :: cs) true).
    cbn [app assemble kind msg_type]. by rewrite assemble_rest.
Qed.

(** The packets of whole messages. *)
Definition headed_packets (m : Z * bytes) : list (PacketHeader * bytes) :=
  packets_of true m.1 (slice_chunks m.2) true.

Lemma assemble_messages ms pkts :
  assemble None ((ms ≫= headed_packets) ++ pkts) = map Some ms ++ assemble None pkts.
Proof.
  induction ms as [|[ty p] ms IH]; [done|]. cbn [mbind list_bind map app].
  rewrite <- app_assoc. unfold headed_packets at 1. cbn [fst snd].
  rewrite assemble_message by apply slice_chunks_not_nil. by rewrite IH, concat_slice_chunks.
Qed.

Lemma message_packets_headed ms : ms ≫= message_packets = encode_packets (ms ≫= headed_packets).
Proof.
  induction ms as [|m ms IH]; [done|]. cbn [mbind list_bind]. rewrite map_app. by rewrite <- IH.
Qed.

Lemma length_headed_packets ms :
  length (ms ≫= headed_packets) = sum_list_with (λ m, packet_count m.2) ms.
Proof.
  induction ms as [|m ms IH]; [done|]. cbn [mbind list_bind sum_list_with]. rewrite length_app.
  unfold headed_packets at 1. by rewrite length_packets_of, <- IH.
Qed.

Lemma packets_of_types first ty cs last :
  Forall (λ hp, msg_type hp.1 = ty) (packets_of first ty cs last).
Proof. revert first. induction cs as [|c cs IH]; intros first; constructor; [done|apply IH]. Qed.

Lemma headed_packets_types ms :
  Forall (λ m, type_ok m.1) ms → Forall (λ hp, type_ok (msg_type hp.1)) (ms ≫= headed_packets).
Proof.
  induction 1 as [|m ms Hm Hms IH]; [constructor|]. cbn. apply Forall_app. split; [|done].
  eapply Forall_impl; [apply packets_of_types|]. intros hp Hhp. cbn in *. by rewrite Hhp.
Qed.

(** ** Ciphertexts on the wire *)

(** The frames around a list of ciphertexts. *)
Definition wire (cs : list bytes) : bytes := concat (map (λ c, frame_bytes (length c) c) cs).

Lemma wire_app cs1 cs2 : wire (cs1 ++ cs2) = wire cs1 ++ wire cs2.
Proof. unfold wire. by rewrite map_app, concat_app. Qed.

(** Cut a stream of complete frames into its ciphertexts. *)
Fixpoint frames_fuel (fuel : nat) (b : bytes) : list bytes :=
  match fuel, b with
  | S fuel', b0 :: b1 :: rest =>
      let n := Z.to_nat (u16_from_be_bytes b0 b1) in
      take n rest :: frames_fuel fuel' (drop n rest)
  | _, _ => []
  end.
Definition frames_of (b : bytes) : list bytes := frames_fuel (length b) b.

Lemma frames_fuel_wire cs fuel :
  Forall (λ c, length c ≤ Z.to_nat 65535) cs → length (wire cs) ≤ fuel →
  frames_fuel fuel (wire cs) = cs.
Proof.
  intros Hcs. revert fuel. induction Hcs as [|c cs Hc Hcs IH]; intros fuel Hf; [by destruct fuel|].
  unfold wire in *. cbn [map concat] in *.
  change (frame_bytes (length c) c) with (u16_to_be_bytes (as_u16 (Z.of_nat (length c))) ++ c) in *.
  unfold u16_to_be_bytes in *.
  cbn [app] in *. cbn [length] in Hf. rewrite length_app in Hf.
  destruct fuel as [|fuel]; [lia|]. cbn [frames_fuel].
  rewrite as_u16_id, u16_be_round_trip, Nat2Z.id by (unfold u16_ok; lia).
  rewrite take_app_length, drop_app_length, IH by lia. done.
Qed.

Lemma frames_of_wire cs : Forall (λ c, length c ≤ Z.to_nat 65535) cs → frames_of (wire cs) = cs.
Proof. intros Hcs. by apply frames_fuel_wire. Qed.

Section Sealed.
Context {T : Type} `{TransportState T}.

(** As [sealed], keeping the ciphertexts apart. *)
Inductive sealed_as : T → list bytes → list bytes → T → Prop :=
| sealed_as_nil t : sealed_as t [] [] t
| sealed_as_cons t p ps buf n buf' t1 cs t2 :
    write_message p buf t = (Ok n, buf', t1) → sealed_as t1 ps cs t2 →
    sealed_as t (p :: ps) (take n buf' :: cs) t2.

Lemma sealed_as_app t ps1 cs1 t1 ps2 cs2 t2 :
  sealed_as t ps1 cs1 t1 → sealed_as t1 ps2 cs2 t2 → sealed_as t (ps1 ++ ps2) (cs1 ++ cs2) t2.
Proof. induction 1; [done|]. intros. cbn [app]. econstructor; eauto. Qed.

Lemma sealed_as_length t ps cs t' : sealed_as t ps cs t' → length cs = length ps.
Proof. induction 1; cbn; auto. Qed.

Context (paired : T → T → Prop) (nonces_left : T → nat) `{!TransportLaws T paired nonces_left}.

Lemma ciphertext_length p buf t n buf' t' :
  write_message p buf t = (Ok n, buf', t') →
  length (take n buf') = n ∧ n ≤ Z.to_nat 65535.
Proof.
  intros Hw. pose proof (write_message_len _ _ _ _ _ _ Hw) as (_ & ? & ?).
  pose proof (proj1 (write_message_buf _ _ _ _ _ _ Hw)). rewrite length_take. lia.
Qed.

Lemma sealed_as_sealed t ps cs t' : sealed_as t ps cs t' → sealed t ps (wire cs) t'.
Proof.
  induction 1 as [|t p ps buf n buf' t1 cs t2 Hw _ IH]; [constructor|].
  unfold wire in *. cbn [map concat]. rewrite (proj1 (ciphertext_length _ _ _ _ _ _ Hw)).
  by econstructor.
Qed.

Lemma sealed_sealed_as t ps out t' :
  sealed t ps out t' → ∃ cs, sealed_as t ps cs t' ∧ out = wire cs.
Proof.
  induction 1 as [|t p ps buf n buf' t1 out t2 Hw _ (cs & Hs & ->)]; [by exists []; split; [constructor|]|].
  exists (take n buf' :: cs). split; [by econstructor|]. unfold wire. cbn [map concat].
  by rewrite (proj1 (ciphertext_length _ _ _ _ _ _ Hw)).
Qed.

Lemma sealed_as_bound t ps cs t' :
  sealed_as t ps cs t' → Forall (λ c, length c ≤ Z.to_nat 65535) cs.
Proof.
  induction 1 as [|t p ps buf n buf' t1 cs t2 Hw _ IH]; constructor; [|done].
  pose proof (ciphertext_length _ _ _ _ _ _ Hw). lia.
Qed.

End Sealed.

(** ** Receiving *)

Section Receive.
Context {T R : Type} `{TransportState T, AsyncRead R}.

(** A receiver that takes up to [n] messages and stops at the first error
    other than an abort: what it got, and how it ended. *)
Fixpoint recv_many (fuel n : nat) (r : T * MessageRx R)
    : list (option (Z * bytes)) * outcome ConnectionError () * (T * MessageRx R) :=
  match n with
  | O => ([], Ok tt, r)
  | S n' =>
      match recv fuel r with
      | (Ok m, r1) => let '(ms, res, r2) := recv_many fuel n' r1 in (Some m :: ms, res, r2)
      | (Err MessageAborted, r1) =>
          let '(ms, res, r2) := recv_many fuel n' r1 in (None :: ms, res, r2)
      | (Err e, r1) => ([], Err e, r1)
      | (Panic, r1) => ([], Panic, r1)
      | (Pending, r1) => ([], Pending, r1)
      end
  end.

(** The receiver can only be given the packets [ps], in order: each
    [read_packet] either fails or yields the next one of them. *)
Fixpoint only_packets (ps : list bytes) (s : T * PacketRx R) : Prop :=
  let '(res, s') := read_packet s in
  match res with
  | Ok h =>
      match ps with
      | [] => False
      | p :: ps' =>
          PacketReader.read p (packet_reader s.2) = (Ok h, packet_reader s'.2) ∧
          payload s'.2 = Some (drop 2 p) ∧ only_packets ps' s'
      end
  | Err e => e ≠ MessageAborted
  | Panic | Pending => False
  end.

Implicit Types r : T * MessageRx R.

Definition only (pkts : list (PacketHeader * bytes)) r : Prop :=
  only_packets (encode_packets pkts) (r.1, rx_packets r.2).

Abbreviation legal := (Forall (λ hp : PacketHeader * bytes, type_ok (msg_type hp.1))).

(** One packet of a receiver that is limited to [pkts]. *)
Lemma read_only pkts r :
  legal pkts → only pkts r →
  match on_rx_packets read_packet r with
  | (Ok h, r') => ∃ b pkts', pkts = (h, b) :: pkts' ∧ accepts h (rx_reader r) ∧
      rx_reader r' = reader_next h (rx_reader r) ∧ payload (rx_packets r'.2) = Some b ∧
      read_buf r'.2 = read_buf r.2 ∧ only pkts' r'
  | (Err e, _) => e ≠ MessageAborted
  | _ => False
  end.
Proof.
  intros Hl Ho. unfold only in Ho. unfold on_rx_packets, zoom.
  destruct pkts as [|[h0 b] pkts]; cbn [map only_packets fst snd] in Ho;
    destruct (read_packet (r.1, rx_packets r.2)) as [res [t' rx']]; cbn [map_err id].
  - by destruct res.
  - destruct res as [h|e| |]; [|done..]. destruct Ho as (Hread & Hp & Ho).
    inversion Hl as [|? ? Hty Hl']; subst. cbn [fst] in Hty.
    destruct (read_ok_inv _ _ _ _ Hread) as [Hacc Hnext].
    pose proof (read_ok_parse _ _ _ _ Hread) as Hparse.
    rewrite (parse_encode h0 b Hty) in Hparse. injection Hparse as <-.
    exists b, pkts. cbn [fst snd set_rx_packets rx_packets read_buf] in *. by split_and!.
Qed.

(** What is left of a receiver after it took something off [pkts]. *)
Definition rest_of (pkts : list (PacketHeader * bytes)) (out : list (option (Z * bytes)))
    (item : option (Z * bytes)) r' : Prop :=
  ∃ pkts', out = item :: assemble None pkts' ∧ length pkts' < length pkts ∧ legal pkts' ∧
    PacketReader.in_progress (rx_reader r') = false ∧ only pkts' r'.

Lemma read_bytes_loop_only ty fuel pkts r :
  legal pkts → only pkts r → length pkts < fuel →
  rx_reader r = {| PacketReader.in_progress := true; PacketReader.msg_type := ty |} →
  match read_bytes_loop fuel r with
  | (Ok b, r') => rest_of pkts (assemble (Some (ty, read_buf r.2)) pkts) (Some (ty, b)) r'
  | (Err MessageAborted, r') => rest_of pkts (assemble (Some (ty, read_buf r.2)) pkts) None r'
  | (Err _, _) => True
  | _ => False
  end.
Proof.
  revert pkts r. induction fuel as [|fuel IH]; intros pkts r Hl Ho Hf Hr; [lia|].
  pose proof (read_only pkts r Hl Ho) as Hread. cbn [read_bytes_loop]. unfold bind at 1.
  destruct (on_rx_packets read_packet r) as [[h|e| |] r1]; [|by destruct e|done..].
  destruct Hread as (b & pkts' & -> & Hacc & Hn & Hp & Hb & Ho'). rewrite Hr in Hacc, Hn.
  inversion Hl as [|? ? _ Hl']; subst. cbn [length] in Hf. destruct h as [k hty].
  unfold accepts in Hacc. cbn in Hacc.
  destruct k; try discriminate Hacc; destruct Hacc as [_ <-]; cbn [kind assemble msg_type];
    rewrite decide_True by done.
  - rewrite (bind_ok _ _ _ _ _ (extend_ok _ _ Hp)).
    specialize (IH pkts' (r1.1, set_read_buf (read_buf r1.2 ++ b) r1.2) Hl' Ho').
    cbn [snd set_read_buf read_buf] in IH. rewrite Hb in *.
    specialize (IH ltac:(lia) Hn).
    destruct (read_bytes_loop fuel _) as [[bs|[]| |] r2]; try done;
      destruct IH as (q & ? & ? & ?); exists q; (split; [done|]; split; [cbn; lia|done]).
  - rewrite (bind_ok _ _ _ _ _ (extend_ok _ _ Hp)). unfold bind, get, ret.
    exists pkts'. cbn [snd set_read_buf read_buf length]. rewrite Hb. split_and!; [done|lia|done| |done].
    unfold rx_reader in *. cbn [snd rx_packets set_read_buf]. by rewrite Hn.
  - unfold throw. exists pkts'. cbn [length]. split_and!; [done|lia|done| |done]. by rewrite Hn.
Qed.

Lemma recv_only fuel pkts r :
  legal pkts → only pkts r → length pkts < fuel →
  PacketReader.in_progress (rx_reader r) = false →
  match recv fuel r with
  | (Ok m, r') => rest_of pkts (assemble None pkts) (Some m) r'
  | (Err MessageAborted, r') => rest_of pkts (assemble None pkts) None r'
  | (Err _, _) => True
  | _ => False
  end.
Proof.
  intros Hl Ho Hf Hr. pose proof (read_only pkts r Hl Ho) as Hread.
  unfold recv, read_message_handle. rewrite bind_assoc. unfold bind at 1.
  destruct (on_rx_packets read_packet r) as [[h|e| |] r1]; [|by destruct e|done..].
  destruct Hread as (b & pkts' & -> & Hacc & Hn & Hp & _ & Ho').
  inversion Hl as [|? ? _ Hl']; subst. cbn [length] in Hf.
  rewrite bind_ret_l. unfold bind. rewrite (read_bytes_start _ _ b) by done. cbn [first_header].
  destruct h as [k hty]. cbn [kind]. destruct k; unfold accepts in Hacc; cbn in Hacc;
    rewrite Hr in Hacc; try (exfalso; by destruct Hacc).
  - rewrite decide_True by done. unfold ret, handle_msg_type. cbn [first_header msg_type].
    exists pkts'. cbn [assemble kind msg_type length]. split_and!; [done|lia|done| |done].
    unfold rx_reader in *. cbn [snd rx_packets set_read_buf]. by rewrite Hn.
  - rewrite decide_False by done.
    pose proof (read_bytes_loop_only hty fuel pkts' (r1.1, set_read_buf b r1.2) Hl' Ho'
      ltac:(lia) ltac:(unfold rx_reader in *; cbn [snd rx_packets set_read_buf]; by rewrite Hn)) as Hloop.
    cbn [snd set_read_buf read_buf] in Hloop.
    destruct (read_bytes_loop fuel _) as [[bs|[]| |] r2]; try done; unfold ret, handle_msg_type;
      cbn [first_header msg_type]; destruct Hloop as (q & ? & ? & ?); exists q; cbn [length];
      (split; [done|]; split; [lia|done]).
Qed.

(** A receiver limited to [pkts] gets a prefix of their reassembly, and ends
    with an error at worst. *)
Lemma recv_many_only fuel n pkts r :
  legal pkts → only pkts r → length pkts < fuel →
  PacketReader.in_progress (rx_reader r) = false →
  let '(ms, res, _) := recv_many fuel n r in
  ms `prefix_of` assemble None pkts ∧ (res = Ok tt ∨ ∃ e, res = Err e).
Proof.
  revert pkts r. induction n as [|n IH]; intros pkts r Hl Ho Hf Hr; cbn [recv_many].
  { split; [apply prefix_nil|auto]. }
  pose proof (recv_only fuel pkts r Hl Ho Hf Hr) as Hm.
  assert (Hstep : ∀ item r', rest_of pkts (assemble None pkts) item r' →
    let '(ms, res, _) := recv_many fuel n r' in
    item :: ms `prefix_of` assemble None pkts ∧ (res = Ok tt ∨ ∃ e, res = Err e)).
  { intros item r' (pkts' & -> & Hlen & Hl' & Hr' & Ho').
    specialize (IH pkts' r' Hl' Ho' ltac:(lia) Hr'). destruct (recv_many fuel n r') as [[ms res] r2].
    destruct IH as [Hpre Hres]. split; [by apply prefix_cons|done]. }
  destruct (recv fuel r) as [[m|e| |] r1]; [| |done..].
  - specialize (Hstep _ _ Hm). by destruct (recv_many fuel n r1) as [[ms res] r2].
  - destruct e; try (split; [apply prefix_nil|eauto]).
    specialize (Hstep _ _ Hm). by destruct (recv_many fuel n r1) as [[ms res] r2].
Qed.

End Receive.

(** ** A network under attack *)

Section Attack.
Context {T R W : Type} `{TransportState T, AsyncRead R, AsyncWrite W}.
Context (paired : T → T → Prop) (nonces_left : T → nat) `{!TransportLaws T paired nonces_left}.
Context (incoming : R → bytes) `{!FaultyReaderLaws R incoming}.
Context (written : W → bytes) (healthy : W → Prop) `{!WriterLaws W written healthy}.

(** No forgery: of the byte strings [seen] by a receiver in state [b], each
    successful decryption is of the next ciphertext of [cs], which the peer
    produced.  It is the ideal form of the integrity of the cipher. *)
Fixpoint genuine (seen : bytes → Prop) (b : T) (cs : list bytes) : Prop :=
  ∀ c buf n buf' b', seen c → read_message c buf b = (Ok n, buf', b') →
    match cs with
    | [] => False
    | c0 :: cs' => c = c0 ∧ genuine seen b' cs'
    end.

(** [c] occurs somewhere in the bytes [x]. *)
Definition occurs (x c : bytes) : Prop := ∃ pre post, x = pre ++ c ++ post.

(** What a packet that is read was made from. *)
Lemma read_packet_origin (s : T * PacketRx R) :
  match read_packet s with
  | (Ok h, s') => ∃ hdr c buf n pb, length hdr = 2 ∧
      incoming (rx_read s.2) = hdr ++ c ++ incoming (rx_read s'.2) ∧
      length c ≤ length buf ∧ read_message c buf s.1 = (Ok n, pb, s'.1) ∧
      PacketReader.read (take n pb) (packet_reader s.2) = (Ok h, packet_reader s'.2) ∧
      payload s'.2 = Some (drop 2 (take n pb))
  | (Err e, _) => e ≠ MessageAborted
  | _ => False
  end.
Proof.
  pose proof (read_frame_any incoming (rx_read s.2) (ciphertext_buf s.2)) as Hf.
  unfold read_packet, zoom, bind, modify, rx_decrypt, get.
  destruct (read_frame _) as [[[]|e| |] [rd' c]]; half_cbn; [|by destruct Hf as [io ->]|done..].
  destruct Hf as (b0 & b1 & Hin & _).
  destruct (read_message c (resize (length c) 0%Z (plaintext_buf s.2)) s.1) as [[res pb] t'] eqn:Hr.
  destruct (read_message_buf _ _ _ _ _ _ Hr) as (Hpb & Hnp & Hnd).
  destruct res as [n|e| |]; half_cbn; [|done..].
  pose proof (read_message_len _ _ _ _ _ _ Hr) as Hn. rewrite length_resize in Hn, Hpb.
  rewrite slice_to_Some by lia. cbn [or_panic]. unfold ret. half_cbn.
  destruct (PacketReader.read (take n pb) (packet_reader s.2)) as [res pr] eqn:Hread.
  destruct (read_result (take n pb) (packet_reader s.2)) as [[h Hh]|[e He]];
    [rewrite Hread in Hh|rewrite Hread in He]; simplify_eq; half_cbn; [|done].
  exists [b0; b1], c, (resize (length c) 0%Z (plaintext_buf s.2)), n, pb.
  split_and!; [done|done|by rewrite length_resize|done|done|].
  unfold payload. half_cbn. destruct (decide (2 < n)).
  - by rewrite slice_Some by lia.
  - rewrite drop_ge; [done|]. rewrite length_take. lia.
Qed.

(** An attacker who cannot forge can only withhold. *)
Lemma genuine_only a ps cs a' x (s : T * PacketRx R) :
  sealed_as a ps cs a' → paired a s.1 → genuine (occurs x) s.1 cs →
  (∃ pre, x = pre ++ incoming (rx_read s.2)) → only_packets ps s.
Proof.
  intros Hs. revert s. induction Hs as [t|t p ps buf n buf' t1 cs t2 Hw _ IH];
    intros s Hpair Hg [pre Hx]; cbn [only_packets];
    pose proof (read_packet_origin s) as Ho; destruct (read_packet s) as [[h|e| |] s']; try done;
    destruct Ho as (hdr & c & rbuf & m & pb & _ & Hin & Hlen & Hr & Hread & Hp);
    (assert (Hocc : occurs x c) by (exists (pre ++ hdr), (incoming (rx_read s'.2));
       by rewrite Hx, Hin, <- app_assoc)).
  - exact (Hg _ _ _ _ _ Hocc Hr).
  - destruct (Hg _ _ _ _ _ Hocc Hr) as [-> Hg'].
    pose proof (proj1 (ciphertext_length paired nonces_left _ _ _ _ _ _ Hw)) as Hcl.
    destruct (read_back _ _ _ _ _ _ _ rbuf Hpair Hw) as (pb' & b' & Hr' & Htk & Hpair'); [lia|].
    rewrite Hr in Hr'. injection Hr' as -> <- <-. rewrite Htk in *. split_and!; [done|done|].
    apply IH; [done|done|]. exists (pre ++ hdr ++ take n buf'). by rewrite Hx, Hin, <- !app_assoc.
Qed.

(** C2: nothing but what the peer sent, in order.  A sender sends any list of
    messages; the attacker puts any bytes at all on the receiver's stream and
    makes its reads fail at will.  If none of them is a forged ciphertext, a receiver that stops at its
    first error obtains a prefix of the messages sent: nothing altered,
    repeated, reordered, skipped or cut short, and it never panics. *)
Theorem channel_integrity ms fuel (s : T * MessageTx W) :
  Forall (λ m, type_ok m.1) ms →
  tx_ready nonces_left healthy (sum_list_with (λ m, packet_count m.2) ms) s →
  sum_list_with (λ m, packet_count m.2) ms < fuel →
  ∃ s' out, send_all ms s = (Ok tt, s') ∧ tx_bytes written s' = tx_bytes written s ++ out ∧
    ∀ n (r : T * MessageRx R),
      paired s.1 r.1 → PacketReader.in_progress (rx_reader r) = false →
      genuine (occurs (rx_bytes incoming r)) r.1 (frames_of out) →
      let '(got, res, _) := recv_many fuel n r in
      got `prefix_of` map Some ms ∧ (res = Ok tt ∨ ∃ e, res = Err e).
Proof.
  intros Hty Hready Hfuel.
  destruct (send_all_ok paired nonces_left written healthy ms 0 s) as (s' & Hs & (out & Hsl & Hw & _) & _);
    [done|by rewrite Nat.add_0_r|].
  destruct (sealed_sealed_as paired nonces_left _ _ _ _ Hsl) as (cs & Hsa & ->). cbn [fst snd] in *.
  exists s', (wire cs). split_and!; [done|done|]. intros n r Hp Hr Hg.
  rewrite frames_of_wire in Hg by (by eapply sealed_as_bound).
  rewrite message_packets_headed in Hsa.
  pose proof (recv_many_only fuel n (ms ≫= headed_packets) r (headed_packets_types _ Hty)) as Hmany.
  rewrite <- (app_nil_r (ms ≫= headed_packets)), assemble_messages, app_nil_r, app_nil_r in Hmany.
  apply Hmany; [|by rewrite length_headed_packets|done].
  eapply genuine_only; [exact Hsa|done|exact Hg|]. by exists [].
Qed.

End Attack.

(** ** A concrete attack *)

(** All stretches of a byte string. *)
Definition stretches (x : bytes) : list bytes :=
  i ← seq 0 (S (length x)); j ← seq 0 (S (length x)); [take j (drop i x)].

Lemma occurs_stretches x c : occurs x c → c ∈ stretches x.
Proof.
  intros (pre & post & ->). unfold stretches. apply list_elem_of_bind. exists (length pre).
  split; [|apply elem_of_seq; rewrite !length_app; lia].
  apply list_elem_of_bind. exists (length c).
  split; [|apply elem_of_seq; rewrite !length_app; lia].
  rewrite drop_app_length, take_app_length. by apply list_elem_of_singleton.
Qed.

(** The double's cipher opens [c] as its message number [n]. *)
Definition ctr_opens (n : Z) (c : bytes) : bool :=
  bool_decide (16 ≤ length c ∧ drop (length c - 16) c = ctr_tag n (take (length c - 16) c)).

Fixpoint ctr_genuine (x : bytes) (n : Z) (cs : list bytes) : bool :=
  match cs with
  | [] => forallb (λ c, negb (ctr_opens n c)) (stretches x)
  | c0 :: cs' =>
      forallb (λ c, implb (ctr_opens n c) (bool_decide (c = c0))) (stretches x) &&
      ctr_genuine x (n + 1) cs'
  end.

Lemma ctr_read_opens c buf b n buf' b' :
  read_message c buf b = (Ok n, buf', b') →
  ctr_opens (ctr_rx b) c = true ∧ ctr_rx b' = (ctr_rx b + 1)%Z.
Proof.
  cbn -[length]. destruct (decide _) as [(? & _ & ?)|]; [|done]. intros [= <- <- <-].
  split; [|done]. by apply bool_decide_eq_true.
Qed.

Lemma ctr_genuine_sound x b cs : ctr_genuine x (ctr_rx b) cs = true → genuine (occurs x) b cs.
Proof.
  revert b. induction cs as [|c0 cs IH]; intros b Hg c buf n buf' b' Hocc Hr;
    apply occurs_stretches in Hocc; apply ctr_read_opens in Hr as [Ho Hn]; cbn [ctr_genuine] in Hg.
  - rewrite forallb_forall in Hg. specialize (Hg c (proj1 (list_elem_of_In _ _) Hocc)).
    by rewrite Ho in Hg.
  - apply andb_prop in Hg as [Hg Hg']. rewrite forallb_forall in Hg.
    specialize (Hg c (proj1 (list_elem_of_In _ _) Hocc)). rewrite Ho in Hg. cbn in Hg.
    split; [by apply bool_decide_eq_true in Hg|]. apply IH. by rewrite Hn.
Qed.

(** The frames of two messages, and the stream of an attacker who repeats
    the first frame. *)
Definition demo_sent : bytes :=
  sink_data (tx_write (tx_packets (send_all [(5, [1; 2]); (6, [])]%Z demo_tx).2.2)).
Definition demo_replayed : bytes :=
  let frames := frames_of demo_sent in wire (take 1 frames ++ frames).

Lemma channel_integrity_witness :
  let '(got, res, _) := recv_many 3 2 (demo_rx demo_replayed) in
  got = [Some (5, [1; 2])]%Z ∧ res = Err (NoiseErr (SnowErr 2)) ∧
  got `prefix_of` map Some [(5, [1; 2]); (6, [])]%Z.
Proof.
  destruct (channel_integrity ctr_paired ctr_left pipe_data sink_data (λ _, True)
    [(5, [1; 2]); (6, [])]%Z 3 demo_tx) as (s' & out & Hs & Hout & Hr).
  { repeat constructor; cbn; unfold TYPE_MASK; lia. }
  { apply demo_tx_ready. vm_compute. reflexivity. }
  { vm_compute. lia. }
  assert (Heq : out = demo_sent).
  { unfold demo_sent. rewrite Hs. cbn [fst snd]. exact (eq_sym Hout). }
  subst out. specialize (Hr 2 (demo_rx demo_replayed) eq_refl eq_refl).
  assert (Hrun : (recv_many 3 2 (demo_rx demo_replayed)).1
                 = ([Some (5, [1; 2])]%Z, Err (NoiseErr (SnowErr 2)))) by (vm_compute; reflexivity).
  destruct (recv_many 3 2 (demo_rx demo_replayed)) as [[got res] r']. injection Hrun as -> ->.
  split; [reflexivity|]. split; [reflexivity|]. apply Hr.
  apply ctr_genuine_sound. vm_compute. reflexivity.
Defined.
