(* ===== verification/Faults.v ===== *)
(** * Sending over a stream that can fail

    [Messages] proves delivery for writers that accept everything.  Here a
    write may fail at any moment, after an arbitrary part of its data.  The
    bytes that are out by then are a stretch of the sealed frames, and the
    receiver turns it into whole messages only: every message whose send was
    reported as done, and possibly the one whose send failed. *)

From S2P Require Import Prelude PacketState Interfaces Doubles Packets Messages Channel.

Section Faults.
Context {T R W : Type} `{TransportState T, AsyncRead R, AsyncWrite W}.
Context (paired : T → T → Prop) (nonces_left : T → nat) `{!TransportLaws T paired nonces_left}.
Context (incoming : R → bytes) `{!ReaderLaws R incoming}.
Context (written : W → bytes) `{!FaultyWriterLaws W written}.

(** Send messages until one fails: how many were sent, and how it ended. *)
Fixpoint send_each (ms : list (Z * bytes)) (s : T * MessageTx W)
    : nat * outcome ConnectionError () * (T * MessageTx W) :=
  match ms with
  | [] => (0, Ok tt, s)
  | (ty, p) :: ms' =>
      match send_message ty p s with
      | (Ok _, s1) => let '(k, res, s2) := send_each ms' s1 in (S k, res, s2)
      | (res, s1) => (0, res, s1)
      end
  end.

(** [sends_cut s ps res s']: an attempt to send the packets [ps] that ended
    with [res].  Some of them were sealed; all of their frames are written
    if the attempt succeeded, otherwise a stretch of them. *)
Definition sends_cut (s : T * PacketTx W) (ps : list bytes) (res : outcome ConnectionError ())
    (s' : T * PacketTx W) : Prop :=
  ∃ ps1 cs m, ps1 `prefix_of` ps ∧ sealed_as s.1 ps1 cs s'.1 ∧
    written (tx_write s'.2) = written (tx_write s.2) ++ take m (wire cs) ∧
    nonces_left s.1 = length ps1 + nonces_left s'.1 ∧
    ((res = Ok tt ∧ ps1 = ps ∧ m = length (wire cs)) ∨ ∃ e, res = Err (Io e)).

Lemma sends_cut_trans s ps1 s1 ps2 res s2 :
  sends_cut s ps1 (Ok tt) s1 → sends_cut s1 ps2 res s2 → sends_cut s (ps1 ++ ps2) res s2.
Proof.
  intros (qs1 & cs1 & m1 & _ & Hs1 & Hw1 & Hn1 & [(_ & -> & ->)|[e He]]); [|done].
  intros (qs2 & cs2 & m2 & Hp2 & Hs2 & Hw2 & Hn2 & Hres).
  exists (ps1 ++ qs2), (cs1 ++ cs2), (length (wire cs1) + m2). rewrite wire_app, length_app.
  split_and!; [by apply prefix_app|by eapply sealed_as_app| |lia|].
  - rewrite Hw2, Hw1, (take_ge (wire cs1)), <- app_assoc by lia. f_equal.
    by rewrite take_app_add'.
  - destruct Hres as [(-> & -> & ->)|?]; [left|by right]. by rewrite length_app.
Qed.

Lemma sends_cut_fail s ps1 ps2 e s' :
  sends_cut s ps1 (Err e) s' → sends_cut s (ps1 ++ ps2) (Err e) s'.
Proof.
  intros (qs & cs & m & Hp & Hs & Hw & Hn & [(? & _)|He]); [done|].
  exists qs, cs, m. split_and!; [by apply prefix_app_r|done..|by right].
Qed.

Lemma write_frame_cut p (s : T * PacketTx W) :
  0 < nonces_left s.1 → length p ≤ MAX_RAW_PACKET_SIZE →
  ∃ res s', write_frame p s = (res, s') ∧ sends_cut s [p] res s' ∧
            packet_builder s'.2 = packet_builder s.2.
Proof.
  intros Hn Hp.
  destruct (write_frame_seals paired nonces_left p s Hn Hp)
    as (buf & n & buf' & s1 & Hw & -> & Hw1 & Hb1 & Hnn).
  pose proof (proj1 (ciphertext_length paired nonces_left _ _ _ _ _ _ Hw)) as Hcl.
  assert (Hwire : wire [take n buf'] = frame_bytes n (take n buf')).
  { unfold wire. cbn [map concat]. by rewrite Hcl, app_nil_r. }
  assert (Hcut : ∀ m res s', s'.1 = s1.1 →
    written (tx_write s'.2) = written (tx_write s.2) ++ take m (frame_bytes n (take n buf')) →
    res = Ok tt ∧ m = length (frame_bytes n (take n buf')) ∨ (∃ e, res = Err (Io e)) →
    sends_cut s [p] res s').
  { intros m res s' Ht Hwr Hres. exists [p], [take n buf'], m. rewrite Ht, Hwire.
    split_and!; [done|by econstructor; [|constructor]|done|by cbn; lia|].
    destruct Hres as [[-> ->]|]; [left|by right]. done. }
  unfold bind, on_write, zoom.
  destruct (write_all_any (frame_bytes n (take n buf')) (tx_write s1.2)) as (r1 & w1 & k & -> & Hk & Hr1).
  rewrite Hw1 in Hk. destruct Hr1 as [[-> ->]|[e ->]]; half_cbn.
  - destruct (flush_any w1) as (r2 & w2 & -> & Hf & Hr2). eexists _, _. split; [reflexivity|].
    split; [|done]. apply (Hcut (length (frame_bytes n (take n buf')))); [done| |].
    + half_cbn. by rewrite Hf, Hk.
    + destruct Hr2 as [->|[e ->]]; [by left|right]. by eexists.
  - eexists _, _. split; [reflexivity|]. split; [|done]. apply (Hcut k); [done|done|]. right. by eexists.
Qed.

Abbreviation can_send := (can_send nonces_left (λ _ : W, True)).

Lemma send_packet_cut p last (s : T * PacketTx W) k :
  can_send (S k) s → length p ≤ MAX_PACKET_SIZE →
  ∃ res s', send_packet p last s = (res, s') ∧
    sends_cut s [encode_packet {| kind := pack_kind (PacketBuilder.is_first (packet_builder s.2)) last;
                                  msg_type := PacketBuilder.msg_type (packet_builder s.2) |} p] res s' ∧
    builder_after (packet_builder s.2) last (packet_builder s'.2).
Proof.
  intros (_ & Hn & Hip & Hwf) Hp. unfold send_packet, on_builder, zoom, bind.
  rewrite pack_open by done. cbv zeta. cbn [map_err].
  set (raw := encode_packet _ p). set (b' := PacketBuilder.Build_t _ _ _ _).
  destruct (write_frame_cut raw (s.1, set_builder b' s.2)) as (res & s' & -> & Hcut & Hb').
  { half_cbn. lia. }
  { unfold raw. rewrite length_encode_packet. size_lia. }
  exists res, s'. split; [done|]. split; [exact Hcut|]. rewrite Hb'. by unfold builder_after.
Qed.

Lemma sends_cut_nonces s ps s' : sends_cut s ps (Ok tt) s' → nonces_left s.1 = length ps + nonces_left s'.1.
Proof. intros (ps1 & cs & m & _ & _ & _ & Hn & [(_ & -> & _)|[e ?]]); [done|done]. Qed.

Lemma send_chunks_cut cs last (s : T * PacketTx W) :
  can_send (length cs) s → Forall (λ c, length c ≤ MAX_PACKET_SIZE) cs → cs ≠ [] →
  ∃ res s', send_chunks cs last s = (res, s') ∧
    sends_cut s (encode_packets (packets_of (PacketBuilder.is_first (packet_builder s.2))
                                   (PacketBuilder.msg_type (packet_builder s.2)) cs last)) res s' ∧
    (res = Ok tt → builder_after (packet_builder s.2) last (packet_builder s'.2)).
Proof.
  revert s. induction cs as [|c cs IH]; [done|]. intros s Hc HF _. inversion HF as [|? ? Hlen HF']; subst.
  cbn [send_chunks packets_of map fst snd].
  destruct (send_packet_cut c (match cs with [] => true | _ => false end && last) s (length cs) Hc Hlen)
    as (res1 & s1 & Hs1 & Hcut & Hb).
  pose proof Hcut as (_ & _ & _ & _ & _ & _ & _ & [(-> & _)|[e ->]]).
  2: { rewrite (bind_err _ _ _ _ _ Hs1). eexists _, s1. split; [done|]. split; [|done].
       exact (sends_cut_fail _ [_] _ _ _ Hcut). }
  rewrite (bind_ok _ _ _ _ _ Hs1). destruct cs as [|c2 cs].
  { exists (Ok tt), s1. split_and!; [done|exact Hcut|done]. }
  destruct Hc as (_ & Hn & Hip & Hwf), Hb as (Hb1 & Hb2 & Hb3).
  destruct (IH s1) as (res2 & s2 & Hs2 & Hcut2 & Hb'); [|done|done|].
  { apply sends_cut_nonces in Hcut. cbn [length] in *.
    split_and!; [done|lia|done|unfold builder_wf in *; by rewrite Hb3]. }
  exists res2, s2. split; [done|]. rewrite Hb2, Hb3 in Hcut2.
  split; [exact (sends_cut_trans _ [_] _ _ _ _ Hcut Hcut2)|].
  intros Hok. destruct (Hb' Hok) as (? & ? & ?). split_and!; [done|done|congruence].
Qed.

Lemma send_slice_cut data last (s : T * PacketTx W) :
  can_send (length (slice_chunks data)) s →
  ∃ res s', send_slice data last s = (res, s') ∧
    sends_cut s (encode_packets (packets_of (PacketBuilder.is_first (packet_builder s.2))
              (PacketBuilder.msg_type (packet_builder s.2)) (slice_chunks data) last)) res s' ∧
    (res = Ok tt → builder_after (packet_builder s.2) last (packet_builder s'.2)).
Proof.
  intros Hc. pose proof (slice_chunks_bound data) as HF. unfold send_slice, slice_chunks in *.
  destruct (chunks MAX_PACKET_SIZE data) as [|c cs].
  - destruct (send_packet_cut [] last s 0 Hc) as (res & s' & ? & Hs & ?); [simpl; lia|].
    exists res, s'. by split_and!.
  - by apply send_chunks_cut.
Qed.

Abbreviation tx_ready := (tx_ready nonces_left (λ _ : W, True)).

Lemma send_message_cut ty p k s :
  type_ok ty → tx_ready (packet_count p + k) s →
  ∃ res s', send_message ty p s = (res, s') ∧
    sends_cut (s.1, tx_packets s.2) (message_packets (ty, p)) res (s'.1, tx_packets s'.2) ∧
    (res = Ok tt → tx_ready k s').
Proof.
  intros Hty (_ & Hn & Hip). unfold send_message.
  pose proof (prepare_message_ok ty (s.1, tx_packets s.2) Hty Hip) as Hprep.
  rewrite (bind_ok _ _ _ _ _ (on_tx_ok _ _ _ _ Hprep)). cbn [fst snd].
  set (s1 := (s.1, {| tx_packets := set_builder _ _ |})).
  destruct (send_slice_cut p true (s1.1, tx_packets s1.2)) as (res & s2 & Hs2 & Hcut & Hb).
  { split_and!; [done|unfold packet_count in Hn; simpl; lia|done|done]. }
  exists res, (s2.1, {| tx_packets := s2.2 |}). split; [by apply on_tx_ok|].
  destruct s2 as [t2 p2]. split; [exact Hcut|]. intros ->. destruct (Hb eq_refl) as (Hi & _).
  apply sends_cut_nonces in Hcut. rewrite length_map, length_packets_of in Hcut.
  unfold packet_count in Hn. cbn [fst s1] in Hcut. split_and!; [done|cbn [fst]; lia|done].
Qed.

(** The frames written by [send_each]: those of the messages it reports as
    sent, then a stretch of those of the next one if it failed. *)
Lemma send_each_cut ms s :
  Forall (λ m, type_ok m.1) ms → tx_ready (sum_list_with (λ m, packet_count m.2) ms) s →
  ∃ k res s', send_each ms s = (k, res, s') ∧ k ≤ length ms ∧
    ∃ cs1 t1 ps2 cs2 m, sealed_as s.1 (take k ms ≫= message_packets) cs1 t1 ∧
      sealed_as t1 ps2 cs2 s'.1 ∧
      tx_bytes written s' = tx_bytes written s ++ wire cs1 ++ take m (wire cs2) ∧
      ((res = Ok tt ∧ k = length ms ∧ ps2 = []) ∨
       ∃ e x, res = Err (Io e) ∧ ms !! k = Some x ∧ ps2 `prefix_of` message_packets x).
Proof.
  revert s. induction ms as [|[ty p] ms IH]; intros s Hty Hready; cbn [send_each].
  { exists 0, (Ok tt), s. split_and!; [done|cbn; lia|]. exists [], s.1, [], [], 0.
    split_and!; [constructor|constructor|by rewrite app_nil_r|by left]. }
  inversion Hty as [|? ? Ht Hty']; subst. cbn [fst sum_list_with snd] in *.
  destruct (send_message_cut ty p _ s Ht Hready) as (res & s1 & Hs1 & Hcut & Hr1). rewrite Hs1.
  destruct Hcut as (ps1 & cs & m & Hpre & Hsl & Hw & _ & Hres). cbn [fst snd] in *.
  destruct Hres as [(-> & -> & ->)|[e ->]].
  - destruct (IH s1 Hty' (Hr1 eq_refl)) as (k & res & s' & Hs & Hk & cs1 & t1 & ps2 & cs2 & m & Hsl1 & Hsl2 & Hwr & Hend).
    rewrite Hs. exists (S k), res, s'. split_and!; [done|cbn; lia|].
    exists (cs ++ cs1), t1, ps2, cs2, m. cbn [take mbind list_bind]. split_and!; [|done| |].
    + exact (sealed_as_app _ _ _ _ _ _ _ Hsl Hsl1).
    + unfold tx_bytes in *. rewrite Hwr, Hw, take_ge, wire_app, <- !app_assoc by lia. done.
    + destruct Hend as [(-> & -> & ->)|(e & x & -> & Hx & Hp)]; [by left|right]. by exists e, x.
  - exists 0, (Err (Io e)), s1. split_and!; [done|lia|]. exists [], s.1, ps1, cs, m.
    split_and!; [constructor|done|done|]. right. by exists e, (ty, p).
Qed.

(** ** The receiving end *)

(** A stretch of frames is some whole frames and part of one more. *)
Lemma take_wire m cs :
  Forall (λ c, length c ≤ Z.to_nat 65535) cs →
  ∃ j rest, take m (wire cs) = wire (take j cs) ++ rest ∧ j ≤ length cs ∧ short rest.
Proof.
  intros Hcs. revert m. induction Hcs as [|c cs Hc Hcs IH]; intros m.
  { exists 0, []. split_and!; [by destruct m|done|apply short_nil]. }
  change (wire (c :: cs)) with (frame_bytes (length c) c ++ wire cs).
  destruct (decide (m < length (frame_bytes (length c) c))) as [Hm|Hm].
  - exists 0, (take m (frame_bytes (length c) c)). rewrite take_app_le by lia.
    split_and!; [done|lia|]. by exists c, m.
  - destruct (IH (m - length (frame_bytes (length c) c))) as (j & rest & Heq & Hj & Hs).
    exists (S j), rest. rewrite take_app_ge, Heq by lia. cbn [take].
    change (wire (c :: take j cs)) with (frame_bytes (length c) c ++ wire (take j cs)).
    rewrite <- app_assoc. split_and!; [done|cbn; lia|done].
Qed.

Lemma sealed_as_take t ps cs t' j :
  sealed_as t ps cs t' → ∃ t1, sealed_as t (take j ps) (take j cs) t1.
Proof.
  intros Hs. revert j. induction Hs as [|t p ps buf n buf' t1 cs t2 Hw _ IH]; intros j.
  { exists t. rewrite !take_nil. constructor. }
  destruct j as [|j]; [exists t; constructor|]. destruct (IH j) as [t3 Hwr]. exists t3. by econstructor.
Qed.

Lemma take_packets_of first ty cs j :
  j < length cs → take j (packets_of first ty cs true) = packets_of first ty (take j cs) false.
Proof.
  revert first j. induction cs as [|c cs IH]; intros first j Hj; [cbn in Hj; lia|].
  destruct j as [|j]; [done|]. cbn [length] in Hj. cbn [packets_of take].
  rewrite andb_false_r. destruct cs as [|c2 cs]; [cbn in Hj; lia|]. cbn [andb].
  f_equal. apply IH. lia.
Qed.

Implicit Types r : T * MessageRx R.

(** A message of which only the first [j] packets arrive is not received. *)
Lemma recv_cut ty p j fuel a a' rest r :
  type_ok ty → packet_count p ≤ fuel → j < packet_count p → short rest →
  PacketReader.in_progress (rx_reader r) = false →
  coming paired incoming a (take j (message_packets (ty, p))) a' rest r →
  ∃ r', recv fuel r = (Err (Io UnexpectedEof), r').
Proof.
  intros Hty Hf Hj Hsh Hr Hc. unfold message_packets in Hc. cbn [fst snd] in Hc.
  unfold packet_count in *. rewrite firstn_map, take_packets_of in Hc by done.
  destruct (take j (slice_chunks p)) as [|c cs] eqn:Hcs.
  - destruct Hc as (out & Hs & Hin & _). apply flight_nil_inv in Hs as [-> _].
    cbn [app fst snd] in Hin. destruct (read_short incoming r) as [r' Hr']; [by rewrite Hin|].
    exists r'. unfold recv, read_message_handle. by rewrite bind_assoc, (bind_err _ _ _ _ _ Hr').
  - apply (f_equal length) in Hcs. rewrite length_take in Hcs. cbn [length] in Hcs.
    by eapply (recv_starved paired nonces_left incoming ty c cs); [|lia|..|exact Hc].
Qed.

Lemma recv_many_messages ms fuel n a a' ps rest r :
  Forall (λ m, type_ok m.1 ∧ packet_count m.2 ≤ fuel) ms →
  PacketReader.in_progress (rx_reader r) = false →
  coming paired incoming a ((ms ≫= message_packets) ++ ps) a' rest r →
  ∃ a1 r1, PacketReader.in_progress (rx_reader r1) = false ∧ coming paired incoming a1 ps a' rest r1 ∧
    recv_many fuel (length ms + n) r
    = (let '(got, res, r2) := recv_many fuel n r1 in (map Some ms ++ got, res, r2)).
Proof.
  revert a r. induction ms as [|[ty p] ms IH]; intros a r HF Hr Hc.
  { exists a, r. split_and!; [done|done|]. cbn. by destruct (recv_many fuel n r) as [[]]. }
  inversion HF as [|? ? [Hty Hf] HF']; subst. cbn [fst snd mbind list_bind] in *.
  rewrite <- app_assoc in Hc.
  destruct (recv_ok paired nonces_left incoming ty (slice_chunks p) fuel a
    ((ms ≫= message_packets) ++ ps) a' rest r)
    as (a1 & r1 & Hr1 & Hi1 & Hc1 & _); [done|apply slice_chunks_not_nil|done|done|exact Hc|].
  destruct (IH a1 r1 HF' Hi1 Hc1) as (a2 & r2 & Hi2 & Hc2 & Heq).
  exists a2, r2. split_and!; [done|done|]. cbn [length Nat.add recv_many]. rewrite Hr1, Heq.
  rewrite concat_slice_chunks. by destruct (recv_many fuel n r2) as [[]].
Qed.

(** Nothing more comes: the receiver reports the end of the stream. *)
Lemma recv_many_eof fuel n a a' rest r :
  short rest → coming paired incoming a [] a' rest r →
  ∃ r', recv_many fuel (S n) r = ([], Err (Io UnexpectedEof), r').
Proof.
  intros Hsh (out & Hs & Hin & _). apply flight_nil_inv in Hs as [-> _]. cbn [app fst snd] in Hin.
  destruct (read_short incoming r) as [r' Hr']; [by rewrite Hin|]. exists r'.
  cbn [recv_many]. unfold recv, read_message_handle.
  by rewrite bind_assoc, (bind_err _ _ _ _ _ Hr').
Qed.

(** The end of a broken stream: part of one more message, or all of it. *)
Lemma recv_many_tail ty p ps j fuel n a a' rest r :
  type_ok ty → packet_count p ≤ fuel → ps `prefix_of` message_packets (ty, p) → short rest →
  PacketReader.in_progress (rx_reader r) = false →
  coming paired incoming a (take j ps) a' rest r →
  ∃ got r', recv_many fuel (S (S n)) r = (got, Err (Io UnexpectedEof), r') ∧
            (got = [] ∨ got = [Some (ty, p)]).
Proof.
  intros Hty Hf [ps3 Hps] Hsh Hi Hc.
  assert (Hlen : length (message_packets (ty, p)) = packet_count p)
    by (unfold message_packets; by rewrite length_map, length_packets_of).
  assert (Htake : take j ps = take (min j (length ps)) (message_packets (ty, p))).
  { rewrite Hps, take_app_le by lia. destruct (decide (j ≤ length ps)); [by rewrite Nat.min_l by lia|].
    by rewrite Nat.min_r, !take_ge by lia. }
  rewrite Htake in Hc. destruct (decide (min j (length ps) < packet_count p)) as [Hcut|Hall].
  - destruct (recv_cut ty p _ fuel _ _ _ _ Hty Hf Hcut Hsh Hi Hc) as [r' Hr'].
    exists [], r'. cbn [recv_many]. rewrite Hr'. auto.
  - rewrite take_ge, <- (app_nil_r (message_packets _)) in Hc by lia.
    destruct (recv_many_messages [(ty, p)] fuel (S n) a a' [] rest r)
      as (a2 & r2 & Hi2 & Hc2 & Heq2); [by constructor|done|cbn; by rewrite app_nil_r|].
    cbn [length Nat.add] in Heq2. rewrite Heq2.
    destruct (recv_many_eof fuel n _ _ _ _ Hsh Hc2) as [r' ->]. exists [Some (ty, p)], r'. auto.
Qed.

(** C15: a failed send loses nothing that was reported and corrupts nothing.
    Messages are sent until one send fails, the write having stopped at an
    arbitrary byte.  A receiver of the bytes that got out obtains exactly
    the messages whose send succeeded and at most the one whose send failed,
    whole, and then the end of the stream. *)
Theorem failed_send_delivery ms fuel s :
  Forall (λ m, type_ok m.1 ∧ packet_count m.2 ≤ fuel) ms →
  tx_ready (sum_list_with (λ m, packet_count m.2) ms) s →
  ∃ k res s' out, send_each ms s = (k, res, s') ∧ tx_bytes written s' = tx_bytes written s ++ out ∧
    (res = Ok tt ∧ k = length ms ∨ (∃ e, res = Err (Io e)) ∧ k < length ms) ∧
    ∀ r, rx_waiting paired incoming s.1 out r →
      ∃ j r', recv_many fuel (S (length ms)) r
                = (map Some (take j ms), Err (Io UnexpectedEof), r') ∧
        (j = k ∨ j = S k ∧ res ≠ Ok tt).
Proof.
  intros HF Hready.
  destruct (send_each_cut ms s) as (k & res & s' & Hs & Hk & cs1 & t1 & ps2 & cs2 & m & Hsl1 & Hsl2 & Hwr & Hend);
    [by eapply Forall_impl; [exact HF|intros ? []]|done|].
  exists k, res, s', (wire cs1 ++ take m (wire cs2)). split_and!; [done|done| |].
  { destruct Hend as [(-> & -> & _)|(e & x & -> & Hx & _)]; [by left|right].
    split; [by eexists|by eapply lookup_lt_Some]. }
  intros r (Hp & Hi & Hin).
  destruct (take_wire m cs2) as (j & rest & Hw & Hj & Hsh); [by eapply sealed_as_bound|].
  destruct (sealed_as_take _ _ _ _ j Hsl2) as [t2 Hsl2'].
  assert (Hc : coming paired incoming s.1 ((take k ms ≫= message_packets) ++ take j ps2) t2 rest r).
  { exists (wire cs1 ++ wire (take j cs2)). split_and!; [|by rewrite <- app_assoc, <- Hw|done].
    apply sealed_flight. eapply sealed_app; by eapply sealed_as_sealed. }
  destruct (recv_many_messages (take k ms) fuel (S (length ms) - k) s.1 t2 (take j ps2) rest r)
    as (a1 & r1 & Hi1 & Hc1 & Heq); [by apply Forall_take|done|done|].
  rewrite length_take in Heq. replace (k `min` length ms + (S (length ms) - k)) with (S (length ms)) in Heq by lia.
  rewrite Heq. replace (S (length ms) - k) with (S (length ms - k)) by lia.
  destruct Hend as [(-> & -> & ->)|(e & [ty p] & -> & Hx & Hpre)].
  { rewrite take_nil in Hc1. destruct (recv_many_eof fuel (length ms - length ms) _ _ _ _ Hsh Hc1) as [r' ->].
    exists (length ms), r'. rewrite app_nil_r. auto. }
  destruct (proj1 (Forall_lookup _ _) HF _ _ Hx) as [Hty Hf]. cbn [fst snd] in Hty, Hf.
  pose proof (lookup_lt_Some _ _ _ Hx) as Hlt.
  replace (length ms - k) with (S (length ms - k - 1)) by lia.
  destruct (recv_many_tail ty p ps2 j fuel (length ms - k - 1) _ _ _ _ Hty Hf Hpre Hsh Hi1 Hc1)
    as (got & r' & -> & [-> | ->]).
  - exists k, r'. rewrite app_nil_r. auto.
  - exists (S k), r'. split; [|by right]. erewrite take_S_r by exact Hx. by rewrite map_app.
Qed.

End Faults.

(** ** A concrete failure *)

(** A sender whose stream breaks after [room] bytes. *)
Definition cut_tx (room : nat) : Counter * MessageTx Cut :=
  (demo_tx.1, message_tx_new {| packet_builder := PacketBuilder.new;
                                tx_write := {| cut_data := []; cut_room := room |};
                                write_buf := [] |}).

Lemma cut_tx_ready room k :
  (Z.of_nat k < 2 ^ 64)%Z → tx_ready ctr_left (λ _ : Cut, True) k (cut_tx room).
Proof. intros Hk. unfold tx_ready, ctr_left. cbn -[Z.pow Z.to_nat]. split_and!; [done|lia|done]. Qed.

Lemma failed_send_delivery_witness :
  ∃ k res s' out j r', send_each [(5, [1; 2]); (6, [3]); (7, [])]%Z (cut_tx 30) = (k, res, s') ∧
    recv_many 1 4 (demo_rx out)
    = (map Some (take j [(5, [1; 2]); (6, [3]); (7, [])]%Z), Err (Io UnexpectedEof), r') ∧
    (j = k ∨ j = S k ∧ res ≠ Ok tt).
Proof.
  destruct (failed_send_delivery ctr_paired ctr_left pipe_data cut_data
    [(5, [1; 2]); (6, [3]); (7, [])]%Z 1 (cut_tx 30)) as (k & res & s' & out & Hs & _ & _ & Hr).
  { repeat constructor; cbn [fst snd]; unfold TYPE_MASK; try lia; vm_compute; lia. }
  { apply cut_tx_ready. vm_compute. reflexivity. }
  destruct (Hr (demo_rx out)) as (j & r' & Hrecv & Hj).
  { split_and!; reflexivity. }
  exists k, res, s', out, j, r'. auto.
Defined.
