(* ===== verification/Session.v ===== *)
(** * Sessions as message queues (src/messages.rs, both directions at once)

    Two ends of one connection send and receive messages in any interleaved
    order.  At each end both directions share one cipher state.  The
    specification of the session is a pair of FIFO queues of messages; the
    theorem of this file is that the code refines it. *)

From S2P Require Import Prelude PacketState Interfaces Doubles Packets Messages.

Inductive side : Set := A | B.

#[export] Instance side_eq_dec : EqDecision side.
Proof. solve_decision. Defined.

Definition other (x : side) : side := match x with A => B | B => A end.

(** Replace the value of a function at one side. *)
Definition upd {V} (x : side) (v : V) (f : side → V) : side → V :=
  λ y, if decide (y = x) then v else f y.

(** What the users of the two ends do. *)
Inductive action : Set :=
| Send (x : side) (ty : Z) (p : bytes)
| Recv (x : side).

(** ** Specification: [q x] is the queue of messages that [x] has sent and
    the other side has not received; receiving from an empty queue waits. *)

Definition queues : Type := side → list (Z * bytes).

Definition spec_exec (a : action) (q : queues) : option (option (Z * bytes) * queues) :=
  match a with
  | Send x ty p => Some (None, upd x (q x ++ [(ty, p)]) q)
  | Recv x =>
      match q (other x) with
      | m :: ms => Some (Some m, upd (other x) ms q)
      | [] => None
      end
  end.

Fixpoint spec_run (acts : list action) (q : queues) : option (list (option (Z * bytes)) * queues) :=
  match acts with
  | [] => Some ([], q)
  | a :: acts' =>
      '(r, q1) ← spec_exec a q;
      '(rs, q2) ← spec_run acts' q1;
      Some (r :: rs, q2)
  end.

(** ** Implementation *)

(** One end: the cipher its halves share, and the halves. *)
Record End (T R W : Type) : Type := {
  cipher : T; end_tx : MessageTx W; end_rx : MessageRx R;
}.
Arguments cipher {_ _ _} _.
Arguments end_tx {_ _ _} _.
Arguments end_rx {_ _ _} _.

Section Session.
Context {T R W : Type} `{TransportState T, AsyncRead R, AsyncWrite W}.
Context (written : W → bytes) (deliver : bytes → R → R).

Abbreviation Net := (side → End T R W).

(** The network hands new bytes to a receiving end. *)
Definition arrive (b : bytes) (e : End T R W) : End T R W :=
  let rx := rx_packets (end_rx e) in
  {| cipher := cipher e; end_tx := end_tx e;
     end_rx := set_rx_packets (set_frame (deliver b (rx_read rx), ciphertext_buf rx) rx) (end_rx e) |}.

Definition net_send (x : side) (ty : Z) (p : bytes) (n : Net) : outcome ConnectionError () * Net :=
  let e := n x in
  let '(r, (t, tx)) := send_message ty p (cipher e, end_tx e) in
  let sent := drop (length (written (tx_write (tx_packets (end_tx e)))))
                   (written (tx_write (tx_packets tx))) in
  (r, upd (other x) (arrive sent (n (other x)))
        (upd x {| cipher := t; end_tx := tx; end_rx := end_rx e |} n)).

Definition net_recv (fuel : nat) (x : side) (n : Net) : outcome ConnectionError (Z * bytes) * Net :=
  let e := n x in
  let '(r, (t, rx)) := recv fuel (cipher e, end_rx e) in
  (r, upd x {| cipher := t; end_tx := end_tx e; end_rx := rx |} n).

Definition net_exec (fuel : nat) (a : action) : M Net ConnectionError (option (Z * bytes)) := λ n,
  match a with
  | Send x ty p => let '(r, n') := net_send x ty p n in (map_ok (λ _, None) r, n')
  | Recv x => let '(r, n') := net_recv fuel x n in (map_ok Some r, n')
  end.

Fixpoint net_run (fuel : nat) (acts : list action) : M Net ConnectionError (list (option (Z * bytes))) :=
  match acts with
  | [] => ret []
  | a :: acts' =>
      let! r := net_exec fuel a in
      let! rs := net_run fuel acts' in
      ret (r :: rs)
  end.

(** ** Refinement *)

Context (paired : T → T → Prop) (nonces_left : T → nat) `{!TransportLaws T paired nonces_left}.
Context (incoming : R → bytes) `{!ReaderLaws R incoming}.
Context (healthy : W → Prop) `{!WriterLaws W written healthy}.
Context (deliver_incoming : ∀ b r, incoming (deliver b r) = incoming r ++ b).

(** Packets that [x] sends in [acts]. *)
Fixpoint cost (x : side) (acts : list action) : nat :=
  match acts with
  | [] => 0
  | Send y _ p :: acts' => (if decide (y = x) then packet_count p else 0) + cost x acts'
  | Recv _ :: acts' => cost x acts'
  end.

(** The direction from [x]: [x] can send [k] more packets, and the messages
    [ms] are on their way to the other side, which is between messages. *)
Definition direction (n : Net) (x : side) (ms : list (Z * bytes)) (k : nat) : Prop :=
  tx_ready nonces_left healthy k (cipher (n x), end_tx (n x)) ∧
  PacketReader.in_progress (rx_reader (cipher (n (other x)), end_rx (n (other x)))) = false ∧
  ∃ a, coming paired incoming a (ms ≫= message_packets) (cipher (n x)) []
         (cipher (n (other x)), end_rx (n (other x))).

Definition fits (fuel : nat) (m : Z * bytes) : Prop := type_ok m.1 ∧ packet_count m.2 ≤ fuel.

Definition implements (fuel : nat) (n : Net) (q : queues) (k : side → nat) : Prop :=
  ∀ x, direction n x (q x) (k x) ∧ Forall (fits fuel) (q x).

Definition action_fits (fuel : nat) (a : action) : Prop :=
  match a with Send _ ty p => fits fuel (ty, p) | Recv _ => True end.

Lemma upd_eq {V} x (v : V) f : upd x v f x = v.
Proof. unfold upd. by rewrite decide_True. Qed.

Lemma upd_ne {V} x y (v : V) f : y ≠ x → upd x v f y = f y.
Proof. intros. unfold upd. by rewrite decide_False. Qed.

Lemma other_ne x : other x ≠ x.
Proof. by destruct x. Qed.

Lemma other_other x : other (other x) = x.
Proof. by destruct x. Qed.

Lemma side_cases x y : y = x ∨ y = other x.
Proof. destruct x, y; auto. Qed.

(** Receiving keeps what the receiver itself is sending. *)
Lemma coming_keeps a ps t t' rest r :
  coming paired incoming a ps t rest r → keeps_tx paired nonces_left t t' →
  coming paired incoming a ps t' rest r.
Proof.
  intros (out & Hf & Hi & Hp) [Hk _]. exists out. split_and!; [|done|done].
  rewrite <- (app_nil_r ps), <- (app_nil_r out). eapply flight_app; [exact Hf|].
  eapply flight_turn; [exact Hk|constructor].
Qed.

(** Sending keeps what the sender itself is receiving. *)
Lemma coming_sealed a ps t rest ct ct' rx ps' out :
  coming paired incoming a ps t rest (ct, rx) → sealed ct ps' out ct' →
  coming paired incoming a ps t rest (ct', rx).
Proof.
  intros (o & Hf & Hi & Hp) Hs. exists o. split_and!; [done|done|]. cbn [fst] in *.
  exact (sealed_other_direction paired nonces_left _ _ _ _ _ Hs Hp).
Qed.

Lemma send_implements fuel n q k x ty p :
  implements fuel n q (λ y, (if decide (x = y) then packet_count p else 0) + k y) → fits fuel (ty, p) →
  ∃ n', net_send x ty p n = (Ok tt, n') ∧ implements fuel n' (upd x (q x ++ [(ty, p)]) q) k.
Proof.
  intros Himp Hfit. destruct (Himp x) as [(Hready & Hidle & a & Hcom) HF].
  rewrite decide_True in Hready by done.
  destruct (send_message_ok paired nonces_left written healthy ty p (k x) _ (proj1 Hfit) Hready)
    as ([t tx] & Hs & (out & Hsl & Hw & _) & Hr'). cbn [fst snd tx_packets] in *.
  unfold net_send. rewrite Hs. eexists. split; [reflexivity|].
  rewrite Hw, drop_app_length. intros y. destruct (side_cases x y) as [-> | ->].
  - split; [|rewrite upd_eq; apply Forall_app; split; [done|by apply Forall_singleton]].
    unfold direction. rewrite !upd_eq, upd_ne, upd_eq by (by destruct x).
    split; [done|]. split; [done|]. exists a. destruct Hcom as (o & Hf & Hi & Hp).
    exists (o ++ out). rewrite bind_app. split_and!; [|cbn; rewrite deliver_incoming|done].
    + eapply flight_app; [exact Hf|]. cbn. rewrite app_nil_r. by apply sealed_flight.
    + cbn in Hi. by rewrite Hi, !app_nil_r.
  - destruct (Himp (other x)) as [(Hready2 & Hidle2 & a2 & Hcom2) HF2].
    rewrite decide_False in Hready2 by (by destruct x). rewrite other_other in Hidle2, Hcom2.
    split; [|by rewrite upd_ne by apply other_ne].
    unfold direction. rewrite other_other, !upd_eq, !upd_ne, !upd_eq by (by destruct x).
    split; [done|]. split; [done|]. exists a2.
    rewrite (upd_ne x (other x)) by apply other_ne. exact (coming_sealed _ _ _ _ _ _ _ _ _ Hcom2 Hsl).
Qed.

Lemma recv_implements fuel n q k x m ms :
  implements fuel n q k → q (other x) = m :: ms →
  ∃ n', net_recv fuel x n = (Ok m, n') ∧ implements fuel n' (upd (other x) ms q) k.
Proof.
  intros Himp Hq. destruct (Himp (other x)) as [(Hready & Hidle & a & Hcom) HF].
  rewrite other_other in Hidle, Hcom. rewrite Hq in HF, Hcom.
  inversion HF as [|? ? [Hty Hfu] HF']; subst. destruct m as [ty p]. cbn [fst snd] in *.
  destruct (recv_ok paired nonces_left incoming ty (slice_chunks p) fuel a (ms ≫= message_packets)
    (cipher (n (other x))) [] (cipher (n x), end_rx (n x)))
    as (a1 & [t rx] & Hr & Hi & Hc & Hk); [done|apply slice_chunks_not_nil|done..|].
  rewrite concat_slice_chunks in Hr. cbn [fst] in Hk.
  unfold net_recv. rewrite Hr. eexists. split; [reflexivity|].
  intros y. destruct (side_cases (other x) y) as [-> | ->].
  - split; [|by rewrite upd_eq]. unfold direction.
    rewrite other_other, !upd_eq, !upd_ne by (by destruct x). split; [done|]. split; [done|]. by exists a1.
  - rewrite other_other. destruct (Himp x) as [(Hready2 & Hidle2 & a2 & Hcom2) HF2].
    split; [|by rewrite upd_ne by (by destruct x)]. unfold direction.
    rewrite !upd_eq, !upd_ne by (by destruct x). split; [|split; [done|]].
    + destruct Hready2 as (? & ? & ?), Hk as [_ Hn]. split_and!; [done|by cbn; rewrite Hn|done].
    + exists a2. by eapply coming_keeps.
Qed.

(** C3: a session is a pair of message queues.  Take any interleaving of sends
    and receives by the two ends of a connection that the queues allow (no
    receive from an empty queue), with legal types and few enough packets
    for the cipher's nonces.  Running the code gives exactly the results of
    the queues, without error, and ends in a state that implements the
    queues' final contents. *)
Theorem session_refines_queues fuel acts n q rs q' k :
  implements fuel n q (λ x, cost x acts + k x) → Forall (action_fits fuel) acts →
  spec_run acts q = Some (rs, q') →
  ∃ n', net_run fuel acts n = (Ok rs, n') ∧ implements fuel n' q' k.
Proof.
  revert n q rs. induction acts as [|a acts IH]; intros n q rs Himp Hfit Hspec; cbn [spec_run] in Hspec.
  { simplify_eq. exists n. by split. }
  apply bind_Some in Hspec as ([r q1] & Hex & Hspec). apply bind_Some in Hspec as ([rs' q2] & Hrun & Heq).
  simplify_eq. inversion Hfit as [|? ? Hfa Hfit']; subst. cbn [net_run].
  assert (∃ n1, net_exec fuel a n = (Ok r, n1) ∧ implements fuel n1 q1 (λ x, cost x acts + k x))
    as (n1 & Hn1 & Himp1).
  { destruct a as [x ty p|x]; cbn [spec_exec net_exec cost] in *.
    - simplify_eq. destruct (send_implements fuel n q (λ y, cost y acts + k y) x ty p) as (n1 & Hs & Hi);
        [|done|rewrite Hs; eauto]. intros y. specialize (Himp y). cbn in Himp. by rewrite Nat.add_assoc.
    - destruct (q (other x)) as [|m ms] eqn:Hq; [done|]. simplify_eq.
      destruct (recv_implements fuel n q (λ y, cost y acts + k y) x m ms Himp Hq) as (n1 & Hs & Hi).
      rewrite Hs. eauto. }
  rewrite (Prelude.bind_ok _ _ _ _ _ Hn1). destruct (IH n1 q1 rs' Himp1 Hfit' Hrun) as (n' & Hn' & Hi').
  exists n'. split; [|done]. by rewrite (Prelude.bind_ok _ _ _ _ _ Hn').
Qed.

End Session.

(** ** A concrete session *)

Definition pipe_deliver (b : bytes) (r : Pipe) : Pipe :=
  {| pipe_data := pipe_data r ++ b; pipe_step := pipe_step r |}.

Definition demo_net : side → End Counter Pipe Sink := λ _,
  {| cipher := demo_tx.1; end_tx := demo_tx.2; end_rx := (demo_rx []).2 |}.

Lemma demo_net_implements k fuel :
  (∀ x, Z.of_nat (k x) < 2 ^ 64)%Z →
  implements ctr_paired ctr_left pipe_data (λ _, True) fuel demo_net (λ _, []) k.
Proof.
  intros Hk x. split; [|constructor]. split; [by apply demo_tx_ready|]. split; [done|].
  exists demo_tx.1, []. split_and!; [constructor|done|done].
Qed.

Lemma session_refines_queues_witness :
  ∃ n', net_run sink_data pipe_deliver 1
      [Send A 5 [1]; Send B 6 [2]; Recv A; Send A 7 []; Recv B; Recv B]%Z demo_net
    = (Ok [None; None; Some (6, [2]); None; Some (5, [1]); Some (7, [])]%Z, n').
Proof.
  set (acts := [Send A 5 [1]; Send B 6 [2]; Recv A; Send A 7 []; Recv B; Recv B]%Z).
  destruct (spec_run acts (λ _, [])) as [[rs q']|] eqn:Hspec; [|discriminate Hspec].
  assert (Hrs : rs = [None; None; Some (6, [2]); None; Some (5, [1]); Some (7, [])]%Z)
    by (injection Hspec; auto).
  destruct (session_refines_queues sink_data pipe_deliver ctr_paired ctr_left pipe_data (λ _, True)
    (λ _ _, eq_refl) 1 acts demo_net (λ _, []) rs q' (λ _, 0)) as (n' & Hn & _).
  - apply demo_net_implements. intros []; vm_compute; reflexivity.
  - repeat constructor; cbn [fst snd]; unfold TYPE_MASK; try lia; vm_compute; lia.
  - exact Hspec.
  - exists n'. rewrite <- Hrs. exact Hn.
Defined.
