(* ===== verification/Lib.v ===== *)
(** * The crate's entry points (src/lib.rs) and the whole stack

    [accept] and [connect] wrap the halves that the handshake returns into
    message halves.  The theorem of this file composes everything below:
    handshake, packets and messages. *)

From S2P Require Import Prelude PacketState Interfaces Doubles NodeId Noise Sign Auth Packets Handshake Messages.

Section EntryPoints.
Context {HS T S R W : Type} `{SnowHandshake HS T, AsyncRead S, AsyncWrite S, SplitStream S R W}.
Context {SK VK Sig : Type} `{Ed25519 SK VK Sig} {FB FP : Type} `{Yatlv FB FP}.

Definition accept (elapsed : Z) (stream : S) (local_private : TransportPrivateKey)
    (local_auth_header : SignedAuthHeader) (verification_key : SignatureVerificationKey)
    : outcome ConnectionError ((T * (MessageTx W * MessageRx R)) * AuthDetails) :=
  let? ((state, (tx, rx)), auth_details) :=
    Handshake.accept elapsed stream local_private local_auth_header verification_key in
  Ok ((state, (message_tx_new tx, message_rx_new rx)), auth_details).

Definition connect (elapsed : Z) (stream : S) (local_private : TransportPrivateKey)
    (local_auth_header : SignedAuthHeader) (verification_key : SignatureVerificationKey)
    : outcome ConnectionError ((T * (MessageTx W * MessageRx R)) * AuthDetails) :=
  let? ((state, (tx, rx)), auth_details) :=
    Handshake.connect elapsed stream local_private local_auth_header verification_key in
  Ok ((state, (message_tx_new tx, message_rx_new rx)), auth_details).

End EntryPoints.

Section Dialogue.
Context {HS T S R W : Type}
  `{SnowHandshake HS T, AsyncRead S, AsyncWrite S, SplitStream S R W, AsyncRead R, AsyncWrite W}.
Context `{TransportState T} (paired : T → T → Prop) (nonces_left : T → nat)
  `{!TransportLaws T paired nonces_left} (public_of : bytes → bytes)
  (xx : nat → bytes → bytes → HS → HS → Prop)
  `{!SnowHandshakeLaws HS T paired nonces_left public_of xx}.
Context (incoming : S → bytes) `{!ReaderLaws S incoming}.
Context (written : S → bytes) (healthy : S → Prop) `{!WriterLaws S written healthy}.
Context (r_incoming : R → bytes) `{!ReaderLaws R r_incoming}.
Context (w_written : W → bytes) (w_healthy : W → Prop) `{!WriterLaws W w_written w_healthy}.
Context `{!DuplexLaws S R W incoming written healthy r_incoming w_written w_healthy}.
Context {SK VK Sig : Type} `{Ed25519 SK VK Sig} {FB FP : Type} `{Yatlv FB FP}.
Context `{!Ed25519Laws SK VK Sig} (fields : FB → list (Z * bytes)) `{!YatlvLaws FB FP fields}.

(** Messages a receive loop of [fuel] iterations can take, few enough for one
    session's nonces. *)
Definition sendable (fuel : nat) (ms : list (Z * bytes)) : Prop :=
  Forall (λ m, type_ok m.1 ∧ packet_count m.2 ≤ fuel) ms ∧
  (Z.of_nat (sum_list_with (λ m, packet_count m.2) ms) < 2 ^ 64)%Z.

Lemma sendable_types fuel ms : sendable fuel ms → Forall (λ m, type_ok m.1) ms.
Proof. intros [Hf _]. eapply Forall_impl; [exact Hf|]. by intros ? [? _]. Qed.

(** A fresh session half sends any sendable list. *)
Lemma session_sends fuel ms (t : T) halves s out rest :
  session_start written r_incoming w_written w_healthy s out rest halves →
  Z.of_nat (nonces_left t) = (2 ^ 64 - 1)%Z → sendable fuel ms →
  ∃ s' o, send_all ms (t, message_tx_new halves.1) = (Ok tt, s') ∧
    sealed t (ms ≫= message_packets) o s'.1 ∧
    w_written (tx_write (tx_packets s'.2)) = (written s ++ out) ++ o.
Proof.
  intros (Hb & _ & Hw & Hh & _) Hn Hms.
  destruct (send_all_ok paired nonces_left w_written w_healthy ms 0 (t, message_tx_new halves.1))
    as (s' & Hs & (o & Hsl & Hwr & _) & _); [by eapply sendable_types| |].
  { split_and!; [done| |by cbn; rewrite Hb]. destruct Hms as [_ Hz]. cbn [fst]. lia. }
  exists s', o. split_and!; [done|done|]. cbn in Hwr. by rewrite Hwr, Hw.
Qed.

(** A fresh session half receives what its peer sealed. *)
Lemma session_receives fuel ms (t a a' : T) halves s out o rest :
  session_start written r_incoming w_written w_healthy s out (o ++ rest) halves →
  paired a t → sealed a (ms ≫= message_packets) o a' → sendable fuel ms →
  ∃ r', recv_all fuel (length ms) (t, message_rx_new halves.2) = (Ok ms, r') ∧
    keeps_tx paired nonces_left t r'.1.
Proof.
  intros (_ & Hrd & _ & _ & Hi) Hp Hsl [Hms _].
  destruct (recv_all_ok paired nonces_left r_incoming ms fuel a a' rest (t, message_rx_new halves.2))
    as (a1 & r' & Hr & _ & _ & Hk); [done|by unfold rx_reader; cbn; rewrite Hrd| |].
  { exists o. split_and!; [by apply sealed_flight|done|done]. }
  by exists r'.
Qed.

(** C1: a whole session works end to end, in both directions.  Two honest nodes
    of a cluster connect; the initiator sends any list of messages, the
    responder receives exactly that list and answers with any other list,
    which the initiator receives exactly.  Each side is told the other's
    node id and role.  Both handshakes finish within the handshake timeout;
    the streams are arbitrary: all that is used of them
    is that each delivers what the other side wrote. *)
Theorem session_end_to_end ck ki kr ahi ahr hi hr msi msr fuel elapsed_i elapsed_r :
  (elapsed_i < HANDSHAKE_TIMEOUT)%Z → (elapsed_r < HANDSHAKE_TIMEOUT)%Z →
  honest public_of ck ki ahi → honest public_of ck kr ahr →
  build_initiator (tsk_expose ki) = Ok hi → build_responder (tsk_expose kr) = Ok hr →
  sendable fuel msi → sendable fuel msr →
  ∃ m1 m2 m3, ∀ si x, healthy si → incoming si = m2 ++ x →
    ∃ ti txi rxi ti' txi' oi,
      connect elapsed_i si ki (auth_header_sign ahi ck) (svk_of ck)
        = Ok ((ti, (txi, rxi)), details_from ahr) ∧
      send_all msi (ti, txi) = (Ok tt, (ti', txi')) ∧
      w_written (tx_write (tx_packets txi')) = (written si ++ m1 ++ m3) ++ oi ∧
      ∀ sr y, healthy sr → incoming sr = m1 ++ m3 ++ oi ++ y →
        ∃ tr txr rxr tr' rxr' s'' o_r,
          accept elapsed_r sr kr (auth_header_sign ahr ck) (svk_of ck)
            = Ok ((tr, (txr, rxr)), details_from ahi) ∧
          recv_all fuel (length msi) (tr, rxr) = (Ok msi, (tr', rxr')) ∧
          send_all msr (tr', txr) = (Ok tt, s'') ∧
          w_written (tx_write (tx_packets s''.2)) = (written sr ++ m2) ++ o_r ∧
          ∀ z, x = o_r ++ z →
            ∃ r', recv_all fuel (length msr) (ti', rxi) = (Ok msr, r').
Proof.
  intros Hei Her Hhi Hhr Hbi Hbr Hmi Hmr.
  destruct (honest_run paired nonces_left public_of xx incoming written healthy r_incoming w_written
    w_healthy fields ck ki kr ahi ahr hi hr Hhi Hhr Hbi Hbr)
    as (m1 & m2 & m3 & ti & tr & (Hp1 & Hp2 & Hn1 & Hn2) & Hc & Ha).
  exists m1, m2, m3. intros si x Hsi Hix. destruct (Hc elapsed_i si x Hei Hsi Hix) as (hvi & Hci & Hsti).
  destruct (session_sends fuel msi ti hvi si _ _ Hsti Hn1 Hmi) as ([ti' txi'] & oi & Hs1 & Hsl1 & Hw1).
  exists ti, (message_tx_new hvi.1), (message_rx_new hvi.2), ti', txi', oi.
  split; [unfold connect; rewrite Hci; by destruct hvi|]. split; [done|]. split; [done|].
  intros sr y Hsr Hiy. destruct (Ha elapsed_r sr (oi ++ y) Her Hsr Hiy) as (hvr & Har & Hstr).
  destruct (session_receives fuel msi tr ti ti' hvr sr _ oi y Hstr Hp1 Hsl1 Hmi)
    as ([tr' rxr'] & Hr1 & [Hk1 Hk2]). cbn [fst] in Hk1, Hk2.
  destruct (session_sends fuel msr tr' hvr sr _ _ Hstr) as (s'' & o_r & Hs2 & Hsl2 & Hw2);
    [by rewrite Hk2|done|].
  exists tr, (message_tx_new hvr.1), (message_rx_new hvr.2), tr', rxr', s'', o_r.
  split; [unfold accept; rewrite Har; by destruct hvr|]. do 3 (split; [done|]).
  intros z ->. destruct (session_receives fuel msr ti' tr' s''.1 hvi si _ o_r z Hsti)
    as (r' & Hr2 & _); [|done|done|by exists r'].
  apply Hk1. by eapply sealed_other_direction.
Qed.

End Dialogue.

(** ** A concrete session *)

Lemma session_end_to_end_witness :
  ∃ m1 m2 m3 oi, is_ok (connect (W := Sink) (R := Pipe) 0 (demo_stream (m2 ++ []))
      (demo_key 1) (demo_signed 1) (svk_of demo_cluster)) = true ∧
    ∃ tr txr rxr st,
      accept 0 (demo_stream (m1 ++ m3 ++ oi ++ [])) (demo_key 2) (demo_signed 2)
        (svk_of demo_cluster) = Ok ((tr, (txr, rxr)), details_from (demo_header 1)) ∧
      recv_all 1 2 (tr, rxr) = (Ok [(5, [1; 2]); (6, [])]%Z, st).
Proof.
  destruct (session_end_to_end ctr_paired ctr_left id xx_rel dx_incoming dx_written (λ _, True)
    pipe_data sink_data (λ _, True) id demo_cluster (demo_key 1) (demo_key 2)
    (demo_header 1) (demo_header 2)
    {| xx_initiator := true; xx_key := replicate 32 1%Z; xx_phase := 0; xx_remote := None |}
    {| xx_initiator := false; xx_key := replicate 32 2%Z; xx_phase := 0; xx_remote := None |}
    [(5, [1; 2]); (6, [])]%Z [(7, [3])]%Z 1 0 0) as (m1 & m2 & m3 & Hs).
  { reflexivity. }
  { reflexivity. }
  { apply demo_honest. unfold byte_ok. lia. }
  { apply demo_honest. unfold byte_ok. lia. }
  { vm_compute. reflexivity. }
  { vm_compute. reflexivity. }
  { split; [|vm_compute; reflexivity].
    repeat constructor; cbn [fst snd]; unfold TYPE_MASK; try lia; vm_compute; lia. }
  { split; [|vm_compute; reflexivity].
    repeat constructor; cbn [fst snd]; unfold TYPE_MASK; try lia; vm_compute; lia. }
  destruct (Hs (demo_stream (m2 ++ [])) [] I eq_refl)
    as (ti & txi & rxi & ti' & txi' & oi & Hc & _ & _ & Ha).
  destruct (Ha (demo_stream (m1 ++ m3 ++ oi ++ [])) [] I eq_refl)
    as (tr & txr & rxr & tr' & rxr' & s'' & o_r & Hacc & Hr & _).
  exists m1, m2, m3, oi. split; [exact (f_equal is_ok Hc)|]. exists tr, txr, rxr, (tr', rxr'). auto.
Defined.
