(* ===== verification/Buffers.v ===== *)
(** * Memory bounds of a connection (src/packets.rs)

    The halves of a connection reuse their buffers.  Whatever the callers
    ask for and whatever the peer sends, no buffer of the packet layer grows
    past the size of one frame. *)

From S2P Require Import Prelude PacketState Interfaces Doubles NodeId Noise Sign Auth Packets Handshake Messages Lib.

(** A length prefix and a maximal ciphertext. *)
Definition MAX_FRAME_SIZE : nat := FRAME_HEADER_SIZE + MAX_CIPHERTEXT_SIZE.

(** ** The sending half *)

Section Sender.
Context {T W : Type} `{TransportState T, AsyncWrite W}.
Context (paired : T → T → Prop) (nonces_left : T → nat) `{!TransportLaws T paired nonces_left}.

Definition builder_small (b : PacketBuilder.t) : Prop :=
  length (PacketBuilder.buf b) ≤ MAX_RAW_PACKET_SIZE.

Definition tx_small (s : T * PacketTx W) : Prop :=
  length (write_buf s.2) ≤ MAX_FRAME_SIZE ∧ builder_small (packet_builder s.2).

Lemma keeps_on_builder {A} (m : M PacketBuilder.t PacketBuildError A) (Q : A → Prop) :
  keeps builder_small m Q → keeps tx_small (on_builder (T := T) (W := W) m) Q.
Proof.
  intros Hm. eapply keeps_zoom; [exact Hm|by intros s [_ ?]|]. intros s b [? _] ?. by split.
Qed.

Lemma keeps_on_write {A} (m : M W IoError A) :
  keeps tx_small (on_write (T := T) m) (λ _, True).
Proof. eapply (keeps_zoom _ _ _ _ _ (λ _, True)); [done|done|]. by intros s w [? ?] _. Qed.

Lemma prepare_small ty : keeps builder_small (PacketBuilder.prepare ty) (λ _, True).
Proof.
  intros b Hb. split; [|done]. unfold PacketBuilder.prepare.
  destruct (TYPE_MASK <? ty)%Z; [done|]. by destruct (PacketBuilder.in_progress b).
Qed.

Lemma pack_small p last :
  length p ≤ MAX_PACKET_SIZE →
  keeps builder_small (PacketBuilder.pack p last) (λ raw, length raw ≤ MAX_RAW_PACKET_SIZE).
Proof.
  intros Hp b Hb. destruct (PacketBuilder.in_progress b) eqn:Hi.
  - rewrite pack_open by done. cbv zeta. unfold builder_small. cbn [fst snd PacketBuilder.buf].
    set (raw := encode_packet _ p). assert (length raw ≤ MAX_RAW_PACKET_SIZE)
      by (unfold raw; rewrite length_encode_packet; size_lia).
    split; [done|]. by intros ? [= <-].
  - rewrite pack_idle by done. by split.
Qed.

Lemma write_frame_small p :
  length p ≤ MAX_RAW_PACKET_SIZE → keeps tx_small (write_frame (T := T) (W := W) p) (λ _, True).
Proof.
  intros Hp. unfold write_frame.
  eapply keeps_bind; [apply keeps_modify|intros _ _].
  { intros s [Hb ?]. destruct (decide _); [|done]. split; [|done]. half_cbn. rewrite length_resize.
    unfold MAX_FRAME_SIZE, FRAME_HEADER_SIZE, CIPHER_OVERHEAD_SIZE. size_lia. }
  eapply (keeps_bind _ _ _ (λ _, True)); [|intros n _].
  { unfold tx_encrypt. intros s Hs. split; [|done]. unfold bind, get. cbn [fst snd].
    destruct (slice_from _ _) as [tail|] eqn:Ht; [|done]. cbn [or_panic]. unfold ret.
    destruct s as [t tx]. cbn [fst snd] in *.
    destruct (write_message p tail t) as [[r tail'] t'] eqn:Hw.
    pose proof (proj1 (write_message_buf _ _ _ _ _ _ Hw)) as Hl.
    unfold slice_from in Ht. destruct (decide _) as [Hle|]; [|done]. injection Ht as <-.
    destruct Hs as [Hs Hb]. cbn [fst snd] in *. split; [|done]. half_cbn.
    rewrite length_drop in Hl. by rewrite length_write_tail. }
  eapply keeps_bind; [apply keeps_modify|intros _ _].
  { intros s [Hs Hb]. split; [|done]. half_cbn. unfold write_front. rewrite length_app, length_drop.
    change (length (u16_to_be_bytes _)) with 2. unfold MAX_FRAME_SIZE, FRAME_HEADER_SIZE in *. size_lia. }
  eapply keeps_bind; [apply keeps_get|intros s _].
  eapply (keeps_bind _ _ _ (λ _, True)); [by apply keeps_or_panic|intros frame _].
  eapply keeps_bind; [apply keeps_on_write|intros _ _]. apply keeps_on_write.
Qed.

Lemma send_packet_small p last :
  length p ≤ MAX_PACKET_SIZE → keeps tx_small (send_packet (T := T) (W := W) p last) (λ _, True).
Proof.
  intros Hp. unfold send_packet.
  eapply keeps_bind; [by apply keeps_on_builder, pack_small|]. intros raw. apply write_frame_small.
Qed.

Lemma send_slice_small data last : keeps tx_small (send_slice (T := T) (W := W) data last) (λ _, True).
Proof.
  pose proof (chunks_bound MAX_PACKET_SIZE data MAX_PACKET_SIZE_pos) as Hc. unfold send_slice.
  destruct (chunks MAX_PACKET_SIZE data) as [|c cs]; [apply send_packet_small; cbn; lia|].
  generalize dependent (c :: cs). intros l Hl.
  induction Hl as [|c' l [_ Hc'] Hl IH]; cbn [send_chunks]; [by apply keeps_ret|].
  eapply keeps_bind; [by apply send_packet_small|done].
Qed.

(** The source of [send_reader] is arbitrary: it may even claim to have read
    more than it was given room for, which ends in a panic. *)
Lemma send_reader_loop_small `{AsyncRead Rd} fuel (rd : Rd) buf filled sent :
  keeps tx_small (send_reader_loop (T := T) (W := W) fuel rd buf filled sent)
        (λ res, res.1.2 ≤ MAX_PACKET_SIZE).
Proof.
  revert rd buf filled sent. induction fuel as [|fuel IH]; intros rd buf filled sent;
    cbn [send_reader_loop]; [apply keeps_pending|].
  destruct (decide (MAX_PACKET_SIZE < filled)) as [Hgt|Hle].
  { eapply (keeps_bind _ _ _ (λ _, False)); [apply keeps_panic|done]. }
  eapply (keeps_bind _ _ _ (λ _, True)); [by apply keeps_ret|intros _ _].
  eapply (keeps_bind _ _ _ (λ f, f ≤ MAX_PACKET_SIZE)).
  { destruct (decide (MAX_PACKET_SIZE - filled = 0)); [|apply keeps_ret; lia].
    eapply (keeps_bind _ _ _ (λ c, length c ≤ MAX_PACKET_SIZE)).
    - apply keeps_or_panic. intros c. unfold slice_to. destruct (decide _); [|done].
      intros [= <-]. rewrite length_take. lia.
    - intros c Hc. eapply keeps_bind; [by apply send_packet_small|]. intros _ _. apply keeps_ret. lia. }
  intros f Hf. eapply (keeps_bind _ _ _ (λ _, True)); [by apply keeps_or_panic|intros tail _].
  destruct (read tail rd) as [[r tail'] rd'].
  eapply (keeps_bind _ _ _ (λ _, True)); [by apply keeps_pure|intros n _].
  destruct (decide (n = 0)); [by apply keeps_ret|apply IH].
Qed.

Lemma send_reader_small `{AsyncRead Rd} fuel (rd : Rd) :
  keeps tx_small (send_reader (T := T) (W := W) fuel rd) (λ _, True).
Proof.
  unfold send_reader. eapply keeps_bind; [apply send_reader_loop_small|].
  intros [[buf filled] sent] Hf. cbn [fst snd send_reader_finish] in *.
  destruct (decide (0 < filled)).
  - eapply (keeps_bind _ _ _ (λ c, length c ≤ MAX_PACKET_SIZE)); [|intros; by apply send_packet_small].
    apply keeps_or_panic. intros c. unfold slice_to. destruct (decide _); [|done].
    intros [= <-]. rewrite length_take. lia.
  - destruct sent; [by apply keeps_ret|]. apply send_packet_small. cbn. lia.
Qed.

Lemma abort_message_small : keeps tx_small (abort_message (T := T) (W := W)) (λ _, True).
Proof.
  intros s [Hs Hb]. unfold abort_message, PacketBuilder.abort.
  destruct (PacketBuilder.in_progress (packet_builder s.2)); cbn [fst snd].
  - apply write_frame_small; [cbn; size_lia|]. split; [done|]. unfold builder_small. cbn. size_lia.
  - by destruct s as [t []].
Qed.

End Sender.

(** ** The receiving half *)

Section Receiver.
Context {T R : Type} `{TransportState T, AsyncRead R}.
Context (paired : T → T → Prop) (nonces_left : T → nat) `{!TransportLaws T paired nonces_left}.
Context (incoming : R → bytes) `{!FaultyReaderLaws R incoming}.

Definition frame_small (f : R * bytes) : Prop :=
  length f.2 ≤ MAX_CIPHERTEXT_SIZE ∧ bytes_ok (incoming f.1).

Definition rx_small (s : T * PacketRx R) : Prop :=
  length (ciphertext_buf s.2) ≤ MAX_CIPHERTEXT_SIZE ∧
  length (plaintext_buf s.2) ≤ MAX_FRAME_SIZE ∧ bytes_ok (incoming (rx_read s.2)).

Lemma u16_from_bytes_bound b0 b1 :
  byte_ok b0 → byte_ok b1 → (0 ≤ u16_from_be_bytes b0 b1 ≤ 65535)%Z.
Proof.
  unfold byte_ok, u16_from_be_bytes. intros. rewrite lor_shiftl_add by lia. lia.
Qed.

(** The length prefix is 16 bits wide, so a frame fits in 65535 bytes. *)
Lemma read_frame_small : keeps frame_small (read_frame (R := R)) (λ _, True).
Proof.
  intros [rd frame] [Hf Hb]. cbn [fst snd] in *. split; [|done]. unfold read_frame.
  pose proof (read_u16_any rd) as Hu. destruct (read_u16 rd) as [[len|e| |] rd1]; [| |done..].
  2: { destruct Hu as [k Hk]. split; [done|]. cbn [fst snd]. rewrite Hk. by apply Forall_drop. }
  destruct Hu as (b0 & b1 & Hin & ->). rewrite Hin in Hb.
  inversion Hb as [|? ? Hb0 Hb']; subst. inversion Hb' as [|? ? Hb1 Hb2]; subst.
  pose proof (u16_from_bytes_bound _ _ Hb0 Hb1) as Hlen.
  pose proof (read_exact_any rd1 (resize (Z.to_nat (u16_from_be_bytes b0 b1)) 0%Z frame)) as He.
  destruct (read_exact _ rd1) as [[y buf] rd2]. rewrite length_resize in He. destruct He as [Hl He].
  split; cbn [fst snd]; [rewrite Hl; size_lia|].
  destruct y as [[]|e| |]; [|destruct He as [k ->]; by apply Forall_drop|done..].
  rewrite He in Hb2. by apply Forall_app in Hb2 as [_ Hb2].
Qed.

Lemma read_packet_small : keeps rx_small (read_packet (T := T) (R := R)) (λ _, True).
Proof.
  unfold read_packet. eapply keeps_bind; [|intros _ _].
  { eapply keeps_zoom; [apply read_frame_small|by intros s (? & ? & ?)|].
    intros s [rd f] (_ & ? & _) [? ?]. by split_and!. }
  eapply keeps_bind; [apply keeps_modify|intros _ _].
  { intros s (Hc & _ & Hb). split_and!; [done| |done]. half_cbn. rewrite length_resize.
    unfold MAX_FRAME_SIZE. lia. }
  eapply (keeps_bind _ _ _ (λ _, True)); [|intros n _].
  { intros [t rx] (Hc & Hp & Hb). cbn [fst snd] in *. split; [|done]. unfold rx_decrypt.
    destruct (read_message _ _ t) as [[r pb] t'] eqn:Hr.
    pose proof (proj1 (read_message_buf _ _ _ _ _ _ Hr)) as Hl.
    split_and!; [done| |done]. half_cbn. by rewrite Hl. }
  eapply keeps_bind; [by apply keeps_modify|intros _ _].
  eapply keeps_bind; [apply keeps_get|intros s _].
  eapply (keeps_bind _ _ _ (λ _, True)); [by apply keeps_or_panic|intros raw _].
  by eapply (keeps_zoom _ _ _ _ _ (λ _, True)).
Qed.

End Receiver.

(** ** A whole connection *)

Section Connection.
Context {HS T S R W : Type}
  `{SnowHandshake HS T, AsyncRead S, AsyncWrite S, SplitStream S R W, AsyncRead R, AsyncWrite W}.
Context `{TransportState T} (paired : T → T → Prop) (nonces_left : T → nat)
  `{!TransportLaws T paired nonces_left} (public_of : bytes → bytes)
  (xx : nat → bytes → bytes → HS → HS → Prop)
  `{!SnowHandshakeLaws HS T paired nonces_left public_of xx}.
Context (incoming : S → bytes) `{!FaultyReaderLaws S incoming}.
Context (written : S → bytes) (healthy : S → Prop).
Context (r_incoming : R → bytes) `{!FaultyReaderLaws R r_incoming}.
Context (w_written : W → bytes) (w_healthy : W → Prop).
Context `{!DuplexLaws S R W incoming written healthy r_incoming w_written w_healthy}.
Context {SK VK Sig : Type} `{Ed25519 SK VK Sig} {FB FP : Type} `{Yatlv FB FP}.
Context {Rd : Type} `{AsyncRead Rd}.

(** The calls on the public handles of a connection, in any order. *)
Inductive call : Type :=
| SendMessage (ty : Z) (p : bytes)
| SendReader (fuel : nat) (ty : Z) (rd : Rd)
| AbortMessage
| ReadMessage
| ReadBytes (fuel : nat) (m : Message)
| NextPacket (h : MessagePackets).

(** A connection's cipher and halves. *)
Abbreviation Conn := (T * (MessageTx W * MessageRx R))%type.

Definition on_tx {A} (m : M (T * MessageTx W) ConnectionError A) (c : Conn) : Conn :=
  let '(t, tx) := (m (c.1, c.2.1)).2 in (t, (tx, c.2.2)).
Definition on_rx {A} (m : M (T * MessageRx R) ConnectionError A) (c : Conn) : Conn :=
  let '(t, rx) := (m (c.1, c.2.2)).2 in (t, (c.2.1, rx)).

(** The connection after a call, whatever the call returned. *)
Definition exec_call (x : call) (c : Conn) : Conn :=
  match x with
  | SendMessage ty p => on_tx (send_message ty p) c
  | SendReader fuel ty rd => on_tx (message_send_reader fuel ty rd) c
  | AbortMessage => on_tx message_abort c
  | ReadMessage => on_rx read_message_handle c
  | ReadBytes fuel m => on_rx (read_bytes fuel m) c
  | NextPacket h => on_rx (λ s, let '(r, (_, s')) := next (h, s) in (r, s')) c
  end.

(** Every buffer of the packet layer fits one frame. *)
Definition conn_small (c : Conn) : Prop :=
  tx_small (c.1, tx_packets c.2.1) ∧ rx_small r_incoming (c.1, rx_packets c.2.2).

Lemma on_tx_small {A} (m : M (T * PacketTx W) ConnectionError A) (Q : A → Prop) :
  keeps tx_small m Q → keeps (λ s, tx_small (s.1, tx_packets s.2)) (on_tx_packets m) Q.
Proof. intros Hm. eapply keeps_zoom; [exact Hm|done|]. by intros s [t p] _ ?. Qed.

Abbreviation msg_small := (λ s : T * MessageRx R, rx_small r_incoming (s.1, rx_packets s.2)).

Lemma on_rx_small : keeps msg_small (on_rx_packets read_packet) (λ _, True).
Proof.
  eapply keeps_zoom; [by eapply read_packet_small|done|]. by intros s [t p] _ ?.
Qed.

Lemma read_message_small : keeps msg_small read_message_handle (λ _, True).
Proof. eapply keeps_bind; [apply on_rx_small|]. intros h _. by apply keeps_ret. Qed.

Lemma current_payload_small : keeps msg_small current_payload (λ _, True).
Proof.
  eapply keeps_bind; [apply keeps_get|]. intros s _. by apply keeps_or_panic.
Qed.

Lemma extend_small : keeps msg_small extend_read_buf (λ _, True).
Proof.
  eapply keeps_bind; [apply current_payload_small|]. intros p _. by apply keeps_modify.
Qed.

Lemma read_bytes_loop_small fuel : keeps msg_small (read_bytes_loop fuel) (λ _, True).
Proof.
  induction fuel as [|fuel IH]; cbn [read_bytes_loop]; [apply keeps_pending|].
  eapply keeps_bind; [apply on_rx_small|]. intros h _.
  destruct (kind h); try apply keeps_panic; try apply keeps_throw;
    (eapply keeps_bind; [apply extend_small|]); intros _ _; [done|].
  eapply keeps_bind; [apply keeps_get|]. intros s _. by apply keeps_ret.
Qed.

Lemma read_bytes_small fuel m : keeps msg_small (read_bytes fuel m) (λ _, True).
Proof.
  eapply keeps_bind; [by apply keeps_modify|]. intros _ _.
  eapply keeps_bind; [apply extend_small|]. intros _ _. destruct (decide _).
  - eapply keeps_bind; [apply keeps_get|]. intros s _. by apply keeps_ret.
  - apply read_bytes_loop_small.
Qed.

Lemma next_small h s : msg_small s → msg_small (next (h, s)).2.2.
Proof.
  intros Hs. unfold next. destruct (done h); [done|]. destruct (first_kind h).
  - destruct (current_payload_small s Hs) as [Hp _]. by destruct (current_payload s).
  - destruct (on_rx_small s Hs) as [Hp _].
    destruct (on_rx_packets read_packet s) as [[hd|e| |] s']; cbn [fst snd] in *; try done.
    destruct (current_payload_small s' Hp) as [Hp' _].
    destruct (kind hd); try done; by destruct (current_payload s').
Qed.

Lemma exec_call_small x c : conn_small c → conn_small (exec_call x c).
Proof.
  intros [Htx Hrx].
  assert (Hon_tx : ∀ A (m : M (T * MessageTx W) ConnectionError A) Q,
    keeps (λ s, tx_small (s.1, tx_packets s.2)) m Q → conn_small (on_tx m c)).
  { intros A m Q Hm. unfold on_tx. destruct (Hm (c.1, c.2.1) Htx) as [Hs _].
    destruct (m (c.1, c.2.1)) as [r [t tx]]. split; [exact Hs|exact Hrx]. }
  assert (Hon_rx : ∀ A (m : M (T * MessageRx R) ConnectionError A),
    msg_small (m (c.1, c.2.2)).2 → conn_small (on_rx m c)).
  { intros A m Hm. unfold on_rx. destruct (m (c.1, c.2.2)) as [r [t rx]].
    split; [exact Htx|exact Hm]. }
  assert (Hprep : ∀ ty, keeps (λ s : T * MessageTx W, tx_small (s.1, tx_packets s.2))
    (on_tx_packets (prepare_message ty)) (λ _, True))
    by (intros ty; by eapply on_tx_small, keeps_on_builder, prepare_small).
  destruct x as [ty p|fuel ty rd| | |fuel m|h]; cbn [exec_call].
  - eapply Hon_tx, keeps_bind; [apply Hprep|]. intros _ _. by eapply on_tx_small, send_slice_small.
  - eapply Hon_tx, keeps_bind; [apply Hprep|]. intros _ _. by eapply on_tx_small, send_reader_small.
  - by eapply Hon_tx, on_tx_small, abort_message_small.
  - apply Hon_rx. by eapply read_message_small.
  - apply Hon_rx. by eapply read_bytes_small.
  - apply Hon_rx. pose proof (next_small h (c.1, c.2.2) Hrx) as Hn.
    by destruct (next (h, (c.1, c.2.2))) as [r [h' s']].
Qed.

(** ** From the handshake on *)

Abbreviation ctx := (HandshakeContext.t HS S).

Definition ctx_small (c : ctx) : Prop :=
  length (HandshakeContext.noise_buf c) = MAX_FRAME_SIZE ∧
  frame_small incoming (HandshakeContext.stream c, HandshakeContext.frame c).

Lemma recv_small : keeps ctx_small HandshakeContext.recv (λ _, True).
Proof.
  unfold HandshakeContext.recv. eapply keeps_bind; [|intros _ _].
  { eapply keeps_zoom; [by apply read_frame_small|by intros c [_ ?]|]. intros c [s f] [? _] ?. by split. }
  eapply (keeps_bind _ _ _ (λ _, True)); [|intros n _].
  { intros c [Hn Hf]. split; [|done].
    destruct (hs_read_message _ _ _) as [[r buf] h] eqn:Hr.
    pose proof (proj1 (hs_read_len _ _ _ _ _ _ Hr)) as Hl. split; [|done]. ctx_cbn. by rewrite Hl. }
  eapply keeps_bind; [apply keeps_get|]. intros c _. by apply keeps_or_panic.
Qed.

Lemma on_stream_small {A} (m : M S IoError A) :
  (∀ s r s', m s = (r, s') → incoming s' = incoming s) →
  keeps ctx_small (zoom HandshakeContext.stream HandshakeContext.set_stream Io m) (λ _, True).
Proof.
  intros Hm c [Hn [Hf Hb]]. unfold zoom. destruct (m _) as [r s'] eqn:Hms. split; [|done].
  split; [done|]. split; [done|]. cbn [fst snd] in *. ctx_cbn. by rewrite (Hm _ _ _ Hms).
Qed.

Lemma send_small p : keeps ctx_small (HandshakeContext.send p) (λ _, True).
Proof.
  unfold HandshakeContext.send. eapply keeps_bind; [apply keeps_get|]. intros c0 [Hn0 _].
  eapply (keeps_bind _ _ _ (λ tail, length tail = MAX_CIPHERTEXT_SIZE)); [|intros tail Ht].
  { apply keeps_or_panic. intros tail. unfold slice_from. destruct (decide _); [|done].
    intros [= <-]. rewrite length_drop, Hn0. unfold MAX_FRAME_SIZE, FRAME_HEADER_SIZE. lia. }
  eapply (keeps_bind _ _ _ (λ _, True)); [|intros n _].
  { intros c [Hn Hf]. split; [|done].
    destruct (hs_write_message _ _ _) as [[r tail'] h] eqn:Hw.
    pose proof (proj1 (hs_write_buf _ _ _ _ _ _ Hw)) as Hl. split; [|done]. ctx_cbn.
    unfold MAX_FRAME_SIZE, FRAME_HEADER_SIZE in *. rewrite length_write_tail; lia. }
  eapply keeps_bind; [apply keeps_modify|intros _ _].
  { intros c [Hn Hf]. split; [|done]. ctx_cbn. rewrite length_write_front; [done|].
    rewrite Hn. cbn [u16_to_be_bytes length]. unfold MAX_FRAME_SIZE, FRAME_HEADER_SIZE. lia. }
  eapply keeps_bind; [apply keeps_get|]. intros c _.
  eapply (keeps_bind _ _ _ (λ _, True)); [by apply keeps_or_panic|intros out _].
  eapply keeps_bind; [apply on_stream_small|intros _ _].
  - intros s r s'. apply write_keeps_incoming.
  - apply on_stream_small. intros s r s'. apply flush_keeps_incoming.
Qed.

Lemma check_peer_small vk payload : keeps ctx_small (check_peer vk payload) (λ _, True).
Proof.
  apply keeps_pure. intros c. split; [apply check_peer_state|done].
Qed.

Lemma connect_body_small hdr vk : keeps ctx_small (connect_body hdr vk) (λ _, True).
Proof.
  eapply keeps_bind; [apply send_small|]. intros _ _.
  eapply keeps_bind; [apply recv_small|]. intros payload _.
  eapply keeps_bind; [apply check_peer_small|]. intros h _.
  eapply keeps_bind; [apply send_small|]. intros _ _. by apply keeps_ret.
Qed.

Lemma accept_body_small hdr vk : keeps ctx_small (accept_body hdr vk) (λ _, True).
Proof.
  eapply keeps_bind; [apply recv_small|]. intros _ _.
  eapply keeps_bind; [apply send_small|]. intros _ _.
  eapply keeps_bind; [apply recv_small|]. intros payload _.
  eapply keeps_bind; [apply check_peer_small|]. intros h _. by apply keeps_ret.
Qed.

Lemma into_split_small (c : ctx) (halves : T * (PacketTx W * PacketRx R)) :
  ctx_small c → HandshakeContext.into_split c = Ok halves →
  conn_small (halves.1, (message_tx_new halves.2.1, message_rx_new halves.2.2)).
Proof.
  intros [Hn [Hf Hb]]. unfold HandshakeContext.into_split.
  destruct (into_transport_mode _) as [t| | |]; [|done..]. cbn [map_err obind].
  destruct (split (HandshakeContext.stream c)) as [rd wr] eqn:Hs. intros [= <-].
  destruct (split_keeps _ _ _ Hs) as (Hi & _). cbn [fst snd] in Hf, Hb.
  split; [split; cbn; unfold builder_small; cbn; lia|]. unfold rx_small. cbn. rewrite Hi, Hn.
  split_and!; [done|by unfold MAX_FRAME_SIZE, FRAME_HEADER_SIZE; lia|done].
Qed.

(** A new context is small whatever handshake state it is given. *)
Lemma new_context_small (s : S) (h : HS) :
  bytes_ok (incoming s) → ctx_small (HandshakeContext.new_context s h).
Proof.
  intros Hb. split; [by ctx_cbn; rewrite length_replicate|]. split; [cbn; lia|done].
Qed.

Lemma entry_small elapsed (body : M ctx ConnectionError AuthDetails) (mk : outcome ConnectionError ctx)
    (out : outcome ConnectionError ((T * (PacketTx W * PacketRx R)) * AuthDetails)) t tx rx d :
  out = or_handshake_timeout (timeout HANDSHAKE_TIMEOUT elapsed (let? hs := mk in finish (body hs))) →
  keeps ctx_small body (λ _, True) → (∀ c, mk = Ok c → ctx_small c) →
  (let? ((state, (tx, rx)), auth_details) := out in
   Ok ((state, (message_tx_new tx, message_rx_new rx)), auth_details)) = Ok ((t, (tx, rx)), d) →
  conn_small (t, (tx, rx)).
Proof.
  intros Hout Hbody Hmk Hok. destruct out as [[[t0 [tx0 rx0]] d0]| | |] eqn:Ho; [|done..].
  cbn [obind] in Hok. simplify_eq.
  destruct (entry_inv elapsed body mk _ _ _ Hout eq_refl) as (_ & c & c' & Hc & Hb & Hs).
  destruct (Hbody c (Hmk c Hc)) as [Hc' _]. rewrite Hb in Hc'.
  exact (into_split_small c' _ Hc' Hs).
Qed.

(** C16: memory use per connection is bounded.  Take a connection that came
    out of [connect] or [accept] on a stream of bytes, and any sequence of
    calls on its handles, with any payloads and readers, whatever each call
    returned, whatever the peer sent and however the stream failed.  Then every buffer of the packet
    layer fits one frame: 65537 bytes for the write and plaintext buffers,
    65535 for the ciphertext buffer and 65519 for the packet builder's. *)
Theorem connection_memory_bounded elapsed s priv hdr vk (c : Conn) d calls :
  bytes_ok (incoming s) →
  Lib.connect elapsed s priv hdr vk = Ok (c, d) ∨ Lib.accept elapsed s priv hdr vk = Ok (c, d) →
  conn_small (foldl (λ c x, exec_call x c) c calls).
Proof.
  intros Hb Hopen. assert (Hc : conn_small c).
  { destruct c as [t [tx rx]]. destruct Hopen as [Hopen|Hopen].
    - eapply (entry_small elapsed _ _ _ _ _ _ _ eq_refl (connect_body_small hdr vk)); [|exact Hopen].
      unfold HandshakeContext.new_initiator. destruct (build_initiator _); [|done..].
      intros ? [= <-]. by apply new_context_small.
    - eapply (entry_small elapsed _ _ _ _ _ _ _ eq_refl (accept_body_small hdr vk)); [|exact Hopen].
      unfold HandshakeContext.new_responder. destruct (build_responder _); [|done..].
      intros ? [= <-]. by apply new_context_small. }
  clear Hopen. revert c Hc. induction calls as [|x calls IH]; intros c Hc; [done|].
  cbn [foldl]. apply IH. by apply exec_call_small.
Qed.

End Connection.

(** ** A concrete connection *)

Lemma connection_memory_bounded_witness :
  ∃ c d, Lib.connect (W := Sink) (R := Pipe) 0 (demo_stream demo_msg2) (demo_key 1) (demo_signed 1)
      (svk_of demo_cluster) = Ok (c, d) ∧
    conn_small pipe_data (foldl (λ c x, exec_call (Rd := Pipe) x c) c
      [SendMessage 5 [1; 2]%Z; ReadMessage; AbortMessage]).
Proof.
  assert (Hok : is_ok (Lib.connect (W := Sink) (R := Pipe) 0 (demo_stream demo_msg2) (demo_key 1)
    (demo_signed 1) (svk_of demo_cluster)) = true) by (vm_compute; reflexivity).
  destruct (Lib.connect _ _ _ _ _) as [[c d]| | |] eqn:Hc; [|discriminate Hok..].
  exists c, d. split; [reflexivity|].
  refine (connection_memory_bounded ctr_paired ctr_left id xx_rel dx_incoming dx_written (λ _, True)
    pipe_data sink_data (λ _, True) 0 (demo_stream demo_msg2) (demo_key 1) (demo_signed 1)
    (svk_of demo_cluster) c d [SendMessage 5 [1; 2]%Z; ReadMessage; AbortMessage] _ (or_introl Hc)).
  apply (bool_decide_unpack (bytes_ok (dx_incoming (demo_stream demo_msg2)))). vm_compute. exact I.
Defined.
