(* ===== verification/Pool.v ===== *)
(** * The connection pool (src/pool.rs)

    One [PeerLink] per peer: its state behind an async mutex, a notifier,
    background reconnect tasks, guards and callers waiting for a connection.
    Tasks run concurrently; the model cuts each one at its [await] points, so
    that an execution is a sequence of atomic events of one link:
    - a lock that is taken and released with no [await] in between is one
      event, enabled while the mutex is free; a [Guard] keeps it locked;
    - [Notify] is an epoch: [notified()] remembers it, [notify_waiters]
      increments it, and a notification is ready once they differ (a
      [Notified] gets wakeups from its creation on);
    - dialling, the time a handshake takes and the clock are inputs of the events.
    Durations and instants are milliseconds in [Z]. *)

From stdpp Require Import gmap.
From S2P Require Import Prelude PacketState Interfaces Doubles NodeId Noise Sign Auth Packets Handshake Messages Lib.

#[export] Instance NodeId_countable : Countable NodeId.
Proof. by refine (inj_countable' node_id_0 node_id _); intros []. Defined.

Inductive NotReady : Set := not_ready.

(** A handle on one peer's link: the index of the link its [Arc] points to. *)
Record Connection : Set := { conn_link : nat }.

(** [Clone for Connection]: the clone shares the link. *)
Definition connection_clone (self : Connection) : Connection := {| conn_link := conn_link self |}.

(** The field of a [Guard] besides its lock and its link. *)
Record Guard : Set := { committed : bool }.

(** The guard that [acquire] hands out. *)
Definition guard_new : Guard := {| committed := false |}.

(** [Connector]: dial the peer.  [Net] is what the dialling acts on: the
    network, or the cells a connector shares with others. *)
Class Connector (C S Net : Type) : Type := {
  connector_connect : C → M Net ConnectionError S;
}.

(** The initial and the maximal delay between connection attempts. *)
Definition INITIAL_BACKOFF : Z := 50.
Definition MAX_BACKOFF : Z := 30000.

(** [backoff = (backoff * 2).min(Duration::from_secs(30))]. *)
Definition next_backoff (backoff : Z) : Z := Z.min (backoff * 2) MAX_BACKOFF.

Section Pool.
Context {C HS T S R W : Type}
  `{SnowHandshake HS T, AsyncRead S, AsyncWrite S, SplitStream S R W}.
Context {SK VK Sig : Type} `{Ed25519 SK VK Sig} {FB FP : Type} `{Yatlv FB FP}.

(** The transport of a connected link: the cipher state its halves share,
    and the halves. *)
Abbreviation Transport := (T * (MessageTx W * MessageRx R))%type.

Record Credentials : Type := {
  private_key : TransportPrivateKey;
  auth_header : SignedAuthHeader;
  verification_key : SignatureVerificationKey (VK := VK);
}.

Inductive LinkState : Type :=
| Connected (tx_rx : Transport)
| Reconnecting.

(** Where a spawned [reconnect_task] is: dialling and handshaking, sleeping
    until an instant, or waiting for the lock with a new transport. *)
Inductive Task : Type :=
| Dialing (backoff : Z)
| Sleeping (wake_at backoff : Z)
| Installing (tx_rx : Transport).

(** Where a [wait_connected] call is: before its check of the state, awaiting
    the notification, or returned. *)
Inductive Waiter : Type :=
| Checking (deadline : Z) (epoch : nat)
| Awaiting (deadline : Z) (epoch : nat)
| Returned (result : outcome NotReady ()).

(** [connector], [target], [creds], [state] and [connected] are the fields of
    [PeerLink]; [guarded] says whether a [Guard] holds the mutex; then come
    the tasks and calls that share the link, and the clock. *)
Record PeerLink : Type := {
  connector : C;
  target : NodeId;
  creds : Credentials;
  state : LinkState;
  connected : nat;
  guarded : bool;
  tasks : list Task;
  waiters : list Waiter;
  now : Z;
}.

Definition set_state (st : LinkState) (l : PeerLink) : PeerLink :=
  {| connector := connector l; target := target l; creds := creds l; state := st;
     connected := connected l; guarded := guarded l; tasks := tasks l; waiters := waiters l;
     now := now l |}.
Definition set_guarded (b : bool) (l : PeerLink) : PeerLink :=
  {| connector := connector l; target := target l; creds := creds l; state := state l;
     connected := connected l; guarded := b; tasks := tasks l; waiters := waiters l; now := now l |}.
Definition set_tasks (ts : list Task) (l : PeerLink) : PeerLink :=
  {| connector := connector l; target := target l; creds := creds l; state := state l;
     connected := connected l; guarded := guarded l; tasks := ts; waiters := waiters l;
     now := now l |}.
Definition set_waiters (ws : list Waiter) (l : PeerLink) : PeerLink :=
  {| connector := connector l; target := target l; creds := creds l; state := state l;
     connected := connected l; guarded := guarded l; tasks := tasks l; waiters := ws;
     now := now l |}.
Definition set_now (t : Z) (l : PeerLink) : PeerLink :=
  {| connector := connector l; target := target l; creds := creds l; state := state l;
     connected := connected l; guarded := guarded l; tasks := tasks l; waiters := waiters l;
     now := t |}.

(** [connected.notify_waiters()]. *)
Definition notify_waiters (l : PeerLink) : PeerLink :=
  {| connector := connector l; target := target l; creds := creds l; state := state l;
     connected := connected l + 1; guarded := guarded l; tasks := tasks l; waiters := waiters l;
     now := now l |}.

(** [tokio::spawn(reconnect_task(link))], up to its first [await]. *)
Definition spawn_reconnect_task (l : PeerLink) : PeerLink :=
  set_tasks (tasks l ++ [Dialing INITIAL_BACKOFF]) l.

Definition peer_link_new (connector : C) (target : NodeId) (creds : Credentials) (now : Z)
    : PeerLink :=
  spawn_reconnect_task
    {| connector := connector; target := target; creds := creds; state := Reconnecting;
       connected := 0; guarded := false; tasks := []; waiters := []; now := now |}.

(** [dial] is the result of [link.connector.connect()]. *)
Definition try_connect (dial : outcome ConnectionError S) (elapsed : Z) (link : PeerLink)
    : outcome ConnectionError Transport :=
  let? stream := dial in
  let? (tx_rx, auth_details) :=
    Lib.connect elapsed stream (private_key (creds link)) (auth_header (creds link))
                (verification_key (creds link)) in
  let? _ := map_err BadAuthErr (check_node_id auth_details (target link)) in
  Ok tx_rx.

(** ** reconnect_task, event by event *)

(** Task [j]'s connection attempt completes; a panic would end the task. *)
Definition task_dial (j : nat) (dial : outcome ConnectionError S) (elapsed : Z) (l : PeerLink)
    : option PeerLink :=
  match tasks l !! j with
  | Some (Dialing backoff) =>
      match try_connect dial elapsed l with
      | Ok tx_rx => Some (set_tasks (<[j := Installing tx_rx]> (tasks l)) l)
      | Err _ => Some (set_tasks (<[j := Sleeping (now l + backoff) backoff]> (tasks l)) l)
      | Panic => Some (set_tasks (delete j (tasks l)) l)
      | Pending => None
      end
  | _ => None
  end.

(** Task [j]'s sleep is over: double the backoff and try again. *)
Definition task_wake (j : nat) (l : PeerLink) : option PeerLink :=
  match tasks l !! j with
  | Some (Sleeping wake_at backoff) =>
      if decide (wake_at ≤ now l)%Z
      then Some (set_tasks (<[j := Dialing (next_backoff backoff)]> (tasks l)) l)
      else None
  | _ => None
  end.

(** Task [j] gets the lock, installs its transport, notifies and returns. *)
Definition task_install (j : nat) (l : PeerLink) : option PeerLink :=
  match tasks l !! j with
  | Some (Installing tx_rx) =>
      if guarded l then None
      else Some (set_tasks (delete j (tasks l)) (notify_waiters (set_state (Connected tx_rx) l)))
  | _ => None
  end.

(** ** Connection and Guard *)

(** [None] while a guard holds the mutex. *)
Definition acquire (l : PeerLink) : option (outcome NotReady Guard * PeerLink) :=
  if guarded l then None
  else match state l with
       | Connected _ => Some (Ok guard_new, set_guarded true l)
       | Reconnecting => Some (Err not_ready, l)
       end.

(** The halves that a guard's holder can use. *)
Definition transport (l : PeerLink) : outcome NotReady Transport :=
  match state l with
  | Connected tx_rx => Ok tx_rx
  | Reconnecting => Panic
  end.

(** The holder of a guard uses the halves in some way. *)
Definition use_transport (f : Transport → Transport) (l : PeerLink) : option PeerLink :=
  if guarded l
  then match transport l with Ok tx_rx => Some (set_state (Connected (f tx_rx)) l) | _ => None end
  else None.

(** [Drop for Guard], then the release of the mutex. *)
Definition guard_drop (self : Guard) (l : PeerLink) : option PeerLink :=
  if guarded l
  then Some (set_guarded false
               (if committed self then l else spawn_reconnect_task (set_state Reconnecting l)))
  else None.

(** [commit] consumes the guard: it sets the flag and drops the guard. *)
Definition commit (self : Guard) (l : PeerLink) : option PeerLink :=
  guard_drop {| committed := true |} l.

(** ** wait_connected, event by event *)

(** The call and its first [notified()]. *)
Definition wait_connected (timeout : Z) (l : PeerLink) : PeerLink :=
  set_waiters (waiters l ++ [Checking (now l + timeout) (connected l)]) l.

(** The check of the state under the lock. *)
Definition wait_check (i : nat) (l : PeerLink) : option PeerLink :=
  match waiters l !! i with
  | Some (Checking deadline epoch) =>
      if guarded l then None
      else Some (set_waiters
             (<[i := match state l with
                     | Connected _ => Returned (Ok tt)
                     | Reconnecting => Awaiting deadline epoch
                     end]> (waiters l)) l)
  | _ => None
  end.

(** The notification arrives: go round the loop, registering again. *)
Definition wait_notified (i : nat) (l : PeerLink) : option PeerLink :=
  match waiters l !! i with
  | Some (Awaiting deadline epoch) =>
      if decide (epoch ≠ connected l)
      then Some (set_waiters (<[i := Checking deadline (connected l)]> (waiters l)) l)
      else None
  | _ => None
  end.

(** The remaining time runs out first. *)
Definition wait_timeout (i : nat) (l : PeerLink) : option PeerLink :=
  match waiters l !! i with
  | Some (Awaiting deadline epoch) =>
      if decide (epoch = connected l ∧ (deadline ≤ now l)%Z)
      then Some (set_waiters (<[i := Returned (Err not_ready)]> (waiters l)) l)
      else None
  | _ => None
  end.

(** ** Executions of one link *)

Inductive event : Type :=
| EDial (j : nat) (dial : outcome ConnectionError S) (elapsed : Z)
| EWake (j : nat)
| EInstall (j : nat)
| EAcquire
| EUse (f : Transport → Transport)
| EDrop (g : Guard)
| EWait (timeout : Z)
| ECheck (i : nat)
| ENotified (i : nat)
| ETimeout (i : nat)
| ETick (d : Z).

Definition step (e : event) (l : PeerLink) : option PeerLink :=
  match e with
  | EDial j dial elapsed => task_dial j dial elapsed l
  | EWake j => task_wake j l
  | EInstall j => task_install j l
  | EAcquire => snd <$> acquire l
  | EUse f => use_transport f l
  | EDrop g => guard_drop g l
  | EWait t => Some (wait_connected t l)
  | ECheck i => wait_check i l
  | ENotified i => wait_notified i l
  | ETimeout i => wait_timeout i l
  | ETick d => if decide (0 ≤ d)%Z then Some (set_now (now l + d) l) else None
  end.

Fixpoint run (es : list event) (l : PeerLink) : option PeerLink :=
  match es with
  | [] => Some l
  | e :: es' => l' ← step e l; run es' l'
  end.

(** ** ConnectionPool *)

(** Links are shared through [Arc]: [links] is the heap of links, in order of
    creation, and the map holds indices into it. *)
Record ConnectionPool : Type := {
  pool_creds : Credentials;
  poisoned : bool;
  peers : gmap NodeId nat;
  links : list PeerLink;
}.

Definition pool_new (creds : Credentials) : ConnectionPool :=
  {| pool_creds := creds; poisoned := false; peers := ∅; links := [] |}.

(** [peer]: the index of the link, whose [Arc] the [Connection] clones.
    [make_connector] runs only when the entry is vacant; should it panic,
    the [std::sync::Mutex] around the map is poisoned. *)
Definition peer (tgt : NodeId) (make_connector : outcome () C) (t : Z)
    : M ConnectionPool () Connection := λ self,
  if poisoned self then (Panic, self)
  else match peers self !! tgt with
       | Some i => (Ok {| conn_link := i |}, self)
       | None =>
           match make_connector with
           | Ok c =>
               let i := length (links self) in
               (Ok {| conn_link := i |}, {| pool_creds := pool_creds self; poisoned := false;
                         peers := <[tgt := i]> (peers self);
                         links := links self ++ [peer_link_new c tgt (pool_creds self) t] |})
           | _ => (Panic, {| pool_creds := pool_creds self; poisoned := true;
                             peers := peers self; links := links self |})
           end
       end.

(** An event of link [i]. *)
Definition on_link (i : nat) (e : event) (self : ConnectionPool) : option ConnectionPool :=
  l ← links self !! i;
  l' ← step e l;
  Some {| pool_creds := pool_creds self; poisoned := poisoned self; peers := peers self;
          links := <[i := l']> (links self) |}.

(** Is [e] an event of executions whose connectors panic only if [panics]?
    A dial may otherwise end in any error, or in any stream, which may fail
    at any read and write. *)
Definition event_ok (panics : bool) (e : event) : bool :=
  match e with EDial _ Panic _ => panics | _ => true end.

(** The steps of a pool, from calls of [peer] and the events of its links. *)
Inductive pool_step (panics : bool) : ConnectionPool → ConnectionPool → Prop :=
| ps_peer p tgt mk t r p' : peer tgt mk t p = (r, p') → pool_step panics p p'
| ps_link p i e p' : event_ok panics e → on_link i e p = Some p' → pool_step panics p p'.

(** The pools that a new one reaches. *)
Definition reachable (panics : bool) (cr : Credentials) (p : ConnectionPool) : Prop :=
  rtc (pool_step panics) (pool_new cr) p.

(** ** Invariants *)

Context (paired : T → T → Prop) (nonces_left : T → nat) (public_of : bytes → bytes)
  (xx : nat → bytes → bytes → HS → HS → Prop)
  `{!SnowHandshakeLaws HS T paired nonces_left public_of xx}.
Context (incoming : S → bytes) `{!FaultyReaderLaws S incoming}.
Context (written : S → bytes) `{!FaultyWriterLaws S written}.
Context `{!Ed25519Laws SK VK Sig} (fields : FB → list (Z * bytes)) `{!YatlvLaws FB FP fields}.

(** [tx_rx] is what a handshake with the node [tgt] under [cr] returned. *)
Definition from_handshake (cr : Credentials) (tgt : NodeId) (tx_rx : Transport) : Prop :=
  ∃ elapsed s d, Lib.connect elapsed s (private_key cr) (auth_header cr) (verification_key cr)
           = Ok (tx_rx, d) ∧ details_node_id d = tgt.

Definition task_ok (l : PeerLink) (t : Task) : Prop :=
  match t with
  | Dialing b | Sleeping _ b => (INITIAL_BACKOFF ≤ b ≤ MAX_BACKOFF)%Z
  | Installing tx_rx => from_handshake (creds l) (target l) tx_rx
  end.

(** A waiter that is asleep without a notification pending sleeps only
    while the link is reconnecting. *)
Definition waiter_ok (l : PeerLink) (w : Waiter) : Prop :=
  match w with
  | Checking _ e => e ≤ connected l
  | Awaiting _ e => e ≤ connected l ∧ (e = connected l → state l = Reconnecting)
  | Returned _ => True
  end.

Definition link_inv (panics : bool) (l : PeerLink) : Prop :=
  match state l with
  | Connected _ => tasks l = []
  | Reconnecting =>
      length (tasks l) ≤ 1 ∧ (panics = false → length (tasks l) = 1) ∧ guarded l = false
  end ∧ Forall (task_ok l) (tasks l) ∧ Forall (waiter_ok l) (waiters l).

Lemma try_connect_ok dial elapsed l tx_rx :
  try_connect dial elapsed l = Ok tx_rx → from_handshake (creds l) (target l) tx_rx.
Proof.
  unfold try_connect. destruct dial as [s| | |]; cbn [obind]; [|done..].
  destruct (Lib.connect elapsed s _ _ _) as [[c d]| | |] eqn:Hc; cbn [obind]; [|done..].
  unfold check_node_id. destruct (decide _) as [Hd|]; cbn [map_err obind]; [|done].
  intros [= <-]. by exists elapsed, s, d.
Qed.

(** A connection attempt panics only if the connector does: the handshake
    returns whatever the stream does. *)
Lemma try_connect_panics dial elapsed l :
  try_connect dial elapsed l = Panic → dial = Panic.
Proof.
  unfold try_connect. destruct dial as [s|e| |]; cbn [obind]; [|done..]. unfold Lib.connect.
  destruct (connect_returns paired nonces_left public_of xx incoming written fields elapsed s
    (private_key (creds l)) (auth_header (creds l)) (verification_key (creds l)))
    as [[[[t [tx rx]] d] ->]|[e ->]]; cbn [obind]; [|done].
  unfold check_node_id. by destruct (decide _).
Qed.

Lemma next_backoff_ok b :
  (INITIAL_BACKOFF ≤ b ≤ MAX_BACKOFF)%Z → (INITIAL_BACKOFF ≤ next_backoff b ≤ MAX_BACKOFF)%Z.
Proof. unfold next_backoff, INITIAL_BACKOFF, MAX_BACKOFF. lia. Qed.

(** A single task is the one at index 0. *)
Lemma single_task (ts : list Task) j t : length ts ≤ 1 → ts !! j = Some t → ts = [t] ∧ j = 0.
Proof.
  intros Hl Hj. destruct ts as [|t0 [|]]; [done| |cbn in Hl; lia]. by destruct j; simplify_eq/=.
Qed.

Lemma link_inv_new panics c tgt cr t : link_inv panics (peer_link_new c tgt cr t).
Proof.
  split_and!; [done| |constructor]. repeat constructor; by unfold INITIAL_BACKOFF, MAX_BACKOFF.
Qed.

(** The tasks of a link in the invariant: none, or one while reconnecting. *)
Lemma link_inv_task panics l j t :
  link_inv panics l → tasks l !! j = Some t →
  state l = Reconnecting ∧ tasks l = [t] ∧ j = 0 ∧ guarded l = false ∧ task_ok l t.
Proof.
  intros (Hs & Ht & _) Hj. destruct (state l); [by rewrite Hs in Hj|]. destruct Hs as (Hlen & _ & Hg).
  destruct (single_task _ _ _ Hlen Hj) as [Heq ->]. split_and!; try done.
  rewrite Heq in Ht. by inversion Ht.
Qed.

Lemma replace_task_inv panics l t t' :
  link_inv panics l → tasks l = [t] → task_ok l t' → link_inv panics (set_tasks [t'] l).
Proof.
  intros (Hs & _ & Hw) Ht Hok. split_and!; [|by repeat constructor|done].
  cbn. destruct (state l); [by rewrite Ht in Hs|]. by destruct Hs as (_ & _ & ?).
Qed.

Lemma set_waiter_inv panics l ws :
  link_inv panics l → Forall (waiter_ok l) ws → link_inv panics (set_waiters ws l).
Proof. intros (Hs & Ht & _) Hw. by split_and!. Qed.

Lemma insert_waiter_inv panics l i w :
  link_inv panics l → waiter_ok l w → link_inv panics (set_waiters (<[i := w]> (waiters l)) l).
Proof. intros Hl Hw. apply set_waiter_inv; [done|]. apply Forall_insert; [apply Hl|done]. Qed.

Lemma waiter_inv panics l i w : link_inv panics l → waiters l !! i = Some w → waiter_ok l w.
Proof. intros (_ & _ & Hw) Hi. by eapply Forall_lookup_1. Qed.

(** Installing a transport wakes every waiter registered so far. *)
Lemma install_waiters l tx_rx :
  Forall (waiter_ok l) (waiters l) →
  Forall (waiter_ok (notify_waiters (set_state (Connected tx_rx) l))) (waiters l).
Proof.
  intros Hf. eapply Forall_impl; [exact Hf|].
  intros [d e|d e|r]; cbn; [lia|intros [He _]; split; lia|done].
Qed.

(** Events of the reconnect tasks. *)
Lemma task_step_inv panics e l l' :
  link_inv panics l → event_ok panics e →
  match e with EDial _ _ _ | EWake _ | EInstall _ => True | _ => False end →
  step e l = Some l' → link_inv panics l'.
Proof.
  intros Hl He Hc Hs. destruct e as [j dial elapsed|j|j| | | | | | | |]; try done; cbn [step] in Hs.
  - unfold task_dial in Hs. destruct (tasks l !! j) as [[b| |]|] eqn:Hj; try done.
    destruct (link_inv_task _ _ _ _ Hl Hj) as (Hst & Ht & -> & Hg & Hok). rewrite Ht in Hs.
    destruct (try_connect dial elapsed l) as [c|x| |] eqn:Hcn; simplify_eq/=.
    + eapply replace_task_inv; [done..|]. by eapply try_connect_ok.
    + by eapply replace_task_inv.
    + apply try_connect_panics in Hcn as ->. destruct panics; [|done].
      split_and!; [|constructor|apply Hl]. cbn. rewrite Hst. by split_and!; [lia| |].
  - unfold task_wake in Hs. destruct (tasks l !! j) as [[|wk b|]|] eqn:Hj; try done.
    destruct (link_inv_task _ _ _ _ Hl Hj) as (_ & Ht & -> & _ & Hok). rewrite Ht in Hs.
    destruct (decide _); simplify_eq/=. eapply replace_task_inv; [done..|]. by apply next_backoff_ok.
  - unfold task_install in Hs. destruct (tasks l !! j) as [[| |c]|] eqn:Hj; try done.
    destruct (link_inv_task _ _ _ _ Hl Hj) as (_ & Ht & -> & Hg & Hok). rewrite Ht, Hg in Hs.
    simplify_eq/=. split_and!; [done|constructor|]. destruct Hl as (_ & _ & Hw). exact (install_waiters l c Hw).
Qed.

(** Events of callers: acquiring, using and dropping guards. *)
Lemma guard_step_inv panics e l l' :
  link_inv panics l →
  match e with EAcquire | EUse _ | EDrop _ => True | _ => False end →
  step e l = Some l' → link_inv panics l'.
Proof.
  intros (Hst & Ht & Hw) Hc Hs. destruct e as [| | | |f|[cm]| | | | |]; try done; cbn [step] in Hs.
  - unfold acquire in Hs. destruct (guarded l) eqn:Hg; [done|].
    destruct (state l) as [c|] eqn:Hstate; simplify_eq/=; unfold link_inv.
    + split_and!; [cbn; by rewrite Hstate|done|done].
    + rewrite Hstate. split; [|by split]. destruct Hst as (? & ? & _). auto.
  - unfold use_transport, transport in Hs. destruct (guarded l); [|done].
    destruct (state l) as [c|] eqn:Hstate; simplify_eq/=. unfold link_inv. split_and!; [done|done|].
    eapply Forall_impl; [exact Hw|]. intros [d e|d e|r]; cbn; [done| |done].
    intros [? Hx]. split; [done|]. intros Heq. specialize (Hx Heq). congruence.
  - unfold guard_drop in Hs. destruct (guarded l) eqn:Hg; [|done].
    destruct (state l) as [c|] eqn:Hstate; [|destruct Hst as (_ & _ & ?); congruence].
    destruct cm; simplify_eq/=; unfold link_inv.
    + split_and!; [cbn; by rewrite Hstate|done|done].
    + cbn. rewrite Hst. cbn. split_and!; [lia|done|done| |].
      * repeat constructor; by unfold INITIAL_BACKOFF, MAX_BACKOFF.
      * eapply Forall_impl; [exact Hw|]. intros [d e|d e|r]; cbn; [done| |done]. by intros [? _].
Qed.

(** Events of waiting callers, and time. *)
Lemma wait_step_inv panics e l l' :
  link_inv panics l →
  match e with EWait _ | ECheck _ | ENotified _ | ETimeout _ | ETick _ => True | _ => False end →
  step e l = Some l' → link_inv panics l'.
Proof.
  intros Hl Hc Hs. destruct e as [| | | | | |t|i|i|i|d]; try done; cbn [step] in Hs.
  - simplify_eq. apply set_waiter_inv; [done|]. apply Forall_app. split; [apply Hl|].
    by repeat constructor.
  - unfold wait_check in Hs. destruct (waiters l !! i) as [[d e| |]|] eqn:Hi; try done.
    pose proof (waiter_inv _ _ _ _ Hl Hi) as Hw. destruct (guarded l); [done|]. simplify_eq.
    apply insert_waiter_inv; [done|]. destruct (state l) eqn:Hst; [done|by split].
  - unfold wait_notified in Hs. destruct (waiters l !! i) as [[|d e|]|] eqn:Hi; try done.
    destruct (decide _); [|done]. simplify_eq. apply insert_waiter_inv; [done|]. cbn. lia.
  - unfold wait_timeout in Hs. destruct (waiters l !! i) as [[|d e|]|] eqn:Hi; try done.
    destruct (decide _); [|done]. simplify_eq. by apply insert_waiter_inv.
  - destruct (decide _); [|done]. by simplify_eq.
Qed.

Lemma step_inv panics e l l' :
  link_inv panics l → event_ok panics e → step e l = Some l' → link_inv panics l'.
Proof.
  intros Hl He Hs. pose proof (task_step_inv panics e l l' Hl He) as Ht.
  pose proof (guard_step_inv panics e l l' Hl) as Hg.
  pose proof (wait_step_inv panics e l l' Hl) as Hw.
  destruct e; auto.
Qed.

(** The identity of a link never changes. *)
Lemma step_identity e l l' : step e l = Some l' → target l' = target l ∧ creds l' = creds l.
Proof.
  destruct e; cbn [step]; unfold task_dial, task_wake, task_install, acquire, use_transport,
    guard_drop, wait_check, wait_notified, wait_timeout; intros Hs;
    repeat (case_match; simplify_eq/=); by simplify_eq.
Qed.

(** ** The pool as a whole *)

(** The map and the links agree: one link per node, under its own name. *)
Definition pool_inv (panics : bool) (p : ConnectionPool) : Prop :=
  (∀ k i, peers p !! k = Some i → ∃ l, links p !! i = Some l ∧ target l = k) ∧
  (∀ i l, links p !! i = Some l → peers p !! target l = Some i ∧ link_inv panics l).

Lemma pool_inv_new panics cr : pool_inv panics (pool_new cr).
Proof. split; cbn; [by intros k i; rewrite lookup_empty|done]. Qed.

Lemma peer_inv panics tgt mk t p r p' :
  pool_inv panics p → peer tgt mk t p = (r, p') → pool_inv panics p'.
Proof.
  intros [Hp Hl]. unfold peer. destruct (poisoned p); [by intros [= _ <-]|].
  destruct (peers p !! tgt) as [i|] eqn:Hi; [by intros [= _ <-]|].
  destruct mk as [c| | |]; intros [= _ <-]; try done. split; cbn.
  - intros k i. destruct (decide (k = tgt)) as [->|Hk].
    + rewrite lookup_insert. rewrite decide_True by done. intros [= <-].
      exists (peer_link_new c tgt (pool_creds p) t). split; [|done].
      rewrite lookup_app_r by lia. by rewrite Nat.sub_diag.
    + rewrite lookup_insert_ne by done. intros Hk'. destruct (Hp k i Hk') as (l & Hl' & Ht).
      exists l. split; [|done]. by apply lookup_app_l_Some.
  - intros i l Hil. apply lookup_app_Some in Hil as [Hil|[Hge Hil]].
    + destruct (Hl i l Hil) as [Ht Hv]. split; [|done].
      rewrite lookup_insert_ne; [done|]. intros Heq. rewrite Heq in Hi. congruence.
    + apply list_lookup_singleton_Some in Hil as [Hz <-]. split; [|apply link_inv_new].
      cbn. rewrite lookup_insert, decide_True by done. f_equal. lia.
Qed.

Lemma on_link_inv panics i e p p' :
  pool_inv panics p → event_ok panics e → on_link i e p = Some p' → pool_inv panics p'.
Proof.
  intros [Hp Hl] He Hs. unfold on_link in Hs. apply bind_Some in Hs as (l & Hi & Hs).
  apply bind_Some in Hs as (l' & Hst & [= <-]). destruct (step_identity _ _ _ Hst) as [Ht _].
  pose proof (lookup_lt_Some _ _ _ Hi) as Hlt. split; cbn.
  - intros k i' Hk. destruct (Hp k i' Hk) as (l0 & Hl0 & Hk0).
    destruct (decide (i' = i)) as [->|Hne].
    + exists l'. rewrite list_lookup_insert_eq by done. split; [done|]. congruence.
    + exists l0. by rewrite list_lookup_insert_ne by done.
  - intros i' l0 Hl0. destruct (decide (i' = i)) as [->|Hne].
    + rewrite list_lookup_insert_eq in Hl0 by done. simplify_eq.
      destruct (Hl i l Hi) as [? Hv]. split; [by rewrite Ht|by eapply step_inv].
    + rewrite list_lookup_insert_ne in Hl0 by done. by apply Hl.
Qed.

Lemma pool_step_inv panics p p' : pool_inv panics p → pool_step panics p p' → pool_inv panics p'.
Proof.
  intros Hinv Hs. inversion Hs as [p1 tgt mk t r p2 Hpr|p1 i e p2 He Hl]; subst.
  - exact (peer_inv _ _ _ _ _ _ _ Hinv Hpr).
  - exact (on_link_inv _ _ _ _ _ Hinv He Hl).
Qed.

Lemma reachable_inv panics cr p : reachable panics cr p → pool_inv panics p.
Proof.
  unfold reachable. pose proof (pool_inv_new panics cr) as H0'. revert H0'.
  generalize (pool_new cr). intros p0 H0' Hr. induction Hr as [|p0 p1 p2 Hs _ IH]; [done|].
  by apply IH, (pool_step_inv panics p0).
Qed.

(** The invariant of a link of a reachable pool. *)
Lemma reachable_link panics cr p i l :
  reachable panics cr p → links p !! i = Some l → link_inv panics l.
Proof. intros Hr Hi. exact (proj2 (proj2 (reachable_inv _ _ _ Hr) _ _ Hi)). Qed.

(** ** Lemmas on runs *)

(** Only installing a transport ends a reconnection. *)
Lemma stays_reconnecting e l l' :
  state l = Reconnecting → guarded l = false → (∀ j, e ≠ EInstall j) → step e l = Some l' →
  state l' = Reconnecting ∧ guarded l' = false.
Proof.
  intros Hst Hg He. destruct e as [j dial elapsed|j|j| |f|cm|t|i|i|i|d]; cbn [step].
  3: by destruct (He j).
  all: unfold task_dial, task_wake, acquire, use_transport, guard_drop, wait_connected,
    wait_check, wait_notified, wait_timeout; rewrite ?Hst, ?Hg; intros Hs;
    repeat (case_match; simplify_eq/=); by simplify_eq/=.
Qed.

Lemma run_stays_reconnecting es l l' :
  state l = Reconnecting → guarded l = false → Forall (λ e, ∀ j, e ≠ EInstall j) es →
  run es l = Some l' → state l' = Reconnecting ∧ guarded l' = false.
Proof.
  revert l. induction es as [|e es IH]; intros l Hst Hg He Hr; cbn [run] in Hr; [by simplify_eq|].
  apply bind_Some in Hr as (l1 & Hs & Hr). inversion He as [|? ? He1 He2]; subst.
  destruct (stays_reconnecting _ _ _ Hst Hg He1 Hs). by eapply IH.
Qed.

(** [k] failed attempts, each slept off, starting with delay [b]. *)
Fixpoint failures (k : nat) (b : Z) (err : ConnectionError) : list event :=
  match k with
  | O => []
  | Datatypes.S k' => [EDial 0 (Err err) 0; ETick b; EWake 0] ++ failures k' (next_backoff b) err
  end.

Lemma failed_attempt l b err d :
  tasks l = [Dialing b] → (0 ≤ d)%Z →
  run [EDial 0 (Err err) 0; ETick d; EWake 0] l =
  if decide (b ≤ d)%Z then Some (set_now (now l + d) (set_tasks [Dialing (next_backoff b)] l)) else None.
Proof.
  intros Ht Hd. cbn [run step]. unfold task_dial. rewrite Ht. cbn.
  rewrite decide_True by done. cbn. unfold task_wake. cbn.
  destruct (decide (b ≤ d)%Z); [rewrite decide_True by lia|rewrite decide_False by lia]; done.
Qed.

Lemma run_app es1 es2 l : run (es1 ++ es2) l = run es1 l ≫= run es2.
Proof.
  revert l. induction es1 as [|e es1 IH]; intros l; cbn [app run]; [done|].
  destruct (step e l); cbn; auto.
Qed.

Lemma failures_run k b err l :
  tasks l = [Dialing b] → (0 ≤ b)%Z →
  ∃ l', run (failures k b err) l = Some l' ∧ tasks l' = [Dialing (Nat.iter k next_backoff b)] ∧
        creds l' = creds l ∧ target l' = target l.
Proof.
  revert b l. induction k as [|k IH]; intros b l Ht Hb; [by exists l|].
  cbn [failures]. rewrite run_app, (failed_attempt l b err b) by done. rewrite decide_True by lia. cbn [mbind option_bind].
  destruct (IH (next_backoff b) (set_now (now l + b) (set_tasks [Dialing (next_backoff b)] l)))
    as (l' & Hr & Ht' & ?); [done|unfold next_backoff, MAX_BACKOFF; lia|].
  exists l'. split; [done|]. split; [|done]. by rewrite Ht', Nat.iter_swap.
Qed.

Lemma iter_backoff k :
  Nat.iter k next_backoff INITIAL_BACKOFF = Z.min (INITIAL_BACKOFF * 2 ^ Z.of_nat k) MAX_BACKOFF.
Proof.
  induction k as [|k IH]; [done|]. rewrite Nat.iter_succ, IH. unfold next_backoff, INITIAL_BACKOFF, MAX_BACKOFF.
  rewrite Nat2Z.inj_succ, Z.pow_succ_r by lia. 
  assert (0 < 2 ^ Z.of_nat k)%Z by (apply Z.pow_pos_nonneg; lia). lia.
Qed.

(** A dialling task whose attempt succeeds gets the link connected. *)
Lemma dial_and_install l b s tx_rx :
  tasks l = [Dialing b] → guarded l = false → try_connect (Ok s) 0 l = Ok tx_rx →
  ∃ l' l'', run [EDial 0 (Ok s) 0; EInstall 0] l = Some l' ∧ acquire l' = Some (Ok guard_new, l'').
Proof.
  intros Ht Hg Hc. cbn [run step]. unfold task_dial. rewrite Ht. cbn [lookup list_lookup].
  rewrite Hc. cbn. unfold task_install. cbn. rewrite Hg. do 2 eexists. split; [done|].
  unfold acquire. cbn. by rewrite Hg.
Qed.

(** The events of a link's only task when dialling gives the stream [s], and
    time passing. *)
Definition task_event (s : S) (e : event) : Prop :=
  match e with
  | EDial j dial elapsed => j = 0 ∧ dial = Ok s ∧ elapsed = 0%Z
  | EWake j | EInstall j => j = 0
  | ETick _ => True
  | _ => False
  end.

(** A reconnecting link that has lost its task never recovers. *)
Lemma stranded_step e l l' :
  state l = Reconnecting → guarded l = false → tasks l = [] → step e l = Some l' →
  state l' = Reconnecting ∧ guarded l' = false ∧ tasks l' = [].
Proof.
  intros Hst Hg Ht. destruct e as [j dial elapsed|j|j| |f|cm|t|i|i|i|d]; cbn [step];
    unfold task_dial, task_wake, task_install, acquire, use_transport, guard_drop, wait_connected,
      wait_check, wait_notified, wait_timeout; rewrite ?Ht, ?Hst, ?Hg; intros Hs;
    repeat (case_match; simplify_eq/=); by simplify_eq/=.
Qed.

Lemma stranded_run es l l' :
  state l = Reconnecting → guarded l = false → tasks l = [] → run es l = Some l' →
  state l' = Reconnecting ∧ guarded l' = false ∧ tasks l' = [].
Proof.
  revert l. induction es as [|e es IH]; intros l Hst Hg Ht Hr; cbn [run] in Hr; [by simplify_eq|].
  apply bind_Some in Hr as (l1 & Hs & Hr).
  destruct (stranded_step _ _ _ Hst Hg Ht Hs) as (? & ? & ?). by eapply IH.
Qed.

(** Events of a reachable link lead to a reachable pool. *)
Lemma reachable_run panics cr p i l es l' :
  reachable panics cr p → links p !! i = Some l → Forall (event_ok panics) es →
  run es l = Some l' →
  ∃ p', reachable panics cr p' ∧ links p' !! i = Some l'.
Proof.
  revert p l. induction es as [|e es IH]; intros p l Hr Hi He Hrun; cbn [run] in Hrun.
  { simplify_eq. eauto. }
  apply bind_Some in Hrun as (l1 & Hs & Hrun). inversion He as [|? ? He1 He2]; subst.
  pose proof (lookup_lt_Some _ _ _ Hi) as Hlt.
  set (p1 := {| pool_creds := pool_creds p; poisoned := poisoned p; peers := peers p;
                links := <[i := l1]> (links p) |}).
  apply (IH p1 l1); [|cbn; by rewrite list_lookup_insert_eq by done|done|done].
  eapply rtc_r; [exact Hr|]. apply (ps_link _ p i e); [done|].
  unfold on_link. rewrite Hi. cbn. by rewrite Hs.
Qed.

(** ** Properties *)

(** C11: one link per peer, one reconnect task per lost link.  In every
    reachable pool no two links have the same node id, and every link either
    is connected with no background task, or is reconnecting with no guard
    outstanding and never more than one task: exactly one, unless a
    connector has panicked. *)
Theorem pool_links_invariant panics cr p :
  reachable panics cr p →
  (∀ i j li lj, links p !! i = Some li → links p !! j = Some lj → target li = target lj → i = j) ∧
  (∀ i l, links p !! i = Some l →
     match state l with
     | Connected _ => tasks l = []
     | Reconnecting =>
         length (tasks l) ≤ 1 ∧ (panics = false → length (tasks l) = 1) ∧ guarded l = false
     end).
Proof.
  intros Hr. destruct (reachable_inv _ _ _ Hr) as [_ Hl]. split.
  - intros i j li lj Hi Hj Ht. destruct (Hl _ _ Hi) as [Hi' _], (Hl _ _ Hj) as [Hj' _].
    rewrite Ht in Hi'. congruence.
  - intros i l Hi. by apply (Hl _ _ Hi).
Qed.

(** C12: a guard always has a live transport, and it has it alone.  While a
    guard is outstanding on a reachable link, [Guard::transport] returns
    the halves (its [unreachable!] is never reached), no other [acquire] can
    proceed and no reconnect task can replace the transport. *)
Theorem guard_is_exclusive panics cr p i l :
  reachable panics cr p → links p !! i = Some l → guarded l = true →
  (∃ tx_rx, transport l = Ok tx_rx) ∧ acquire l = None ∧ ∀ j, task_install j l = None.
Proof.
  intros Hr Hi Hg. destruct (reachable_link _ _ _ _ _ Hr Hi) as (Hst & _).
  unfold transport, acquire, task_install. rewrite Hg. split_and!; [|done|].
  - destruct (state l); [by eauto|]. destruct Hst as (_ & _ & ?). congruence.
  - intros j. by repeat case_match.
Qed.

(** C10: the pool only ever hands out connections to the right node.  Whatever
    event turns a reachable link from reconnecting to connected, the new
    transport is the result of a handshake with the link's credentials that
    authenticated the peer as the link's own target node. *)
Theorem connected_to_target panics cr p i l e l' tx_rx :
  reachable panics cr p → links p !! i = Some l → step e l = Some l' →
  state l = Reconnecting → state l' = Connected tx_rx →
  from_handshake (creds l) (target l) tx_rx.
Proof.
  intros Hr Hi Hs Hst Hst'. pose proof (reachable_link _ _ _ _ _ Hr Hi) as Hinv.
  assert (Hg : guarded l = false) by (destruct Hinv as [Hx _]; rewrite Hst in Hx; apply Hx).
  assert ((∀ j, e ≠ EInstall j) ∨ ∃ j, e = EInstall j) as [Hne|[j ->]]
    by (destruct e; by eauto).
  { destruct (stays_reconnecting _ _ _ Hst Hg Hne Hs). congruence. }
  cbn [step] in Hs. unfold task_install in Hs. destruct (tasks l !! j) as [[| |c]|] eqn:Hj; try done.
  destruct (link_inv_task _ _ _ _ Hinv Hj) as (_ & _ & _ & _ & Hok). rewrite Hg in Hs.
  by simplify_eq/=.
Qed.

(** C26: a connection whose guard was dropped without [commit] is never used
    again.  From then on, through any events other than the installation of
    a new transport, the link is reconnecting and every [acquire] answers
    [NotReady]. *)
Theorem dropped_guard_resets l l1 es l2 :
  guard_drop guard_new l = Some l1 →
  Forall (λ e, ∀ j, e ≠ EInstall j) es → run es l1 = Some l2 →
  state l2 = Reconnecting ∧ acquire l2 = Some (Err not_ready, l2).
Proof.
  intros Hd He Hrun. unfold guard_drop in Hd. destruct (guarded l); [|done]. injection Hd as <-.
  destruct (run_stays_reconnecting es
    (set_guarded false (spawn_reconnect_task (set_state Reconnecting l))) l2) as [Hst Hg]; [done..|].
  split; [done|]. unfold acquire. by rewrite Hst, Hg.
Qed.

(** A committed exchange keeps the connection.  [commit] releases the
    guard and leaves the transport, as the exchange left it, for the next
    [acquire]; no reconnect task is started. *)
Theorem committed_guard_keeps_transport panics cr p i l f l1 l2 tx_rx :
  reachable panics cr p → links p !! i = Some l → guarded l = true → transport l = Ok tx_rx →
  use_transport f l = Some l1 → commit guard_new l1 = Some l2 →
  tasks l2 = [] ∧ ∃ l3, acquire l2 = Some (Ok guard_new, l3) ∧ transport l3 = Ok (f tx_rx).
Proof.
  intros Hr Hi Hg Ht Hu Hc. destruct (reachable_link _ _ _ _ _ Hr Hi) as (Hst & _).
  unfold use_transport in Hu. rewrite Hg, Ht in Hu. unfold transport in Ht.
  destruct (state l) eqn:Hstate; [|done]. simplify_eq. unfold commit, guard_drop in Hc.
  cbn in Hc. rewrite Hg in Hc. simplify_eq/=. split; [done|]. by eexists.
Qed.

(** Reconnecting backs off exponentially from 50 ms to 30 s.  After [k]
    failed attempts the task tries again with delay
    [min (50 * 2^k) 30000]; if that attempt fails too, the task cannot try
    again before that delay has passed, and can once it has. *)
Theorem backoff_schedule k err l :
  tasks l = [Dialing INITIAL_BACKOFF] →
  ∃ l', run (failures k INITIAL_BACKOFF err) l = Some l' ∧
    let delay := Z.min (50 * 2 ^ Z.of_nat k) 30000 in
    tasks l' = [Dialing delay] ∧
    ∀ d, (0 ≤ d)%Z →
      (is_Some (run [EDial 0 (Err err) 0; ETick d; EWake 0] l') ↔ (delay ≤ d)%Z).
Proof.
  intros Ht. destruct (failures_run k INITIAL_BACKOFF err l Ht) as (l' & Hr & Ht' & _); [done|].
  rewrite iter_backoff in Ht'. exists l'. split; [done|]. split; [done|]. intros d Hd.
  rewrite (failed_attempt _ _ _ _ Ht' Hd). unfold INITIAL_BACKOFF, MAX_BACKOFF.
  destruct (decide _) as [Hx|Hx]; split; intros Hy; done.
Qed.

(** C27: no lost wakeup.  A [wait_connected] call that is asleep while its link
    is connected always has a notification pending: it can proceed, and it
    cannot time out instead.  In particular a handshake that completes
    between the call's check and its sleep is not missed. *)
Theorem no_lost_wakeup panics cr p i l w d e tx_rx :
  reachable panics cr p → links p !! i = Some l → waiters l !! w = Some (Awaiting d e) →
  state l = Connected tx_rx →
  is_Some (wait_notified w l) ∧ wait_timeout w l = None.
Proof.
  intros Hr Hi Hw Hst. pose proof (reachable_link _ _ _ _ _ Hr Hi) as Hinv.
  destruct (waiter_inv _ _ _ _ Hinv Hw) as [_ Hne].
  assert (e ≠ connected l) by (intros Heq; specialize (Hne Heq); congruence).
  unfold wait_notified, wait_timeout. rewrite Hw, decide_True by done.
  split; [by eexists|]. by rewrite decide_False by (by intros [? _]).
Qed.

(** C28: a lost link can always be re-established.  Whatever state a reachable
    reconnecting link is in, if its connectors have not panicked and dialling
    gives a stream on which the peer authenticates, there is a sequence of
    events of its one task alone, dialling only that stream, and of time
    passing, after which the link is connected and [acquire] succeeds. *)
Theorem reconnection_possible cr p i l s tx_rx :
  reachable false cr p → links p !! i = Some l → state l = Reconnecting →
  try_connect (Ok s) 0 l = Ok tx_rx →
  ∃ es l' l'', Forall (task_event s) es ∧ run es l = Some l' ∧
    acquire l' = Some (Ok guard_new, l'').
Proof.
  intros Hr Hi Hst Hc. pose proof (reachable_link _ _ _ _ _ Hr Hi) as Hinv.
  pose proof (proj1 Hinv) as Hx. rewrite Hst in Hx. destruct Hx as (_ & Hlen & Hg).
  specialize (Hlen eq_refl). destruct (tasks l) as [|t [|]] eqn:Ht; [done| |done].
  destruct t as [b|wk b|c].
  - destruct (dial_and_install l b s tx_rx) as (l' & l'' & ? & ?); [done..|].
    exists [EDial 0 (Ok s) 0; EInstall 0], l', l''. by repeat constructor.
  - set (d := Z.max 0 (wk - now l)).
    destruct (dial_and_install (set_now (now l + d) (set_tasks [Dialing (next_backoff b)] l))
      (next_backoff b) s tx_rx) as (l' & l'' & Hrun & Ha); [done..|].
    exists ([ETick d; EWake 0] ++ [EDial 0 (Ok s) 0; EInstall 0]), l', l''.
    split; [by repeat constructor|]. split; [|done]. rewrite run_app. cbn [run step].
    rewrite decide_True by (unfold d; lia). cbn [mbind option_bind]. unfold task_wake. cbn.
    rewrite Ht. cbn. rewrite decide_True by (unfold d; lia). exact Hrun.
  - exists [EInstall 0]. cbn [run step]. unfold task_install. rewrite Ht, Hg. cbn.
    do 2 eexists. split; [by repeat constructor|]. split; [done|]. unfold acquire. cbn. by rewrite Hg.
Qed.

(** C19: a panicking connector strands its link.  If the connector of a
    reachable link panics, the reconnect task ends with it; from then on,
    whatever happens, the link stays reconnecting with no task to reconnect
    it, and every [acquire] answers [NotReady]. *)
Theorem panicking_connector_strands_link panics cr p i l j elapsed l1 es l2 :
  reachable panics cr p → links p !! i = Some l →
  step (EDial j Panic elapsed) l = Some l1 → run es l1 = Some l2 →
  state l2 = Reconnecting ∧ tasks l2 = [] ∧ acquire l2 = Some (Err not_ready, l2).
Proof.
  intros Hr Hi Hd Hrun. pose proof (reachable_link _ _ _ _ _ Hr Hi) as Hinv.
  cbn [step] in Hd. unfold task_dial in Hd. destruct (tasks l !! j) as [[b| |]|] eqn:Hj; try done.
  destruct (link_inv_task _ _ _ _ Hinv Hj) as (Hst & Ht & -> & Hg & _). rewrite Ht in Hd.
  simplify_eq/=. destruct (stranded_run es (set_tasks [] l) l2) as (Hst2 & Hg2 & Ht2); [done..|].
  split_and!; [done|done|]. unfold acquire. by rewrite Hst2, Hg2.
Qed.

(** [peer] is stable.  Once a target has a link, asking again returns the
    same link, leaves the pool as it is and never runs [make_connector],
    even if that would panic; the link is the target's own. *)
Theorem peer_returns_same_link panics cr p tgt mk t c p' :
  reachable panics cr p → peer tgt mk t p = (Ok c, p') →
  (∃ l, links p' !! conn_link c = Some l ∧ target l = tgt) ∧
  ∀ mk2 t2, peer tgt mk2 t2 p' = (Ok c, p').
Proof.
  destruct c as [i]. intros Hr Hp. pose proof (peer_inv _ _ _ _ _ _ _ (reachable_inv _ _ _ Hr) Hp) as [Hp' _].
  assert (Hi : peers p' !! tgt = Some i ∧ poisoned p' = false).
  { unfold peer in Hp. destruct (poisoned p) eqn:Hpo; [done|].
    destruct (peers p !! tgt) eqn:Ht; [by simplify_eq|]. destruct mk; simplify_eq/=.
    split; [|done]. by rewrite lookup_insert, decide_True. }
  destruct Hi as [Hi Hpo]. split; [by apply Hp'|]. intros mk2 t2. unfold peer. by rewrite Hpo, Hi.
Qed.

End Pool.

(** ** A concrete pool *)

Definition demo_creds : Credentials (VK := Key32) :=
  {| private_key := demo_key 1; auth_header := demo_signed 1; verification_key := svk_of demo_cluster |}.
Definition demo_target : NodeId := node_id_from_u32 2.
Definition demo_link : PeerLink (C := unit) (T := Counter) (R := Pipe) (W := Sink) :=
  peer_link_new tt demo_target demo_creds 0.

(** Connecting to node 2, and the whole of an exchange with it. *)
Definition demo_connect : list (event (T := Counter) (S := Duplex) (R := Pipe) (W := Sink)) :=
  [EDial 0 (Ok (demo_stream demo_msg2)) 0; EInstall 0].

Lemma demo_reachable es (l : PeerLink (C := unit) (T := Counter) (R := Pipe) (W := Sink)) :
  Forall (event_ok false) es → run es demo_link = Some l →
  ∃ p, reachable (S := Duplex) false demo_creds p ∧ links p !! 0 = Some l.
Proof.
  intros He Hr.
  apply (reachable_run false demo_creds (peer demo_target (Ok tt) 0 (pool_new demo_creds)).2
           0 demo_link es l); [|reflexivity|done|done].
  apply rtc_once. by apply (ps_peer _ _ demo_target (Ok tt) 0 (Ok {| conn_link := 0 |})).
Qed.

(** A run that a boolean evaluation shows to exist, with a fact about its end. *)
Lemma demo_run es (f : PeerLink → bool) :
  Forall (event_ok false) es →
  match run es demo_link with Some l => f l | None => false end = true →
  ∃ p l, reachable (S := Duplex) false demo_creds p ∧ links p !! 0 = Some l ∧
         run es demo_link = Some l ∧ f l = true.
Proof.
  intros He Hf. destruct (run es demo_link) as [l|] eqn:Hr; [|done].
  destruct (demo_reachable es l He Hr) as (p & ? & ?). eauto 10.
Qed.

Definition is_connected {T R W} (l : PeerLink (C := unit) (T := T) (R := R) (W := W) (VK := Key32)) : bool :=
  match state l with Connected _ => true | Reconnecting => false end.

Lemma pool_links_invariant_witness :
  ∃ p l, reachable (C := unit) (S := Duplex) false demo_creds p ∧ links p !! 0 = Some l ∧
         is_connected l = true ∧ tasks l = [].
Proof.
  destruct (demo_run demo_connect is_connected) as (p & l & Hr & Hl & _ & Hf).
  { repeat constructor. }
  { vm_compute. reflexivity. }
  exists p, l. split; [exact Hr|]. split; [exact Hl|]. split; [exact Hf|].
  pose proof (proj2 (pool_links_invariant ctr_paired ctr_left id xx_rel dx_incoming dx_written
    id false demo_creds p Hr) 0 l Hl) as Hx.
  unfold is_connected in Hf. destruct (state l); [exact Hx|discriminate Hf].
Defined.

Lemma guard_is_exclusive_witness :
  ∃ l, run (demo_connect ++ [EAcquire]) demo_link = Some l ∧ is_ok (transport l) = true ∧
       acquire l = None.
Proof.
  destruct (demo_run (demo_connect ++ [EAcquire]) guarded) as (p & l & Hr & Hl & Hrun & Hf).
  { repeat constructor. }
  { vm_compute. reflexivity. }
  destruct (guard_is_exclusive ctr_paired ctr_left id xx_rel dx_incoming dx_written
    id false demo_creds p 0 l Hr Hl Hf) as ([c Hc] & Ha & _).
  exists l. rewrite Hc. auto.
Defined.

Lemma connected_to_target_witness :
  ∃ tx_rx : Counter * (MessageTx Sink * MessageRx Pipe),
    from_handshake (S := Duplex) demo_creds demo_target tx_rx.
Proof.
  destruct (demo_run [EDial 0 (Ok (demo_stream demo_msg2)) 0]
    (λ l, match step (EInstall 0) l with Some l' => is_connected l' && negb (is_connected l) | None => false end))
    as (p & l & Hr & Hl & Hrun & Hf).
  { repeat constructor. }
  { vm_compute. reflexivity. }
  destruct (step (EInstall 0) l) as [l'|] eqn:Hs; [|discriminate Hf]. unfold is_connected in Hf.
  destruct (state l') as [c|] eqn:Hst'; [|discriminate Hf].
  destruct (state l) as [c'|] eqn:Hst; [discriminate Hf|]. exists c.
  assert (Hid : creds l = demo_creds ∧ target l = demo_target).
  { cbn [run] in Hrun. destruct (step _ demo_link) as [l1|] eqn:H1; [|discriminate Hrun].
    destruct (step_identity _ _ _ H1) as [Ht Hc]. injection Hrun as <-. auto. }
  destruct Hid as [<- <-].
  exact (connected_to_target ctr_paired ctr_left id xx_rel dx_incoming dx_written
    id false demo_creds p 0 l (EInstall 0) l' c Hr Hl Hs Hst Hst').
Defined.

Lemma dropped_guard_resets_witness :
  ∃ l l1 l2, run (demo_connect ++ [EAcquire]) demo_link = Some l ∧ guard_drop guard_new l = Some l1 ∧
    run [EDial 0 (Ok (demo_stream demo_msg2)) 0] l1 = Some l2 ∧
    acquire l2 = Some (Err not_ready, l2).
Proof.
  destruct (demo_run (demo_connect ++ [EAcquire])
    (λ l, match guard_drop guard_new l with
          | Some l1 => match run [EDial 0 (Ok (demo_stream demo_msg2)) 0] l1 with
                       | Some _ => true | None => false end
          | None => false end)) as (p & l & _ & _ & Hrun & Hf).
  { repeat constructor. }
  { vm_compute. reflexivity. }
  destruct (guard_drop guard_new l) as [l1|] eqn:H1; [|discriminate Hf].
  destruct (run _ l1) as [l2|] eqn:H2; [|discriminate Hf].
  exists l, l1, l2. do 3 (split; [assumption|]).
  eapply (dropped_guard_resets l l1 [EDial 0 (Ok (demo_stream demo_msg2)) 0] l2 H1); [|exact H2].
  constructor; [intros j; discriminate|constructor].
Defined.

Lemma committed_guard_keeps_transport_witness :
  ∃ l l1 l2, run (demo_connect ++ [EAcquire]) demo_link = Some l ∧ use_transport id l = Some l1 ∧
    commit guard_new l1 = Some l2 ∧ tasks l2 = [].
Proof.
  destruct (demo_run (demo_connect ++ [EAcquire])
    (λ l, guarded l && is_ok (transport l) &&
          match use_transport id l with
          | Some l1 => match commit guard_new l1 with Some _ => true | None => false end
          | None => false end)) as (p & l & Hr & Hl & Hrun & Hf).
  { repeat constructor. }
  { vm_compute. reflexivity. }
  apply andb_prop in Hf as [Hf Hu]. apply andb_prop in Hf as [Hg Ht].
  destruct (transport l) as [c| | |] eqn:Htr; [|discriminate Ht..].
  destruct (use_transport id l) as [l1|] eqn:H1; [|discriminate Hu].
  destruct (commit guard_new l1) as [l2|] eqn:H2; [|discriminate Hu].
  exists l, l1, l2. do 3 (split; [assumption|]).
  apply (committed_guard_keeps_transport ctr_paired ctr_left id xx_rel dx_incoming dx_written
    id false demo_creds p 0 l id l1 l2 c Hr Hl Hg Htr H1 H2).
Defined.

Lemma backoff_schedule_witness :
  ∃ l', run (failures 10 INITIAL_BACKOFF HandshakeTimeout) demo_link = Some l' ∧
        tasks l' = [Dialing 30000].
Proof.
  destruct (backoff_schedule 10 HandshakeTimeout demo_link eq_refl) as (l' & Hr & Ht & _).
  exists l'. split; [exact Hr|exact Ht].
Defined.

Lemma no_lost_wakeup_witness :
  ∃ l, run ([EWait 1000; ECheck 0] ++ demo_connect) demo_link = Some l ∧
       is_Some (wait_notified 0 l) ∧ wait_timeout 0 l = None.
Proof.
  destruct (demo_run ([EWait 1000; ECheck 0] ++ demo_connect)
    (λ l, is_connected l && match waiters l !! 0 with Some (Awaiting 1000 0) => true | _ => false end))
    as (p & l & Hr & Hl & Hrun & Hf).
  { repeat constructor. }
  { vm_compute. reflexivity. }
  apply andb_prop in Hf as [Hc Hw]. unfold is_connected in Hc.
  destruct (state l) as [c|] eqn:Hst; [|discriminate Hc].
  destruct (waiters l !! 0) as [[|d e|]|] eqn:Hwt; [discriminate Hw| |discriminate Hw..].
  exists l. split; [exact Hrun|].
  exact (no_lost_wakeup ctr_paired ctr_left id xx_rel dx_incoming dx_written
    id false demo_creds p 0 l 0 d e c Hr Hl Hwt Hst).
Defined.

Lemma reconnection_possible_witness :
  ∃ es l' l'', run es demo_link = Some l' ∧ acquire l' = Some (Ok guard_new, l'').
Proof.
  assert (Hok : is_ok (try_connect (Ok (demo_stream demo_msg2)) 0 demo_link) = true)
    by (vm_compute; reflexivity).
  destruct (try_connect _ _ _) as [c| | |] eqn:Hc; [|discriminate Hok..].
  destruct (demo_reachable [] demo_link) as (p & Hr & Hl); [constructor|reflexivity|].
  destruct (reconnection_possible ctr_paired ctr_left id xx_rel dx_incoming dx_written
    id demo_creds p 0 demo_link _ c Hr Hl eq_refl Hc)
    as (es & l' & l'' & _ & ? & ?). eauto.
Defined.

Lemma peer_returns_same_link_witness :
  ∃ p', (peer (C := unit) (T := Counter) (R := Pipe) (W := Sink)
           demo_target (Ok tt) 0 (pool_new demo_creds)) = (Ok {| conn_link := 0 |}, p') ∧
        peer demo_target Panic 7 p' = (Ok {| conn_link := 0 |}, p').
Proof.
  eexists. split; [reflexivity|].
  apply (peer_returns_same_link ctr_paired ctr_left id xx_rel dx_incoming dx_written
    id false demo_creds (pool_new demo_creds)
    demo_target (Ok tt) 0); [constructor|reflexivity].
Defined.

Lemma panicking_connector_strands_link_witness :
  ∃ l l1, run [EDial 0 Panic 0] demo_link = Some l ∧
    run [EWait 1000; ECheck 0; ETick 3600000; ETimeout 0] l = Some l1 ∧
    acquire l1 = Some (Err not_ready, l1).
Proof.
  destruct (demo_reachable [] demo_link) as (p & Hr & Hl); [constructor|reflexivity|].
  do 2 eexists. split; [reflexivity|]. split; [reflexivity|].
  eapply (panicking_connector_strands_link ctr_paired ctr_left id xx_rel dx_incoming dx_written
    id false demo_creds p 0 demo_link 0 0 _ [EWait 1000; ECheck 0; ETick 3600000; ETimeout 0] _
    Hr Hl); reflexivity.
Defined.
