(* ===== verification/Connectors.v ===== *)
(** * Connectors and the reconnect loop (src/pool.rs)

    [TcpConnector] as an instance of the pool's [Connector] interface, over
    tokio's [TcpStream] as a parameter; and [reconnect_task] as the loop it is,
    dialling through a connector, sleeping and installing, with no other event
    of the link in between.  The theorems give the time that the loop sleeps
    before it connects, and what it has connected to over TCP. *)

From stdpp Require Import gmap strings.
From S2P Require Import Prelude PacketState Interfaces Doubles NodeId Noise Sign Auth Packets Handshake Messages Lib Pool.

(** ** TcpConnector *)

(** tokio's [TcpStream]: connecting to a host and port, and an option of the
    socket, both acting on the network stack. *)
Class TcpStack (Net S : Type) : Type := {
  tcp_connect : string * Z → M Net IoError S;
  tcp_set_nodelay : S → bool → M Net IoError ();
}.

(** What the connector relies on: a stream that [tcp_connect] returns is one
    to the address it was called with, and an option once set is set. *)
Class TcpStackLaws (Net S : Type) `{TcpStack Net S} (peer_addr : S → string * Z)
    (nodelay : Net → S → bool) : Prop := {
  tcp_connect_addr addr net s net' : tcp_connect addr net = (Ok s, net') → peer_addr s = addr;
  tcp_set_nodelay_set s b net net' : tcp_set_nodelay s b net = (Ok tt, net') → nodelay net' s = b;
}.

Record TcpConnector : Type := { hostname : string; port : Z }.

(** A call of the network stack, its error wrapped by [ConnectionError::Io]. *)
Definition on_net {Net A} (m : M Net IoError A) : M Net ConnectionError A :=
  zoom id (λ net _, net) Io m.

Definition tcp_connector_connect {Net S} `{TcpStack Net S} (self : TcpConnector)
    : M Net ConnectionError S :=
  let addr := (hostname self, port self) in
  let! stream := on_net (tcp_connect addr) in
  do! on_net (tcp_set_nodelay stream true) in
  ret stream.

#[export] Instance tcp_connector {Net S} `{TcpStack Net S} : Connector TcpConnector S Net :=
  {| connector_connect := tcp_connector_connect |}.

(** A stream from dialling is one to the configured address, without delay. *)
Lemma tcp_connector_stream {Net S} `{TcpStack Net S} (peer_addr : S → string * Z) nodelay
    `{!TcpStackLaws Net S peer_addr nodelay} (self : TcpConnector) (net : Net) s net' :
  tcp_connector_connect self net = (Ok s, net') →
  peer_addr s = (hostname self, port self) ∧ nodelay net' s = true.
Proof.
  unfold tcp_connector_connect, on_net, bind, zoom, ret, id. cbv zeta.
  destruct (tcp_connect _ net) as [[s1|e| |] net1] eqn:Hc; cbn [map_err]; [|done..].
  destruct (tcp_set_nodelay s1 true net1) as [[[]|e| |] net2] eqn:Hn; cbn [map_err]; [|done..].
  intros [= <- <-]. split; [by eapply tcp_connect_addr|by eapply tcp_set_nodelay_set].
Qed.

(** ** reconnect_task as a loop *)

Section Reconnect.
Context {C HS T S R W Net : Type}
  `{SnowHandshake HS T, AsyncRead S, AsyncWrite S, SplitStream S R W}.
Context {SK VK Sig : Type} `{Ed25519 SK VK Sig} {FB FP : Type} `{Yatlv FB FP}.
Context `{!Connector C S Net}.

Abbreviation Link := (PeerLink (C := C) (T := T) (R := R) (W := W) (VK := VK)).
Abbreviation Event := (event (T := T) (S := S) (R := R) (W := W)).

(** One turn of the loop up to its sleep: dial, then shake hands, which
    takes [elapsed]. *)
Definition attempt (elapsed : Z) (ln : Link * Net) : option (Link * Net) :=
  let '(dial, net') := connector_connect (connector ln.1) ln.2 in
  l' ← task_dial 0 dial elapsed ln.1;
  Some (l', net').

(** The task alone, from where it is until it returns: attempts, sleeps to
    the instant the sleep ends, and the installation of the new transport.
    [elapsed n] is the time that the handshake of the [n]th attempt from here
    takes; the clock of the link counts the sleeps. *)
Fixpoint reconnect_task (elapsed : nat → Z) (fuel : nat) (ln : Link * Net) : option (Link * Net) :=
  match fuel with
  | O => None
  | Datatypes.S f =>
      match tasks ln.1 with
      | [] => Some ln
      | Dialing _ :: _ => attempt (elapsed 0) ln ≫= reconnect_task (elapsed ∘ Datatypes.S) f
      | Sleeping wake_at _ :: _ =>
          l' ← task_wake 0 (set_now (Z.max (now ln.1) wake_at) ln.1);
          reconnect_task elapsed f (l', ln.2)
      | Installing _ :: _ =>
          l' ← task_install 0 ln.1;
          reconnect_task elapsed f (l', ln.2)
      end
  end.

(** [k] attempts on the link fail, taking the network from [net] to [net']. *)
Inductive attempts_fail (l : Link) : (nat → Z) → nat → Net → Net → Prop :=
| fail_none elapsed net : attempts_fail l elapsed 0 net net
| fail_more elapsed k net net1 net2 dial err :
    connector_connect (connector l) net = (dial, net1) →
    try_connect dial (elapsed 0) l = Err err →
    attempts_fail l (elapsed ∘ Datatypes.S) k net1 net2 →
    attempts_fail l elapsed (Datatypes.S k) net net2.

(** The delays of [k] failures in a row, starting from [b]. *)
Fixpoint total_backoff (k : nat) (b : Z) : Z :=
  match k with
  | O => 0
  | Datatypes.S k' => (b + total_backoff k' (next_backoff b))%Z
  end.

Lemma total_backoff_max k : total_backoff k MAX_BACKOFF = (30000 * Z.of_nat k)%Z.
Proof.
  induction k as [|k IH]; [done|]. cbn [total_backoff].
  change (next_backoff MAX_BACKOFF) with MAX_BACKOFF. rewrite IH. unfold MAX_BACKOFF. lia.
Qed.

(** Ten failures double the delay from 50 ms to 25.6 s; the delay after that is 30 s. *)
Lemma total_backoff_closed k :
  total_backoff k INITIAL_BACKOFF =
  (if decide (k ≤ 10)%nat then 50 * (2 ^ Z.of_nat k - 1) else 51150 + 30000 * (Z.of_nat k - 10))%Z.
Proof.
  do 11 (destruct k as [|k]; [reflexivity|]). rewrite decide_False by lia.
  do 11 (cbn [total_backoff]; match goal with |- context [next_backoff ?b] =>
    let v := eval vm_compute in (next_backoff b) in change (next_backoff b) with v end).
  change 30000%Z with MAX_BACKOFF. rewrite total_backoff_max.
  change INITIAL_BACKOFF with 50%Z. change MAX_BACKOFF with 30000%Z. lia.
Qed.

(** A failed attempt and its sleep. *)
Lemma failed_turn elapsed f l net b dial net1 err :
  tasks l = [Dialing b] → (0 ≤ b)%Z →
  connector_connect (connector l) net = (dial, net1) → try_connect dial (elapsed 0) l = Err err →
  let l1 := set_now (now l + b) (set_tasks [Dialing (next_backoff b)] l) in
  reconnect_task elapsed (2 + f) (l, net) = reconnect_task (elapsed ∘ Datatypes.S) f (l1, net1) ∧
  run [EDial 0 dial (elapsed 0); ETick b; EWake 0] l = Some l1.
Proof.
  intros Ht Hb Hc He. cbn [Nat.add reconnect_task fst snd run step]. rewrite Ht. unfold attempt.
  cbn [fst snd]. rewrite Hc. unfold task_dial. rewrite Ht. cbn [lookup list_lookup]. rewrite He.
  cbn. unfold task_wake. cbn. rewrite !decide_True by lia. cbn. rewrite Z.max_r by lia.
  rewrite decide_True by lia. done.
Qed.

(** The turn that connects. *)
Lemma connecting_turn elapsed f l net b s net1 tr :
  tasks l = [Dialing b] → guarded l = false →
  connector_connect (connector l) net = (Ok s, net1) → try_connect (Ok s) (elapsed 0) l = Ok tr →
  let l1 := set_tasks [] (notify_waiters (set_state (Connected tr) l)) in
  reconnect_task elapsed (3 + f) (l, net) = Some (l1, net1) ∧
  run [EDial 0 (Ok s) (elapsed 0); EInstall 0] l = Some l1.
Proof.
  intros Ht Hg Hc He. cbn [Nat.add reconnect_task fst snd run step]. rewrite Ht. unfold attempt.
  cbn [fst snd]. rewrite Hc. unfold task_dial. rewrite Ht. cbn [lookup list_lookup]. rewrite He.
  cbn. unfold task_install. cbn. by rewrite Hg.
Qed.

(** The clock and the task are not looked at by an attempt. *)
Lemma attempts_fail_later l elapsed k net net' t ts :
  attempts_fail l elapsed k net net' → attempts_fail (set_now t (set_tasks ts l)) elapsed k net net'.
Proof. induction 1; econstructor; eauto. Qed.

(** The loop, from a delay [b] on: where it gets to, and that it is a run of
    the link in which no connector panics. *)
Lemma reconnect_task_connects elapsed k l b net net1 s net2 tr :
  tasks l = [Dialing b] → (0 ≤ b)%Z → guarded l = false →
  attempts_fail l elapsed k net net1 →
  connector_connect (connector l) net1 = (Ok s, net2) →
  try_connect (Ok s) (elapsed k) l = Ok tr →
  ∃ l' es, reconnect_task elapsed (2 * k + 3) (l, net) = Some (l', net2) ∧
    state l' = Connected tr ∧ tasks l' = [] ∧ guarded l' = false ∧
    connected l' = connected l + 1 ∧ now l' = (now l + total_backoff k b)%Z ∧
    Forall (event_ok false) es ∧ run es l = Some l'.
Proof.
  revert elapsed l b net. induction k as [|k IH]; intros elapsed l b net Ht Hb Hg Hf Hc Htr.
  - inversion Hf; subst.
    destruct (connecting_turn elapsed 0 l net1 b s net2 tr Ht Hg Hc Htr) as [Hrec Hrun].
    eexists _, _. split; [exact Hrec|]. cbn [total_backoff]. rewrite Z.add_0_r.
    do 5 (split; [done|]). split; [|exact Hrun]. by repeat constructor.
  - inversion Hf as [|el k' n n1 n2 dial err Hd He Hrest]; subst.
    destruct (failed_turn elapsed (2 * k + 3) l net b dial n1 err Ht Hb Hd He) as [Hrec Hrun].
    destruct (IH (elapsed ∘ Datatypes.S) (set_now (now l + b) (set_tasks [Dialing (next_backoff b)] l))
      (next_backoff b) n1) as (l' & es & Hr & Hst & Hts & Hgd & Hcn & Hnow & Hes & Hrun');
      [done|unfold next_backoff, MAX_BACKOFF; lia|done|by apply attempts_fail_later|done|done|].
    replace (2 * Datatypes.S k + 3) with (2 + (2 * k + 3)) by lia.
    exists l', ([EDial 0 dial (elapsed 0); ETick b; EWake 0] ++ es). rewrite Hrec.
    split; [exact Hr|]. do 4 (split; [done|]). split_and!.
    + rewrite Hnow. cbn. lia.
    + apply Forall_app. split; [|done]. repeat constructor. by destruct dial.
    + by rewrite run_app, Hrun.
Qed.

(** C20: the loop connects when the network does.  A reconnect task started on
    a free link, whose first [k] attempts fail (refused, timed out, wrong
    peer) and whose next one authenticates the target, returns with the link
    connected to that transport and the waiters notified, after sleeping for
    exactly [50 * (2^k - 1)] ms up to ten failures, and 30 s more for each
    further one. *)
Theorem reconnect_after_failures elapsed k (l : Link) net net1 s net2 tr :
  tasks l = [Dialing INITIAL_BACKOFF] → guarded l = false →
  attempts_fail l elapsed k net net1 →
  connector_connect (connector l) net1 = (Ok s, net2) →
  try_connect (Ok s) (elapsed k) l = Ok tr →
  ∃ l', reconnect_task elapsed (2 * k + 3) (l, net) = Some (l', net2) ∧
    state l' = Connected tr ∧ tasks l' = [] ∧ guarded l' = false ∧
    connected l' = connected l + 1 ∧
    now l' = (now l + if decide (k ≤ 10)%nat then 50 * (2 ^ Z.of_nat k - 1)
                      else 51150 + 30000 * (Z.of_nat k - 10))%Z.
Proof.
  intros Ht Hg Hf Hc Htr. rewrite <- total_backoff_closed.
  destruct (reconnect_task_connects elapsed k l INITIAL_BACKOFF net net1 s net2 tr)
    as (l' & es & ? & ? & ? & ? & ? & ? & _); [done..|]. by exists l'.
Qed.

End Reconnect.

(** ** The pool over TCP *)

Section Tcp.
Context {HS T S R W Net : Type}
  `{SnowHandshake HS T, AsyncRead S, AsyncWrite S, SplitStream S R W}.
Context {SK VK Sig : Type} `{Ed25519 SK VK Sig} {FB FP : Type} `{Yatlv FB FP}.
Context `{TcpStack Net S}.
Context (paired : T → T → Prop) (nonces_left : T → nat) (public_of : bytes → bytes)
  (xx : nat → bytes → bytes → HS → HS → Prop)
  `{!SnowHandshakeLaws HS T paired nonces_left public_of xx}.
Context (incoming : S → bytes) `{!FaultyReaderLaws S incoming}.
Context (written : S → bytes) `{!FaultyWriterLaws S written}.
Context `{!Ed25519Laws SK VK Sig} (fields : FB → list (Z * bytes)) `{!YatlvLaws FB FP fields}.
Context (peer_addr : S → string * Z) (nodelay : Net → S → bool)
  `{!TcpStackLaws Net S peer_addr nodelay}.

Abbreviation Link := (PeerLink (C := TcpConnector) (T := T) (R := R) (W := W) (VK := VK)).

(** C21: over TCP the pool reaches the configured address and the right node.
    Take a link of a reachable pool whose connector is a [TcpConnector] and
    whose background task is about to dial.  If its next [k] attempts fail
    and the one after gets a stream on which the target authenticates, the
    task returns: the link is in a reachable pool again and connected, its
    transport was made by a handshake that authenticated the link's target,
    and the stream under it goes to the connector's host and port and has
    [TCP_NODELAY] set in the network that the task leaves behind. *)
Theorem tcp_link_reconnects panics cr p i (l : Link) b elapsed k net net1 s net2 tr :
  reachable panics cr p → links p !! i = Some l → tasks l = [Dialing b] →
  attempts_fail l elapsed k net net1 →
  connector_connect (connector l) net1 = (Ok s, net2) →
  try_connect (Ok s) (elapsed k) l = Ok tr →
  peer_addr s = (hostname (connector l), port (connector l)) ∧ nodelay net2 s = true ∧
  from_handshake (creds l) (target l) tr ∧
  ∃ l' p', reconnect_task elapsed (2 * k + 3) (l, net) = Some (l', net2) ∧
    state l' = Connected tr ∧ reachable panics cr p' ∧ links p' !! i = Some l'.
Proof.
  intros Hr Hi Ht Hf Hc Htr.
  pose proof (reachable_link paired nonces_left public_of xx incoming written fields
    panics cr p i l Hr Hi) as Hinv.
  destruct (link_inv_task panics l 0 (Dialing b) Hinv) as (_ & _ & _ & Hg & Hb); [by rewrite Ht|].
  destruct (reconnect_task_connects elapsed k l b net net1 s net2 tr)
    as (l' & es & Hrec & Hst & _ & _ & _ & _ & Hes & Hrun);
    [done|cbn in Hb; unfold INITIAL_BACKOFF in Hb; lia|done..|].
  destruct (tcp_connector_stream peer_addr nodelay _ _ _ _ Hc) as [Ha Hn].
  assert (Hes' : Forall (event_ok panics) es).
  { eapply Forall_impl; [exact Hes|]. intros [? [| | |]| | | | | | | | | |]; done. }
  destruct (reachable_run panics cr p i l es l' Hr Hi Hes' Hrun) as (p' & Hr' & Hi').
  split_and!; [done|done|by eapply try_connect_ok|]. by exists l', p'.
Qed.

End Tcp.

(** ** A concrete network *)

(** A host that answers with the listed results, at one address. *)
Record Script : Type := { script_answers : list (outcome IoError Duplex); script_nodelay : bool }.

Definition demo_addr : string * Z := ("peer", 7000%Z).

#[export] Instance script_tcp : TcpStack Script Duplex := {|
  tcp_connect addr net :=
    if decide (addr = demo_addr) then
      match script_answers net with
      | Ok s :: rest => (Ok s, {| script_answers := rest; script_nodelay := false |})
      | _ :: rest => (Err (IoOther 111), {| script_answers := rest; script_nodelay := false |})
      | [] => (Err (IoOther 111), net)
      end
    else (Err (IoOther 113), net);
  tcp_set_nodelay _ b net :=
    (Ok tt, {| script_answers := script_answers net; script_nodelay := b |});
|}.

#[export] Instance script_tcp_laws :
  TcpStackLaws Script Duplex (λ _, demo_addr) (λ net _, script_nodelay net).
Proof.
  split; [|by intros s b net net' [= <-]]. intros addr net s net'. cbn.
  by destruct (decide (addr = demo_addr)) as [-> |].
Qed.

Definition demo_tcp_link : PeerLink (C := TcpConnector) (T := Counter) (R := Pipe) (W := Sink) :=
  peer_link_new {| hostname := "peer"; port := 7000 |} demo_target demo_creds 0.

(** Refused, then too slow, then accepted by node 2. *)
Definition demo_net (n : nat) : Script :=
  {| script_answers := drop n [Err UnexpectedEof; Ok (demo_stream demo_msg2); Ok (demo_stream demo_msg2)];
     script_nodelay := bool_decide (2 ≤ n) |}.
Definition demo_elapsed (n : nat) : Z := if decide (n = 1) then 60000 else 5.

(** The transport that the last attempt makes. *)
Lemma demo_tcp_handshake :
  ∃ tr, try_connect (Ok (demo_stream demo_msg2)) 5 demo_tcp_link = Ok tr.
Proof.
  assert (Hok : is_ok (try_connect (Ok (demo_stream demo_msg2)) 5 demo_tcp_link) = true)
    by (vm_compute; reflexivity).
  destruct (try_connect _ _ _) as [tr| | |]; [by exists tr|discriminate Hok..].
Qed.

Lemma demo_attempts_fail :
  attempts_fail demo_tcp_link demo_elapsed 2 (demo_net 0) (demo_net 2).
Proof.
  eapply (fail_more _ _ 1 _ (demo_net 1) _ (Err (Io (IoOther 111)))); [reflexivity|reflexivity|].
  eapply (fail_more _ _ 0 _ (demo_net 2) _ (Ok (demo_stream demo_msg2))); [reflexivity| |constructor].
  vm_compute. reflexivity.
Qed.

Lemma reconnect_after_failures_witness :
  ∃ l' tr, reconnect_task demo_elapsed 7 (demo_tcp_link, demo_net 0) = Some (l', demo_net 3) ∧
    state l' = Connected tr ∧ now l' = 150%Z.
Proof.
  destruct demo_tcp_handshake as [tr Htr].
  destruct (reconnect_after_failures demo_elapsed 2 demo_tcp_link (demo_net 0) (demo_net 2)
    (demo_stream demo_msg2) (demo_net 3) tr) as (l' & Hr & Hst & _ & _ & _ & Hnow).
  - reflexivity.
  - reflexivity.
  - exact demo_attempts_fail.
  - reflexivity.
  - exact Htr.
  - exists l', tr. split; [exact Hr|]. split; [exact Hst|exact Hnow].
Defined.

Lemma tcp_link_reconnects_witness :
  ∃ l' tr, reconnect_task demo_elapsed 7 (demo_tcp_link, demo_net 0) = Some (l', demo_net 3) ∧
    state l' = Connected tr ∧ from_handshake (S := Duplex) demo_creds demo_target tr.
Proof.
  destruct demo_tcp_handshake as [tr Htr].
  destruct (tcp_link_reconnects ctr_paired ctr_left id xx_rel dx_incoming dx_written
    id (λ _, demo_addr) (λ net _, script_nodelay net) false
    demo_creds (peer demo_target (Ok {| hostname := "peer"; port := 7000 |}) 0 (pool_new demo_creds)).2
    0 demo_tcp_link 50 demo_elapsed 2 (demo_net 0) (demo_net 2) (demo_stream demo_msg2) (demo_net 3) tr)
    as (_ & _ & Hfrom & l' & p' & Hrec & Hst & _).
  - apply rtc_once. by apply (ps_peer _ _ demo_target (Ok {| hostname := "peer"; port := 7000 |}) 0
      (Ok {| conn_link := 0 |})).
  - reflexivity.
  - reflexivity.
  - exact demo_attempts_fail.
  - reflexivity.
  - exact Htr.
  - exists l', tr. split; [exact Hrec|]. split; [exact Hst|exact Hfrom].
Defined.
