(* ===== verification/PoolQueue.v ===== *)
(** * Waiting for the lock of a link (src/pool.rs: the [AsyncMutex] of [PeerLink])

    [Pool] lets any party that wants the lock take it when it is free.  Here
    the parties wait for it: calls of [Connection::acquire], the checks of
    [wait_connected] and the reconnect task that installs a transport each
    ask tokio's mutex for the lock and go on when it grants it to them; a
    call that is cancelled stops waiting.  The mutex is a parameter with its
    documented order of grants.  The theorems show that the code never
    leaves a party waiting for a lock it could not use: every request is
    served after as many releases as there are requests before it. *)

From stdpp Require Import sets.
From S2P Require Import Prelude PacketState Interfaces Doubles NodeId Noise Sign Auth Packets Handshake Messages Lib Pool.

(** Who waits for the lock: a caller of [acquire], a [wait_connected] call,
    or the reconnect task. *)
Inductive want : Set :=
| WAcquire (caller : nat)
| WCheck (waiter : nat)
| WInstall.

#[export] Instance want_eq_dec : EqDecision want.
Proof. solve_decision. Defined.

(** ** tokio's fair mutex *)

(** The requests for the lock that a mutex knows of: a call of [lock] that
    is polled joins them, the mutex grants the lock when it is free, and a
    [lock] future that is dropped leaves. *)
Class FairMutex (Q : Type) : Type := {
  mutex_new : Q;
  lock_requested : want → Q → Q;
  lock_granted : Q → option (want * Q);
  lock_cancelled : want → Q → Q;
}.

(** tokio's documentation: calls of [lock] acquire the lock in the exact
    order in which they were made, and cancelling a call only loses its own
    place in the queue. *)
Class FairMutexLaws (Q : Type) `{FairMutex Q} (waiting : Q → list want) : Prop := {
  waiting_new : waiting mutex_new = [];
  waiting_requested w m : waiting (lock_requested w m) = waiting m ++ [w];
  waiting_granted m w rest : waiting m = w :: rest →
    ∃ m', lock_granted m = Some (w, m') ∧ waiting m' = rest;
  waiting_none m : waiting m = [] → lock_granted m = None;
  waiting_cancelled w m : waiting (lock_cancelled w m) = filter (λ w', w' ≠ w) (waiting m);
}.

(** The lock is granted to whoever waits first. *)
Lemma lock_granted_inv {Q} `{FairMutexLaws Q waiting} m w m' :
  lock_granted m = Some (w, m') → waiting m = w :: waiting m'.
Proof.
  intros Hg. destruct (waiting m) as [|w1 rest] eqn:Hm; [by rewrite waiting_none in Hg|].
  destruct (waiting_granted m w1 rest Hm) as (m1 & Hg1 & <-). by simplify_eq.
Qed.

Section Queue.
Context {Q : Type} `{FairMutex Q}.
Context {C HS T S R W : Type}
  `{SnowHandshake HS T, AsyncRead S, AsyncWrite S, SplitStream S R W}.
Context {SK VK Sig : Type} `{Ed25519 SK VK Sig} {FB FP : Type} `{Yatlv FB FP}.

Abbreviation Link := (PeerLink (C := C) (T := T) (R := R) (W := W) (VK := VK)).
Abbreviation Event := (event (T := T) (S := S) (R := R) (W := W)).

(** A link, the mutex around its state, the parties that are waiting for it,
    and the answers that [acquire] calls have got. *)
Record Locked : Type := {
  link : Link;
  mutex : Q;
  blocked : list want;
  answers : list (nat * outcome NotReady Guard);
}.

(** The event that a request performs once it has the lock. *)
Definition granted_event (w : want) : Event :=
  match w with
  | WAcquire _ => EAcquire
  | WCheck i => ECheck i
  | WInstall => EInstall 0
  end.

(** What an [acquire] call is told when it is served. *)
Definition answer (w : want) (l : Link) : list (nat * outcome NotReady Guard) :=
  match w with
  | WAcquire n => match acquire l with Some (r, _) => [(n, r)] | None => [] end
  | _ => []
  end.

(** A party asks for the lock when its code has got there, once. *)
Definition asks (w : want) (q : Locked) : bool :=
  bool_decide (w ∉ blocked q) &&
  match w with
  | WAcquire _ => true
  | WCheck i => match waiters (link q) !! i with Some (Checking _ _) => true | _ => false end
  | WInstall => match tasks (link q) with [Installing _] => true | _ => false end
  end.

(** A call of [acquire] or [wait_connected] can be dropped while it waits;
    the reconnect task is never cancelled. *)
Definition cancellable (w : want) : bool :=
  match w with WInstall => false | _ => true end.

(** [ws] without [w]. *)
Definition unblock (w : want) (ws : list want) : list want := filter (λ w', w' ≠ w) ws.

(** Events that need no lock, or that the holder of the lock performs. *)
Definition lock_free (e : Event) : bool :=
  match e with EAcquire | ECheck _ | EInstall _ => false | _ => true end.

Inductive qevent : Type :=
| QRequest (w : want)
| QGrant
| QCancel (w : want)
| QLink (e : Event).

Definition qstep (e : qevent) (q : Locked) : option Locked :=
  match e with
  | QRequest w =>
      if asks w q
      then Some {| link := link q; mutex := lock_requested w (mutex q);
                   blocked := w :: blocked q; answers := answers q |}
      else None
  | QGrant =>
      '(w, m) ← lock_granted (mutex q);
      l' ← step (granted_event w) (link q);
      Some {| link := l'; mutex := m; blocked := unblock w (blocked q);
              answers := answers q ++ answer w (link q) |}
  | QCancel w =>
      if bool_decide (w ∈ blocked q) && cancellable w
      then Some {| link := link q; mutex := lock_cancelled w (mutex q);
                   blocked := unblock w (blocked q); answers := answers q |}
      else None
  | QLink e =>
      if lock_free e
      then l' ← step e (link q);
           Some {| link := l'; mutex := mutex q; blocked := blocked q; answers := answers q |}
      else None
  end.

Fixpoint qrun (es : list qevent) (q : Locked) : option Locked :=
  match es with
  | [] => Some q
  | e :: es' => q' ← qstep e q; qrun es' q'
  end.

Definition locked_new (c : C) (tgt : NodeId) (cr : Credentials) (t : Z) : Locked :=
  {| link := peer_link_new c tgt cr t; mutex := mutex_new; blocked := []; answers := [] |}.

(** The holder of the lock, if any, lets go (with or without [commit]), and
    the next request is served. *)
Definition serve (g : Guard) (q : Locked) : option Locked :=
  q1 ← (if guarded (link q) then qstep (QLink (EDrop g)) q else Some q);
  qstep QGrant q1.

Fixpoint serve_all (bs : list Guard) (q : Locked) : option Locked :=
  match bs with
  | [] => Some q
  | b :: bs' => q' ← serve b q; serve_all bs' q'
  end.

(** ** Progress *)

Context (waiting : Q → list want) `{!FairMutexLaws Q waiting}.
Context (paired : T → T → Prop) (nonces_left : T → nat) (public_of : bytes → bytes)
  (xx : nat → bytes → bytes → HS → HS → Prop)
  `{!SnowHandshakeLaws HS T paired nonces_left public_of xx}.
Context (incoming : S → bytes) `{!FaultyReaderLaws S incoming}.
Context (written : S → bytes) `{!FaultyWriterLaws S written}.
Context `{!Ed25519Laws SK VK Sig} (fields : FB → list (Z * bytes)) `{!YatlvLaws FB FP fields}.

(** The party behind a request is still waiting for the lock. *)
Definition waits (l : Link) (w : want) : Prop :=
  match w with
  | WAcquire _ => True
  | WCheck i => ∃ d e, waiters l !! i = Some (Checking d e)
  | WInstall => ∃ c, tasks l = [Installing c]
  end.

Definition queue_inv (q : Locked) : Prop :=
  link_inv true (link q) ∧ NoDup (waiting (mutex q)) ∧
  Forall (waits (link q)) (waiting (mutex q)) ∧
  ∀ w, w ∈ blocked q ↔ w ∈ waiting (mutex q).

Lemma asks_waits w q : asks w q = true → (w ∉ blocked q) ∧ waits (link q) w.
Proof.
  unfold asks. intros Ha. apply andb_prop in Ha as [Hn Ha]. apply bool_decide_eq_true in Hn.
  split; [done|]. destruct w as [n|i|]; cbn; [done| |].
  - destruct (waiters (link q) !! i) as [[d e| |]|]; eauto; done.
  - destruct (tasks (link q)) as [|[| |c] [|]]; eauto; done.
Qed.

(** Events that do not need the lock leave every request waiting. *)
Lemma lock_free_waits e l l' w :
  link_inv true l → lock_free e = true → step e l = Some l' → waits l w → waits l' w.
Proof.
  intros Hl Hf Hs. destruct w as [n|i|]; cbn [waits]; [done| |].
  - intros (d & ep & Hi). exists d, ep.
    destruct e as [j dl el|j|j| |f|cm|t|i'|i'|i'|dt]; try done; cbn [step] in Hs;
      unfold task_dial, task_wake, use_transport, guard_drop, wait_connected, wait_notified,
        wait_timeout in Hs.
    1-4,8: by repeat (case_match; simplify_eq/=).
    + simplify_eq/=. by apply lookup_app_l_Some.
    + destruct (waiters l !! i') as [[|? ?|]|] eqn:Hi'; try done.
      destruct (decide _); [|done]. simplify_eq/=. rewrite list_lookup_insert_ne; [done|congruence].
    + destruct (waiters l !! i') as [[|? ?|]|] eqn:Hi'; try done.
      destruct (decide _); [|done]. simplify_eq/=. rewrite list_lookup_insert_ne; [done|congruence].
  - intros [c Hc]. exists c.
    assert (Hst : guarded l = false).
    { destruct Hl as (Hst & _). destruct (state l); [by rewrite Hc in Hst|apply Hst]. }
    destruct e as [j dl el|j|j| |f|cm|t|i'|i'|i'|dt]; try done; cbn [step] in Hs;
      unfold task_dial, task_wake, use_transport, guard_drop, wait_connected, wait_notified,
        wait_timeout in Hs; rewrite ?Hst, ?Hc in Hs; try done.
    1,2: by destruct j as [|[|]].
    all: repeat (case_match; simplify_eq/=); by simplify_eq/=.
Qed.

(** Serving a request leaves the other requests waiting. *)
Lemma granted_waits w w' l l' :
  link_inv true l → w ≠ w' → waits l w → step (granted_event w) l = Some l' → waits l w' → waits l' w'.
Proof.
  intros Hl Hne Hw Hs. destruct w as [n|i|]; cbn [granted_event step waits] in *.
  - unfold acquire in Hs. destruct (guarded l); [done|].
    destruct (state l); simplify_eq/=; by destruct w'.
  - unfold wait_check in Hs. destruct (waiters l !! i) as [[| |]|]; try done.
    destruct (guarded l); [done|]. simplify_eq. destruct w' as [|i'|]; [done| |done].
    intros (d & e & Hi). exists d, e. cbn. rewrite list_lookup_insert_ne; [done|congruence].
  - destruct Hw as [c Hc]. unfold task_install in Hs. rewrite Hc in Hs. cbn in Hs.
    destruct (guarded l); [done|]. simplify_eq. by destruct w'.
Qed.

(** A request that waits can be served when the lock is free. *)
Lemma grant_enabled w l : waits l w → guarded l = false → is_Some (step (granted_event w) l).
Proof.
  intros Hw Hg. destruct w as [n|i|]; cbn [granted_event step waits] in *.
  - unfold acquire. rewrite Hg. by destruct (state l); eexists.
  - destruct Hw as (d & e & Hi). unfold wait_check. rewrite Hi, Hg. by eexists.
  - destruct Hw as [c Hc]. unfold task_install. rewrite Hc. cbn. rewrite Hg. by eexists.
Qed.

Lemma link_step_inv e (l l' : Link) : link_inv true l → step e l = Some l' → link_inv true l'.
Proof.
  intros Hl. apply (step_inv paired nonces_left public_of xx incoming written fields true e l l' Hl).
  by destruct e as [? [| | |]| | | | | | | | | |].
Qed.

(** Only [w] is unblocked. *)
Lemma elem_of_unblock w w' ws : w' ∈ unblock w ws ↔ w' ≠ w ∧ w' ∈ ws.
Proof. unfold unblock. by rewrite list_elem_of_filter. Qed.

Lemma request_inv w q :
  queue_inv q → asks w q = true →
  queue_inv {| link := link q; mutex := lock_requested w (mutex q);
               blocked := w :: blocked q; answers := answers q |}.
Proof.
  intros (Hl & Hn & Hw & Hb) [Hnin Hwait]%asks_waits. split_and!; cbn; [done|..];
    rewrite waiting_requested.
  - apply NoDup_app. split_and!; [done| |apply NoDup_singleton].
    intros x Hx ->%list_elem_of_singleton. by apply Hnin, Hb.
  - apply Forall_app. split; [done|by apply Forall_singleton].
  - intros x. rewrite elem_of_cons, elem_of_app, list_elem_of_singleton, (Hb x). tauto.
Qed.

Lemma grant_inv w m l' ans q :
  queue_inv q → lock_granted (mutex q) = Some (w, m) → step (granted_event w) (link q) = Some l' →
  queue_inv {| link := l'; mutex := m; blocked := unblock w (blocked q); answers := ans |}.
Proof.
  intros (Hl & Hn & Hw & Hb) Hg%lock_granted_inv Hs. rewrite Hg in Hn, Hw, Hb.
  apply NoDup_cons in Hn as [Hnin Hn]. apply Forall_cons in Hw as [Hw1 Hw2].
  split_and!; cbn; [exact (link_step_inv _ _ _ Hl Hs)|done| |].
  - apply Forall_forall. intros w' Hin.
    apply (granted_waits w w' (link q) l' Hl); [by intros <-|done|done|].
    by eapply Forall_forall in Hw2.
  - intros x. rewrite elem_of_unblock, (Hb x), elem_of_cons. split; [tauto|].
    intros Hx. split; [by intros ->|by right].
Qed.

Lemma cancel_inv w q :
  queue_inv q →
  queue_inv {| link := link q; mutex := lock_cancelled w (mutex q);
               blocked := unblock w (blocked q); answers := answers q |}.
Proof.
  intros (Hl & Hn & Hw & Hb). split_and!; cbn; [done|..]; rewrite waiting_cancelled.
  - by apply NoDup_filter.
  - apply Forall_forall. intros x [_ Hx]%list_elem_of_filter. by eapply Forall_forall in Hw.
  - intros x. by rewrite elem_of_unblock, list_elem_of_filter, (Hb x).
Qed.

Lemma qstep_inv e q q' : queue_inv q → qstep e q = Some q' → queue_inv q'.
Proof.
  intros Hq Hs. destruct e as [w| |w|x]; cbn [qstep] in Hs.
  - destruct (asks w q) eqn:Ha; [|done]. simplify_eq. by apply request_inv.
  - apply bind_Some in Hs as ([w m] & Hg & Hs). apply bind_Some in Hs as (l' & Hl' & [= <-]).
    by apply grant_inv.
  - destruct (bool_decide (w ∈ blocked q) && cancellable w); [|done]. simplify_eq.
    by apply cancel_inv.
  - destruct (lock_free x) eqn:Hf; [|done]. apply bind_Some in Hs as (l' & Hl' & [= <-]).
    destruct Hq as (Hl & Hn & Hw & Hb). split_and!; cbn; [by eapply link_step_inv|done| |done].
    eapply Forall_impl; [exact Hw|]. intros w Hww. by eapply lock_free_waits.
Qed.

(** Executions of a link with its mutex, from its creation on. *)
Definition queue_reachable (q : Locked) : Prop :=
  ∃ c tgt cr t es, qrun es (locked_new c tgt cr t) = Some q.

Lemma qrun_inv es q q' : queue_inv q → qrun es q = Some q' → queue_inv q'.
Proof.
  revert q. induction es as [|e es IH]; intros q Hq Hr; cbn [qrun] in Hr; [by simplify_eq|].
  apply bind_Some in Hr as (q1 & Hs & Hr). eapply IH; [|exact Hr]. by eapply qstep_inv.
Qed.

Lemma queue_reachable_inv q : queue_reachable q → queue_inv q.
Proof.
  intros (c & tgt & cr & t & es & Hr). eapply qrun_inv; [|exact Hr].
  split_and!; cbn; rewrite ?waiting_new; [apply link_inv_new|constructor|constructor|done].
Qed.

(** What a request got when it was served, in the state right after. *)
Definition outcome_of (w : want) (q : Locked) : Prop :=
  match w with
  | WAcquire n => ∃ r, last (answers q) = Some (n, r) ∧ (r = Ok guard_new ↔ guarded (link q) = true)
  | WCheck i => ∃ x, waiters (link q) !! i = Some x ∧
      match x with
      | Checking _ _ => False
      | Returned r => r = Ok tt ∧ ∃ c, state (link q) = Connected c
      | Awaiting _ _ => state (link q) = Reconnecting
      end
  | WInstall => ∃ c, state (link q) = Connected c
  end.

Lemma grant_outcome w l l' m bl ans :
  waits l w → guarded l = false → step (granted_event w) l = Some l' →
  outcome_of w {| link := l'; mutex := m; blocked := bl; answers := ans ++ answer w l |}.
Proof.
  intros Hw Hg Hs. destruct w as [n|i|]; cbn [granted_event step waits outcome_of answer] in *.
  - unfold acquire in *. rewrite Hg in *. destruct (state l); simplify_eq/=; eexists;
      (split; [by rewrite last_snoc|]); cbn; [done|]. by rewrite Hg.
  - destruct Hw as (d & e & Hi). unfold wait_check in Hs. rewrite Hi, Hg in Hs. simplify_eq/=.
    rewrite list_lookup_insert_eq by (by eapply lookup_lt_Some).
    eexists. split; [done|]. destruct (state l) as [c|]; [|done]. split; [done|]. by exists c.
  - destruct Hw as [c Hc]. unfold task_install in Hs. rewrite Hc in Hs. cbn in Hs.
    rewrite Hg in Hs. simplify_eq/=. by exists c.
Qed.

(** The holder, if any, lets go; nobody stops waiting. *)
Lemma release_inv b q :
  queue_inv q →
  ∃ q1, (if guarded (link q) then qstep (QLink (EDrop b)) q else Some q) = Some q1 ∧
    mutex q1 = mutex q ∧ guarded (link q1) = false ∧ queue_inv q1.
Proof.
  intros Hq. destruct (guarded (link q)) eqn:Hg; [|by exists q].
  assert (is_Some (qstep (QLink (EDrop b)) q)) as [q1 Hs].
  { cbn [qstep lock_free step]. unfold guard_drop. rewrite Hg. by eexists. }
  exists q1. split; [exact Hs|]. pose proof (qstep_inv _ _ _ Hq Hs) as Hq1.
  cbn [qstep lock_free step] in Hs. unfold guard_drop in Hs. rewrite Hg in Hs.
  injection Hs as <-. done.
Qed.

(** One round: the lock is released if held, and the first in the queue is
    served. *)
Lemma serve_head b q w rest :
  queue_inv q → waiting (mutex q) = w :: rest →
  ∃ q', serve b q = Some q' ∧ waiting (mutex q') = rest ∧ queue_inv q' ∧ outcome_of w q'.
Proof.
  intros Hq Hqu. destruct (release_inv b q Hq) as (q1 & Hrel & Hm & Hg1 & Hq1).
  unfold serve. rewrite Hrel. cbn [mbind option_bind]. rewrite <- Hm in Hqu.
  destruct (waiting_granted _ _ _ Hqu) as (m & Hgr & Hrest).
  pose proof Hq1 as (_ & _ & Hw & _). rewrite Hqu in Hw. apply Forall_cons in Hw as [Hw _].
  destruct (grant_enabled w (link q1) Hw Hg1) as [l' Hs].
  cbn [qstep]. rewrite Hgr. cbn [mbind option_bind]. rewrite Hs. cbn [mbind option_bind].
  eexists. split; [done|]. split; [done|]. split; [by apply grant_inv|by apply grant_outcome].
Qed.

Lemma serve_position bs q k w :
  queue_inv q → waiting (mutex q) !! k = Some w → length bs = Datatypes.S k →
  ∃ q', serve_all bs q = Some q' ∧
    waiting (mutex q') = drop (Datatypes.S k) (waiting (mutex q)) ∧ outcome_of w q'.
Proof.
  revert bs q. induction k as [|k IH]; intros [|b bs] q Hq Hk Hlen; try done;
    destruct (waiting (mutex q)) as [|w0 rest] eqn:Hqu; try done;
    destruct (serve_head b q w0 rest Hq Hqu) as (q1 & Hs & Hqu1 & Hq1 & Ho); cbn [serve_all];
    rewrite Hs; cbn [mbind option_bind].
  - destruct bs; [|done]. cbn [lookup list_lookup] in Hk. simplify_eq. by exists q1.
  - cbn [lookup list_lookup] in Hk. rewrite <- Hqu1 in Hk.
    destruct (IH bs q1 Hq1 Hk) as (q' & Hs' & Hqu' & Ho'); [by injection Hlen|].
    exists q'. split_and!; [done|by rewrite Hqu', Hqu1|done].
Qed.

(** ** Properties *)

(** C18: every request for the lock is served.  In a reachable state, a request
    with [k] others before it is served by the [k + 1]st grant, however the
    holders in between release the lock: an [acquire] call is answered, with
    a guard exactly if the link is connected; a [wait_connected] check
    returns on a connected link and goes on waiting on a reconnecting one;
    the reconnect task installs its transport.  So no caller starves and the
    tasks of a link cannot deadlock. *)
Theorem every_request_served q k w bs :
  queue_reachable q → waiting (mutex q) !! k = Some w → length bs = Datatypes.S k →
  ∃ q', serve_all bs q = Some q' ∧
    waiting (mutex q') = drop (Datatypes.S k) (waiting (mutex q)) ∧ outcome_of w q'.
Proof. intros Hq. apply serve_position. by apply queue_reachable_inv. Qed.

(** C37: [wait_connected] can outlive its timeout.  While a guard is held, a
    call that is about to check the state does not return, however far past
    its deadline the clock goes: the wait for the lock is not bounded by the
    timeout. *)
Theorem wait_connected_outlives_deadline (l : Link) i d ep :
  guarded l = true → waiters l !! i = Some (Checking d ep) →
  (∀ es l', Forall (λ e, ∀ b, e ≠ EDrop b) es → run es l = Some l' →
     guarded l' = true ∧ waiters l' !! i = Some (Checking d ep)) ∧
  ∀ late, (0 ≤ late)%Z → ∃ l', run [ETick late] l = Some l' ∧ now l' = (now l + late)%Z.
Proof.
  intros Hg Hi. split.
  - intros es. revert l Hg Hi. induction es as [|e es IH]; intros l Hg Hi l' He Hr; cbn [run] in Hr;
      [by simplify_eq|].
    apply bind_Some in Hr as (l1 & Hs & Hr). apply Forall_cons in He as [He1 He2].
    assert (guarded l1 = true ∧ waiters l1 !! i = Some (Checking d ep)) as [Hg1 Hi1];
      [|by eapply IH].
    clear IH Hr. destruct e as [j dl el|j|j| |f|cm|t|i'|i'|i'|dt]; cbn [step] in Hs;
      unfold task_dial, task_wake, task_install, acquire, use_transport, guard_drop, wait_connected,
        wait_check, wait_notified, wait_timeout in Hs; rewrite ?Hg in Hs.
    6: by destruct (He1 cm).
    6: { simplify_eq/=. split; [done|]. by apply lookup_app_l_Some. }
    6-8: destruct (waiters l !! i') as [[|? ?|]|] eqn:Hi'; try done; destruct (decide _); try done;
      simplify_eq/=; (split; [done|]); rewrite list_lookup_insert_ne by congruence; done.
    all: by repeat (case_match; simplify_eq/=).
  - intros late Hlate. cbn [run step]. rewrite decide_True by done. by eexists.
Qed.

End Queue.

(** ** A concrete mutex and queue *)

(** A mutex that keeps the requests in a list. *)
#[export] Instance list_mutex : FairMutex (list want) := {|
  mutex_new := [];
  lock_requested w m := m ++ [w];
  lock_granted m := match m with [] => None | w :: rest => Some (w, rest) end;
  lock_cancelled w m := filter (λ w', w' ≠ w) m;
|}.

#[export] Instance list_mutex_laws : FairMutexLaws (list want) id.
Proof.
  split; try done; unfold id.
  - intros m w rest ->. by exists rest.
  - by intros m ->.
Qed.

Abbreviation demo_qevent := (qevent (T := Counter) (S := Duplex) (R := Pipe) (W := Sink)).

Definition demo_locked : Locked (Q := list want) (C := unit) (T := Counter) (R := Pipe) (W := Sink) :=
  locked_new tt demo_target demo_creds 0.

(** Connect; caller 1 gets the lock, callers 2 and 3 wait behind a
    [wait_connected] call. *)
Definition demo_queue : list demo_qevent :=
  [QLink (EDial 0 (Ok (demo_stream demo_msg2)) 0); QRequest WInstall; QGrant;
   QLink (EWait 100); QRequest (WAcquire 1); QGrant;
   QRequest (WCheck 0); QRequest (WAcquire 2); QRequest (WAcquire 3)].

(** How the holders of the lock let go of it. *)
Definition demo_releases : list Guard :=
  [{| committed := true |}; {| committed := false |}; {| committed := true |}].

(** A run that a boolean evaluation shows to exist, with a fact about its end. *)
Lemma demo_qrun (es : list demo_qevent) (f : Locked → bool) :
  match qrun es demo_locked with Some q => f q | None => false end = true →
  ∃ q, qrun es demo_locked = Some q ∧ f q = true.
Proof. destruct (qrun es demo_locked) as [q|]; [|done]. eauto. Qed.

Lemma every_request_served_witness :
  ∃ q q', qrun demo_queue demo_locked = Some q ∧ serve_all demo_releases q = Some q' ∧
    mutex q' = [] ∧ outcome_of (WAcquire 3) q'.
Proof.
  destruct (demo_qrun demo_queue (λ q, bool_decide (mutex q = [WCheck 0; WAcquire 2; WAcquire 3])))
    as (q & Hq & Hk); [vm_compute; reflexivity|]. apply bool_decide_eq_true in Hk.
  destruct (every_request_served id ctr_paired ctr_left id xx_rel dx_incoming dx_written
    id q 2 (WAcquire 3) demo_releases) as (q' & Hs & Hd & Ho).
  - exists tt, demo_target, demo_creds, 0%Z, demo_queue. exact Hq.
  - unfold id. rewrite Hk. reflexivity.
  - reflexivity.
  - exists q, q'. unfold id in Hd. rewrite Hk in Hd. auto.
Defined.

Lemma wait_connected_outlives_deadline_witness :
  ∃ q l' d ep, qrun demo_queue demo_locked = Some q ∧ run [ETick 1000] (link q) = Some l' ∧
    waiters l' !! 0 = Some (Checking d ep) ∧ (d < now l')%Z.
Proof.
  destruct (demo_qrun demo_queue (λ q, guarded (link q) && bool_decide (now (link q) = 0%Z) &&
    match waiters (link q) !! 0 with Some (Checking 100 _) => true | _ => false end))
    as (q & Hq & Hf); [vm_compute; reflexivity|].
  apply andb_prop in Hf as [Hf Hw]. apply andb_prop in Hf as [Hg Hn].
  apply bool_decide_eq_true in Hn.
  destruct (waiters (link q) !! 0) as [[d ep| |]|] eqn:Hi; try discriminate Hw.
  destruct (wait_connected_outlives_deadline (link q) 0 d ep Hg Hi) as [Hkeep Hlate].
  destruct (Hlate 1000%Z) as (l' & Hr & Hn'); [lia|].
  exists q, l', d, ep. split; [exact Hq|]. split; [exact Hr|]. split.
  - apply (Hkeep [ETick 1000]); [|exact Hr]. constructor; [discriminate|constructor].
  - rewrite Hn', Hn. destruct (decide (d = 100%Z)) as [->|Hne]; [reflexivity|].
    exfalso. apply Hne. clear - Hw. destruct d as [|p|p]; try discriminate Hw.
    do 7 (destruct p as [p|p|]; try discriminate Hw). reflexivity.
Defined.
