(* ===== verification/Exchange.v ===== *)
(** * Request and response over the pool (src/pool.rs with src/messages.rs)

    The use of the pool that the crate documents: [acquire] a guard, send a
    request and read the response on the guard's transport, [commit] on
    success; an early return or a panic drops the guard uncommitted.  The
    theorems compose the pool with the message transport: every exchange
    either leaves the link connected with both halves between messages, or
    resets it. *)

From S2P Require Import Prelude PacketState Interfaces Doubles NodeId Noise Sign Auth Packets Handshake Messages Lib Channel Pool.

(** ** Calls that always return *)

Section Returns.
Context {T R W : Type} `{TransportState T, AsyncRead R, AsyncWrite W}.
Context (paired : T → T → Prop) (nonces_left : T → nat) `{!TransportLaws T paired nonces_left}.
Context (incoming : R → bytes) `{!FaultyReaderLaws R incoming}.
Context (written : W → bytes) `{!FaultyWriterLaws W written}.

(** The call came back, with a value or an error. *)
Definition returned {A} (r : outcome ConnectionError A) : Prop :=
  match r with Ok _ | Err _ => True | Panic | Pending => False end.

(** Whatever cipher and stream do, writing a frame gives a result. *)
Lemma write_frame_returns p (s : T * PacketTx W) :
  let '(res, s') := write_frame p s in returned res ∧ packet_builder s'.2 = packet_builder s.2.
Proof.
  unfold write_frame.
  destruct (grow_write_buf s (FRAME_HEADER_SIZE + (length p + CIPHER_OVERHEAD_SIZE)))
    as (buf & Hbuf & Hgrow).
  unfold modify at 1. unfold bind at 1. rewrite Hgrow.
  unfold tx_encrypt, FRAME_HEADER_SIZE, bind, get, modify. half_cbn.
  rewrite slice_from_Some by size_lia. cbn [or_panic]. unfold ret. half_cbn.
  destruct (write_message p (drop 2 buf) s.1) as [[res tail'] t'] eqn:Hw.
  destruct (write_message_buf _ _ _ _ _ _ Hw) as (Htl & Hnp & Hnd). rewrite length_drop in Htl.
  destruct res as [n|e| |]; half_cbn; [|by split|done..].
  destruct (write_message_len _ _ _ _ _ _ Hw) as (_ & _ & Hn3). rewrite length_drop in Hn3.
  rewrite slice_to_Some.
  2: { rewrite length_write_front; rewrite length_write_tail; cbn [u16_to_be_bytes length]; size_lia. }
  cbn [or_panic]. unfold ret, on_write, zoom. half_cbn.
  destruct (write_all_any (take (2 + n) (write_front (u16_to_be_bytes (as_u16 (Z.of_nat n)))
    (write_tail 2 tail' buf))) (tx_write s.2)) as (r1 & w1 & k & -> & _ & Hr1).
  destruct Hr1 as [[-> _]|[e ->]]; half_cbn; [|by split].
  destruct (flush_any w1) as (r2 & w2 & -> & _ & [-> |[e ->]]); by split.
Qed.

Lemma send_packet_returns p last (s : T * PacketTx W) :
  PacketBuilder.in_progress (packet_builder s.2) = true →
  let '(res, s') := send_packet p last s in
  returned res ∧ PacketBuilder.in_progress (packet_builder s'.2) = negb last.
Proof.
  intros Hi. unfold send_packet, on_builder, zoom, bind. rewrite pack_open by done. cbv zeta.
  cbn [map_err]. match goal with |- context [write_frame ?raw ?s'] =>
    pose proof (write_frame_returns raw s') as Hw; destruct (write_frame raw s') as [res s1] end.
  destruct Hw as [Hr Hb]. split; [exact Hr|]. by rewrite Hb.
Qed.

Lemma send_chunks_returns cs (s : T * PacketTx W) :
  cs ≠ [] → PacketBuilder.in_progress (packet_builder s.2) = true →
  let '(res, s') := send_chunks cs true s in
  returned res ∧ (res = Ok tt → PacketBuilder.in_progress (packet_builder s'.2) = false).
Proof.
  revert s. induction cs as [|c cs IH]; [done|]. intros s _ Hi. cbn [send_chunks].
  pose proof (send_packet_returns c (match cs with [] => true | _ => false end && true) s Hi) as Hp.
  unfold bind. destruct (send_packet c _ s) as [[[]|e| |] s1]; try by destruct Hp.
  destruct Hp as [_ Hb]. destruct cs as [|c2 cs]; [by split|]. by apply IH.
Qed.

(** [send_message] between messages returns; on success it is between
    messages again. *)
Lemma send_message_returns ty p (s : T * MessageTx W) :
  PacketBuilder.in_progress (packet_builder (tx_packets s.2)) = false →
  let '(res, s') := send_message ty p s in
  returned res ∧
  (res = Ok tt → PacketBuilder.in_progress (packet_builder (tx_packets s'.2)) = false).
Proof.
  intros Hi. unfold send_message, prepare_message, on_builder, on_tx_packets, zoom, bind.
  cbn [fst snd]. unfold PacketBuilder.prepare. destruct (TYPE_MASK <? ty)%Z; [by split|].
  rewrite Hi. cbn [map_err id fst snd tx_packets]. unfold send_slice.
  match goal with |- context [(s.1, ?tx)] => set (s1 := (s.1, tx)) end.
  assert (Hi1 : PacketBuilder.in_progress (packet_builder s1.2) = true) by done.
  destruct (chunks MAX_PACKET_SIZE p) as [|c cs].
  - pose proof (send_packet_returns [] true s1 Hi1) as Hp.
    destruct (send_packet [] true s1) as [[] [t2 p2]]; by destruct Hp.
  - pose proof (send_chunks_returns (c :: cs) s1 ltac:(done) Hi1) as Hp.
    destruct (send_chunks (c :: cs) true s1) as [[] [t2 p2]]; by destruct Hp.
Qed.

(** A packet takes at least its length prefix off the stream. *)
Lemma read_packet_shrinks (r : T * MessageRx R) :
  match on_rx_packets read_packet r with
  | (Ok h, r') => accepts h (rx_reader r) ∧ rx_reader r' = reader_next h (rx_reader r) ∧
      is_Some (payload (rx_packets r'.2)) ∧
      length (rx_bytes incoming r') < length (rx_bytes incoming r)
  | (Err e, _) => True
  | _ => False
  end.
Proof.
  pose proof (read_packet_origin paired nonces_left incoming (r.1, rx_packets r.2)) as Ho.
  unfold on_rx_packets, zoom. destruct (read_packet (r.1, rx_packets r.2)) as [[h|e| |] [t rx]];
    cbn [map_err id]; [|done..].
  destruct Ho as (hdr & c & buf & n & pb & Hh & Hin & _ & _ & Hread & Hp).
  destruct (read_ok_inv _ _ _ _ Hread) as [Hacc Hn]. split_and!; [done|done|by eexists|].
  unfold rx_bytes. cbn [fst snd set_rx_packets rx_packets] in *. rewrite Hin, !length_app. lia.
Qed.

Lemma read_bytes_loop_returns fuel (r : T * MessageRx R) :
  PacketReader.in_progress (rx_reader r) = true →
  let '(res, r') := read_bytes_loop fuel r in
  (length (rx_bytes incoming r) < fuel → returned res) ∧ (is_ok res = true → PacketReader.in_progress (rx_reader r') = false).
Proof.
  revert r. induction fuel as [|fuel IH]; intros r Hi; [by split; [lia|]|]. cbn [read_bytes_loop].
  pose proof (read_packet_shrinks r) as Hs. unfold bind at 1.
  destruct (on_rx_packets read_packet r) as [[h|e| |] r1]; [|by split|done..].
  destruct Hs as (Hacc & Hn & [b Hb] & Hlt). unfold accepts in Hacc. rewrite Hi in Hacc.
  unfold reader_next in Hn. destruct (kind h); [done|done| | |by split].
  - rewrite (bind_ok _ _ _ _ _ (extend_ok r1 b Hb)).
    specialize (IH (r1.1, set_read_buf (read_buf r1.2 ++ b) r1.2)).
    destruct (read_bytes_loop fuel _) as [res r2]. destruct IH as [Hr Hok]; [by rewrite <- Hi, <- Hn|].
    split; [|done]. intros Hf. apply Hr. unfold rx_bytes in *. cbn. lia.
  - rewrite (bind_ok _ _ _ _ _ (extend_ok r1 b Hb)). unfold bind, get, ret. split; [done|].
    intros _. unfold rx_reader in *. cbn. by rewrite Hn.
Qed.

(** Receiving between messages always returns, whatever the stream holds, in
    as many iterations as there are bytes; on success the receiver is
    between messages again. *)
Lemma recv_returns fuel (r : T * MessageRx R) :
  PacketReader.in_progress (rx_reader r) = false →
  let '(res, r') := recv fuel r in
  (length (rx_bytes incoming r) < fuel → returned res) ∧ (is_ok res = true → PacketReader.in_progress (rx_reader r') = false).
Proof.
  intros Hi. pose proof (read_packet_shrinks r) as Hs. unfold recv, read_message_handle.
  rewrite bind_assoc. unfold bind at 1.
  destruct (on_rx_packets read_packet r) as [[h|e| |] r1]; [|by split|done..].
  destruct Hs as (Hacc & Hn & [b Hb] & Hlt). unfold accepts in Hacc. rewrite Hi in Hacc.
  rewrite bind_ret_l. unfold bind. rewrite (read_bytes_start _ _ b) by done. cbn [first_header].
  unfold reader_next in Hn. destruct (kind h); try by destruct Hacc.
  - rewrite decide_True by done. split; [done|]. intros _. unfold rx_reader in *. cbn. by rewrite Hn.
  - rewrite decide_False by done.
    pose proof (read_bytes_loop_returns fuel (r1.1, set_read_buf b r1.2)) as Hl.
    assert (Hi1 : PacketReader.in_progress (rx_reader (r1.1, set_read_buf b r1.2)) = true)
      by (unfold rx_reader in *; cbn; by rewrite Hn).
    assert (Hlt' : length (rx_bytes incoming (r1.1, set_read_buf b r1.2)) < length (rx_bytes incoming r))
      by exact Hlt.
    destruct (read_bytes_loop fuel _) as [[bs|e| |] r2]; destruct (Hl Hi1) as [Hr Hok];
      (split; [intros Hf|done]); cbn; try done; apply Hr; lia.
Qed.

End Returns.

(** ** Exchanges *)

Section Exchange.
Context {C HS T S R W : Type}
  `{SnowHandshake HS T, AsyncRead S, AsyncWrite S, SplitStream S R W}.
Context {SK VK Sig : Type} `{Ed25519 SK VK Sig} {FB FP : Type} `{Yatlv FB FP}.
Context `{TransportState T, AsyncRead R, AsyncWrite W}.

Abbreviation Link := (PeerLink (C := C) (T := T) (R := R) (W := W) (VK := VK)).
Abbreviation Event := (event (T := T) (S := S) (R := R) (W := W)).
Abbreviation Transport := (T * (MessageTx W * MessageRx R))%type.

(** Send a request and read the response whole. *)
Definition rpc (fuel : nat) (ty : Z) (p : bytes) : M Transport ConnectionError (Z * bytes) :=
  do! zoom (λ c : Transport, (c.1, c.2.1)) (λ s c, (s.1, (s.2, c.2.2))) id (send_message ty p) in
  zoom (λ c : Transport, (c.1, c.2.2)) (λ s c, (s.1, (c.2.1, s.2))) id (recv fuel).

(** A whole exchange: [None] while another guard holds the lock.  Only a
    successful exchange is committed. *)
Definition exchange (fuel : nat) (ty : Z) (p : bytes) (l : Link)
    : option (outcome NotReady (outcome ConnectionError (Z * bytes)) * Link) :=
  '(res, l1) ← acquire l;
  match res with
  | Ok g =>
      match transport l1 with
      | Ok tr =>
          let '(r, tr') := rpc fuel ty p tr in
          l2 ← use_transport (λ _, tr') l1;
          l3 ← (if is_ok r then commit g l2 else guard_drop g l2);
          Some (Ok r, l3)
      | _ => None
      end
  | Err e => Some (Err e, l1)
  | _ => None
  end.

(** Exchanges interleaved with the link's own events.  Guards are taken and
    dropped by exchanges only. *)
Inductive xevent : Type :=
| XLink (e : Event)
| XExchange (fuel : nat) (ty : Z) (p : bytes).

Definition unguarded (e : Event) : bool :=
  match e with EAcquire | EUse _ | EDrop _ => false | _ => true end.

Definition xstep (e : xevent) (l : Link) : option Link :=
  match e with
  | XLink e => if unguarded e then step e l else None
  | XExchange fuel ty p => snd <$> exchange fuel ty p l
  end.

Fixpoint xrun (es : list xevent) (l : Link) : option Link :=
  match es with
  | [] => Some l
  | e :: es' => l' ← xstep e l; xrun es' l'
  end.

(** Both halves are between messages. *)
Definition idle (tr : Transport) : Prop :=
  PacketBuilder.in_progress (packet_builder (tx_packets tr.2.1)) = false ∧
  PacketReader.in_progress (packet_reader (rx_packets tr.2.2)) = false.

Context (paired : T → T → Prop) (nonces_left : T → nat) (public_of : bytes → bytes)
  (xx : nat → bytes → bytes → HS → HS → Prop) `{!TransportLaws T paired nonces_left}
  `{!SnowHandshakeLaws HS T paired nonces_left public_of xx}.
Context (incoming : S → bytes) `{!FaultyReaderLaws S incoming}.
Context (written : S → bytes) `{!FaultyWriterLaws S written}.
Context (r_incoming : R → bytes) `{!FaultyReaderLaws R r_incoming}.
Context (w_written : W → bytes) `{!FaultyWriterLaws W w_written}.
Context `{!Ed25519Laws SK VK Sig} (fields : FB → list (Z * bytes)) `{!YatlvLaws FB FP fields}.

(** The bytes that the peer of a transport still sends. *)
Definition peer_bytes (tr : Transport) : bytes := r_incoming (rx_read (rx_packets tr.2.2)).

Lemma rpc_returns fuel ty p (tr : Transport) :
  idle tr →
  let '(r, tr') := rpc fuel ty p tr in
  (length (peer_bytes tr) < fuel → returned r) ∧ (is_ok r = true → idle tr').
Proof.
  intros [Hb Hr]. destruct tr as [t [tx rx]]. unfold rpc, bind, zoom. cbn [fst snd] in *.
  pose proof (send_message_returns paired nonces_left w_written ty p (t, tx) Hb) as Hs.
  destruct (send_message ty p (t, tx)) as [[[]|e| |] [t1 tx1]]; cbn [map_err id fst snd];
    try by destruct Hs.
  destruct Hs as [_ Hs]. specialize (Hs eq_refl). cbn [fst snd] in Hs.
  pose proof (recv_returns paired nonces_left r_incoming fuel (t1, rx) Hr) as Hv.
  destruct (recv fuel (t1, rx)) as [[m|e| |] [t2 rx2]]; cbn [map_err id fst snd];
    destruct Hv as [Hv1 Hv2]; try done. split; [done|]. intros _. split; [done|by apply Hv2].
Qed.

(** A link between exchanges. *)
Definition clean (l : Link) : Prop :=
  link_inv true l ∧ guarded l = false ∧
  (∀ tr, state l = Connected tr → idle tr) ∧
  (∀ tr, tasks l = [Installing tr] → idle tr).

(** Fresh halves are between messages. *)
Lemma from_handshake_idle cr tgt (tr : Transport) : from_handshake cr tgt tr → idle tr.
Proof.
  intros (elapsed & s & d & Hc & _). unfold Lib.connect in Hc.
  destruct (Handshake.connect elapsed s _ _ _) as [[[t [tx rx]] d']| | |] eqn:He; [|done..].
  cbn [obind] in Hc. simplify_eq.
  destruct (entry_inv elapsed _ _ _ _ _ eq_refl He) as (_ & c & c' & _ & _ & Hsp).
  unfold HandshakeContext.into_split in Hsp.
  destruct (into_transport_mode (HandshakeContext.handshake c')); [|done..]. cbn [map_err obind] in Hsp.
  destruct (split (HandshakeContext.stream c')). by simplify_eq.
Qed.

Lemma installing_idle (l : Link) tr : link_inv true l → tasks l = [Installing tr] → idle tr.
Proof.
  intros (_ & Ht & _) Htr. rewrite Htr in Ht. apply Forall_cons in Ht as [Ht _].
  by eapply from_handshake_idle.
Qed.

(** What an exchange on a link between exchanges comes to. *)
Lemma exchange_result fuel ty p l :
  clean l →
  ∃ res l', exchange fuel ty p l = Some (res, l') ∧ clean l' ∧
    ((res = Err not_ready ∧ l' = l ∧ state l = Reconnecting) ∨
     (∃ m tr', res = Ok (Ok m) ∧ state l' = Connected tr' ∧ idle tr') ∨
     (∃ r, res = Ok r ∧ is_ok r = false ∧ state l' = Reconnecting ∧ length (tasks l') = 1 ∧
           ∀ tr, state l = Connected tr → length (peer_bytes tr) < fuel → returned r)).
Proof.
  intros (Hl & Hg & Hidle & _). unfold exchange. cbn [mbind option_bind].
  unfold acquire. rewrite Hg. destruct (state l) as [tr|] eqn:Hst.
  2: { eexists _, l. split; [done|]. split; [|by left]. split; [done|]. split; [done|].
       split; [by rewrite Hst|]. intros tr Htr. by eapply installing_idle. }
  pose proof (rpc_returns fuel ty p tr (Hidle tr eq_refl)) as Hr.
  assert (Hts : tasks l = []) by (destruct Hl as (Hx & _); by rewrite Hst in Hx).
  cbn [mbind option_bind]. unfold use_transport, transport. cbn [set_guarded state guarded].
  rewrite Hst. destruct (rpc fuel ty p tr) as [r tr']. cbn [mbind option_bind].
  set (l2 := set_state (Connected tr') (set_guarded true l)).
  assert (Hl2 : link_inv true l2).
  { eapply (guard_step_inv true (EUse (λ _, tr')) (set_guarded true l)); [|done|].
    - eapply (guard_step_inv true EAcquire l); [done|done|]. cbn [step]. unfold acquire. by rewrite Hg, Hst.
    - cbn [step]. unfold use_transport, transport. cbn. by rewrite Hst. }
  assert (Hdrop : ∀ g, ∃ l3, guard_drop g l2 = Some l3 ∧ link_inv true l3 ∧ guarded l3 = false ∧
    state l3 = (if committed g then Connected tr' else Reconnecting) ∧
    (committed g = false → tasks l3 = [Dialing INITIAL_BACKOFF]) ∧ (committed g = true → tasks l3 = [])).
  { intros g. assert (Hd : is_Some (guard_drop g l2)) by (by eexists). destruct Hd as [l3 Hd].
    exists l3. split; [done|]. split; [by eapply (guard_step_inv true (EDrop g))|].
    unfold guard_drop in Hd. cbn in Hd. injection Hd as <-. cbn. destruct (committed g); cbn; by rewrite Hts. }
  destruct Hr as [Hret Hok]. destruct (is_ok r) eqn:Hisok.
  - destruct (Hdrop {| committed := true |}) as (l3 & Hc & Hl3 & Hg3 & Hs3 & _ & Ht3). cbn in Hs3, Ht3.
    unfold commit. rewrite Hc. destruct r as [m| | |]; try done.
    eexists _, l3. split; [done|]. split.
    + split; [done|]. split; [done|]. rewrite Hs3, (Ht3 eq_refl). split; [|done].
      intros ? [= <-]. by apply Hok.
    + right. left. exists m, tr'. split; [done|]. split; [done|]. by apply Hok.
  - destruct (Hdrop guard_new) as (l3 & Hc & Hl3 & Hg3 & Hs3 & Ht3 & _). cbn in Hs3, Ht3.
    rewrite Hc. eexists _, l3. split; [done|]. split.
    + split; [done|]. split; [done|]. by rewrite Hs3, (Ht3 eq_refl).
    + right. right. exists r. do 3 (split; [done|]). split; [by rewrite (Ht3 eq_refl)|].
      intros tr0 [= <-]. exact Hret.
Qed.

Lemma xstep_clean e l l' :
  clean l → xstep e l = Some l' → clean l'.
Proof.
  intros Hc Hs. destruct e as [e|fuel ty p]; cbn [xstep] in Hs.
  - destruct (unguarded e) eqn:Hu; [|done]. destruct Hc as (Hl & Hg & Hi & _).
    assert (Hl' : link_inv true l').
    { apply (step_inv paired nonces_left public_of xx incoming written fields true e l l' Hl);
        [|done]. by destruct e as [? [| | |]| | | | | | | | | |]. }
    assert (guarded l' = false ∧ ∀ tr, state l' = Connected tr → idle tr) as [Hg' Hi'].
    { destruct e as [j dl el|j|j| |f|g|t|i|i|i|d]; try done; cbn [step] in Hs.
      3: { unfold task_install in Hs. destruct (tasks l !! j) as [[| |tr]|] eqn:Hj; try done.
           destruct (link_inv_task _ _ _ _ Hl Hj) as (_ & Ht & _). rewrite Hg in Hs. simplify_eq/=.
           split; [done|]. intros ? [= <-]. exact (installing_idle l tr Hl Ht). }
      all: unfold task_dial, task_wake, wait_connected, wait_check, wait_notified, wait_timeout in Hs;
        repeat (case_match; simplify_eq/=); by simplify_eq/=. }
    split; [done|]. split; [done|]. split; [done|]. intros tr Ht. by eapply installing_idle.
  - destruct (exchange_result fuel ty p l Hc) as (res & l1 & Hx & Hc1 & _). rewrite Hx in Hs.
    by simplify_eq/=.
Qed.

(** Links reachable by exchanges and the link's own events. *)
Definition exchange_reachable (l : Link) : Prop :=
  ∃ c tgt cr t es, xrun es (peer_link_new c tgt cr t) = Some l.

Lemma exchange_reachable_clean l : exchange_reachable l → clean l.
Proof.
  intros (c & tgt & cr & t & es & Hr).
  assert (H0' : clean (peer_link_new c tgt cr t : Link))
    by (split; [apply link_inv_new|]; by split).
  revert H0' Hr. generalize (peer_link_new c tgt cr t : Link). induction es as [|e es IH];
    intros l0 Hl0 Hr; cbn [xrun] in Hr; [by simplify_eq|].
  apply bind_Some in Hr as (l1 & Hs & Hr). eapply IH; [|exact Hr]. by eapply xstep_clean.
Qed.

(** C13: an exchange commits or resets.  Take a link whose guards are only used
    for exchanges, in any interleaving with its own events, whatever the
    peer sends and wherever reads and writes fail.  Another exchange on it can always start, and it either
    answers [NotReady] on a reconnecting link, or returns a response and
    leaves the link connected with both halves between messages, or fails
    and leaves the link reconnecting.  With a receive loop as long as the
    peer's bytes it never panics and never hangs.  In particular the
    [unreachable!] arms of the message layer are never reached this way. *)
Theorem exchange_commits_or_resets l fuel ty p :
  exchange_reachable l →
  (∀ tr, state l = Connected tr → length (peer_bytes tr) < fuel) →
  ∃ res l', exchange fuel ty p l = Some (res, l') ∧ exchange_reachable l' ∧ guarded l' = false ∧
    match res with
    | Ok (Ok _) => ∃ tr', state l' = Connected tr' ∧ idle tr' ∧ tasks l' = []
    | Ok (Err _) => state l' = Reconnecting ∧ length (tasks l') = 1
    | Err _ => l' = l ∧ state l = Reconnecting
    | _ => False
    end.
Proof.
  intros Hr Hf. pose proof (exchange_reachable_clean l Hr) as Hc.
  destruct (exchange_result fuel ty p l Hc) as (res & l' & Hx & Hc' & Hcases). exists res, l'.
  split; [done|]. split.
  { destruct Hr as (c & tgt & cr & t & es & Hrun).
    exists c, tgt, cr, t, (es ++ [XExchange fuel ty p]).
    clear -Hrun Hx. revert Hrun. generalize (peer_link_new c tgt cr t : Link).
    induction es as [|e es IH]; intros l0 Hrun; cbn [app xrun] in *.
    - simplify_eq. cbn [xstep]. by rewrite Hx.
    - destruct (xstep e l0); [|done]. by apply IH. }
  destruct Hc' as ((Hl' & _) & Hg' & _). split; [done|].
  destruct Hcases as [(-> & -> & ?)|[(m & tr' & -> & Hs & ?)|(r & -> & Hno & Hs & Hts & Hret)]]; [done| |].
  - rewrite Hs in Hl'. by exists tr'.
  - assert (Hre : returned r).
    { destruct (state l) as [tr|] eqn:Hst; [by eapply Hret, Hf|]. exfalso.
      destruct Hc as (_ & Hg & _). unfold exchange, acquire in Hx. rewrite Hg, Hst in Hx. by simplify_eq/=. }
    by destruct r.
Qed.

Context `{!ReaderLaws R r_incoming} (w_healthy : W → Prop) `{!WriterLaws W w_written w_healthy}.

(** C14: a response comes back through the pool.  On a free, connected link
    whose peer serves it, an exchange sends the request, the peer receives
    exactly the request and sends any response, and the exchange returns
    exactly that response, leaving the link connected and free. *)
Theorem pool_round_trip (l : Link) fuel ty p rty rp t tx rx ts txs rxs :
  state l = Connected (t, (tx, rx)) → guarded l = false →
  PacketReader.in_progress (packet_reader (rx_packets rx)) = false →
  type_ok ty → type_ok rty → packet_count p ≤ fuel → packet_count rp ≤ fuel →
  tx_ready nonces_left w_healthy (packet_count p) (t, tx) →
  tx_ready nonces_left w_healthy (packet_count rp) (ts, txs) → paired ts t →
  ∃ s1 out, send_message ty p (t, tx) = (Ok tt, s1) ∧
    tx_bytes w_written s1 = tx_bytes w_written (t, tx) ++ out ∧
    ∀ y, rx_waiting paired r_incoming t (out ++ y) (ts, rxs) →
      ∃ ts1 rxs1 s2 back, recv fuel (ts, rxs) = (Ok (ty, p), (ts1, rxs1)) ∧
        send_message rty rp (ts1, txs) = (Ok tt, s2) ∧
        tx_bytes w_written s2 = tx_bytes w_written (ts, txs) ++ back ∧
        ∀ z, rx_bytes r_incoming (t, rx) = back ++ z →
          ∃ l' tr', exchange fuel ty p l = Some (Ok (Ok (rty, rp)), l') ∧
            state l' = Connected tr' ∧ guarded l' = false ∧ tasks l' = tasks l.
Proof.
  intros Hst Hg Hrx Hty Hrty Hf Hrf Htx Htxs Hpair.
  destruct (send_message_ok paired nonces_left w_written w_healthy ty p 0 (t, tx) Hty)
    as ([t1 tx1] & Hs1 & (out & Hsl1 & Hw1 & _) & _); [by rewrite Nat.add_0_r|].
  exists (t1, tx1), out. split; [done|]. split; [exact Hw1|]. intros y Hwait.
  pose proof (coming_waiting paired r_incoming _ _ _ _ _ _ Hsl1 Hwait) as Hcom.
  unfold message_packets in Hcom. rewrite <- (app_nil_r (encode_packets _)) in Hcom.
  destruct (recv_ok paired nonces_left r_incoming ty (slice_chunks p) fuel t [] t1 y (ts, rxs))
    as (a1 & [ts1 rxs1] & Hr1 & _ & _ & Hk); [done|apply slice_chunks_not_nil|done|apply Hwait|exact Hcom|].
  rewrite concat_slice_chunks in Hr1. destruct Hk as [Hk1 Hk2]. cbn [fst] in Hk1, Hk2.
  destruct (send_message_ok paired nonces_left w_written w_healthy rty rp 0 (ts1, txs) Hrty)
    as (s2 & Hs2 & (back & Hsl2 & Hw2 & _) & _).
  { destruct Htxs as (? & Hn & ?). cbn [fst] in Hn. split; [done|]. split; [cbn [fst]; lia|done]. }
  exists ts1, rxs1, s2, back. do 2 (split; [done|]). split; [exact Hw2|]. intros z Hz.
  cbn [fst snd] in Hsl1, Hsl2.
  assert (Hp1 : paired ts1 t1) by (eapply (sealed_other_direction paired nonces_left); [exact Hsl1|by apply Hk1]).
  destruct (recv_ok paired nonces_left r_incoming rty (slice_chunks rp) fuel ts1 [] s2.1 z (t1, rx))
    as (a2 & [t2 rx2] & Hr2 & _); [done|apply slice_chunks_not_nil|done|done| |].
  { rewrite app_nil_r. exists back. split; [by apply sealed_flight|]. by split. }
  rewrite concat_slice_chunks in Hr2. unfold exchange, acquire. rewrite Hg, Hst.
  cbn [mbind option_bind]. unfold use_transport, transport. cbn [set_guarded state guarded]. rewrite Hst.
  unfold rpc, bind, zoom. cbn [fst snd]. rewrite Hs1. cbn [map_err id fst snd]. rewrite Hr2.
  cbn [map_err id fst snd mbind option_bind is_ok]. unfold commit, guard_drop. cbn.
  eexists _, _. split; [done|]. done.
Qed.

End Exchange.

(** ** Concrete exchanges *)

Abbreviation demo_xevent := (xevent (T := Counter) (S := Duplex) (R := Pipe) (W := Sink)).

(** The bytes of a response from the peer, after its handshake message. *)
Definition demo_response : bytes :=
  sink_data (tx_write (tx_packets (send_message 8 [9]%Z demo_tx).2.2)).

Definition demo_events (rest : bytes) : list demo_xevent :=
  [XLink (EDial 0 (Ok (demo_stream (demo_msg2 ++ rest))) 0); XLink (EInstall 0)].

Lemma demo_exchange_reachable rest l :
  xrun (demo_events rest) demo_link = Some l → exchange_reachable (S := Duplex) l.
Proof.
  intros Hr. exists tt, demo_target, demo_creds, 0%Z, (demo_events rest).
  exact Hr.
Qed.

(** A response, and then garbage. *)
Definition demo_arriving : bytes := demo_response ++ [0; 1; 7]%Z.

Definition short_stream (n : nat) (l : PeerLink (C := unit) (T := Counter) (R := Pipe) (W := Sink) (VK := Key32)) : bool :=
  match state l with
  | Connected tr => bool_decide (length (peer_bytes pipe_data tr) < n)
  | Reconnecting => true
  end.

Lemma short_stream_spec n l :
  short_stream n l = true → ∀ tr, state l = Connected tr → length (peer_bytes pipe_data tr) < n.
Proof.
  unfold short_stream. intros Hs tr Htr. rewrite Htr in Hs. by apply bool_decide_eq_true in Hs.
Qed.

(** Two exchanges on that link, as one computation. *)
Definition demo_two_exchanges : bool :=
  match xrun (demo_events demo_arriving) demo_link with
  | Some l =>
      match exchange 40 7 [1]%Z l with
      | Some (Ok (Ok m), l1) =>
          short_stream 40 l && short_stream 40 l1 && bool_decide (m = (8, [9]))%Z &&
          match exchange 40 7 [2]%Z l1 with
          | Some (Ok (Err _), _) => true
          | _ => false
          end
      | _ => false
      end
  | None => false
  end.

Lemma exchange_commits_or_resets_witness :
  ∃ l l1 l2 e, xrun (demo_events demo_arriving) demo_link = Some l ∧
    exchange 40 7 [1]%Z l = Some (Ok (Ok (8, [9])%Z), l1) ∧
    exchange 40 7 [2]%Z l1 = Some (Ok (Err e), l2) ∧ state l2 = Reconnecting.
Proof.
  assert (Hrun : demo_two_exchanges = true) by (vm_compute; reflexivity).
  unfold demo_two_exchanges in Hrun.
  destruct (xrun (demo_events demo_arriving) demo_link) as [l|] eqn:Hl; [|discriminate Hrun].
  pose proof (demo_exchange_reachable demo_arriving l Hl) as Hreach.
  destruct (exchange 40 7 [1]%Z l) as [[[[m| | |]| | |] l1]|] eqn:Hx1; try discriminate Hrun.
  apply andb_prop in Hrun as [Hrun Hx2]. apply andb_prop in Hrun as [Hrun Hm].
  apply andb_prop in Hrun as [Hs Hs1]. apply bool_decide_eq_true in Hm as ->.
  destruct (exchange 40 7 [2]%Z l1) as [[[[| e | |]| | |] l2]|] eqn:Hx2'; try discriminate Hx2.
  destruct (exchange_commits_or_resets ctr_paired ctr_left id xx_rel dx_incoming dx_written
    pipe_data sink_data id l 40 7 [1]%Z Hreach (short_stream_spec 40 l Hs))
    as (r1 & l1' & Hx1' & Hr1 & _).
  rewrite Hx1 in Hx1'. assert (Hll : l1 = l1') by congruence. rewrite <- Hll in Hr1.
  destruct (exchange_commits_or_resets ctr_paired ctr_left id xx_rel dx_incoming dx_written
    pipe_data sink_data id l1 40 7 [2]%Z Hr1 (short_stream_spec 40 l1 Hs1))
    as (r2 & l2' & Hx2'' & _ & _ & Hr2).
  rewrite Hx2' in Hx2''. assert (Heq : r2 = Ok (Err e) ∧ l2 = l2') by (split; congruence).
  destruct Heq as [Hre Hle]. rewrite Hre, <- Hle in Hr2.
  exists l, l1, l2, e. split; [reflexivity|]. split; [exact Hx1|]. split; [exact Hx2'|apply Hr2].
Defined.

(** A link with a peer at the other end, and a response on its way. *)
Definition demo_free_link (b : bytes) : PeerLink (C := unit) (VK := Key32) :=
  set_state (Connected (demo_tx.1, (demo_tx.2, (demo_rx b).2))) demo_link.

(** The bytes of the request, and the peer's state after it. *)
Definition demo_request : bytes :=
  tx_bytes sink_data (send_message 7 [1]%Z (demo_tx.1, demo_tx.2)).2.
Definition demo_served : Counter :=
  (recv 2 (demo_tx.1, (demo_rx demo_request).2)).2.1.

Lemma pool_round_trip_witness :
  ∃ l', exchange 2 7 [1]%Z (demo_free_link demo_response) = Some (Ok (Ok (8, [9])%Z), l') ∧
    guarded l' = false.
Proof.
  destruct (pool_round_trip ctr_paired ctr_left pipe_data sink_data (λ _, True)
    (demo_free_link demo_response) 2 7 [1]%Z 8 [9]%Z demo_tx.1 demo_tx.2 (demo_rx demo_response).2
    demo_tx.1 demo_tx.2 (demo_rx demo_request).2)
    as (s1 & out & Hs1 & Hb1 & Hpeer).
  all: [> reflexivity|reflexivity|reflexivity|by unfold type_ok, TYPE_MASK; lia
    |by unfold type_ok, TYPE_MASK; lia|vm_compute; lia|vm_compute; lia
    |apply demo_tx_ready; vm_compute; reflexivity|apply demo_tx_ready; vm_compute; reflexivity
    |apply (demo_rx_waiting [])|].
  assert (Hout : out = demo_request) by (unfold demo_request; by rewrite Hs1; cbn [snd]; rewrite Hb1).
  destruct (Hpeer []) as (ts1 & rxs1 & s2 & back & Hr & Hs2 & Hb2 & Hx).
  { rewrite Hout, app_nil_r. apply demo_rx_waiting. }
  assert (Hback : back = demo_response).
  { assert (Ht : ts1 = demo_served) by (unfold demo_served; by rewrite Hr).
    assert (Hc : tx_bytes sink_data (send_message 8 [9]%Z (demo_served, demo_tx.2)).2 = demo_response)
      by (vm_compute; reflexivity).
    rewrite Ht in Hs2. rewrite Hs2 in Hc. cbn [snd] in Hc. rewrite Hb2 in Hc. exact Hc. }
  destruct (Hx []) as (l' & tr' & Hex & _ & Hg & _); [by rewrite Hback, app_nil_r|].
  exists l'. split; [exact Hex|exact Hg].
Defined.
