(* ===== verification/Testing.v ===== *)
(** * The vocabulary of the crate's unit tests

    A test is a computation on the objects it creates; [unwrap] and the
    assertions panic when they fail, as in Rust, and a test passes when it
    returns.  The files that follow translate the [#[cfg(test)]] modules of the
    sources and run them on the model, with the concrete instances of
    [Doubles] for the libraries that the tests link. *)

From Stdlib Require Import Ascii String.
From S2P Require Import Prelude.

Definition Test (S : Type) : Type := M S () ().

(** The result of a call, for [matches!] and for assertions on [Result]s. *)
Definition tried {S E A} (m : M S E A) : M S () (outcome E A) := λ s,
  let '(r, s') := m s in (Ok r, s').

(** [unwrap], [expect] and their duals on a plain result. *)
Definition unwrap {S E A} (r : outcome E A) : M S () A :=
  match r with Ok a => ret a | Err _ | Panic => panic | Pending => pending end.
Definition unwrap_err {S E A} (r : outcome E A) : M S () E :=
  match r with Err e => ret e | Ok _ | Panic => panic | Pending => pending end.

(** The same on a call. *)
Definition unwrapping {S E A} (m : M S E A) : M S () A := let! r := tried m in unwrap r.
Definition unwrapping_err {S E A} (m : M S E A) : M S () E := let! r := tried m in unwrap_err r.

Definition assert {S} (b : bool) : Test S := if b then ret tt else panic.
Definition assert_eq {S A} `{EqDecision A} (x y : A) : Test S := assert (bool_decide (x = y)).
Definition assert_ne {S A} `{EqDecision A} (x y : A) : Test S := assert (negb (bool_decide (x = y))).

(** A test with two objects uses one at a time. *)
Definition on_fst {S T E A} (m : M S E A) : M (S * T) E A := zoom fst (λ a s, (a, s.2)) id m.
Definition on_snd {S T E A} (m : M T E A) : M (S * T) E A := zoom snd (λ b s, (s.1, b)) id m.

(** [for x in xs { body }]. *)
Fixpoint for_each {S A} (xs : list A) (body : A → Test S) : Test S :=
  match xs with
  | [] => ret tt
  | x :: xs' => do! body x in for_each xs' body
  end.

(** The test returns when it is started on the objects it creates. *)
Definition passes {S} (t : Test S) (s : S) : bool := is_ok (t s).1.

(** A byte-string literal [b"..."], and [str::repeat]. *)
Fixpoint str_bytes (s : string) : bytes :=
  match s with
  | EmptyString => []
  | String c s' => Z.of_nat (nat_of_ascii c) :: str_bytes s'
  end.
Fixpoint str_repeat (s : string) (n : nat) : string :=
  match n with
  | O => EmptyString
  | S n' => s +:+ str_repeat s n'
  end.

(** [str::contains]. *)
Definition contains (s sub : string) : bool :=
  match String.index 0 sub s with Some _ => true | None => false end.

(** [chars().all(|c| c.is_ascii_hexdigit())]. *)
Definition is_ascii_hexdigit (c : ascii) : bool := contains "0123456789abcdefABCDEF" (String c EmptyString).
Fixpoint all_chars (p : ascii → bool) (s : string) : bool :=
  match s with
  | EmptyString => true
  | String c s' => p c && all_chars p s'
  end.

(** [b[i] ^= 0xFF], and the same on the last byte. *)
Definition flip_first (b : bytes) : bytes :=
  match b with [] => [] | x :: b' => Z.lxor x 255 :: b' end.
Definition flip_last (b : bytes) : bytes := reverse (flip_first (reverse b)).

(** A list of tests, run as one computation. *)
Lemma all_pass {S} (ts : list (Test S)) (s : S) :
  forallb (λ t, passes t s) ts = true → Forall (λ t, passes t s = true) ts.
Proof.
  induction ts as [|t ts IH]; cbn; intros Hp; [done|]. apply andb_prop in Hp as [Ht Hts].
  constructor; [exact Ht|by apply IH].
Qed.
