(* ===== verification/TestsState.v ===== *)
(** * Unit tests of the packet state machines and of node ids
    (src/packet_state.rs and src/node_id.rs, [mod tests]) *)

From Stdlib Require Import String.
From S2P Require Import Prelude PacketState NodeId Testing.
#[local] Open Scope string_scope.
#[local] Open Scope Z_scope.

(** [u16::from_be_bytes([raw[0], raw[1]])], which panics on a short packet. *)
Definition header_of {S} (raw : bytes) : M S () Z :=
  match raw with b0 :: b1 :: _ => ret (u16_from_be_bytes b0 b1) | _ => panic end.

(** [(header >> KIND_SHIFT) as u8]. *)
Definition kind_of (header : Z) : Z := Z.land (Z.shiftr header KIND_SHIFT) 255.

(** ** PacketBuilder *)

Module BuilderTests.
Import PacketBuilder.

Definition prep (ty : Z) : Test t := unwrapping (prepare ty).
Definition packed (p : string) (last : bool) : M t () bytes := unwrapping (pack (str_bytes p) last).
(** [b.abort()] as a call that cannot fail. *)
Definition aborted : M t () (option bytes) := λ b, let '(r, b') := abort b in (Ok r, b').

Definition builder_single_packet_message : Test t :=
  do! prep 1 in
  let! raw := packed "hello" true in
  let! header := header_of raw in
  do! assert_eq (kind_of header) (kind_as_u8 Sole) in
  do! assert_eq (Z.land header TYPE_MASK) 1 in
  assert_eq (drop 2 raw) (str_bytes "hello").

Definition builder_multi_packet_message : Test t :=
  do! prep 2 in
  let! first := packed "part1" false in
  let! h0 := header_of first in
  do! assert_eq (kind_of h0) (kind_as_u8 First) in
  do! assert_eq (Z.land h0 TYPE_MASK) 2 in
  do! assert_eq (drop 2 first) (str_bytes "part1") in
  let! mid := packed "part2" false in
  let! h1 := header_of mid in
  do! assert_eq (kind_of h1) (kind_as_u8 Mid) in
  let! last := packed "part3" true in
  let! h2 := header_of last in
  do! assert_eq (kind_of h2) (kind_as_u8 Last) in
  assert_eq (drop 2 last) (str_bytes "part3").

Definition builder_msg_type_too_large_is_error : Test t :=
  let! r1 := tried (prepare 0x1000) in
  do! assert_eq r1 (Err (MessageTypeTooLarge 0x1000)) in
  let! r2 := tried (prepare 0xFFFF) in
  assert_eq r2 (Err (MessageTypeTooLarge 0xFFFF)).

Definition builder_max_msg_type_is_accepted : Test t :=
  do! prep 0x0FFF in
  let! raw := packed "x" true in
  let! header := header_of raw in
  assert_eq (Z.land header TYPE_MASK) 0x0FFF.

Definition builder_reuse_after_message_complete : Test t :=
  do! prep 1 in
  let! _ := packed "a" true in
  do! prep 2 in
  let! raw := packed "b" true in
  let! header := header_of raw in
  assert_eq (Z.land header TYPE_MASK) 2.

Definition builder_prepare_while_in_progress_is_error : Test t :=
  do! prep 1 in
  let! r := tried (prepare 2) in
  assert_eq r (Err MessageAlreadyInProgress).

Definition builder_pack_without_prepare_is_error : Test t :=
  let! r := tried (pack (str_bytes "data") true) in
  assert_eq r (Err NoMessageInProgress).

Definition builder_empty_payload_is_allowed : Test t :=
  do! prep 0 in
  let! raw := packed "" true in
  assert_eq (length raw) 2%nat.

Definition builder_abort_mid_message : Test t :=
  do! prep 5 in
  let! _ := packed "first" false in
  let! a := aborted in
  let! abort_pkt := or_panic a in
  let! header := header_of abort_pkt in
  do! assert_eq (kind_of header) (kind_as_u8 Abort) in
  do! assert_eq (Z.land header TYPE_MASK) 5 in
  do! assert_eq (length abort_pkt) 2%nat in
  do! prep 6 in
  let! raw := packed "new" true in
  let! h := header_of raw in
  assert_eq (kind_of h) (kind_as_u8 Sole).

Definition builder_abort_without_message_is_none : Test t :=
  let! a := aborted in
  assert_eq a None.

Definition builder_abort_after_sole_is_none : Test t :=
  do! prep 1 in
  let! _ := packed "done" true in
  let! a := aborted in
  assert_eq a None.

Definition all : list (Test t) :=
  [builder_single_packet_message; builder_multi_packet_message; builder_msg_type_too_large_is_error;
   builder_max_msg_type_is_accepted; builder_reuse_after_message_complete;
   builder_prepare_while_in_progress_is_error; builder_pack_without_prepare_is_error;
   builder_empty_payload_is_allowed; builder_abort_mid_message;
   builder_abort_without_message_is_none; builder_abort_after_sole_is_none].

End BuilderTests.

(** ** PacketReader *)

Definition make_raw (kind : PacketKind) (msg_type : Z) (payload : string) : bytes :=
  let header := Z.lor (as_u16 (Z.shiftl (kind_as_u8 kind) KIND_SHIFT)) (Z.land msg_type TYPE_MASK) in
  (u16_to_be_bytes header ++ str_bytes payload)%list.

Module ReaderTests.
Import PacketReader.

(** [r.read(&make_raw(kind, msg_type, payload)).unwrap()], and [unwrap_err()]. *)
Definition reads (k : PacketKind) (ty : Z) (p : string) : M t () PacketHeader :=
  unwrapping (read (make_raw k ty p)).
Definition rejects (k : PacketKind) (ty : Z) (p : string) (e : PacketReadError) : Test t :=
  let! err := unwrapping_err (read (make_raw k ty p)) in
  assert_eq err e.

Definition reader_sole_packet : Test t :=
  let! pkt := reads Sole 3 "data" in
  do! assert_eq (kind pkt) Sole in
  assert_eq (PacketState.msg_type pkt) 3.

Definition reader_multi_packet_message : Test t :=
  let! p1 := reads First 5 "a" in
  do! assert_eq (kind p1) First in
  let! r := get in
  do! assert (in_progress r) in
  let! p2 := reads Mid 5 "b" in
  do! assert_eq (kind p2) Mid in
  let! p3 := reads Last 5 "c" in
  do! assert_eq (kind p3) Last in
  let! r := get in
  assert (negb (in_progress r)).

Definition reader_abort_mid_message : Test t :=
  let! _ := reads First 7 "start" in
  let! pkt := reads Abort 7 "" in
  do! assert_eq (kind pkt) Abort in
  let! r := get in
  do! assert (negb (in_progress r)) in
  let! pkt2 := reads Sole 8 "fresh" in
  assert_eq (kind pkt2) Sole.

Definition reader_reuse_after_message_complete : Test t :=
  let! _ := reads Sole 1 "" in
  let! pkt := reads Sole 2 "" in
  assert_eq (PacketState.msg_type pkt) 2.

Definition reader_too_short_is_error : Test t :=
  let! r1 := tried (read [0]) in
  do! assert_eq r1 (Err PacketTooShort) in
  let! r2 := tried (read []) in
  assert_eq r2 (Err PacketTooShort).

Definition reader_unknown_kind_is_error : Test t :=
  let! r := tried (read [0x50; 0x01]) in
  assert_eq r (Err (UnknownKind 5)).

Definition reader_unexpected_message_start_is_error : Test t :=
  let! _ := reads First 1 "" in
  rejects First 2 "" (UnexpectedMessageStart 1 2).

Definition reader_sole_mid_message_is_error : Test t :=
  let! _ := reads First 1 "" in
  rejects Sole 1 "" (UnexpectedMessageStart 1 1).

Definition reader_missing_message_start_is_error : Test t :=
  rejects Mid 3 "" (MissingMessageStart 3).

Definition reader_last_without_start_is_error : Test t :=
  rejects Last 3 "" (MissingMessageStart 3).

Definition reader_abort_without_start_is_error : Test t :=
  rejects Abort 3 "" (MissingMessageStart 3).

Definition reader_message_type_change_is_error : Test t :=
  let! _ := reads First 4 "" in
  rejects Mid 5 "" (MessageTypeChange 4 5).

Definition reader_empty_payload_is_allowed : Test t :=
  let! pkt := reads Sole 0 "" in
  assert_eq (kind pkt) Sole.

Definition all : list (Test t) :=
  [reader_sole_packet; reader_multi_packet_message; reader_abort_mid_message;
   reader_reuse_after_message_complete; reader_too_short_is_error; reader_unknown_kind_is_error;
   reader_unexpected_message_start_is_error; reader_sole_mid_message_is_error;
   reader_missing_message_start_is_error; reader_last_without_start_is_error;
   reader_abort_without_start_is_error; reader_message_type_change_is_error;
   reader_empty_payload_is_allowed].

End ReaderTests.

(** ** Round trips *)

Module RoundTripTests.

Definition objects : Type := PacketBuilder.t * PacketReader.t.

Definition prep (ty : Z) : Test objects := on_fst (BuilderTests.prep ty).
Definition packed (p : string) (last : bool) : M objects () bytes :=
  on_fst (BuilderTests.packed p last).
Definition reads (raw : bytes) : M objects () PacketHeader :=
  on_snd (unwrapping (PacketReader.read raw)).

Definition roundtrip_single_packet : Test objects :=
  do! prep 10 in
  let! raw := packed "roundtrip" true in
  let! pkt := reads raw in
  do! assert_eq (kind pkt) Sole in
  do! assert_eq (msg_type pkt) 10 in
  assert_eq (drop 2 raw) (str_bytes "roundtrip").

Definition roundtrip_multi_packet : Test objects :=
  do! prep 7 in
  let! p1 := packed "foo" false in
  let! p2 := packed "bar" true in
  let! h1 := reads p1 in
  do! assert_eq (kind h1) First in
  do! assert_eq (drop 2 p1) (str_bytes "foo") in
  let! h2 := reads p2 in
  do! assert_eq (kind h2) Last in
  assert_eq (drop 2 p2) (str_bytes "bar").

Definition roundtrip_abort : Test objects :=
  do! prep 3 in
  let! _ := packed "start" false in
  let! a := on_fst BuilderTests.aborted in
  let! abort_raw := or_panic a in
  let! pkt := reads (make_raw First 3 "start") in
  do! assert_eq (kind pkt) First in
  let! abort_pkt := reads abort_raw in
  do! assert_eq (kind abort_pkt) Abort in
  assert_eq (msg_type abort_pkt) 3.

Definition all_kind_values_round_trip : Test objects :=
  for_each [Sole; First; Mid; Last; Abort] (λ k,
    let! k' := unwrap (from_u8 (kind_as_u8 k)) in
    assert_eq k' k).

Definition max_type_value_preserved : Test objects :=
  do! prep 0x0FFF in
  let! raw := packed "" true in
  let! pkt := reads raw in
  assert_eq (msg_type pkt) 0x0FFF.

Definition all : list (Test objects) :=
  [roundtrip_single_packet; roundtrip_multi_packet; roundtrip_abort; all_kind_values_round_trip;
   max_type_value_preserved].

End RoundTripTests.

(** ** NodeId *)

Module NodeIdTests.

Definition try_from_bytes_accepts_empty : Test () := assert (is_ok (try_from_bytes [])).

Definition try_from_bytes_accepts_max_length : Test () :=
  let bytes := replicate MAX_NODE_ID_LEN 0xAB in
  let! id := unwrap (try_from_bytes bytes) in
  assert_eq (node_id_as_bytes id) bytes.

Definition try_from_bytes_rejects_over_max : Test () :=
  let! err := unwrap_err (try_from_bytes (replicate (MAX_NODE_ID_LEN + 1) 0)) in
  match err with node_id_too_long n => assert_eq n (MAX_NODE_ID_LEN + 1)%nat end.

Definition as_bytes_returns_original : Test () :=
  let! id := unwrap (try_from_bytes [1; 2; 3; 4]) in
  assert_eq (node_id_as_bytes id) [1; 2; 3; 4].

Definition from_u64_is_big_endian : Test () :=
  assert_eq (node_id_as_bytes (node_id_from_u64 0x0102030405060708)) [1; 2; 3; 4; 5; 6; 7; 8].

Definition from_u32_is_big_endian : Test () :=
  assert_eq (node_id_as_bytes (node_id_from_u32 0x01020304)) [1; 2; 3; 4].

Definition equality_same_bytes : Test () :=
  assert_eq (node_id_from_u32 42) (node_id_from_u32 42).

Definition equality_different_bytes : Test () :=
  assert_ne (node_id_from_u32 1) (node_id_from_u32 2).

Definition u32_and_u64_with_same_numeric_value_differ : Test () :=
  assert_ne (node_id_from_u32 1) (node_id_from_u64 1).

Definition all : list (Test ()) :=
  [try_from_bytes_accepts_empty; try_from_bytes_accepts_max_length; try_from_bytes_rejects_over_max;
   as_bytes_returns_original; from_u64_is_big_endian; from_u32_is_big_endian; equality_same_bytes;
   equality_different_bytes; u32_and_u64_with_same_numeric_value_differ].

End NodeIdTests.

(** The crate's unit tests of the packet builder, the packet reader and
    node ids pass on the model. *)
Lemma state_tests_pass :
  Forall (λ t, passes t PacketBuilder.new = true) BuilderTests.all ∧
  Forall (λ t, passes t PacketReader.new = true) ReaderTests.all ∧
  Forall (λ t, passes t (PacketBuilder.new, PacketReader.new) = true) RoundTripTests.all ∧
  Forall (λ t, passes t tt = true) NodeIdTests.all.
Proof. split_and!; apply all_pass; vm_compute; reflexivity. Qed.
