(* ===== verification/TestsKeys.v ===== *)
(** * Unit tests of keys, signatures and auth headers
    (src/noise.rs, src/sign.rs and src/auth.rs, [mod tests])

    What [generate] draws from the random generator is an argument; tests
    that generate one keypair get one draw, tests that generate two get two
    different ones.  [serde_json] is the self-describing format of [Doubles]
    in its human-readable mode: the text of a string value is the string. *)

From Stdlib Require Import String.
From S2P Require Import Prelude Interfaces Doubles NodeId Noise Sign Auth Testing.
#[local] Open Scope string_scope.
#[local] Open Scope Z_scope.

#[local] Instance json : Serde Value := value_format true.

Definition draw1 : Z := 0x21.
Definition draw2 : Z := 0x22.

(** ** Transport keys *)

Module NoiseTests.

(** [TransportKeypair::generate()] on a draw of the random generator. *)
Definition generated (draw : Z) : outcome KeyGenError TransportKeypair :=
  tkp_generate (λ _, "error") (Ok (replicate 32 draw, replicate 32 draw)).

Definition generate_produces_distinct_keypairs : Test () :=
  let! a := unwrap (generated draw1) in
  let! b := unwrap (generated draw2) in
  assert_ne (tpk_0 (tkp_public a)) (tpk_0 (tkp_public b)).

Definition generate_produces_non_zero_keys : Test () :=
  let! kp := unwrap (generated draw1) in
  do! assert_ne (tpk_0 (tkp_public kp)) (replicate 32 0) in
  assert_ne (tsk_expose (tkp_private kp)) (replicate 32 0).

Definition public_key_from_array_round_trips_via_as_bytes : Test () :=
  let bytes := replicate 32 0x42 in
  assert_eq (tpk_as_bytes (tpk_from bytes)) bytes.

Definition public_key_display_is_lowercase_hex : Test () :=
  let s := tpk_display (tpk_from (replicate 32 0xAB)) in
  do! assert_eq (String.length s) 64%nat in
  assert_eq s (str_repeat "ab" 32).

Definition public_key_debug_includes_hex : Test () :=
  let debug := tpk_debug (tpk_from (replicate 32 0x01)) in
  do! assert (contains debug "TransportPublicKey(") in
  assert (contains debug "0101").

Definition public_key_try_from_str_round_trip : Test () :=
  let key := tpk_from (replicate 32 0x12) in
  let! restored := unwrap (tpk_try_from_str (tpk_display key)) in
  assert_eq restored key.

Definition public_key_try_from_str_rejects_bad_hex : Test () :=
  do! unwrap_err (tpk_try_from_str "not-hex") in ret tt.

Definition public_key_try_from_str_rejects_wrong_length : Test () :=
  do! unwrap_err (tpk_try_from_str (str_repeat "ab" 31)) in ret tt.

Definition public_key_json_round_trip : Test () :=
  let key := tpk_from (replicate 32 0x99) in
  let json := tpk_serialize key in
  let! hex_str := unwrap (de_string json) in
  do! assert_eq hex_str (str_repeat "99" 32) in
  let! restored := unwrap (tpk_deserialize json) in
  assert_eq restored key.

Definition private_key_expose_returns_original_bytes : Test () :=
  let bytes := replicate 32 0x77 in
  assert_eq (tsk_expose (tsk_from bytes)) bytes.

Definition private_key_expose_to_human_string_is_lowercase_hex : Test () :=
  assert_eq (tsk_expose_to_human_string (tsk_from (replicate 32 0xFF))) (str_repeat "ff" 32).

Definition private_key_debug_redacts_key_material : Test () :=
  let debug := tsk_debug (tsk_from (replicate 32 0x55)) in
  do! assert (contains debug "[redacted]") in
  assert (negb (contains debug "55")).

Definition private_key_try_from_str_round_trip : Test () :=
  let bytes := replicate 32 0xCC in
  let! restored := unwrap (tsk_try_from_str (tsk_expose_to_human_string (tsk_from bytes))) in
  assert_eq (tsk_expose restored) bytes.

Definition private_key_try_from_str_rejects_bad_hex : Test () :=
  do! unwrap_err (tsk_try_from_str "gg") in ret tt.

Definition private_key_try_from_str_rejects_wrong_length : Test () :=
  do! unwrap_err (tsk_try_from_str (str_repeat "aa" 31)) in ret tt.

Definition private_key_json_round_trip : Test () :=
  let bytes := replicate 32 0x11 in
  let! restored := unwrap (tsk_deserialize (tsk_serialize (tsk_from bytes))) in
  assert_eq (tsk_expose restored) bytes.

Definition all : list (Test ()) :=
  [generate_produces_distinct_keypairs; generate_produces_non_zero_keys;
   public_key_from_array_round_trips_via_as_bytes; public_key_display_is_lowercase_hex;
   public_key_debug_includes_hex; public_key_try_from_str_round_trip;
   public_key_try_from_str_rejects_bad_hex; public_key_try_from_str_rejects_wrong_length;
   public_key_json_round_trip; private_key_expose_returns_original_bytes;
   private_key_expose_to_human_string_is_lowercase_hex; private_key_debug_redacts_key_material;
   private_key_try_from_str_round_trip; private_key_try_from_str_rejects_bad_hex;
   private_key_try_from_str_rejects_wrong_length; private_key_json_round_trip].

End NoiseTests.

(** ** Signature keys *)

Module SignTests.

(** [SignatureKeypair::generate().expect(..)] on a draw. *)
Definition keypair (draw : Z) : M () () SignatureKeypair :=
  unwrap (skp_generate (key32 (replicate 32 draw))).

Definition generate_produces_distinct_keypairs : Test () :=
  let! a := keypair draw1 in
  let! b := keypair draw2 in
  assert_ne (svk_as_bytes (skp_public a)) (svk_as_bytes (skp_public b)).

Definition generated_public_key_matches_private : Test () :=
  let! kp := keypair draw1 in
  let derived := signing_key_from_bytes (ssk_expose (skp_private kp)) in
  assert_eq (verifying_key_as_bytes (verifying_key derived)) (svk_as_bytes (skp_public kp)).

Definition sign_verify_payload_round_trip : Test () :=
  let! kp := keypair draw1 in
  let payload := str_bytes "hello world" in
  let! recovered := unwrap (verify_payload (skp_public kp) (sign (skp_private kp) payload)) in
  assert_eq recovered payload.

Definition sign_length_is_payload_plus_signature : Test () :=
  let! kp := keypair draw1 in
  let payload := str_bytes "test" in
  assert_eq (length (sign (skp_private kp) payload)) (length payload + SIGNATURE_LEN)%nat.

Definition sign_empty_payload : Test () :=
  let! kp := keypair draw1 in
  let signed := sign (skp_private kp) [] in
  do! assert_eq (length signed) SIGNATURE_LEN in
  let! recovered := unwrap (verify_payload (skp_public kp) signed) in
  assert_eq recovered [].

Definition verify_payload_rejects_wrong_key : Test () :=
  let! signer := keypair draw1 in
  let! other := keypair draw2 in
  assert_eq (verify_payload (skp_public other) (sign (skp_private signer) (str_bytes "data")))
            (Err BadSignature).

Definition verify_payload_rejects_empty_input : Test () :=
  let! kp := keypair draw1 in
  assert_eq (verify_payload (skp_public kp) []) (Err MalformedRecord).

Definition verify_payload_rejects_input_shorter_than_signature : Test () :=
  let! kp := keypair draw1 in
  assert_eq (verify_payload (skp_public kp) (replicate (SIGNATURE_LEN - 1) 0)) (Err MalformedRecord).

Definition verify_payload_rejects_payload_bit_flip : Test () :=
  let! kp := keypair draw1 in
  let signed := flip_first (sign (skp_private kp) (str_bytes "flip")) in
  assert_eq (verify_payload (skp_public kp) signed) (Err BadSignature).

Definition verify_payload_rejects_signature_bit_flip : Test () :=
  let! kp := keypair draw1 in
  let signed := flip_last (sign (skp_private kp) (str_bytes "flipsig")) in
  assert_eq (verify_payload (skp_public kp) signed) (Err BadSignature).

Definition verification_key_json_round_trip : Test () :=
  let! kp := keypair draw1 in
  let json := svk_serialize (skp_public kp) in
  let! hex_str := unwrap (de_string json) in
  do! assert_eq (String.length hex_str) 64%nat in
  do! assert (all_chars is_ascii_hexdigit hex_str) in
  let! restored := unwrap (svk_deserialize json) in
  assert_eq (svk_0 (skp_public kp)) (svk_0 restored).

Definition verification_key_from_str_round_trip : Test () :=
  let! kp := keypair draw1 in
  let! restored := unwrap (svk_try_from_str (svk_display (skp_public kp))) in
  assert_eq (svk_0 (skp_public kp)) (svk_0 restored).

Definition verification_key_from_str_rejects_bad_hex : Test () :=
  do! unwrap_err (svk_try_from_str "not-hex") in ret tt.

Definition verification_key_from_str_rejects_wrong_length : Test () :=
  do! unwrap_err (svk_try_from_str (str_repeat "aa" 31)) in ret tt.

Definition signing_key_json_round_trip : Test () :=
  let! kp := keypair draw1 in
  let json := ssk_serialize (skp_private kp) in
  let! hex_str := unwrap (de_string json) in
  do! assert_eq (String.length hex_str) 64%nat in
  do! assert (all_chars is_ascii_hexdigit hex_str) in
  let! restored := unwrap (ssk_deserialize json) in
  do! unwrap (verify_payload (skp_public kp) (sign restored (str_bytes "test"))) in ret tt.

Definition signing_key_expose_to_human_string_round_trip : Test () :=
  let! kp := keypair draw1 in
  let hex := ssk_expose_to_human_string (skp_private kp) in
  do! assert_eq (String.length hex) 64%nat in
  let! restored := unwrap (ssk_try_from_str hex) in
  do! unwrap (verify_payload (skp_public kp) (sign restored (str_bytes "test"))) in ret tt.

Definition signing_key_debug_redacts_key_material : Test () :=
  let! kp := keypair draw1 in
  let debug := ssk_debug (skp_private kp) in
  do! assert (contains debug "[redacted]") in
  assert (negb (contains debug (ssk_expose_to_human_string (skp_private kp)))).

Definition all : list (Test ()) :=
  [generate_produces_distinct_keypairs; generated_public_key_matches_private;
   sign_verify_payload_round_trip; sign_length_is_payload_plus_signature; sign_empty_payload;
   verify_payload_rejects_wrong_key; verify_payload_rejects_empty_input;
   verify_payload_rejects_input_shorter_than_signature; verify_payload_rejects_payload_bit_flip;
   verify_payload_rejects_signature_bit_flip; verification_key_json_round_trip;
   verification_key_from_str_round_trip; verification_key_from_str_rejects_bad_hex;
   verification_key_from_str_rejects_wrong_length; signing_key_json_round_trip;
   signing_key_expose_to_human_string_round_trip; signing_key_debug_redacts_key_material].

End SignTests.

(** ** Auth headers *)

Module AuthTests.

Definition cluster_keypair (draw : Z) : M () () SignatureKeypair := SignTests.keypair draw.

Definition transport_public_key : TransportPublicKey := tpk_from (replicate 32 1).

Definition auth_header (id : Z) : AuthHeader :=
  auth_header_new (node_id_from_u32 id) None transport_public_key.

Definition auth_header_with_role (id : Z) (role : bytes) : AuthHeader :=
  auth_header_new (node_id_from_u32 id) (Some role) transport_public_key.

Definition signed (id : Z) : M () () (SignatureKeypair * SignedAuthHeader) :=
  let! kp := cluster_keypair draw1 in
  ret (kp, auth_header_sign (auth_header id) (skp_private kp)).

Definition wrong : TransportPublicKey := tpk_from (replicate 32 2).

Definition validate_public_key_accepts_matching_key : Test () :=
  assert (is_ok (validate_public_key (auth_header 1) transport_public_key)).

Definition validate_public_key_rejects_wrong_key : Test () :=
  let! err := unwrap_err (validate_public_key (auth_header 1) wrong) in
  assert (match err with PublicKeyMismatch _ _ => true | _ => false end).

Definition validate_public_key_mismatch_contains_both_keys : Test () :=
  let! err := unwrap_err (validate_public_key (auth_header 1) wrong) in
  match err with
  | PublicKeyMismatch expected actual =>
      do! assert_eq expected transport_public_key in
      assert_eq actual wrong
  | _ => panic
  end.

Definition node_id_returns_correct_value : Test () :=
  assert_eq (details_node_id (details_from (auth_header 7))) (node_id_from_u32 7).

Definition role_returns_correct_value_when_empty : Test () :=
  assert_eq (details_role (details_from (auth_header 7))) None.

Definition role_returns_correct_value_when_set : Test () :=
  assert_eq (details_role (details_from (auth_header_with_role 7 [9]))) (Some [9]).

Definition sign_and_verify_round_trip : Test () :=
  let! (kp, signed) := signed 1 in
  let! recovered := unwrap (verify signed (skp_public kp)) in
  do! assert (is_ok (validate_public_key recovered transport_public_key)) in
  assert_eq (details_node_id (details_from recovered)) (node_id_from_u32 1).

Definition verify_raw_round_trip : Test () :=
  let! (kp, signed) := signed 2 in
  let! recovered := unwrap (verify_raw (skp_public kp) (sah_expose signed)) in
  assert_eq (details_node_id (details_from recovered)) (node_id_from_u32 2).

Definition verify_rejects_wrong_cluster_key : Test () :=
  let! (_, signed) := signed 1 in
  let! other_kp := cluster_keypair draw2 in
  let! err := unwrap_err (verify signed (skp_public other_kp)) in
  assert_eq err (Signature BadSignature).

Definition verify_raw_rejects_empty_input : Test () :=
  let! (kp, _) := signed 1 in
  let! err := unwrap_err (verify_raw (skp_public kp) []) in
  assert_eq err (Signature MalformedRecord).

Definition verify_raw_rejects_payload_bit_flip : Test () :=
  let! (kp, signed) := signed 1 in
  let! err := unwrap_err (verify_raw (skp_public kp) (flip_first (sah_expose signed))) in
  assert_eq err (Signature BadSignature).

Definition verify_raw_rejects_signature_bit_flip : Test () :=
  let! (kp, signed) := signed 1 in
  let! err := unwrap_err (verify_raw (skp_public kp) (flip_last (sah_expose signed))) in
  assert_eq err (Signature BadSignature).

Definition expose_returns_non_empty_bytes : Test () :=
  let! (_, signed) := signed 1 in
  assert_ne (sah_expose signed) [].

Definition expose_bytes_are_stable_across_calls : Test () :=
  let! (_, signed) := signed 1 in
  assert_eq (sah_expose signed) (sah_expose signed).

Definition debug_redacts_credential_bytes : Test () :=
  let! (_, signed) := signed 1 in
  let debug := sah_debug signed in
  do! assert (contains debug "[redacted]") in
  assert (negb (contains debug (hex_encode (sah_expose signed)))).

Definition signed_auth_header_json_round_trip : Test () :=
  let! (kp, signed) := signed 1 in
  let original_bytes := sah_expose signed in
  let json := sah_serialize signed in
  let! hex_str := unwrap (de_string json) in
  do! assert (all_chars is_ascii_hexdigit hex_str) in
  let! restored := unwrap (sah_deserialize json) in
  do! assert_eq (sah_expose restored) original_bytes in
  do! unwrap (verify restored (skp_public kp)) in ret tt.

Definition try_from_str_round_trip : Test () :=
  let! (kp, signed) := signed 1 in
  let! restored := unwrap (sah_try_from_str (hex_encode (sah_expose signed))) in
  do! unwrap (verify restored (skp_public kp)) in ret tt.

Definition try_from_str_rejects_bad_hex : Test () :=
  let! err := unwrap_err (sah_try_from_str "not-valid-hex") in
  match err with malformed_auth_header => ret tt end.

Definition try_from_str_rejects_empty_string : Test () := assert (is_ok (sah_try_from_str "")).

Definition different_node_ids_produce_distinct_credentials : Test () :=
  let! kp := cluster_keypair draw1 in
  let key := transport_public_key in
  let signed_a := auth_header_sign (auth_header_new (node_id_from_u32 1) None key) (skp_private kp) in
  let signed_b := auth_header_sign (auth_header_new (node_id_from_u32 2) None key) (skp_private kp) in
  do! assert_ne (sah_expose signed_a) (sah_expose signed_b) in
  let! auth_a := unwrap (map_ok details_from (verify signed_a (skp_public kp))) in
  let! auth_b := unwrap (map_ok details_from (verify signed_b (skp_public kp))) in
  do! assert_eq (details_node_id auth_a) (node_id_from_u32 1) in
  assert_eq (details_node_id auth_b) (node_id_from_u32 2).

Definition check_node_id_rejects_wrong_peer : Test () :=
  let! (kp, signed_a) := signed 1 in
  let! details := unwrap (map_ok details_from (verify signed_a (skp_public kp))) in
  assert_eq (check_node_id details (node_id_from_u32 2))
            (Err (NodeIdMismatch (node_id_from_u32 2) (node_id_from_u32 1))).

Definition check_node_id_accepts_correct_peer : Test () :=
  let! (kp, signed_a) := signed 1 in
  let! details := unwrap (map_ok details_from (verify signed_a (skp_public kp))) in
  assert (is_ok (check_node_id details (node_id_from_u32 1))).

Definition all : list (Test ()) :=
  [validate_public_key_accepts_matching_key; validate_public_key_rejects_wrong_key;
   validate_public_key_mismatch_contains_both_keys; node_id_returns_correct_value;
   role_returns_correct_value_when_empty; role_returns_correct_value_when_set;
   sign_and_verify_round_trip; verify_raw_round_trip; verify_rejects_wrong_cluster_key;
   verify_raw_rejects_empty_input; verify_raw_rejects_payload_bit_flip;
   verify_raw_rejects_signature_bit_flip; expose_returns_non_empty_bytes;
   expose_bytes_are_stable_across_calls; debug_redacts_credential_bytes;
   signed_auth_header_json_round_trip; try_from_str_round_trip; try_from_str_rejects_bad_hex;
   try_from_str_rejects_empty_string; different_node_ids_produce_distinct_credentials;
   check_node_id_rejects_wrong_peer; check_node_id_accepts_correct_peer].

End AuthTests.

(** The crate's unit tests of transport keys, signatures and auth headers
    pass on the model. *)
Lemma key_tests_pass :
  Forall (λ t, passes t tt = true) (NoiseTests.all ++ SignTests.all ++ AuthTests.all).
Proof. apply all_pass. vm_compute. reflexivity. Qed.
