(* ===== verification/TestsWire.v ===== *)
(** * Unit tests of the packet and message transports
    (src/packets.rs and src/messages.rs, [mod tests])

    The tests connect two nodes by tokio's [duplex] and run both ends.  Here a
    world holds the two ends; what one end writes is at once in front of the
    other end's reader.  Tasks that the tests join run sender first. *)

From Stdlib Require Import String.
From S2P Require Import Prelude PacketState Interfaces Doubles NodeId Noise Sign Auth Packets Handshake Messages Testing TestsKeys.
Import HandshakeContext (stream).
#[local] Open Scope string_scope.
#[local] Open Scope Z_scope.

(** ** Two connected ends *)

(** Halves whose bytes can be carried from one end to the other. *)
Class Wired (TX RX : Type) : Type := {
  sent : TX → bytes;
  sent_clear : TX → TX;
  arrive : bytes → RX → RX;
}.

#[export] Instance packet_wired : Wired (PacketTx Sink) (PacketRx Pipe) := {|
  sent tx := sink_data (tx_write tx);
  sent_clear tx := set_write {| sink_data := [] |} tx;
  arrive b rx := set_frame ({| pipe_data := (pipe_data (rx_read rx) ++ b)%list;
                               pipe_step := pipe_step (rx_read rx) |}, ciphertext_buf rx) rx;
|}.

#[export] Instance message_wired : Wired (MessageTx Sink) (MessageRx Pipe) := {|
  sent tx := sent (tx_packets tx);
  sent_clear tx := {| tx_packets := sent_clear (tx_packets tx) |};
  arrive b rx := set_rx_packets (arrive b (rx_packets rx)) rx;
|}.

Record World (TX RX : Type) : Type := { server : Counter * (TX * RX); client : Counter * (TX * RX) }.
Arguments server {_ _} _.
Arguments client {_ _} _.

Section World.
Context {TX RX : Type} `{Wired TX RX}.

(** Calls on the four halves. *)
Definition on_client_tx {E A} (m : M (Counter * TX) E A) : M (World TX RX) E A := λ w,
  let '(r, (t, tx)) := m ((client w).1, (client w).2.1) in
  (r, {| server := ((server w).1, ((server w).2.1, arrive (sent tx) (server w).2.2));
         client := (t, (sent_clear tx, (client w).2.2)) |}).
Definition on_server_tx {E A} (m : M (Counter * TX) E A) : M (World TX RX) E A := λ w,
  let '(r, (t, tx)) := m ((server w).1, (server w).2.1) in
  (r, {| server := (t, (sent_clear tx, (server w).2.2));
         client := ((client w).1, ((client w).2.1, arrive (sent tx) (client w).2.2)) |}).
Definition on_client_rx {E A} (m : M (Counter * RX) E A) : M (World TX RX) E A := λ w,
  let '(r, (t, rx)) := m ((client w).1, (client w).2.2) in
  (r, {| server := server w; client := (t, ((client w).2.1, rx)) |}).
Definition on_server_rx {E A} (m : M (Counter * RX) E A) : M (World TX RX) E A := λ w,
  let '(r, (t, rx)) := m ((server w).1, (server w).2.2) in
  (r, {| server := (t, ((server w).2.1, rx)); client := client w |}).

End World.

(** ** The handshake harness *)

Record NodeFixture : Type := {
  nf_node_id : NodeId;
  nf_transport : TransportKeypair;
  nf_auth_header : SignedAuthHeader;
}.

(** [NodeFixture::new]; the transport key is drawn from the node's number. *)
Definition node_fixture_new (id : Z) (cluster_kp : SignatureKeypair (VK := Key32)) : M () () NodeFixture :=
  let! transport := unwrap (NoiseTests.generated (100 + id)) in
  let auth_header := auth_header_sign (auth_header_new (node_id_from_u64 id) None (tkp_public transport))
                                      (skp_private cluster_kp) in
  ret {| nf_node_id := node_id_from_u64 id; nf_transport := transport; nf_auth_header := auth_header |}.

(** What a party has written when it has read [inc], and waits for more. *)
Definition client_writes (key : TransportPrivateKey) (hdr : SignedAuthHeader)
    (vk : SignatureVerificationKey (VK := Key32)) (inc : bytes) : bytes :=
  match HandshakeContext.new_initiator (demo_stream inc) key with
  | Ok hs => dx_written (stream (connect_body hdr vk hs).2)
  | _ => []
  end.
Definition server_writes (key : TransportPrivateKey) (hdr : SignedAuthHeader)
    (vk : SignatureVerificationKey (VK := Key32)) (inc : bytes) : bytes :=
  match HandshakeContext.new_responder (demo_stream inc) key with
  | Ok hs => dx_written (stream (accept_body hdr vk hs).2)
  | _ => []
  end.

Abbreviation session := ((Counter * (PacketTx Sink * PacketRx Pipe)) * AuthDetails)%type.

(** [tokio::join!] of [accept] and [connect] on the two ends of a [duplex]:
    the bytes each party gets are those the other one writes, message by
    message of the pattern. *)
Definition join_handshake (skey : TransportPrivateKey) (shdr : SignedAuthHeader)
    (ckey : TransportPrivateKey) (chdr : SignedAuthHeader) (vk : SignatureVerificationKey (VK := Key32))
    : outcome ConnectionError session * outcome ConnectionError session :=
  let m1 := client_writes ckey chdr vk [] in
  let m2 := server_writes skey shdr vk m1 in
  let m13 := client_writes ckey chdr vk m2 in
  (accept 0 (demo_stream m13) skey shdr vk, connect 0 (demo_stream m2) ckey chdr vk).

(** The transport of a session, its handshake bytes delivered. *)
Definition settled (s : session) : Counter * (PacketTx Sink * PacketRx Pipe) :=
  (s.1.1, (set_write {| sink_data := [] |} s.1.2.1, s.1.2.2)).

Abbreviation PacketWorld := (World (PacketTx Sink) (PacketRx Pipe)).
Abbreviation MessageWorld := (World (MessageTx Sink) (MessageRx Pipe)).

(** The ends, and the peer's node id as the server has learned it. *)
Definition connect_pair (srv cl : NodeFixture) (vk : SignatureVerificationKey (VK := Key32))
    : M () () (PacketWorld * NodeId) :=
  let '(sr, cr) := join_handshake (tkp_private (nf_transport srv)) (nf_auth_header srv)
                                  (tkp_private (nf_transport cl)) (nf_auth_header cl) vk in
  let! s := unwrap sr in
  let! c := unwrap cr in
  ret ({| server := settled s; client := settled c |}, details_node_id s.2).

(** The preamble that the packet tests share. *)
Definition connected_fixtures : M () () (PacketWorld * NodeId) :=
  let! cluster_kp := SignTests.keypair draw1 in
  let! srv := node_fixture_new 1 cluster_kp in
  let! cl := node_fixture_new 2 cluster_kp in
  connect_pair srv cl (skp_public cluster_kp).

(** Run the rest of a test on a world. *)
Definition in_world {S} (w : S) (t : Test S) : Test () := lift (t w).1.

(** ** packets.rs *)

Module PacketsTests.

Definition handshake_completes : Test () := do! connected_fixtures in ret tt.

Definition accept_returns_correct_remote_node_id : Test () :=
  let! (_, remote_node_id) := connected_fixtures in
  assert_eq remote_node_id (node_id_from_u64 2).

Definition connect_rejects_auth_header_signed_with_wrong_key : Test () :=
  let! cluster_kp := SignTests.keypair draw1 in
  let! rogue_kp := SignTests.keypair draw2 in
  let! server_transport := unwrap (NoiseTests.generated 101) in
  let server_auth := auth_header_sign
    (auth_header_new (node_id_from_u32 1) None (tkp_public server_transport)) (skp_private rogue_kp) in
  let! cl := node_fixture_new 2 cluster_kp in
  let '(_, client_result) :=
    join_handshake (tkp_private server_transport) server_auth
                   (tkp_private (nf_transport cl)) (nf_auth_header cl) (skp_public cluster_kp) in
  let! err := unwrap_err client_result in
  assert (match err with BadAuthErr _ => true | _ => false end).

Definition connect_rejects_static_key_mismatch : Test () :=
  let! cluster_kp := SignTests.keypair draw1 in
  let! declared_transport := unwrap (NoiseTests.generated 101) in
  let server_auth := auth_header_sign
    (auth_header_new (node_id_from_u32 1) None (tkp_public declared_transport))
    (skp_private cluster_kp) in
  let! actual_transport := unwrap (NoiseTests.generated 103) in
  let! cl := node_fixture_new 2 cluster_kp in
  let '(_, client_result) :=
    join_handshake (tkp_private actual_transport) server_auth
                   (tkp_private (nf_transport cl)) (nf_auth_header cl) (skp_public cluster_kp) in
  let! err := unwrap_err client_result in
  assert (match err with BadAuthErr (PublicKeyMismatch _ _) => true | _ => false end).

(** [tx.prepare_message(ty).unwrap(); tx.send_slice(data, true).await.unwrap()]. *)
Definition send (ty : Z) (data : bytes) : M (Counter * PacketTx Sink) () () :=
  do! unwrapping (prepare_message ty) in
  unwrapping (send_slice data true).

(** [rx.read_packet().await.unwrap()] and [rx.payload()]. *)
Definition receive : M (Counter * PacketRx Pipe) () (PacketHeader * bytes) :=
  let! h := unwrapping read_packet in
  let! s := get in
  let! p := or_panic (payload s.2) in
  ret (h, p).

Definition roundtrip_small_payload : Test () :=
  let! (w, _) := connected_fixtures in
  in_world w (
    do! on_client_tx (send 1 (str_bytes "hello world")) in
    let! (header, p) := on_server_rx receive in
    do! assert_eq (kind header) Sole in
    do! assert_eq (msg_type header) 1 in
    assert_eq p (str_bytes "hello world")).

Definition roundtrip_empty_payload : Test () :=
  let! (w, _) := connected_fixtures in
  in_world w (
    do! on_client_tx (send 0 []) in
    let! (header, p) := on_server_rx receive in
    do! assert_eq (kind header) Sole in
    assert_eq p EMPTY_PAYLOAD).

(** The receiving loop of the large-payload test: at most [fuel] packets. *)
Fixpoint receive_chunks (fuel packet_count : nat) (received : bytes)
    : M (Counter * PacketRx Pipe) () (nat * bytes) :=
  match fuel with
  | O => pending
  | S f =>
      let! (header, p) := receive in
      do! (if decide (packet_count = 0%nat) then assert_eq (kind header) First
           else assert_ne (kind header) First) in
      let received := (received ++ p)%list in
      if decide (kind header = Last) then ret (S packet_count, received)
      else receive_chunks f (S packet_count) received
  end.

(** [(0u8..=255).cycle().take(n)]. *)
Definition cycle_bytes (n : nat) : bytes := take n (concat (replicate (n / 256 + 1) (seqZ 0 256))).

Definition roundtrip_large_payload_chunks_correctly : Test () :=
  let! (w, _) := connected_fixtures in
  let data := cycle_bytes (MAX_PACKET_SIZE * 3 + 100) in
  in_world w (
    do! on_client_tx (send 2 data) in
    let! (packet_count, received) := on_server_rx (receive_chunks 10 0 []) in
    do! assert_eq packet_count 4%nat in
    assert_eq received data).

Definition bidirectional_roundtrip : Test () :=
  let! (w, _) := connected_fixtures in
  in_world w (
    do! on_client_tx (send 1 (str_bytes "ping")) in
    let! (_, p) := on_server_rx receive in
    do! assert_eq p (str_bytes "ping") in
    do! on_server_tx (send 2 (str_bytes "pong")) in
    let! (_, p) := on_client_rx receive in
    assert_eq p (str_bytes "pong")).

Definition multiple_sequential_messages : Test () :=
  let! (w, _) := connected_fixtures in
  in_world w (
    for_each (seqZ 0 5) (λ i,
      let payload := replicate 64 i in
      do! on_client_tx (send i payload) in
      let! (header, p) := on_server_rx receive in
      do! assert_eq (msg_type header) i in
      assert_eq p payload)).

Definition all : list (Test ()) :=
  [handshake_completes; accept_returns_correct_remote_node_id;
   connect_rejects_auth_header_signed_with_wrong_key; connect_rejects_static_key_mismatch;
   roundtrip_small_payload; roundtrip_empty_payload; roundtrip_large_payload_chunks_correctly;
   bidirectional_roundtrip; multiple_sequential_messages].

End PacketsTests.

(** ** messages.rs *)

Module MessagesTests.

(** The tests' own message; its text as the bytes of the [String].  The tests
    encode it with serde_json; here as the number followed by the text. *)
Record Msg : Set := { msg_id : Z; msg_text : bytes }.

#[local] Instance Msg_eq_dec : EqDecision Msg.
Proof. solve_decision. Defined.

Definition encode (m : Msg) : bytes := (to_be_bytes 4 (msg_id m) ++ msg_text m)%list.
Definition decode (b : bytes) : Msg := {| msg_id := from_be_bytes (take 4 b); msg_text := drop 4 b |}.

(** [make_pair]. *)
Definition make_pair : M () () MessageWorld :=
  let! cluster_kp := SignTests.keypair draw1 in
  let! srv := node_fixture_new 1 cluster_kp in
  let! cl := node_fixture_new 2 cluster_kp in
  let! (w, _) := connect_pair srv cl (skp_public cluster_kp) in
  let wrap (e : Counter * (PacketTx Sink * PacketRx Pipe)) :=
    (e.1, (message_tx_new e.2.1, message_rx_new e.2.2)) in
  ret {| server := wrap (server w); client := wrap (client w) |}.

Definition in_pair (t : Test MessageWorld) : Test () :=
  let! w := make_pair in in_world w t.

(** [tx.send_message(ty, payload).await.unwrap()]. *)
Definition send (ty : Z) (p : bytes) : M (Counter * MessageTx Sink) () () :=
  unwrapping (send_message ty p).
(** [rx.read_message().await.unwrap()] and [msg.read_bytes().await.unwrap()]. *)
Definition read_message : M (Counter * MessageRx Pipe) () Message := unwrapping read_message_handle.
Definition bytes_of (m : Message) : M (Counter * MessageRx Pipe) () bytes := unwrapping (read_bytes 10 m).
Definition receive : M (Counter * MessageRx Pipe) () (Z * bytes) :=
  let! msg := read_message in
  let! b := bytes_of msg in
  ret (handle_msg_type msg, b).

Definition send_and_read_bytes_round_trip : Test () := in_pair (
  let sent := {| msg_id := 1; msg_text := str_bytes "hello" |} in
  do! on_client_tx (send 7 (encode sent)) in
  let! (ty, b) := on_server_rx receive in
  do! assert_eq ty 7 in
  assert_eq (decode b) sent).

Definition msg_type_is_twelve_bits : Test () := in_pair (
  do! on_client_tx (send 0x0FFF []) in
  let! msg := on_server_rx read_message in
  assert_eq (handle_msg_type msg) 0x0FFF).

Definition multiple_sequential_messages : Test () := in_pair (
  for_each (seqZ 0 5) (λ i,
    let sent := {| msg_id := i; msg_text := (str_bytes "msg-" ++ [48 + i])%list |} in
    do! on_client_tx (send i (encode sent)) in
    let! (ty, b) := on_server_rx receive in
    do! assert_eq ty i in
    assert_eq (decode b) sent)).

Definition bidirectional : Test () := in_pair (
  do! on_client_tx (send 1 (encode {| msg_id := 10; msg_text := str_bytes "ping" |})) in
  let! (_, ping) := on_server_rx receive in
  do! assert_eq (msg_id (decode ping)) 10 in
  do! on_server_tx (send 2 (encode {| msg_id := 20; msg_text := str_bytes "pong" |})) in
  let! (_, pong) := on_client_rx receive in
  assert_eq (msg_id (decode pong)) 20).

Definition large_message_round_trip : Test () := in_pair (
  let sent := {| msg_id := 99; msg_text := replicate (MAX_PACKET_SIZE * 3) 120 |} in
  do! on_client_tx (send 3 (encode sent)) in
  let! (_, b) := on_server_rx receive in
  assert_eq sent (decode b)).

Definition into_packets_concatenates_to_original_payload : Test () := in_pair (
  let payload := encode {| msg_id := 5; msg_text := str_bytes "chunks" |} in
  do! on_client_tx (send 4 payload) in
  let! msg := on_server_rx read_message in
  let! chunks := on_server_rx (λ s,
    let '(r, (_, s')) := unwrapping (drain 10) (into_packets msg, s) in (r, s')) in
  assert_eq (concat chunks) payload).

Definition send_reader_and_read_bytes : Test () := in_pair (
  let msg := {| msg_id := 42; msg_text := str_bytes "via reader" |} in
  let payload := encode msg in
  do! on_client_tx (unwrapping
        (message_send_reader 100 6 {| pipe_data := payload; pipe_step := length payload |})) in
  let! (_, b) := on_server_rx receive in
  assert_eq (decode b) msg).

(** The sending task of the two abort tests. *)
Definition abort_then_send (ty ty' : Z) (after : string) : M (Counter * MessageTx Sink) () () :=
  let large := replicate (MAX_PACKET_SIZE * 2) 0 in
  do! unwrapping (on_tx_packets (prepare_message ty)) in
  do! unwrapping (on_tx_packets (send_slice (take MAX_PACKET_SIZE large) false)) in
  do! unwrapping message_abort in
  send ty' (str_bytes after).

(** [pkts.next().await]. *)
Definition next_packet (pkts : MessagePackets)
    : M (Counter * MessageRx Pipe) ConnectionError (option bytes * MessagePackets) := λ s,
  let '(r, (pkts', s')) := next (pkts, s) in (map_ok (λ o, (o, pkts')) r, s').

Definition is_aborted (e : ConnectionError) : bool :=
  match e with MessageAborted => true | _ => false end.

Definition abort_mid_stream_returns_message_aborted : Test () := in_pair (
  do! on_client_tx (abort_then_send 9 10 "after abort") in
  on_server_rx (
    let! msg := read_message in
    do! assert_eq (handle_msg_type msg) 9 in
    let! (first, pkts) := unwrapping (next_packet (into_packets msg)) in
    let! _ := or_panic first in
    let! err := unwrapping_err (next_packet pkts) in
    do! assert (is_aborted err) in
    let! (ty, b) := receive in
    do! assert_eq ty 10 in
    assert_eq b (str_bytes "after abort"))).

Definition abort_read_bytes_returns_message_aborted : Test () := in_pair (
  do! on_client_tx (abort_then_send 11 12 "clean") in
  on_server_rx (
    let! msg := read_message in
    do! assert_eq (handle_msg_type msg) 11 in
    let! err := unwrapping_err (read_bytes 10 msg) in
    do! assert (is_aborted err) in
    let! (ty, b) := receive in
    do! assert_eq ty 12 in
    assert_eq b (str_bytes "clean"))).

Definition abort_no_op_when_not_in_progress : Test () := in_pair (
  do! on_client_tx (do! unwrapping message_abort in send 1 (str_bytes "hello")) in
  let! (ty, b) := on_server_rx receive in
  do! assert_eq ty 1 in
  assert_eq b (str_bytes "hello")).

Definition halves_work_in_separate_tasks : Test () := in_pair (
  do! on_client_tx (send 5 (encode {| msg_id := 1; msg_text := str_bytes "a" |})) in
  let! (ty, b) := on_server_rx receive in
  do! assert_eq ty 5 in
  do! assert_eq (msg_id (decode b)) 1 in
  do! on_server_tx (send 6 (encode {| msg_id := 2; msg_text := str_bytes "b" |})) in
  let! (_, pong) := on_client_rx receive in
  assert_eq (msg_id (decode pong)) 2).

Definition all : list (Test ()) :=
  [send_and_read_bytes_round_trip; msg_type_is_twelve_bits; multiple_sequential_messages;
   bidirectional; large_message_round_trip; into_packets_concatenates_to_original_payload;
   send_reader_and_read_bytes; abort_mid_stream_returns_message_aborted;
   abort_read_bytes_returns_message_aborted; abort_no_op_when_not_in_progress;
   halves_work_in_separate_tasks].

End MessagesTests.

(** The crate's unit tests of the packet and message transports pass on
    the model. *)
Lemma wire_tests_pass :
  Forall (λ t, passes t tt = true) (PacketsTests.all ++ MessagesTests.all).
Proof. apply all_pass. vm_compute. reflexivity. Qed.
