(* ===== verification/TestsPool.v ===== *)
(** * Unit tests of the connection pool (src/pool.rs, [mod tests])

    The tests' two connectors are instances of the [Connector] interface, the
    cell that each shares with its test being the state it dials on.  A test's
    [sleep] lets the background task of the link do all that is due. *)

From Stdlib Require Import String.
From stdpp Require Import gmap.
From S2P Require Import Prelude PacketState Interfaces Doubles NodeId Noise Sign Auth Packets Handshake Messages Lib Pool Connectors Testing TestsState TestsKeys TestsWire.
#[local] Open Scope string_scope.
#[local] Open Scope Z_scope.

Abbreviation Creds := (Credentials (VK := Key32)).
Abbreviation Link C := (PeerLink (C := C) (T := Counter) (R := Pipe) (W := Sink) (VK := Key32)).
Abbreviation PoolOf C := (ConnectionPool (C := C) (T := Counter) (R := Pipe) (W := Sink) (VK := Key32)).

Definition peer_credentials (cluster : SignatureKeypair (VK := Key32)) (id : Z) : M () () Creds :=
  let! keypair := unwrap (NoiseTests.generated (100 + id)) in
  let auth := auth_header_sign (auth_header_new (node_id_from_u32 id) None (tkp_public keypair))
                               (skp_private cluster) in
  ret {| private_key := tkp_private keypair; auth_header := auth;
         verification_key := skp_public cluster |}.

(** ** The tests' connectors *)

(** A connector backed by a single stream: the second [take().unwrap()] panics. *)
Inductive OneShotConnector : Set := one_shot.

#[local] Instance one_shot_connector : Connector OneShotConnector Duplex (option Duplex) := {|
  connector_connect _ cell := match cell with Some s => (Ok s, None) | None => (Panic, None) end;
|}.

(** A connector that counts calls and always fails. *)
Inductive FailConnector : Set := fail_connector.

#[local] Instance fail_connector_instance : Connector FailConnector Duplex nat := {|
  connector_connect _ count := (Err (Io (IoOther 0)), S count);
|}.

(** ** A pool, what its connector dials on, and the server *)

Record PoolWorld (C Net : Type) : Type := {
  pool : PoolOf C;
  cell : Net;
  peer_end : option (Counter * (MessageTx Sink * MessageRx Pipe));
}.
Arguments pool {_ _} _.
Arguments cell {_ _} _.
Arguments peer_end {_ _} _.

Section PoolWorld.
Context {C Net : Type} `{!Connector C Duplex Net}.

Abbreviation PW := (PoolWorld C Net).

Definition set_pool (p : PoolOf C) (w : PW) : PW :=
  {| pool := p; cell := cell w; peer_end := peer_end w |}.

(** [pool.peer(target, || make_connector)]. *)
Definition get_peer (tgt : NodeId) (mk : outcome () C) : M PW () Connection :=
  zoom pool set_pool id (peer tgt mk 0).

Definition put_link (i : nat) (l : Link C) (w : PW) : PW :=
  set_pool {| pool_creds := pool_creds (pool w); poisoned := poisoned (pool w);
              peers := peers (pool w); links := <[i := l]> (links (pool w)) |} w.

(** A call on the link of a connection; [None] is a call that waits. *)
Definition on_conn {A} (c : Connection) (f : Link C → option (A * Link C)) : M PW () A := λ w,
  match links (pool w) !! conn_link c with
  | Some l => match f l with
              | Some (a, l') => (Ok a, put_link (conn_link c) l' w)
              | None => (Pending, w)
              end
  | None => (Panic, w)
  end.

(** The first task of the link, as far as it gets until the instant [until]. *)
Fixpoint run_due (fuel : nat) (until : Z) (ln : Link C * Net) : Link C * Net :=
  let idle := (set_now until ln.1, ln.2) in
  match fuel with
  | O => idle
  | S f =>
      match tasks ln.1 with
      | Dialing _ :: _ =>
          match attempt 0 ln with Some ln' => run_due f until ln' | None => idle end
      | Sleeping wake_at _ :: _ =>
          if decide (wake_at ≤ until)
          then match task_wake 0 (set_now (Z.max (now ln.1) wake_at) ln.1) with
               | Some l' => run_due f until (l', ln.2)
               | None => idle
               end
          else idle
      | Installing _ :: _ =>
          match task_install 0 ln.1 with Some l' => run_due f until (l', ln.2) | None => idle end
      | [] => idle
      end
  end.

(** [tokio::time::sleep(Duration::from_millis(ms))], with one link in the pool. *)
Definition sleep (ms : Z) : M PW () () := λ w,
  match links (pool w) !! 0%nat with
  | Some l =>
      let '(l', net) := run_due 10 (now l + ms) (l, cell w) in
      (Ok tt, {| pool := pool (put_link 0 l' w); cell := net; peer_end := peer_end w |})
  | None => (Ok tt, w)
  end.

(** [conn.wait_connected(timeout).await], when it returns at its first check. *)
Definition wait_connected_now (timeout : Z) (l : Link C) : option (outcome NotReady () * Link C) :=
  let i := length (waiters l) in
  l1 ← wait_check i (wait_connected timeout l);
  match waiters l1 !! i with
  | Some (Returned r) => Some (r, l1)
  | _ => None
  end.

(** What the holder of a guard and the server do with their halves. *)
Definition with_guard {A} (c : Connection) (m : M MessageWorld () A) : M PW () A := λ w,
  match links (pool w) !! conn_link c, peer_end w with
  | Some l, Some srv =>
      match transport l with
      | Ok tr =>
          let '(r, mw) := m {| server := srv; client := tr |} in
          match use_transport (λ _, client mw) l with
          | Some l' => (r, {| pool := pool (put_link (conn_link c) l' w); cell := cell w;
                              peer_end := Some (server mw) |})
          | None => (Panic, w)
          end
      | _ => (Panic, w)
      end
  | _, _ => (Panic, w)
  end.

(** [guard.commit()] and [drop(guard)]. *)
Definition ending (f : Guard → Link C → option (Link C)) (c : Connection) (g : Guard) : M PW () () :=
  on_conn c (λ l, l' ← f g l; Some (tt, l')).

End PoolWorld.

Abbreviation OneShotWorld := (PoolWorld OneShotConnector (option Duplex)).

Definition target : NodeId := node_id_from_u32 2.

(** The bytes of the handshake are with the peer. *)
Definition settle_link (l : Link OneShotConnector) : option (() * Link OneShotConnector) :=
  match Pool.state l with
  | Connected (t, (tx, rx)) =>
      Some (tt, set_state (Connected (t, (sent_clear (RX := MessageRx Pipe) tx, rx))) l)
  | Reconnecting => Some (tt, l)
  end.

(** A pool connected to a server, whose ends share a [duplex]. *)
Definition make_pool_and_server : M () () OneShotWorld :=
  let! cluster := SignTests.keypair draw1 in
  let! client_creds := peer_credentials cluster 1 in
  let! server_creds := peer_credentials cluster 2 in
  let vk := skp_public cluster in
  let m1 := client_writes (private_key client_creds) (auth_header client_creds) vk [] in
  let m2 := server_writes (private_key server_creds) (auth_header server_creds) vk m1 in
  let m13 := client_writes (private_key client_creds) (auth_header client_creds) vk m2 in
  let server_result := Lib.accept 0 (demo_stream m13) (private_key server_creds)
                                  (auth_header server_creds) vk in
  let w0 := {| pool := pool_new client_creds; cell := Some (demo_stream m2); peer_end := None |} in
  let! w1 := lift (
    let '(r, w) := (let! c := get_peer target (Ok one_shot) in
                    do! sleep 50 in
                    on_conn c settle_link) w0 in
    map_ok (λ _, w) r) in
  let! (srv, _) := unwrap server_result in
  ret {| pool := pool w1; cell := cell w1;
         peer_end := Some (srv.1, (sent_clear (RX := MessageRx Pipe) srv.2.1, srv.2.2)) |}.

Definition in_pool (t : Test OneShotWorld) : Test () :=
  let! w := make_pool_and_server in in_world w t.

(** [|| unreachable!()]: the connector must not be made again. *)
Definition reuse {C} : outcome () C := Panic.

(** ** The tests *)

Definition wait_connected_does_not_reset_connection : Test () := in_pool (
  let! conn := get_peer target reuse in
  let! result := on_conn conn (wait_connected_now 100) in
  do! assert (is_ok result) in
  let! guard := on_conn conn acquire in
  assert (is_ok guard)).

Definition acquire_succeeds_after_handshake : Test () := in_pool (
  let! conn := get_peer target reuse in
  let! guard := on_conn conn acquire in
  assert (is_ok guard)).

Definition acquire_returns_not_ready_while_reconnecting : Test () :=
  let! cluster := SignTests.keypair draw1 in
  let! creds := peer_credentials cluster 1 in
  in_world {| pool := pool_new creds; cell := 0%nat; peer_end := None |} (
    let! _ := get_peer target (Ok fail_connector) in
    do! sleep 20 in
    let! conn := get_peer target reuse in
    let! guard := on_conn conn acquire in
    assert (negb (is_ok guard))).

Definition dirty_drop_resets_connection : Test () := in_pool (
  let! conn := get_peer target reuse in
  let! r := on_conn conn acquire in
  let! guard := unwrap r in
  do! ending guard_drop conn guard in
  do! sleep 10 in
  let! conn2 := get_peer target reuse in
  let! r := on_conn conn2 acquire in
  assert (negb (is_ok r))).

(** The halves' calls of one exchange, both sides. *)
Definition one_exchange : M MessageWorld () () :=
  do! on_client_tx (unwrapping (send_message 1 [42])) in
  do! on_server_rx (unwrapping read_message_handle) in
  do! on_server_tx (unwrapping (send_message 1 [99])) in
  do! on_client_rx (unwrapping read_message_handle) in
  ret tt.

Definition commit_keeps_connection_live : Test () := in_pool (
  let! conn := get_peer target reuse in
  do! for_each [0; 1] (λ _,
    let! r := on_conn conn acquire in
    let! guard := unwrap r in
    do! with_guard conn one_exchange in
    ending commit conn guard) in
  let! r := on_conn conn acquire in
  assert (is_ok r)).

Definition pool_tests : list (Test ()) :=
  [wait_connected_does_not_reset_connection; acquire_succeeds_after_handshake;
   acquire_returns_not_ready_while_reconnecting; dirty_drop_resets_connection;
   commit_keeps_connection_live].

(** The crate's unit tests of the connection pool pass on the model. *)
Lemma pool_tests_pass : Forall (λ t, passes t tt = true) pool_tests.
Proof. apply all_pass. vm_compute. reflexivity. Qed.
